(** * Hospital simulation (M/M/c queue): the script [DTA1.py] over the
    discrete-event engine it drives.

    [DTA1.py] is a top-level script: four generator functions ([patient],
    [Hospital.treat], [setup], [add_doctors]) scheduled by a simpy
    [Environment], one [simpy.Resource] per [Hospital] object, four global
    lists of statistics and a final report.  The generators are embedded as
    resumable state machines (one program point per [yield]); the engine
    operations they call ([Environment.schedule/step/run], [Timeout],
    [Process._resume], [Resource.request/release] with [_trigger_put],
    [_trigger_get], [_do_put], [_do_get]) are embedded as state-passing
    functions over one record holding the environment, the event objects, the
    hospitals, the global lists, the position in the stream of [random]
    draws and the lines printed.  simpy is a library that the script imports;
    its operations are written after the library's code, and the two branches
    in which the model does not unwind an exception as the library does are
    shown to be unreachable ([model_branches_are_dead]).

    Simulated time is a Python float in the script; it is modelled by a
    rational number, so rounding is not part of the model. *)

From Stdlib Require Import QArith ZArith Lia List Bool.
From stdpp Require Import base tactics option list sorting.
Import ListNotations.

(** ** Data *)

(** Exceptions that the modelled code can raise.  [ProcessedEventYielded]
    is not one of Python's: it marks the branch of [Process._resume] that the
    model does not follow (see [_resume]). *)
Inductive exn :=
| ValueError | ZeroDivisionError | IndexError | TypeError | AssertionError
| RuntimeError
| ProcessedEventYielded.

(** simpy's scheduling priorities. *)
Definition URGENT : nat := 0.
Definition NORMAL : nat := 1.

(** An item of [Environment._queue]: [(time, priority, eid, event)]. *)
Record entry := mkEntry {
  e_time : Q;
  e_prio : nat;
  e_eid : nat;
  e_event : nat;
}.

(** The bound methods that are appended to [Event.callbacks]. *)
Inductive callback :=
| Process_resume (p : nat)
| Resource_trigger_put (h : nat)
| Resource_trigger_get (h : nat)
| StopSimulation_callback.

(** The classes of event objects that occur. *)
Inductive kind :=
| Timeout
| Initialize
| Until
| Request (h : nat)
| Release (h : nat) (request : nat)
| Process (p : nat).

(** An event object.  [callbacks = None] is simpy's "processed";
    [triggered] is [_value is not PENDING]; [exc = Some e] is
    [_ok = False, _value = e]. *)
Record event := mkEvent {
  callbacks : option (list callback);
  triggered : bool;
  exc : option exn;
  defused : bool;
  ekind : kind;
}.

Global Instance event_inhabited : Inhabited event :=
  populate (mkEvent None false None false Timeout).

(** [simpy.Resource]. *)
Record Resource := mkResource {
  capacity : Z;
  users : list nat;
  put_queue : list nat;
  get_queue : list nat;
}.

(** [class Hospital]: [self.doctor], [self.treatment_time]. *)
Record Hospital := mkHospital {
  doctor : Resource;
  treatment_time : Q;
}.

Global Instance Hospital_inhabited : Inhabited Hospital :=
  populate (mkHospital (mkResource 0 [] [] []) 0).

(** Program points of the four generator functions. *)
Inductive patient_pc :=
| P_start
| P_request (request : nat)      (* suspended at [yield request] *)
| P_treat (request : nat)        (* suspended at [yield env.process(...)] *)
| P_returned
| P_raised.

Inductive treat_pc := T_start | T_timeout (treatment_duration : Q) | T_done.

Inductive setup_pc :=
| S_start
| S_timeout (hospital : nat) (i : nat) (inter_arrival_time : Q)
| S_done.

Inductive add_doctors_pc := A_start | A_timeout (remaining : nat) | A_done.

(** A generator object: the function, its arguments, its program point. *)
Inductive gen :=
| G_patient (name : nat) (hospital : nat) (pc : patient_pc)
| G_treat (hospital : nat) (patient : nat) (pc : treat_pc)
| G_setup (pc : setup_pc)
| G_add_doctors (hospital : nat) (num_doctors_to_add : nat) (pc : add_doctors_pc).

(** A [Process] object is an event with a generator; the generator is kept
    in a table of its own, next to the index of the process's event. *)
Record process_obj := mkProcess {
  _generator : gen;
  self_event : nat;
}.

(** Lines written by [print]. *)
Inductive line :=
| L_title
| L_arrives (name : nat) (t : Q)
| L_was_treated (name : nat) (treatment_duration : Q)
| L_leaves_treated (name : nat) (t : Q)
| L_leaves_untreated (name : nat) (t : Q)
| L_arrives_after (i : nat) (inter_arrival_time : Q)
| L_adding (num_doctors_to_add : nat) (t : Q).

(** The whole state the script works on. *)
Record state := mkState {
  now : Q;                               (* env._now *)
  queue : list entry;                    (* env._queue *)
  eid : nat;                             (* env._eid *)
  events : list event;                   (* event objects, by creation *)
  procs : list process_obj;              (* Process objects, by creation *)
  hospitals : list Hospital;             (* Hospital objects, by creation *)
  arrival_times : list Q;
  treated_times : list Q;
  left_without_treatment_times : list Q;
  wait_times : list Q;
  draws : nat;                           (* calls of random.random() so far *)
  stdout : list line;
}.

Definition set_now v s := mkState v (queue s) (eid s) (events s) (procs s) (hospitals s)
  (arrival_times s) (treated_times s) (left_without_treatment_times s) (wait_times s) (draws s) (stdout s).
Definition set_queue v s := mkState (now s) v (eid s) (events s) (procs s) (hospitals s)
  (arrival_times s) (treated_times s) (left_without_treatment_times s) (wait_times s) (draws s) (stdout s).
Definition set_eid v s := mkState (now s) (queue s) v (events s) (procs s) (hospitals s)
  (arrival_times s) (treated_times s) (left_without_treatment_times s) (wait_times s) (draws s) (stdout s).
Definition set_events v s := mkState (now s) (queue s) (eid s) v (procs s) (hospitals s)
  (arrival_times s) (treated_times s) (left_without_treatment_times s) (wait_times s) (draws s) (stdout s).
Definition set_procs v s := mkState (now s) (queue s) (eid s) (events s) v (hospitals s)
  (arrival_times s) (treated_times s) (left_without_treatment_times s) (wait_times s) (draws s) (stdout s).
Definition set_hospitals v s := mkState (now s) (queue s) (eid s) (events s) (procs s) v
  (arrival_times s) (treated_times s) (left_without_treatment_times s) (wait_times s) (draws s) (stdout s).
Definition set_arrival_times v s := mkState (now s) (queue s) (eid s) (events s) (procs s) (hospitals s)
  v (treated_times s) (left_without_treatment_times s) (wait_times s) (draws s) (stdout s).
Definition set_treated_times v s := mkState (now s) (queue s) (eid s) (events s) (procs s) (hospitals s)
  (arrival_times s) v (left_without_treatment_times s) (wait_times s) (draws s) (stdout s).
Definition set_left_without_treatment_times v s := mkState (now s) (queue s) (eid s) (events s) (procs s) (hospitals s)
  (arrival_times s) (treated_times s) v (wait_times s) (draws s) (stdout s).
Definition set_wait_times v s := mkState (now s) (queue s) (eid s) (events s) (procs s) (hospitals s)
  (arrival_times s) (treated_times s) (left_without_treatment_times s) v (draws s) (stdout s).
Definition set_draws v s := mkState (now s) (queue s) (eid s) (events s) (procs s) (hospitals s)
  (arrival_times s) (treated_times s) (left_without_treatment_times s) (wait_times s) v (stdout s).
Definition set_stdout v s := mkState (now s) (queue s) (eid s) (events s) (procs s) (hospitals s)
  (arrival_times s) (treated_times s) (left_without_treatment_times s) (wait_times s) (draws s) v.

(** ** The state monad the operations are written in *)

Definition M (A : Type) : Type := state -> A * state.

Definition ret {A} (a : A) : M A := fun s => (a, s).
Definition bind {A B} (m : M A) (k : A -> M B) : M B :=
  fun s => let (a, s') := m s in k a s'.
Definition get : M state := fun s => (s, s).
Definition modify (f : state -> state) : M unit := fun s => (tt, f s).

Notation "x <- m ;; k" := (bind m (fun x => k))
  (at level 100, m at next level, right associativity).
Notation "m ;; k" := (bind m (fun _ => k))
  (at level 100, right associativity).

(** A [for] loop over a list. *)
Fixpoint for_each {A} (l : list A) (body : A -> M unit) : M unit :=
  match l with
  | [] => ret tt
  | x :: l' => body x ;; for_each l' body
  end.

(** Comparison of floats. *)
Definition Qltb (a b : Q) : bool := negb (Qle_bool b a).

(** ** heapq on the event queue *)

(** Tuple comparison of queue items: time, then priority, then eid. *)
Definition entry_ltb (a b : entry) : bool :=
  match (e_time a ?= e_time b)%Q with
  | Lt => true
  | Gt => false
  | Eq => (e_prio a <? e_prio b)%nat
          || ((e_prio a =? e_prio b)%nat && (e_eid a <? e_eid b)%nat)
  end.

(** The least item of [m :: q]. *)
Fixpoint heap_min (m : entry) (q : list entry) : entry :=
  match q with
  | [] => m
  | x :: q' => heap_min (if entry_ltb x m then x else m) q'
  end.

Fixpoint heap_remove (m : nat) (q : list entry) : list entry :=
  match q with
  | [] => []
  | x :: q' => if (e_eid x =? m)%nat then q' else x :: heap_remove m q'
  end.

(** [heappop]: the least item and the heap without it; the layout of the
    heap array is abstracted to the list of its items. *)
Definition heappop (q : list entry) : option (entry * list entry) :=
  match q with
  | [] => None
  | x :: q' => let m := heap_min x q' in Some (m, heap_remove (e_eid m) q)
  end.

(** ** Event objects *)

Definition the_event (s : state) (ev : nat) : event := events s !!! ev.
Definition the_hospital (s : state) (h : nat) : Hospital := hospitals s !!! h.

Definition new_event (e : event) : M nat :=
  s <- get ;;
  modify (set_events (events s ++ [e])) ;;
  ret (length (events s)).

Definition update_event (ev : nat) (f : event -> event) : M unit :=
  modify (fun s => set_events (alter f ev (events s)) s).

Definition set_callbacks v (e : event) := mkEvent v (triggered e) (exc e) (defused e) (ekind e).
Definition set_outcome (x : option exn) (e : event) :=
  mkEvent (callbacks e) true x (defused e) (ekind e).
Definition set_defused (e : event) :=
  mkEvent (callbacks e) (triggered e) (exc e) true (ekind e).

(** [event.callbacks.append(cb)] *)
Definition callbacks_append (ev : nat) (cb : callback) : M unit :=
  update_event ev (fun e => set_callbacks ((fun l => l ++ [cb]) <$> callbacks e) e).

(** [Environment.schedule(event, priority, delay)] *)
Definition schedule (ev : nat) (priority : nat) (delay : Q) : M unit :=
  modify (fun s =>
    set_eid (S (eid s))
      (set_queue (queue s ++ [mkEntry (now s + delay) priority (eid s) ev]) s)).

(** [Event.succeed()].  On an event that is triggered already simpy raises
    [RuntimeError]; the model marks the event with it instead of unwinding.
    The callers below apply [succeed] to the head of a resource queue, which
    holds pending events only: the branch is never taken
    ([model_branches_are_dead]). *)
Definition succeed (ev : nat) : M unit :=
  s <- get ;;
  if triggered (the_event s ev) then update_event ev (set_outcome (Some RuntimeError))
  else
    update_event ev (set_outcome None) ;;
    schedule ev NORMAL 0.

(** [Timeout(env, delay)], reached through [env.timeout(delay)]. *)
Definition timeout (delay : Q) : M (exn + nat) :=
  if Qltb delay 0 then ret (inl ValueError)
  else
    ev <- new_event (mkEvent (Some []) true None false Timeout) ;;
    schedule ev NORMAL delay ;;
    ret (inr ev).

(** [Process(env, generator)], reached through [env.process(generator)]:
    the process event, then its [Initialize] event, scheduled as urgent. *)
Definition process (g : gen) : M nat :=
  s <- get ;;
  let p := length (procs s) in
  ev <- new_event (mkEvent (Some []) false None false (Process p)) ;;
  modify (fun s => set_procs (procs s ++ [mkProcess g ev]) s) ;;
  init <- new_event (mkEvent (Some [Process_resume p]) true None false Initialize) ;;
  schedule init URGENT 0 ;;
  ret ev.

(** ** simpy.Resource *)

Definition update_resource (h : nat) (f : Resource -> Resource) : M unit :=
  modify (fun s =>
    set_hospitals
      (alter (fun H => mkHospital (f (doctor H)) (treatment_time H)) h (hospitals s)) s).

Definition set_users v (r : Resource) := mkResource (capacity r) v (put_queue r) (get_queue r).
Definition set_put_queue v (r : Resource) := mkResource (capacity r) (users r) v (get_queue r).
Definition set_get_queue v (r : Resource) := mkResource (capacity r) (users r) (put_queue r) v.

(** [list.remove(x)]: the first occurrence, if any. *)
Fixpoint list_remove (x : nat) (l : list nat) : list nat :=
  match l with
  | [] => []
  | y :: l' => if (y =? x)%nat then l' else y :: list_remove x l'
  end.

(** [Resource._do_put(event)] *)
Definition _do_put (h : nat) (ev : nat) : M unit :=
  s <- get ;;
  let r := doctor (the_hospital s h) in
  if (Z.of_nat (length (users r)) <? capacity r)%Z then
    update_resource h (fun r => set_users (users r ++ [ev]) r) ;;
    succeed ev
  else ret tt.

(** [Resource._do_get(event)]: [event.request] leaves [users]. *)
Definition _do_get (h : nat) (ev : nat) : M unit :=
  s <- get ;;
  match ekind (the_event s ev) with
  | Release _ request =>
      update_resource h (fun r => set_users (list_remove request (users r)) r)
  | _ => ret tt
  end ;;
  succeed ev.

(** [BaseResource._trigger_put]: [Resource._do_put] returns [None], so the
    [while] loop leaves after its first round, at index 0. *)
Definition _trigger_put (h : nat) : M unit :=
  s <- get ;;
  match put_queue (doctor (the_hospital s h)) with
  | [] => ret tt
  | put_event :: _ =>
      _do_put h put_event ;;
      s <- get ;;
      if triggered (the_event s put_event)
      then update_resource h (fun r => set_put_queue (tail (put_queue r)) r)
      else ret tt
  end.

(** [BaseResource._trigger_get], in the same way. *)
Definition _trigger_get (h : nat) : M unit :=
  s <- get ;;
  match get_queue (doctor (the_hospital s h)) with
  | [] => ret tt
  | get_event :: _ =>
      _do_get h get_event ;;
      s <- get ;;
      if triggered (the_event s get_event)
      then update_resource h (fun r => set_get_queue (tail (get_queue r)) r)
      else ret tt
  end.

(** [resource.request()]: [Put.__init__]. *)
Definition request (h : nat) : M nat :=
  ev <- new_event (mkEvent (Some []) false None false (Request h)) ;;
  update_resource h (fun r => set_put_queue (put_queue r ++ [ev]) r) ;;
  callbacks_append ev (Resource_trigger_get h) ;;
  _trigger_put h ;;
  ret ev.

(** [resource.release(request)]: [Get.__init__]. *)
Definition release (h : nat) (req : nat) : M nat :=
  ev <- new_event (mkEvent (Some []) false None false (Release h req)) ;;
  update_resource h (fun r => set_get_queue (get_queue r ++ [ev]) r) ;;
  callbacks_append ev (Resource_trigger_put h) ;;
  _trigger_get h ;;
  ret ev.

(** [Request.__exit__] at the end of the [with] block: [cancel()], then
    [resource.release(self)]. *)
Definition Request_exit (h : nat) (req : nat) : M unit :=
  s <- get ;;
  (if triggered (the_event s req) then ret tt
   else update_resource h (fun r => set_put_queue (list_remove req (put_queue r)) r)) ;;
  release h req ;;
  ret tt.

(** [Hospital.__init__]; [simpy.Resource] refuses a capacity [<= 0]. *)
Definition Hospital_init (num_doctors : Z) (treatment_time : Q) : M (exn + nat) :=
  if (num_doctors <=? 0)%Z then ret (inl ValueError)
  else
    s <- get ;;
    modify (set_hospitals
              (hospitals s ++ [mkHospital (mkResource num_doctors [] [] []) treatment_time])) ;;
    ret (inr (length (hospitals s))).

(** ** Small pieces of Python *)

Definition print (l : line) : M unit :=
  modify (fun s => set_stdout (stdout s ++ [l]) s).

(** [1 / x] *)
Definition one_over (x : Q) : exn + Q :=
  if Qeq_bool x 0 then inl ZeroDivisionError else inr (1 / x)%Q.

(** What a generator does when it is resumed. *)
Inductive outcome :=
| Yield (ev : nat)
| StopIteration
| Raise (e : exn).

(** How a generator is resumed: [send(value)] or [throw(exc)]. *)
Inductive resumption := Send | Throw (e : exn).

(** The script's phases. *)
Inductive main_pc :=
| Run1 (hospital : nat)     (* inside [env.run(until=SIM_TIME)] *)
| Run2 (hospital : nat)     (* inside [env.run(until=200)] *)
| Finished (hospital : nat)
| Raised (e : exn).

Record program := mkProgram {
  pc : main_pc;
  env : state;
}.

(** What one [Environment.step()] ends with. *)
Inductive step_end :=
| Stepped
| StopSimulation
| Crashed (e : exn)
| EmptySchedule.

(** The report of lines 118-121. *)
Inductive pyfloat := Finite (q : Q) | Inf.

Section Script.

(** [U i] is the value of the [i]-th call of [random.random()] after
    [random.seed(RANDOM_SEED)]; [neg_log1m u] is [-log(1.0 - u)]. *)
Variable U : nat -> Q.
Variable neg_log1m : Q -> Q.

(** The constants at the head of the script. *)
Variable NUM_DOCTORS : Z.
Variables TREATMENT_TIME T_INTER SIM_TIME TREAT_PROBABILITY : Q.

(** [random.random()] *)
Definition random : M Q :=
  s <- get ;;
  modify (set_draws (S (draws s))) ;;
  ret (U (draws s)).

(** [random.expovariate(lambd)]: [-log(1.0 - random()) / lambd]. *)
Definition expovariate (lambd : Q) : M Q :=
  u <- random ;;
  ret (neg_log1m u / lambd)%Q.

(** [Hospital.treat(self, patient)] *)
Definition treat (h : nat) (name : nat) (pc : treat_pc) (r : resumption)
  : M (treat_pc * outcome) :=
  match r, pc with
  | Send, T_start =>
      s <- get ;;
      match one_over (treatment_time (the_hospital s h)) with
      | inl e => ret (T_done, Raise e)
      | inr lambd =>
          treatment_duration <- expovariate lambd ;;
          t <- timeout treatment_duration ;;
          match t with
          | inl e => ret (T_done, Raise e)
          | inr ev => ret (T_timeout treatment_duration, Yield ev)
          end
      end
  | Send, T_timeout treatment_duration =>
      print (L_was_treated name treatment_duration) ;;
      ret (T_done, StopIteration)
  | Send, T_done => ret (T_done, StopIteration)
  | Throw e, _ => ret (T_done, Raise e)
  end.

(** [patient(env, name, hospital)] *)
Definition patient (name : nat) (h : nat) (pc : patient_pc) (r : resumption)
  : M (patient_pc * outcome) :=
  match r, pc with
  | Send, P_start =>
      s <- get ;;
      print (L_arrives name (now s)) ;;
      modify (set_arrival_times (arrival_times s ++ [now s])) ;;
      req <- request h ;;
      ret (P_request req, Yield req)
  | Send, P_request req =>
      s <- get ;;
      match last (arrival_times s) with
      | None =>
          Request_exit h req ;;
          ret (P_raised, Raise IndexError)
      | Some last_arrival =>
          let wait_time := (now s - last_arrival)%Q in
          modify (set_wait_times (wait_times s ++ [wait_time])) ;;
          u <- random ;;
          if Qltb u TREAT_PROBABILITY then
            p <- process (G_treat h name T_start) ;;
            ret (P_treat req, Yield p)
          else
            print (L_leaves_untreated name (now s)) ;;
            modify (fun s' => set_left_without_treatment_times
                                (left_without_treatment_times s' ++ [now s]) s') ;;
            Request_exit h req ;;
            ret (P_returned, StopIteration)
      end
  | Send, P_treat req =>
      s <- get ;;
      print (L_leaves_treated name (now s)) ;;
      modify (set_treated_times (treated_times s ++ [now s])) ;;
      Request_exit h req ;;
      ret (P_returned, StopIteration)
  | Send, P_returned => ret (P_returned, StopIteration)
  | Send, P_raised => ret (P_raised, StopIteration)
  | Throw e, P_request req =>
      Request_exit h req ;;
      ret (P_raised, Raise e)
  | Throw e, P_treat req =>
      Request_exit h req ;;
      ret (P_raised, Raise e)
  | Throw e, P_start => ret (P_raised, Raise e)
  | Throw e, P_returned => ret (P_returned, Raise e)
  | Throw e, P_raised => ret (P_raised, Raise e)
  end.

(** The body of [while True] in [setup]. *)
Definition setup_loop (h : nat) (i : nat) : M (setup_pc * outcome) :=
  match one_over T_INTER with
  | inl e => ret (S_done, Raise e)
  | inr lambd =>
      inter_arrival_time <- expovariate lambd ;;
      t <- timeout inter_arrival_time ;;
      match t with
      | inl e => ret (S_done, Raise e)
      | inr ev => ret (S_timeout h i inter_arrival_time, Yield ev)
      end
  end.

(** [setup(env, num_doctors, treatment_time, t_inter)], called with the
    script's constants. *)
Definition setup (pc : setup_pc) (r : resumption) : M (setup_pc * outcome) :=
  match r, pc with
  | Send, S_start =>
      hosp <- Hospital_init NUM_DOCTORS TREATMENT_TIME ;;
      match hosp with
      | inl e => ret (S_done, Raise e)
      | inr h =>
          for_each [1; 2; 3; 4]%nat
            (fun i => process (G_patient i h P_start) ;; ret tt) ;;
          setup_loop h 5
      end
  | Send, S_timeout h i inter_arrival_time =>
      print (L_arrives_after i inter_arrival_time) ;;
      process (G_patient i h P_start) ;;
      setup_loop h (i + 1)
  | Send, S_done => ret (S_done, StopIteration)
  | Throw e, _ => ret (S_done, Raise e)
  end.

(** The [for] loop of [add_doctors]. *)
Definition add_doctors_loop (h : nat) (remaining : nat)
  : M (add_doctors_pc * outcome) :=
  match remaining with
  | O => ret (A_done, StopIteration)
  | S remaining' =>
      request h ;;
      t <- timeout 0 ;;
      match t with
      | inl e => ret (A_done, Raise e)
      | inr ev => ret (A_timeout remaining', Yield ev)
      end
  end.

(** [add_doctors(env, hospital, num_doctors_to_add)] *)
Definition add_doctors (h : nat) (num_doctors_to_add : nat)
    (pc : add_doctors_pc) (r : resumption) : M (add_doctors_pc * outcome) :=
  match r, pc with
  | Send, A_start =>
      s <- get ;;
      print (L_adding num_doctors_to_add (now s)) ;;
      add_doctors_loop h num_doctors_to_add
  | Send, A_timeout remaining => add_doctors_loop h remaining
  | Send, A_done => ret (A_done, StopIteration)
  | Throw e, _ => ret (A_done, Raise e)
  end.

(** [generator.send] / [generator.throw] on any of the four. *)
Definition resume_generator (g : gen) (r : resumption) : M (gen * outcome) :=
  match g with
  | G_patient name h pc =>
      res <- patient name h pc r ;; ret (G_patient name h (fst res), snd res)
  | G_treat h name pc =>
      res <- treat h name pc r ;; ret (G_treat h name (fst res), snd res)
  | G_setup pc =>
      res <- setup pc r ;; ret (G_setup (fst res), snd res)
  | G_add_doctors h n pc =>
      res <- add_doctors h n pc r ;; ret (G_add_doctors h n (fst res), snd res)
  end.

Definition set_generator (p : nat) (g : gen) : M unit :=
  modify (fun s => set_procs (alter (fun P => mkProcess g (self_event P)) p (procs s)) s).

(** The process ends: its event is triggered and scheduled. *)
Definition process_ends (self : nat) (x : option exn) : M unit :=
  update_event self (set_outcome x) ;;
  schedule self NORMAL 0.

(** [Process._resume(event)] of process [p].  Every generator of the script
    yields an event it has created in the same round, so the branch of the
    [while] loop that sends the value of an already processed event back at
    once is never taken ([model_branches_are_dead]); the model ends the
    process with [ProcessedEventYielded] there. *)
Definition _resume (p : nat) (ev : nat) : M unit :=
  s <- get ;;
  match procs s !! p with
  | None => ret tt
  | Some P =>
      r <- match exc (the_event s ev) with
           | None => ret Send
           | Some e => update_event ev set_defused ;; ret (Throw e)
           end ;;
      res <- resume_generator (_generator P) r ;;
      set_generator p (fst res) ;;
      match snd res with
      | StopIteration => process_ends (self_event P) None
      | Raise e => process_ends (self_event P) (Some e)
      | Yield target =>
          s' <- get ;;
          match callbacks (the_event s' target) with
          | Some _ => callbacks_append target (Process_resume p)
          | None => process_ends (self_event P) (Some ProcessedEventYielded)
          end
      end
  end.

(** Calling one callback; [true] when it raises [StopSimulation]. *)
Definition call (cb : callback) (ev : nat) : M bool :=
  match cb with
  | Process_resume p => _resume p ev ;; ret false
  | Resource_trigger_put h => _trigger_put h ;; ret false
  | Resource_trigger_get h => _trigger_get h ;; ret false
  | StopSimulation_callback => ret true
  end.

Fixpoint run_callbacks (cbs : list callback) (ev : nat) : M bool :=
  match cbs with
  | [] => ret false
  | cb :: cbs' =>
      stop <- call cb ev ;;
      if stop then ret true else run_callbacks cbs' ev
  end.

(** [Environment.step()] *)
Definition step : M step_end :=
  s <- get ;;
  match heappop (queue s) with
  | None => ret EmptySchedule
  | Some (item, q) =>
      modify (fun s => set_now (e_time item) (set_queue q s)) ;;
      let ev := e_event item in
      s <- get ;;
      let cbs := callbacks (the_event s ev) in
      update_event ev (set_callbacks None) ;;
      match cbs with
      | None => ret (Crashed TypeError)
      | Some cbs =>
          stop <- run_callbacks cbs ev ;;
          if stop then ret StopSimulation
          else
            s <- get ;;
            match exc (the_event s ev), defused (the_event s ev) with
            | Some e, false => ret (Crashed e)
            | _, _ => ret Stepped
            end
      end
  end.

(** The head of [Environment.run(until)]: the [until] event. *)
Definition run_prologue (until : Q) : M (exn + unit) :=
  s <- get ;;
  if Qle_bool until (now s) then ret (inl ValueError)
  else
    ev <- new_event (mkEvent (Some []) true None false Until) ;;
    schedule ev URGENT (until - now s) ;;
    callbacks_append ev StopSimulation_callback ;;
    ret (inr tt).

Definition initial_state : state :=
  mkState 0 [] 0 [] [] [] [] [] [] [] 0 [].

(** Lines 82-89, up to the loop of the first [env.run]. *)
Definition script_start : program :=
  let m : M main_pc :=
    print L_title ;;
    hosp <- Hospital_init NUM_DOCTORS TREATMENT_TIME ;;
    match hosp with
    | inl e => ret (Raised e)
    | inr hospital =>
        process (G_setup S_start) ;;
        r <- run_prologue SIM_TIME ;;
        match r with
        | inl e => ret (Raised e)
        | inr _ => ret (Run1 hospital)
        end
    end in
  let (pc, s) := m initial_state in mkProgram pc s.

(** Lines 91-92, after the first [env.run] has returned. *)
Definition between_runs (hospital : nat) : M main_pc :=
  process (G_add_doctors hospital 2 A_start) ;;
  r <- run_prologue 200 ;;
  match r with
  | inl e => ret (Raised e)
  | inr _ => ret (Run2 hospital)
  end.

(** One round of the [while True: self.step()] loop of the [env.run] the
    script is in. *)
Definition main_step (p : program) : program :=
  match pc p with
  | Run1 hospital =>
      let (r, s) := step (env p) in
      match r with
      | Stepped => mkProgram (Run1 hospital) s
      | StopSimulation =>
          let (pc', s') := between_runs hospital s in mkProgram pc' s'
      | Crashed e => mkProgram (Raised e) s
      | EmptySchedule => mkProgram (Raised AssertionError) s
      end
  | Run2 hospital =>
      let (r, s) := step (env p) in
      match r with
      | Stepped => mkProgram (Run2 hospital) s
      | StopSimulation => mkProgram (Finished hospital) s
      | Crashed e => mkProgram (Raised e) s
      | EmptySchedule => mkProgram (Raised AssertionError) s
      end
  | Finished _ | Raised _ => p
  end.

(** The script after [n] rounds. *)
Definition exec (n : nat) : program := Nat.iter n main_step script_start.

(** Lines 118-121. *)
Definition total_patients (s : state) : nat := length (arrival_times s).
Definition treated_count (s : state) : nat := length (treated_times s).
Definition left_without_treatment_count (s : state) : nat :=
  length (left_without_treatment_times s).

End Script.

(** [sum(wait_times) / len(wait_times) if wait_times else float('inf')];
    the division raises on a zero divisor. *)
Definition average_wait_time (wait_times : list Q) : exn + pyfloat :=
  match wait_times with
  | [] => inr Inf
  | _ =>
      let n := length wait_times in
      if (n =? 0)%nat then inl ZeroDivisionError
      else inr (Finite (fold_left Qplus wait_times 0 / inject_Z (Z.of_nat n))%Q)
  end.

(** ** Predicates used in the statements *)

(** Weakest precondition of a computation in [M]. *)
Definition wp {A} (m : M A) (Q : A -> state -> Prop) (s : state) : Prop :=
  Q (fst (m s)) (snd (m s)).

(** What the operations that only touch events, hospitals and the event queue
    leave alone: the clock, the lists of statistics, the position in the
    random stream and the process table; the queue only gains items that are
    due now or later. *)
Definition frame (s s' : state) : Prop :=
  now s' = now s /\
  arrival_times s' = arrival_times s /\
  treated_times s' = treated_times s /\
  left_without_treatment_times s' = left_without_treatment_times s /\
  wait_times s' = wait_times s /\
  draws s' = draws s /\
  procs s' = procs s /\
  exists added, queue s' = queue s ++ added /\
                Forall (fun e => (now s <= e_time e)%Q) added.

(** The clock reads [t]; nothing in the queue is due before [now]; every
    recorded arrival is in the past; every recorded wait is non-negative. *)
Definition clock_ok (t : Q) (s : state) : Prop :=
  now s = t /\
  Forall (fun e => (now s <= e_time e)%Q) (queue s) /\
  Forall (fun a => (a <= now s)%Q) (arrival_times s) /\
  Forall (fun w => (0 <= w)%Q) (wait_times s).

Definition keeps {A} (I : state -> Prop) (m : M A) : Prop :=
  forall s, I s -> wp m (fun _ s' => I s') s.

(** An invariant that holds around the operations also holds with the
    remark that process [p] has [self] for its event. *)
Definition with_process (Inv : state -> Prop) (p self : nat) (s : state) : Prop :=
  Inv s /\ (self_event <$> procs s) !! p = Some self.

Definition cap_ok (N : Z) (s : state) : Prop :=
  Forall (fun H => capacity (doctor H) = N /\
                   (Z.of_nat (length (users (doctor H))) <= capacity (doctor H))%Z)
         (hospitals s).

(** Request [r] on the resource of hospital [h] is waiting / has been
    granted a slot ([succeed] has been called on it). *)
Definition pending_request (s : state) (h r : nat) : Prop :=
  exists e, events s !! r = Some e /\ ekind e = Request h /\ triggered e = false.

Definition granted (s : state) (h r : nat) : Prop :=
  exists e, events s !! r = Some e /\ ekind e = Request h /\ triggered e = true.

Definition is_release (s : state) (g : nat) : Prop :=
  exists e h req, events s !! g = Some e /\ ekind e = Release h req.

Definition is_process_event (s : state) (ev : nat) : Prop :=
  exists e p, events s !! ev = Some e /\ ekind e = Process p.

(** The queues of the resource of hospital [h]: the put queue holds waiting
    requests of this resource, in the order of their creation, and every
    granted request of the resource was created before each of them. *)
Definition queue_ok (s : state) (h : nat) (R : Resource) : Prop :=
  (forall r, r ∈ put_queue R -> pending_request s h r) /\
  StronglySorted lt (put_queue R) /\
  (forall r q, granted s h r -> q ∈ put_queue R -> r < q) /\
  (forall g, g ∈ get_queue R -> is_release s g).

Definition fifo_ok (s : state) : Prop :=
  (forall h H, hospitals s !! h = Some H -> queue_ok s h (doctor H)) /\
  (forall ev, ev ∈ (self_event <$> procs s) -> is_process_event s ev).

(** The events of [s'] continue those of [s]: same classes, and the requests
    are triggered in [s'] exactly when they are in [s]. *)
Definition ev_stable (evs evs' : list event) : Prop :=
  (forall r e, evs !! r = Some e ->
     exists e', evs' !! r = Some e' /\ ekind e' = ekind e /\
                ((exists h, ekind e = Request h) -> triggered e' = triggered e)) /\
  (forall r e' h, evs' !! r = Some e' -> ekind e' = Request h -> triggered e' = true ->
     exists e, evs !! r = Some e /\ ekind e = Request h /\ triggered e = true).

(** How a hospital of [s'] relates to the hospitals of [s]: it is new, with
    empty queues, or its put queue has only lost members and its get queue
    has only gained release events. *)
Definition hospital_step (s s' : state) (h : nat) (H' : Hospital) : Prop :=
  (exists H, hospitals s !! h = Some H /\
             put_queue (doctor H') `sublist_of` put_queue (doctor H) /\
             forall g, g ∈ get_queue (doctor H') ->
                       g ∈ get_queue (doctor H) \/ is_release s' g) \/
  (put_queue (doctor H') = [] /\ get_queue (doctor H') = []).

(** A patient whose arrival is recorded and who has not raised; a patient
    who has raised; a patient who left the [with] block normally. *)
Definition started_pc (pc : patient_pc) : nat :=
  match pc with P_request _ | P_treat _ | P_returned => 1 | _ => 0 end.
Definition raised_pc (pc : patient_pc) : nat :=
  match pc with P_raised => 1 | _ => 0 end.
Definition resolved_pc (pc : patient_pc) : nat :=
  match pc with P_returned => 1 | _ => 0 end.

Definition gen_count (f : patient_pc -> nat) (g : gen) : nat :=
  match g with G_patient _ _ pc => f pc | _ => 0 end.

Definition patient_count (f : patient_pc -> nat) (P : process_obj) : nat :=
  gen_count f (_generator P).

Definition count_of (f : patient_pc -> nat) (s : state) : nat :=
  sum_list_with (patient_count f) (procs s).

(** Every patient process has run to the end of its body. *)
Definition patient_returned (g : gen) : bool :=
  match g with
  | G_patient _ _ P_returned => true
  | G_patient _ _ _ => false
  | _ => true
  end.

Definition all_returned (s : state) : bool :=
  forallb (fun P => patient_returned (_generator P)) (procs s).

Definition count_ok (s : state) : Prop :=
  count_of started_pc s <= length (arrival_times s) /\
  length (arrival_times s) <= count_of started_pc s + count_of raised_pc s /\
  length (treated_times s) + length (left_without_treatment_times s)
    = count_of resolved_pc s.

(** [count_ok], with process [p] counted as [a] started, [c] raised and
    [b] resolved patients instead of what its generator says. *)
Definition count_hole (p a c b : nat) (s : state) : Prop :=
  exists P, procs s !! p = Some P /\
    count_of started_pc s + a
      <= length (arrival_times s) + patient_count started_pc P /\
    length (arrival_times s) + patient_count started_pc P + patient_count raised_pc P
      <= count_of started_pc s + a + count_of raised_pc s + c /\
    length (treated_times s) + length (left_without_treatment_times s)
      + patient_count resolved_pc P
      = count_of resolved_pc s + b.

(** A generator that has not run yet counts for nothing. *)
Definition fresh (g : gen) : Prop :=
  match g with
  | G_patient _ _ P_start | G_treat _ _ _ | G_setup _ | G_add_doctors _ _ _ => True
  | _ => False
  end.

(** A generator that is not a treatment and not a patient under treatment. *)
Definition calm (g : gen) : Prop :=
  match g with
  | G_treat _ _ _ => False
  | G_patient _ _ (P_treat _) => False
  | _ => True
  end.

Definition quiet_ok (s : state) : Prop :=
  treated_times s = [] /\
  Forall (fun P => calm (_generator P)) (procs s) /\
  length (wait_times s) = length (left_without_treatment_times s).

(** [quiet_ok], with nothing said about process [p]. *)
Definition quiet_hole (p : nat) (s : state) : Prop :=
  treated_times s = [] /\
  (forall i P, procs s !! i = Some P -> i <> p -> calm (_generator P)) /\
  length (wait_times s) = length (left_without_treatment_times s).

(** Two streams of draws agree at the positions from [a] up to [b]. *)
Definition agree_on (U1 U2 : nat -> Q) (a b : nat) : Prop :=
  forall i, a <= i < b -> U1 i = U2 i.

(** [m1] and [m2] consume draws from the current position on, and do the
    same when the two streams agree on the draws that [m1] consumes. *)
Definition det {A} (U1 U2 : nat -> Q) (m1 m2 : M A) : Prop :=
  forall s,
    draws s <= draws (snd (m1 s)) /\
    (agree_on U1 U2 (draws s) (draws (snd (m1 s))) -> m2 s = m1 s).

(** [m] leaves the position in the stream of draws. *)
Definition draws_kept {A} (m : M A) : Prop :=
  forall s, draws (snd (m s)) = draws s.

(** Draws for the examples: the first call of [random.random()] returns
    0.1, the later ones 0.5; [-log(1 - 0.1)] and [-log(1 - 0.5)] are taken
    as 0.1 and 0.7. *)
Definition draws_example (i : nat) : Q := if (i =? 0)%nat then 1 # 10 else 1 # 2.
Definition neg_log1m_example (u : Q) : Q :=
  if Qeq_bool u (1 # 10) then 1 # 10 else 7 # 10.

(** [DTA1.py]: [NUM_DOCTORS = 2], [TREATMENT_TIME = 5], [T_INTER = 7],
    [SIM_TIME = 100], [TREAT_PROBABILITY = 0.8]. *)
Abbreviation DTA1_run n :=
  (exec draws_example neg_log1m_example 2 5 7 100 (8 # 10) n).

(** The same with draws of 0.9, above [TREAT_PROBABILITY]: every patient
    leaves without treatment. *)
Abbreviation DTA1_run_nobody_treated n :=
  (exec (fun _ => 9 # 10) neg_log1m_example 2 5 7 100 (8 # 10) n).

(** Draws that follow [draws_example] for seven calls and differ after. *)
Definition draws_example' (i : nat) : Q :=
  if (i <? 7)%nat then draws_example i else 0.

(** The hospital that [setup] creates, in round 9 of [DTA1_run]: patients 1
    and 2 hold the two slots, patients 3 and 4 wait. *)
Definition hospital_of_setup_round_9 : Hospital :=
  mkHospital (mkResource 2 [12; 13] [14; 15] []) 5.

(** Event [ev] has not been processed: its [callbacks] is a list. *)
Definition alive (evs : list event) (ev : nat) : Prop :=
  exists e cbs, evs !! ev = Some e /\ callbacks e = Some cbs.

(** The outcomes that only the model gives to an event, in the branches of
    [succeed] and of [_resume] where simpy raises. *)
Definition model_only (x : option exn) : bool :=
  match x with
  | Some RuntimeError | Some ProcessedEventYielded => true
  | _ => false
  end.

(** No event has an outcome of the model's own, and the events of [L] have
    not been processed. *)
Definition sound_events (L : list nat) (evs : list event) : Prop :=
  Forall (fun e => model_only (exc e) = false) evs /\
  forall ev, ev ∈ L -> alive evs ev.

Definition sound_alive (L : list nat) (s : state) : Prop :=
  sound_events L (events s).

(** Between two operations on a resource its get queue is empty: a release
    is carried out by the [_trigger_get] of its own creation. *)
Definition getq_ok (s : state) : Prop :=
  Forall (fun H => get_queue (doctor H) = []) (hospitals s).

Definition queues_ok (s : state) : Prop := fifo_ok s /\ getq_ok s.

Definition guard_ok (L : list nat) (s : state) : Prop :=
  queues_ok s /\ sound_alive L s.

(** What a generator hands back to [Process._resume]: an event that has not
    been processed, or an exception of the code. *)
Definition outcome_ok (out : outcome) (s : state) : Prop :=
  match out with
  | Yield target => sound_alive [target] s
  | Raise e => sound_alive [] s /\ model_only (Some e) = false
  | StopIteration => sound_alive [] s
  end.

Definition resumption_ok (r : resumption) : Prop :=
  match r with Send => True | Throw e => model_only (Some e) = false end.

(** ** The records of a run and the log *)

(** The times printed in the lines of the three kinds that go with a
    record. *)
Definition printed_arrivals (out : list line) : list Q :=
  omap (fun l => match l with L_arrives _ t => Some t | _ => None end) out.
Definition printed_treated (out : list line) : list Q :=
  omap (fun l => match l with L_leaves_treated _ t => Some t | _ => None end) out.
Definition printed_left (out : list line) : list Q :=
  omap (fun l => match l with L_leaves_untreated _ t => Some t | _ => None end) out.

(** The clock reads [t]; the three lists of times are in the order of the
    clock and not ahead of it; each holds the times of the lines printed
    with its appends. *)
Definition record_ok (t : Q) (s : state) : Prop :=
  clock_ok t s /\
  (Forall (fun a => (a <= now s)%Q) (treated_times s) /\
   Forall (fun a => (a <= now s)%Q) (left_without_treatment_times s)) /\
  (StronglySorted Qle (arrival_times s) /\
   StronglySorted Qle (treated_times s) /\
   StronglySorted Qle (left_without_treatment_times s)) /\
  (printed_arrivals (stdout s) = arrival_times s /\
   printed_treated (stdout s) = treated_times s /\
   printed_left (stdout s) = left_without_treatment_times s).

(** [m] prints nothing. *)
Definition silent {A} (m : M A) : Prop :=
  forall s, stdout (snd (m s)) = stdout s.

(** ** The report and the plot *)


(** [sorted(set(l))]: the distinct values of [l] in increasing order; of two
    equal values one is kept. *)
Fixpoint insert_time (t : Q) (l : list Q) : list Q :=
  match l with
  | [] => [t]
  | x :: l' =>
      match (t ?= x)%Q with
      | Lt => t :: l
      | Eq => l
      | Gt => x :: insert_time t l'
      end
  end.

Definition sorted_set (l : list Q) : list Q := fold_right insert_time [] l.

(** Line 95. *)
Definition time_points (arrival_times treated_times
    left_without_treatment_times : list Q) : list Q :=
  sorted_set (arrival_times ++ treated_times ++ left_without_treatment_times).

(** [sum(1 for t in times if t <= time)] *)
Definition count_le (times : list Q) (time : Q) : nat :=
  length (List.filter (fun t => Qle_bool t time) times).

(** Lines 96-98: [[sum(1 for t in times if t <= time) for time in
    time_points]]. *)
Definition cumulative (times time_points : list Q) : list nat :=
  map (count_le times) time_points.

(** [dta.py], line 98: [list(range(0, 301, 10))]. *)
Definition time_bins : list Z := map (fun k => 10 * Z.of_nat k)%Z (seq 0 31).

(** [sum(1 for t in times if t < tb)] *)
Definition count_lt (times : list Q) (tb : Z) : nat :=
  length (List.filter (fun t => Qltb t (inject_Z tb)) times).

(** [dta.py], lines 99-101:
    [[0] + [sum(1 for t in times if t < tb) for tb in time_bins[1:]]]. *)
Definition bin_counts (times : list Q) : list nat :=
  [0] ++ map (count_lt times) (tail time_bins).

(** ** The [until] event of [Environment.run] *)

(** The first callback of the event is [StopSimulation.callback]; no
    callback of the event is. *)
Definition stops (e : event) : Prop :=
  exists rest, callbacks e = Some (StopSimulation_callback :: rest).

Definition no_stop (e : event) : Prop :=
  forall cbs, callbacks e = Some cbs -> StopSimulation_callback ∉ cbs.

(** The operations schedule an event that is new or pending, or one that is
    not an [until] event. *)
Definition may_schedule (evs : list event) (ev : nat) : Prop :=
  forall e, evs !! ev = Some e -> triggered e = false \/ ekind e <> Until.

(** How the operations other than [Environment.step] and [Environment.run]
    change the event objects: classes stay, no event goes back to pending,
    no callback [StopSimulation.callback] is added or dropped. *)
Definition events_ext (evs evs' : list event) : Prop :=
  (forall ev e, evs !! ev = Some e ->
     exists e', evs' !! ev = Some e' /\ ekind e' = ekind e /\
       (triggered e = true -> triggered e' = true) /\
       (stops e -> stops e') /\ (no_stop e -> no_stop e')) /\
  (forall ev e', evs' !! ev = Some e' -> evs !! ev = None -> no_stop e').

(** ... and the environment: the clock stays, the queue gains items with
    new [eid]s, for events that exist. *)
Definition ext (s s' : state) : Prop :=
  now s' = now s /\ eid s <= eid s' /\
  (exists added, queue s' = queue s ++ added /\
     NoDup (e_eid <$> added) /\
     Forall (fun y => eid s <= e_eid y < eid s' /\
                      e_event y < length (events s') /\
                      may_schedule (events s) (e_event y)) added) /\
  events_ext (events s) (events s').

(** The items of the queue have distinct [eid]s, below the counter, and
    their events exist. *)
Definition eids_ok (s : state) : Prop :=
  NoDup (e_eid <$> queue s) /\
  Forall (fun y => e_eid y < eid s /\ e_event y < length (events s)) (queue s).

(** Inside [env.run(until=T)]: the clock has not passed [T]; the [until]
    event is in the queue, once, due at [T], and it is the one event with
    the callback [StopSimulation.callback]. *)
Definition horizon (T : Q) (s : state) : Prop :=
  eids_ok s /\ (now s <= T)%Q /\
  exists x e, x ∈ queue s /\ (e_time x == T)%Q /\
    events s !! e_event x = Some e /\
    stops e /\ triggered e = true /\ ekind e = Until /\
    (forall ev e', events s !! ev = Some e' -> ev <> e_event x -> no_stop e') /\
    (forall y, y ∈ queue s -> e_event y = e_event x -> y = x).

Definition running (T : Q) (s : state) : Prop := fifo_ok s /\ horizon T s.

(** Outside [env.run]: no event has the callback. *)
Definition idle (s : state) : Prop :=
  fifo_ok s /\ eids_ok s /\ forall ev e, events s !! ev = Some e -> no_stop e.

(** Where the script is, and what holds there. *)
Definition phase_ok (SIM_TIME : Q) (p : program) : Prop :=
  match pc p with
  | Run1 _ => running SIM_TIME (env p)
  | Run2 _ =>
      running 200 (env p) /\ (SIM_TIME < 200)%Q /\ (SIM_TIME <= now (env p))%Q
  | Finished _ => (now (env p) == 200)%Q /\ (SIM_TIME < 200)%Q
  | Raised _ => True
  end.

(** ** Who is in [wait_times] *)

(** A patient suspended at [yield request]; at [yield env.process(...)]. *)
Definition requesting_pc (pc : patient_pc) : nat :=
  match pc with P_request _ => 1 | _ => 0 end.
Definition treating_pc (pc : patient_pc) : nat :=
  match pc with P_treat _ => 1 | _ => 0 end.

(** A wait is recorded for every patient under treatment and every patient
    who has left, treated or not; every patient who still waits for a doctor
    has an arrival and no wait recorded. *)
Definition served_ok (s : state) : Prop :=
  count_of treating_pc s + length (treated_times s)
    + length (left_without_treatment_times s) <= length (wait_times s) /\
  length (wait_times s) + count_of requesting_pc s <= length (arrival_times s).

(** [served_ok], with process [p] counted as [a] patients under treatment
    and [b] patients waiting for a doctor instead of what its generator
    says. *)
Definition served_hole (p a b : nat) (s : state) : Prop :=
  exists P, procs s !! p = Some P /\
    count_of treating_pc s + a + length (treated_times s)
      + length (left_without_treatment_times s)
      <= length (wait_times s) + patient_count treating_pc P /\
    length (wait_times s) + count_of requesting_pc s + b
      <= length (arrival_times s) + patient_count requesting_pc P.

(** ** Which hospital a process works with *)

(** [self.treatment_time] of the hospitals, by creation. *)
Definition treatment_times (s : state) : list Q :=
  treatment_time <$> hospitals s.

(** Process [i] of [n] hospitals: [setup] is process 0 and creates hospital
    1; the patients and their treatments work with hospital 1;
    [add_doctors] works with hospital 0, the module-level one. *)
Definition place_ok (i : nat) (g : gen) (n : nat) : Prop :=
  match g with
  | G_patient _ h _ | G_treat h _ _ => h = 1 /\ n = 2
  | G_setup S_start => i = 0 /\ n = 1
  | G_setup (S_timeout h _ _) => i = 0 /\ h = 1 /\ n = 2
  | G_setup S_done => i = 0
  | G_add_doctors h _ _ => h = 0
  end.

Definition hospitals_ok (TT : Q) (s : state) : Prop :=
  1 <= length (treatment_times s) <= 2 /\
  Forall (fun t => t = TT) (treatment_times s).

Definition places_ok (TT : Q) (s : state) : Prop :=
  hospitals_ok TT s /\
  forall i P, procs s !! i = Some P ->
    place_ok i (_generator P) (length (treatment_times s)).

(** [places_ok], with [g] for the generator of process [p]. *)
Definition places_hole (TT : Q) (p : nat) (g : gen) (s : state) : Prop :=
  hospitals_ok TT s /\ p < length (procs s) /\
  place_ok p g (length (treatment_times s)) /\
  forall i P, procs s !! i = Some P -> i <> p ->
    place_ok i (_generator P) (length (treatment_times s)).

(** What the operations on events and resources leave alone. *)
Definition place_frame (s s' : state) : Prop :=
  procs s' = procs s /\ treatment_times s' = treatment_times s.

(** The hospital that the script passes to [add_doctors]. *)
Definition hospital_of (c : main_pc) : option nat :=
  match c with
  | Run1 h | Run2 h | Finished h => Some h
  | Raised _ => None
  end.

(** The hospital a generator works with, once it has one. *)
Definition hospital_used (g : gen) : option nat :=
  match g with
  | G_patient _ h _ | G_treat h _ _ | G_add_doctors h _ _ => Some h
  | G_setup (S_timeout h _ _) => Some h
  | G_setup _ => None
  end.

(** Hospital 1, of [setup], for the patients, their treatments and [setup];
    hospital 0, of the module, for [add_doctors]. *)
Definition hospital_expected (g : gen) : nat :=
  match g with
  | G_add_doctors _ _ _ => 0
  | _ => 1
  end.

(** The script has stopped at line 87, with its title printed and nothing
    else done; or it has the module's hospital in hand, in a state with
    [Inv]. *)
Definition program_inv (Inv : state -> Prop) (p : program) : Prop :=
  (pc p = Raised ValueError /\ env p = set_stdout [L_title] initial_state) \/
  (Inv (env p) /\ forall h, hospital_of (pc p) = Some h -> h = 0).

(** ** Who holds the doctors *)

(** The requests of a resource: the granted ones, then the waiting ones. *)
Definition slots (R : Resource) : list nat := users R ++ put_queue R.

(** The request of the [with] block that a patient is in. *)
Definition request_held (g : gen) : option nat :=
  match g with
  | G_patient _ _ (P_request req) | G_patient _ _ (P_treat req) => Some req
  | _ => None
  end.

Definition held_by (s : state) (r : nat) : Prop :=
  exists i P, procs s !! i = Some P /\ request_held (_generator P) = Some r.

(** No request is twice in a resource, and each one is an event. *)
Definition slots_ok (s : state) : Prop :=
  forall h H, hospitals s !! h = Some H ->
    NoDup (slots (doctor H)) /\
    forall r, r ∈ slots (doctor H) -> r < length (events s).

(** Every request of the resource of hospital 1 is the request of a patient
    who is inside the [with] block. *)
Definition held_ok (s : state) : Prop :=
  slots_ok s /\
  forall H r, hospitals s !! 1 = Some H -> r ∈ slots (doctor H) -> held_by s r.

(** [held_ok], with [g] for the generator of process [p]. *)
Definition held_hole (p : nat) (g : gen) (s : state) : Prop :=
  slots_ok s /\
  forall H r, hospitals s !! 1 = Some H -> r ∈ slots (doctor H) ->
    request_held g = Some r \/
    exists i P, i <> p /\ procs s !! i = Some P /\
                request_held (_generator P) = Some r.

(** From [s] to [s'] the resource of hospital [h] has gained the requests
    [extra h] at most. *)
Definition slot_grow (extra : nat -> list nat) (s s' : state) : Prop :=
  procs s' = procs s /\ length (events s) <= length (events s') /\
  forall h H', hospitals s' !! h = Some H' ->
    exists H, hospitals s !! h = Some H /\
              slots (doctor H') ⊆+ slots (doctor H) ++ extra h.

Definition no_extra : nat -> list nat := fun _ => [].

Definition extra_at (h r : nat) : nat -> list nat :=
  fun k => if decide (k = h) then [r] else [].

Definition wards_ok (TT : Q) (s : state) : Prop :=
  queues_ok s /\ places_ok TT s /\ held_ok s.

Definition wards_hole (TT : Q) (p : nat) (g : gen) (s : state) : Prop :=
  queues_ok s /\ places_hole TT p g s /\ held_hole p g s.

(** ** The event loop *)

(** The queue of [i] event ids used so far: no id and no event is twice in
    it; its events are triggered and not processed; an event that is not
    triggered is not processed either. *)
Definition sched (i : nat) (q : list entry) (evs : list event) : Prop :=
  NoDup (e_eid <$> q) /\
  NoDup (e_event <$> q) /\
  (forall y, y ∈ q -> e_eid y < i /\
     exists e l, evs !! e_event y = Some e /\ triggered e = true /\
                 callbacks e = Some l) /\
  (forall ev e, evs !! ev = Some e -> triggered e = false ->
     exists l, callbacks e = Some l).

Definition sched_ok (s : state) : Prop := sched (eid s) (queue s) (events s).

(** The resumptions of process [p] that are to come: in the callbacks of
    the events, and in [pend], the callbacks left of the event that is being
    processed. *)
Definition resumes (p : nat) (cb : callback) : nat :=
  match cb with
  | Process_resume q => if decide (q = p) then 1 else 0
  | _ => 0
  end.

Definition waits_in (p : nat) (l : list callback) : nat :=
  sum_list_with (resumes p) l.

Definition event_waits (p : nat) (e : event) : nat :=
  match callbacks e with Some l => waits_in p l | None => 0 end.

Definition waiting (p : nat) (pend : list callback) (evs : list event) : nat :=
  sum_list_with (event_waits p) evs + waits_in p pend.

(** Each process has its own event, and one resumption to come at most; it
    has none while it runs ([busy]), and none once its event is triggered. *)
Definition procs_waiting (busy : option nat) (pend : list callback)
    (selfs : list nat) (evs : list event) : Prop :=
  (forall p self, selfs !! p = Some self ->
     (exists e, evs !! self = Some e /\ ekind e = Process p) /\
     waiting p pend evs <= 1 /\
     (waiting p pend evs = 1 \/ busy = Some p ->
        exists e, evs !! self = Some e /\ triggered e = false) /\
     (busy = Some p -> waiting p pend evs = 0)) /\
  (forall p, length selfs <= p -> waiting p pend evs = 0 /\ busy <> Some p).

Definition procs_ok (busy : option nat) (pend : list callback) (s : state)
  : Prop :=
  procs_waiting busy pend (self_event <$> procs s) (events s).

Definition loop_core (busy : option nat) (pend : list callback) (s : state)
  : Prop :=
  sched_ok s /\ procs_ok busy pend s.

Definition loop_ok (busy : option nat) (pend : list callback) (s : state)
  : Prop :=
  fifo_ok s /\ loop_core busy pend s.

(** ** No exception *)

(** An outcome that is no exception of the code: none, or one of the two
    that only the model gives. *)
Definition mild (x : option exn) : Prop := x = None \/ model_only x = true.

Definition mild_events (s : state) : Prop :=
  Forall (fun e => mild (exc e)) (events s).

Definition mild_outcome (out : outcome) : Prop :=
  match out with
  | Raise e => model_only (Some e) = true
  | _ => True
  end.

Definition mild_resumption (r : resumption) : Prop :=
  match r with
  | Send => True
  | Throw e => model_only (Some e) = true
  end.

(** A patient at [yield request]. *)
Definition waits_for_doctor (g : gen) : bool :=
  match g with
  | G_patient _ _ (P_request _) => true
  | _ => false
  end.

Definition steady (TT : Q) (s : state) : Prop :=
  mild_events s /\ places_ok TT s /\ count_ok s.

(** ** The monad: rules for [wp] *)

Lemma wp_bind {A B} (m : M A) (k : A -> M B) Q s :
  wp m (fun a s' => wp (k a) Q s') s -> wp (bind m k) Q s.
Proof. unfold wp, bind. destruct (m s) as [a s1]. simpl. auto. Qed.

Lemma wp_ret {A} (a : A) (Q : A -> state -> Prop) s : Q a s -> wp (ret a) Q s.
Proof. auto. Qed.

Lemma wp_get (Q : state -> state -> Prop) s : Q s s -> wp get Q s.
Proof. auto. Qed.

Lemma wp_modify f (Q : unit -> state -> Prop) s : Q tt (f s) -> wp (modify f) Q s.
Proof. auto. Qed.

Lemma wp_mono {A} (m : M A) (Q Q' : A -> state -> Prop) s :
  wp m Q s -> (forall a s', Q a s' -> Q' a s') -> wp m Q' s.
Proof. unfold wp. auto. Qed.

Lemma wp_run {A} (m : M A) (Q : A -> state -> Prop) s a s' :
  wp m Q s -> m s = (a, s') -> Q a s'.
Proof. unfold wp. intros H E. rewrite E in H. exact H. Qed.

(** One step of symbolic execution of a [wp] goal. *)
Ltac wp_prim :=
  lazymatch goal with
  | |- wp (bind _ _) _ _ => apply wp_bind
  | |- wp (ret _) _ _ => apply wp_ret
  | |- wp get _ _ => apply wp_get
  | |- wp (modify _) _ _ => apply wp_modify
  | |- wp (new_event _) _ _ => unfold new_event
  | |- wp (update_event _ _) _ _ => unfold update_event
  | |- wp (callbacks_append _ _) _ _ => unfold callbacks_append
  | |- wp (schedule _ _ _) _ _ => unfold schedule
  | |- wp (succeed _) _ _ => unfold succeed
  | |- wp (update_resource _ _) _ _ => unfold update_resource
  | |- wp (print _) _ _ => unfold print
  | |- wp (set_generator _ _) _ _ => unfold set_generator
  | |- wp (process_ends _ _) _ _ => unfold process_ends
  | |- wp (match ?x with _ => _ end) _ _ => destruct x eqn:?
  end.

Ltac wp_prims := repeat (wp_prim; cbn beta).

(** ** Frames *)

Lemma frame_refl s : frame s s.
Proof.
  unfold frame. repeat split. exists []. rewrite app_nil_r. auto.
Qed.

Lemma frame_trans s1 s2 s3 : frame s1 s2 -> frame s2 s3 -> frame s1 s3.
Proof.
  unfold frame.
  intros (N1 & A1 & T1 & L1 & W1 & D1 & P1 & q1 & Q1 & F1)
         (N2 & A2 & T2 & L2 & W2 & D2 & P2 & q2 & Q2 & F2).
  repeat split; try congruence.
  exists (q1 ++ q2). split.
  - rewrite Q2, Q1, app_assoc. reflexivity.
  - apply Forall_app. split; [exact F1|]. rewrite <- N1. exact F2.
Qed.

(** The state differs from [s] in fields that [frame] does not read. *)
Lemma frame_same s s' :
  now s' = now s -> arrival_times s' = arrival_times s ->
  treated_times s' = treated_times s ->
  left_without_treatment_times s' = left_without_treatment_times s ->
  wait_times s' = wait_times s -> draws s' = draws s -> procs s' = procs s ->
  queue s' = queue s -> frame s s'.
Proof.
  intros. unfold frame. repeat split; auto. exists []. rewrite app_nil_r. auto.
Qed.

Lemma frame_schedule s ev prio (delay : Q) :
  (0 <= delay)%Q ->
  frame s (set_eid (S (eid s))
             (set_queue (queue s ++ [mkEntry (now s + delay) prio (eid s) ev]) s)).
Proof.
  intros Hd. unfold frame. cbn. repeat split.
  eexists. split; [reflexivity|].
  constructor; [|constructor]. cbn.
  rewrite <- (Qplus_0_r (now s)) at 1. apply Qplus_le_r. exact Hd.
Qed.

Lemma Qltb_false a b : Qltb a b = false -> (b <= a)%Q.
Proof.
  unfold Qltb. intros H. apply negb_false_iff in H. apply Qle_bool_iff. exact H.
Qed.

Lemma Qltb_true a b : Qltb a b = true -> (a < b)%Q.
Proof.
  unfold Qltb. intros H. apply negb_true_iff in H.
  apply Qnot_le_lt. intros Hle. apply Qle_bool_iff in Hle. congruence.
Qed.

(** Closing a [frame] goal after symbolic execution: peel the setters off the
    final state, then chain the frames of the calls made on the way. *)
Ltac frame_close :=
  lazymatch goal with
  | |- frame ?s ?s => apply frame_refl
  | H : frame ?s ?s' |- frame ?s ?s' => exact H
  | |- frame ?s (set_eid _ (set_queue (queue ?s1 ++ _) ?s1)) =>
      apply (frame_trans s s1);
      [ frame_close
      | apply frame_schedule; auto using Qle_refl, Qltb_false ]
  | |- frame ?s (_ _ ?s1) =>
      apply (frame_trans s s1); [ frame_close | apply frame_same; reflexivity ]
  | H : frame ?s0 ?s' |- frame ?s ?s' =>
      apply (frame_trans s s0); [ frame_close | exact H ]
  end.

Ltac wp_frame L :=
  lazymatch goal with |- wp (bind _ _) _ _ => apply wp_bind | _ => idtac end;
  eapply wp_mono; [apply L|cbn beta; intros ? ? ?].

Lemma timeout_frame delay s : wp (timeout delay) (fun _ s' => frame s s') s.
Proof.
  unfold timeout. destruct (Qltb delay 0) eqn:E; wp_prims; frame_close.
Qed.

Lemma _do_put_frame h ev s : wp (_do_put h ev) (fun _ s' => frame s s') s.
Proof. unfold _do_put. wp_prims; frame_close. Qed.

Lemma _do_get_frame h ev s : wp (_do_get h ev) (fun _ s' => frame s s') s.
Proof. unfold _do_get. wp_prims; frame_close. Qed.

Lemma _trigger_put_frame h s : wp (_trigger_put h) (fun _ s' => frame s s') s.
Proof.
  unfold _trigger_put. wp_prims; try frame_close.
  wp_frame _do_put_frame. wp_prims; frame_close.
Qed.

Lemma _trigger_get_frame h s : wp (_trigger_get h) (fun _ s' => frame s s') s.
Proof.
  unfold _trigger_get. wp_prims; try frame_close.
  wp_frame _do_get_frame. wp_prims; frame_close.
Qed.

Lemma request_frame h s : wp (request h) (fun _ s' => frame s s') s.
Proof.
  unfold request. wp_prims. wp_frame _trigger_put_frame. wp_prims. frame_close.
Qed.

Lemma release_frame h req s : wp (release h req) (fun _ s' => frame s s') s.
Proof.
  unfold release. wp_prims. wp_frame _trigger_get_frame. wp_prims. frame_close.
Qed.

Lemma Request_exit_frame h req s :
  wp (Request_exit h req) (fun _ s' => frame s s') s.
Proof.
  unfold Request_exit. wp_prims; wp_frame release_frame; wp_prims; frame_close.
Qed.

Lemma Hospital_init_frame n t s :
  wp (Hospital_init n t) (fun _ s' => frame s s') s.
Proof. unfold Hospital_init. wp_prims; frame_close. Qed.

(** ** The clock *)

Lemma keeps_frame {A} (I : state -> Prop) (m : M A) :
  (forall s, wp m (fun _ s' => frame s s') s) ->
  (forall s s', frame s s' -> I s -> I s') ->
  keeps I m.
Proof.
  intros Hm HI s Hs. eapply wp_mono; [apply Hm|]. cbn. eauto.
Qed.

Lemma keeps_ret {A} (I : state -> Prop) (a : A) : keeps I (ret a).
Proof. intros s Hs. exact Hs. Qed.

Lemma keeps_bind {A B} (I : state -> Prop) (m : M A) (k : A -> M B) :
  keeps I m -> (forall a, keeps I (k a)) -> keeps I (bind m k).
Proof.
  intros Hm Hk s Hs. apply wp_bind. eapply wp_mono; [apply Hm, Hs|].
  cbn. intros a s' Hs'. apply Hk, Hs'.
Qed.

Lemma keeps_for_each {A} (I : state -> Prop) (l : list A) body :
  (forall x, keeps I (body x)) -> keeps I (for_each l body).
Proof.
  intros Hb. induction l as [|x l IH]; cbn.
  - apply keeps_ret.
  - apply keeps_bind; auto.
Qed.

Lemma frame_clock t s s' : frame s s' -> clock_ok t s -> clock_ok t s'.
Proof.
  unfold frame, clock_ok.
  intros (N & A & _ & _ & W & _ & _ & q & Hq & Fq) (Ht & HQ & HA & HW).
  rewrite N, A, W, Hq. repeat split; auto. apply Forall_app. auto.
Qed.

(** Calling [m], for which [L : keeps I m] is known, inside a [wp] goal;
    [tac] shows the invariant at the call. *)
Ltac wp_keep L tac :=
  lazymatch goal with |- wp (bind _ _) _ _ => apply wp_bind | _ => idtac end;
  eapply wp_mono; [apply L; tac|cbn beta; intros ? ? ?].

Lemma last_Forall {A} (P : A -> Prop) (l : list A) x :
  last l = Some x -> Forall P l -> P x.
Proof.
  intros Hl HF. apply last_Some in Hl as [l' ->].
  apply Forall_app in HF as [_ HF]. inversion HF; auto.
Qed.

(** [env.now - arrival_times[-1]] is not negative. *)
Lemma wait_nonneg t s a :
  clock_ok t s -> last (arrival_times s) = Some a -> (0 <= now s - a)%Q.
Proof.
  intros (_ & _ & HA & _) Hl.
  apply (last_Forall _ _ _ Hl) in HA. cbn in HA.
  unfold Qminus. rewrite <- Qle_minus_iff. exact HA.
Qed.

Lemma Qle_plus_0 (a : Q) : (a <= a + 0)%Q.
Proof. rewrite Qplus_0_r. apply Qle_refl. Qed.

Ltac clock_solve :=
  lazymatch goal with
  | H : clock_ok ?t _ |- clock_ok ?t' _ => unify t t'
  end;
  solve
    [ assumption
    | try lazymatch goal with
      | H : clock_ok _ ?s, E : last (arrival_times ?s) = Some _ |- _ =>
          pose proof (wait_nonneg _ _ _ H E)
      end;
      unfold clock_ok in *; cbn;
      repeat lazymatch goal with H : _ /\ _ |- _ => destruct H end;
      rewrite ?Forall_app; repeat split; auto;
      repeat constructor; auto using Qle_refl, Qle_plus_0 ].

Lemma timeout_clock t d :
  keeps (clock_ok t) (timeout d).
Proof. eauto using keeps_frame, timeout_frame, frame_clock. Qed.
Lemma request_clock t h :
  keeps (clock_ok t) (request h).
Proof. eauto using keeps_frame, request_frame, frame_clock. Qed.
Lemma Request_exit_clock t h r :
  keeps (clock_ok t) (Request_exit h r).
Proof. eauto using keeps_frame, Request_exit_frame, frame_clock. Qed.
Lemma Hospital_init_clock t n tm :
  keeps (clock_ok t) (Hospital_init n tm).
Proof. eauto using keeps_frame, Hospital_init_frame, frame_clock. Qed.
Lemma _trigger_put_clock t h :
  keeps (clock_ok t) (_trigger_put h).
Proof. eauto using keeps_frame, _trigger_put_frame, frame_clock. Qed.
Lemma _trigger_get_clock t h :
  keeps (clock_ok t) (_trigger_get h).
Proof. eauto using keeps_frame, _trigger_get_frame, frame_clock. Qed.

Lemma process_clock t g :
  keeps (clock_ok t) (process g).
Proof. intros s Hs. unfold process. wp_prims. clock_solve. Qed.

(** *** heappop returns an item that is due first *)

Lemma entry_ltb_true a b : entry_ltb a b = true -> (e_time a <= e_time b)%Q.
Proof.
  unfold entry_ltb. destruct (e_time a ?= e_time b)%Q eqn:E; intros H.
  - apply Qeq_alt in E. rewrite E. apply Qle_refl.
  - apply Qlt_alt in E. apply Qlt_le_weak, E.
  - discriminate.
Qed.

Lemma entry_ltb_false a b : entry_ltb a b = false -> (e_time b <= e_time a)%Q.
Proof.
  unfold entry_ltb. destruct (e_time a ?= e_time b)%Q eqn:E; intros H.
  - apply Qeq_alt in E. rewrite E. apply Qle_refl.
  - discriminate.
  - apply Qgt_alt in E. apply Qlt_le_weak, E.
Qed.

Lemma heap_min_le m q :
  (e_time (heap_min m q) <= e_time m)%Q /\
  Forall (fun x => (e_time (heap_min m q) <= e_time x)%Q) q.
Proof.
  revert m. induction q as [|x q IH]; intros m; cbn.
  - split; [apply Qle_refl|constructor].
  - destruct (entry_ltb x m) eqn:E.
    + destruct (IH x) as [H1 H2]. apply entry_ltb_true in E.
      split; [eapply Qle_trans; eauto|]. constructor; auto.
    + destruct (IH m) as [H1 H2]. apply entry_ltb_false in E.
      split; [exact H1|]. constructor; auto. eapply Qle_trans; eauto.
Qed.

Lemma heap_min_In m q : In (heap_min m q) (m :: q).
Proof.
  revert m. induction q as [|x q IH]; intros m; cbn.
  - auto.
  - destruct (IH (if entry_ltb x m then x else m)) as [H|H]; auto.
    destruct (entry_ltb x m); auto.
Qed.

Lemma heap_remove_Forall (P : entry -> Prop) m q :
  Forall P q -> Forall P (heap_remove m q).
Proof.
  induction 1 as [|x q Hx Hq IH]; cbn; [constructor|].
  destruct (e_eid x =? m)%nat; auto.
Qed.

Lemma heappop_spec q item q' :
  heappop q = Some (item, q') ->
  In item q /\
  Forall (fun x => (e_time item <= e_time x)%Q) q' /\
  forall P : entry -> Prop, Forall P q -> Forall P q'.
Proof.
  destruct q as [|x q]; cbn; [discriminate|].
  intros [= <- <-]. split; [apply heap_min_In|]. split.
  - destruct (heap_min_le x q) as [H1 H2].
    apply (heap_remove_Forall _ _ (x :: q)). constructor; auto.
  - intros P HP. apply (heap_remove_Forall _ _ (x :: q)), HP.
Qed.

Section Clock.

Variable U : nat -> Q.
Variable neg_log1m : Q -> Q.
Variable NUM_DOCTORS : Z.
Variables TREATMENT_TIME T_INTER SIM_TIME TREAT_PROBABILITY : Q.

Lemma treat_clock t h name pc r :
  keeps (clock_ok t) (treat U neg_log1m h name pc r).
Proof.
  intros s Hs. unfold treat, expovariate, random.
  destruct r, pc; wp_prims; try clock_solve.
  wp_keep timeout_clock clock_solve. wp_prims; clock_solve.
Qed.

Lemma patient_clock t name h pc r :
  keeps (clock_ok t) (patient U TREAT_PROBABILITY name h pc r).
Proof.
  intros s Hs. unfold patient, random.
  destruct r, pc; wp_prims; try clock_solve;
    first [ wp_keep request_clock clock_solve
          | wp_keep process_clock clock_solve
          | wp_keep Request_exit_clock clock_solve ];
    wp_prims; clock_solve.
Qed.

Lemma setup_loop_clock t h i :
  keeps (clock_ok t) (setup_loop U neg_log1m T_INTER h i).
Proof.
  intros s Hs. unfold setup_loop, expovariate, random.
  wp_prims; try clock_solve.
  wp_keep timeout_clock clock_solve. wp_prims; clock_solve.
Qed.

Lemma setup_clock t pc r :
  keeps (clock_ok t) (setup U neg_log1m NUM_DOCTORS TREATMENT_TIME T_INTER pc r).
Proof.
  intros s Hs. unfold setup.
  destruct r, pc; wp_prims; try clock_solve.
  - wp_keep Hospital_init_clock clock_solve. wp_prims; [clock_solve|].
    eapply wp_mono.
    { eapply keeps_for_each; [|eassumption].
      intros x. apply keeps_bind; [apply process_clock|]. intros ?. apply keeps_ret. }
    cbn beta. intros _ s1 Hs1. apply setup_loop_clock, Hs1.
  - wp_keep process_clock clock_solve. apply setup_loop_clock. assumption.
Qed.

Lemma add_doctors_loop_clock t h n :
  keeps (clock_ok t) (add_doctors_loop h n).
Proof.
  intros s Hs. unfold add_doctors_loop.
  destruct n; wp_prims; try clock_solve.
  wp_keep request_clock clock_solve.
  wp_keep timeout_clock clock_solve. wp_prims; clock_solve.
Qed.

Lemma add_doctors_clock t h n pc r :
  keeps (clock_ok t) (add_doctors h n pc r).
Proof.
  intros s Hs. unfold add_doctors.
  destruct r, pc; wp_prims; try clock_solve;
    apply add_doctors_loop_clock; clock_solve.
Qed.

Lemma resume_generator_clock t g r :
  keeps (clock_ok t)
    (resume_generator U neg_log1m NUM_DOCTORS TREATMENT_TIME T_INTER
       TREAT_PROBABILITY g r).
Proof.
  intros s Hs. unfold resume_generator. destruct g; wp_prims.
  - wp_keep patient_clock eassumption. wp_prims. assumption.
  - wp_keep treat_clock eassumption. wp_prims. assumption.
  - wp_keep setup_clock eassumption. wp_prims. assumption.
  - wp_keep add_doctors_clock eassumption. wp_prims. assumption.
Qed.

Lemma _resume_clock t p ev :
  keeps (clock_ok t)
    (_resume U neg_log1m NUM_DOCTORS TREATMENT_TIME T_INTER TREAT_PROBABILITY
       p ev).
Proof.
  intros s Hs. unfold _resume. wp_prims; try clock_solve.
  - wp_keep resume_generator_clock clock_solve. wp_prims; clock_solve.
  - wp_keep resume_generator_clock clock_solve. wp_prims; clock_solve.
Qed.

Lemma call_clock t cb ev :
  keeps (clock_ok t)
    (call U neg_log1m NUM_DOCTORS TREATMENT_TIME T_INTER TREAT_PROBABILITY
       cb ev).
Proof.
  intros s Hs. unfold call. destruct cb; wp_prims; try assumption.
  - wp_keep _resume_clock eassumption. wp_prims. assumption.
  - wp_keep _trigger_put_clock eassumption. wp_prims. assumption.
  - wp_keep _trigger_get_clock eassumption. wp_prims. assumption.
Qed.

Lemma run_callbacks_clock t cbs ev :
  keeps (clock_ok t)
    (run_callbacks U neg_log1m NUM_DOCTORS TREATMENT_TIME T_INTER
       TREAT_PROBABILITY cbs ev).
Proof.
  induction cbs as [|cb cbs IH]; cbn.
  - apply keeps_ret.
  - apply keeps_bind; [apply call_clock|].
    intros [|]; [apply keeps_ret|apply IH].
Qed.

Lemma step_clock t s :
  clock_ok t s ->
  wp (step U neg_log1m NUM_DOCTORS TREATMENT_TIME T_INTER TREAT_PROBABILITY)
     (fun _ s' =>
        clock_ok (now s') s' /\
        (now s <= now s')%Q /\
        (now s' = now s \/
         exists item q, heappop (queue s) = Some (item, q) /\
                        now s' = e_time item)) s.
Proof.
  intros (Ht & HQ & HA & HW). unfold step. apply wp_bind, wp_get.
  destruct (heappop (queue s)) as [[item q]|] eqn:Hpop.
  - destruct (heappop_spec _ _ _ Hpop) as (Hin & Hmin & Hsub).
    assert (Hle : (now s <= e_time item)%Q).
    { rewrite Forall_forall in HQ. apply HQ, list_elem_of_In, Hin. }
    assert (Hs1 : forall evs,
               clock_ok (e_time item)
                 (set_events evs (set_now (e_time item) (set_queue q s)))).
    { intros evs. repeat split; cbn; auto.
      eapply Forall_impl; [exact HA|]. cbn. intros a Ha.
      eapply Qle_trans; eauto. }
    assert (Hfin : forall s', clock_ok (e_time item) s' ->
               clock_ok (now s') s' /\ (now s <= now s')%Q /\
               (now s' = now s \/
                exists item0 q0, Some (item, q) = Some (item0, q0) /\
                                 now s' = e_time item0)).
    { intros s' Hs'. pose proof Hs' as (Hn & _). rewrite Hn.
      split; [exact Hs'|]. split; [exact Hle|]. right. eauto. }
    wp_prims; [|apply Hfin, Hs1].
    wp_keep run_callbacks_clock ltac:(apply Hs1).
    wp_prims; apply Hfin; assumption.
  - apply wp_ret. split; [|split; [apply Qle_refl|left; reflexivity]].
    repeat split; auto.
Qed.

Lemma run_prologue_clock t until : keeps (clock_ok t) (run_prologue until).
Proof.
  intros s Hs. unfold run_prologue. wp_prims; [clock_solve|].
  assert (Hd : (0 <= until - now s)%Q).
  { unfold Qminus. rewrite <- Qle_minus_iff. apply Qlt_le_weak, Qnot_le_lt.
    intros Hle. apply Qle_bool_iff in Hle. congruence. }
  destruct Hs as (Ht & HQ & HA & HW). repeat split; cbn; auto.
  apply Forall_app. split; [exact HQ|]. constructor; [|constructor]. cbn.
  rewrite <- (Qplus_0_r (now s)) at 1. apply Qplus_le_r, Hd.
Qed.

Lemma between_runs_clock t hospital :
  keeps (clock_ok t) (between_runs hospital).
Proof.
  intros s Hs. unfold between_runs.
  wp_keep process_clock eassumption.
  wp_keep run_prologue_clock eassumption.
  wp_prims; assumption.
Qed.

Abbreviation script_start' :=
  (script_start NUM_DOCTORS TREATMENT_TIME SIM_TIME).
Abbreviation main_step' :=
  (main_step U neg_log1m NUM_DOCTORS TREATMENT_TIME T_INTER TREAT_PROBABILITY).
Abbreviation exec' :=
  (exec U neg_log1m NUM_DOCTORS TREATMENT_TIME T_INTER SIM_TIME
     TREAT_PROBABILITY).

Lemma script_start_clock : clock_ok 0 (env script_start').
Proof.
  unfold script_start.
  match goal with |- context [?m initial_state] =>
    assert (H : wp m (fun _ s' => clock_ok 0 s') initial_state) end.
  { assert (H0 : clock_ok 0 initial_state).
    { repeat split; cbn; auto using Qle_refl. }
    wp_prims.
    wp_keep Hospital_init_clock clock_solve. wp_prims; [assumption|].
    wp_keep process_clock eassumption.
    wp_keep run_prologue_clock eassumption.
    wp_prims; assumption. }
  unfold wp in H.
  match goal with |- context [?m initial_state] =>
    destruct (m initial_state) as [pc0 s0] end.
  exact H.
Qed.

Lemma main_step_clock p :
  clock_ok (now (env p)) (env p) ->
  clock_ok (now (env (main_step' p))) (env (main_step' p)) /\
  (now (env p) <= now (env (main_step' p)))%Q /\
  (now (env (main_step' p)) = now (env p) \/
   exists item q, heappop (queue (env p)) = Some (item, q) /\
                  now (env (main_step' p)) = e_time item).
Proof.
  intros Hp.
  assert (Hsame : clock_ok (now (env p)) (env p) /\
                  (now (env p) <= now (env p))%Q /\
                  (now (env p) = now (env p) \/
                   exists item q, heappop (queue (env p)) = Some (item, q) /\
                                  now (env p) = e_time item)).
  { split; [exact Hp|]. split; [apply Qle_refl|]. left. reflexivity. }
  unfold main_step. destruct (pc p); try exact Hsame.
  - pose proof (step_clock _ _ Hp) as Hs. unfold wp in Hs.
    destruct (step _ _ _ _ _ _ (env p)) as [r s1]. cbn [fst snd] in Hs.
    destruct r; try exact Hs.
    destruct Hs as (Hs & Hle & Hjump).
    pose proof (between_runs_clock _ hospital _ Hs) as Hb. unfold wp in Hb.
    destruct (between_runs hospital s1) as [pc' s2]. cbn [fst snd env] in *.
    pose proof Hb as (Hn & _). rewrite Hn. auto.
  - pose proof (step_clock _ _ Hp) as Hs. unfold wp in Hs.
    destruct (step _ _ _ _ _ _ (env p)) as [r s1]. cbn [fst snd] in Hs.
    destruct r; exact Hs.
Qed.

Lemma exec_clock n : clock_ok (now (env (exec' n))) (env (exec' n)).
Proof.
  induction n as [|n IH].
  - pose proof script_start_clock as H. pose proof H as (Hn & _).
    change (exec' 0) with script_start'. rewrite Hn. exact H.
  - change (exec' (S n)) with (main_step' (exec' n)).
    apply main_step_clock, IH.
Qed.

(** C9: the clock never decreases over the rounds of the script, the two
    [env.run] phases included, and a round changes it only by setting it to
    the time of the item that [heappop] takes from the event queue. *)
Theorem clock_never_decreases n k :
  let run := exec U neg_log1m NUM_DOCTORS TREATMENT_TIME T_INTER SIM_TIME
               TREAT_PROBABILITY in
  (now (env (run n)) <= now (env (run (n + k)%nat)))%Q /\
  (now (env (run (S n))) = now (env (run n)) \/
   exists item q, heappop (queue (env (run n))) = Some (item, q) /\
                  now (env (run (S n))) = e_time item).
Proof.
  cbv zeta. split.
  - induction k as [|k IH].
    + rewrite Nat.add_0_r. apply Qle_refl.
    + rewrite Nat.add_succ_r. eapply Qle_trans; [exact IH|].
      change (exec' (S (n + k))) with (main_step' (exec' (n + k))).
      apply main_step_clock, exec_clock.
  - change (exec' (S n)) with (main_step' (exec' n)).
    apply main_step_clock, exec_clock.
Qed.

(** C10: every element of [wait_times] is non-negative, because the clock
    is never behind a recorded arrival time. *)
Theorem wait_times_nonnegative n :
  let s := env (exec U neg_log1m NUM_DOCTORS TREATMENT_TIME T_INTER SIM_TIME
                  TREAT_PROBABILITY n) in
  Forall (fun a => (a <= now s)%Q) (arrival_times s) /\
  Forall (fun w => (0 <= w)%Q) (wait_times s).
Proof.
  destruct (exec_clock n) as (_ & _ & HA & HW). auto.
Qed.

End Clock.

(** ** Lifting an invariant from the operations to the whole script *)

Section LiftTop.

Variable U : nat -> Q.
Variable neg_log1m : Q -> Q.
Variable NUM_DOCTORS : Z.
Variables TREATMENT_TIME T_INTER SIM_TIME TREAT_PROBABILITY : Q.

Variable Inv : state -> Prop.

Hypothesis I_resume : forall p ev,
  keeps Inv (_resume U neg_log1m NUM_DOCTORS TREATMENT_TIME T_INTER
             TREAT_PROBABILITY p ev).
Hypothesis I_trigger_put : forall h, keeps Inv (_trigger_put h).
Hypothesis I_trigger_get : forall h, keeps Inv (_trigger_get h).
Hypothesis I_spawn_setup : keeps Inv (process (G_setup S_start)).
Hypothesis I_spawn_add_doctors :
  forall h, keeps Inv (process (G_add_doctors h 2 A_start)).
Hypothesis I_run_prologue : forall until, keeps Inv (run_prologue until).
Hypothesis I_Hospital : keeps Inv (Hospital_init NUM_DOCTORS TREATMENT_TIME).
Hypothesis I_pop : forall s item q,
  Inv s -> heappop (queue s) = Some (item, q) ->
  Inv (set_events (alter (set_callbacks None) (e_event item) (events s))
       (set_now (e_time item) (set_queue q s))).
Hypothesis I_start : Inv (set_stdout [L_title] initial_state).

Lemma call_keeps cb ev :
  keeps Inv (call U neg_log1m NUM_DOCTORS TREATMENT_TIME T_INTER
             TREAT_PROBABILITY cb ev).
Proof.
  unfold call. destruct cb.
  - apply keeps_bind; [apply I_resume|]. intros ?. apply keeps_ret.
  - apply keeps_bind; [apply I_trigger_put|]. intros ?. apply keeps_ret.
  - apply keeps_bind; [apply I_trigger_get|]. intros ?. apply keeps_ret.
  - apply keeps_ret.
Qed.

Lemma run_callbacks_keeps cbs ev :
  keeps Inv (run_callbacks U neg_log1m NUM_DOCTORS TREATMENT_TIME T_INTER
             TREAT_PROBABILITY cbs ev).
Proof.
  induction cbs as [|cb cbs IH]; cbn.
  - apply keeps_ret.
  - apply keeps_bind; [apply call_keeps|].
    intros [|]; [apply keeps_ret|apply IH].
Qed.

Lemma step_keeps :
  keeps Inv (step U neg_log1m NUM_DOCTORS TREATMENT_TIME T_INTER
             TREAT_PROBABILITY).
Proof.
  intros s Hs. unfold step. apply wp_bind, wp_get.
  destruct (heappop (queue s)) as [[item q]|] eqn:Hpop.
  - pose proof (I_pop _ _ _ Hs Hpop) as Hs1.
    wp_prims; [|exact Hs1].
    wp_keep run_callbacks_keeps ltac:(exact Hs1).
    wp_prims; assumption.
  - apply wp_ret. exact Hs.
Qed.

Lemma between_runs_keeps hospital : keeps Inv (between_runs hospital).
Proof.
  unfold between_runs.
  apply keeps_bind; [apply I_spawn_add_doctors|]. intros _.
  apply keeps_bind; [apply I_run_prologue|]. intros [e|[]]; apply keeps_ret.
Qed.

Lemma script_start_keeps :
  Inv (env (script_start NUM_DOCTORS TREATMENT_TIME SIM_TIME)).
Proof.
  unfold script_start.
  match goal with |- context [?m initial_state] =>
    assert (H : wp m (fun _ s' => Inv s') initial_state) end.
  { wp_prims.
    wp_keep I_Hospital ltac:(exact I_start). wp_prims; [assumption|].
    wp_keep I_spawn_setup eassumption.
    wp_keep I_run_prologue eassumption.
    wp_prims; assumption. }
  unfold wp in H.
  match goal with |- context [?m initial_state] =>
    destruct (m initial_state) as [pc0 s0] end.
  exact H.
Qed.

Lemma main_step_keeps p :
  Inv (env p) ->
  Inv (env (main_step U neg_log1m NUM_DOCTORS TREATMENT_TIME T_INTER
            TREAT_PROBABILITY p)).
Proof.
  intros Hp. unfold main_step. destruct (pc p); try exact Hp.
  - pose proof (step_keeps _ Hp) as Hs. unfold wp in Hs.
    destruct (step _ _ _ _ _ _ (env p)) as [r s1]. cbn [fst snd] in Hs.
    destruct r; try exact Hs.
    pose proof (between_runs_keeps hospital _ Hs) as Hb. unfold wp in Hb.
    destruct (between_runs hospital s1) as [pc' s2]. exact Hb.
  - pose proof (step_keeps _ Hp) as Hs. unfold wp in Hs.
    destruct (step _ _ _ _ _ _ (env p)) as [r s1]. cbn [fst snd] in Hs.
    destruct r; exact Hs.
Qed.

Lemma exec_keeps n :
  Inv (env (exec U neg_log1m NUM_DOCTORS TREATMENT_TIME T_INTER SIM_TIME
            TREAT_PROBABILITY n)).
Proof.
  induction n as [|n IH].
  - apply script_start_keeps.
  - apply main_step_keeps, IH.
Qed.

End LiftTop.

Lemma wp_conj {A} (m : M A) (Q1 Q2 : A -> state -> Prop) s :
  wp m Q1 s -> wp m Q2 s -> wp m (fun a s' => Q1 a s' /\ Q2 a s') s.
Proof. unfold wp. auto. Qed.

Lemma process_procs g s :
  wp (process g) (fun ev s' => procs s' = procs s ++ [mkProcess g ev]) s.
Proof. unfold process. wp_prims. cbn. reflexivity. Qed.

Lemma fmap_self_event_alter g p (l : list process_obj) :
  self_event <$> alter (fun P => mkProcess g (self_event P)) p l
  = self_event <$> l.
Proof.
  revert p. induction l as [|x l IH]; intros [|p]; cbn; auto.
  f_equal. apply IH.
Qed.

Section LiftGen.

Variable U : nat -> Q.
Variable neg_log1m : Q -> Q.
Variable NUM_DOCTORS : Z.
Variables TREATMENT_TIME T_INTER TREAT_PROBABILITY : Q.

Variable Inv : state -> Prop.

Hypothesis I_request : forall h, keeps Inv (request h).
Hypothesis I_exit : forall h r, keeps Inv (Request_exit h r).
Hypothesis I_timeout : forall d, keeps Inv (timeout d).
Hypothesis I_process : forall g, keeps Inv (process g).
Hypothesis I_Hospital : keeps Inv (Hospital_init NUM_DOCTORS TREATMENT_TIME).
(** [Inv] reads the events, the hospitals, the environment and the events of
    the processes only. *)
Hypothesis I_same : forall s s',
  events s' = events s -> hospitals s' = hospitals s ->
  queue s' = queue s -> eid s' = eid s -> now s' = now s ->
  self_event <$> procs s' = self_event <$> procs s ->
  Inv s -> Inv s'.

Ltac same :=
  idtac;
  lazymatch goal with
  | |- Inv _ => solve [assumption | eapply I_same; [..|eassumption]; reflexivity]
  end.

Lemma treat_keeps h name pc r : keeps Inv (treat U neg_log1m h name pc r).
Proof.
  intros s Hs. unfold treat, expovariate, random.
  destruct r, pc; wp_prims; try same.
  wp_keep I_timeout same. wp_prims; assumption.
Qed.

Lemma patient_keeps name h pc r :
  keeps Inv (patient U TREAT_PROBABILITY name h pc r).
Proof.
  intros s Hs. unfold patient, random.
  destruct r, pc; wp_prims; try same;
    first [ wp_keep I_request same
          | wp_keep I_process same
          | wp_keep I_exit same ];
    wp_prims; assumption.
Qed.

Lemma setup_loop_keeps h i : keeps Inv (setup_loop U neg_log1m T_INTER h i).
Proof.
  intros s Hs. unfold setup_loop, expovariate, random.
  wp_prims; try same.
  wp_keep I_timeout same. wp_prims; assumption.
Qed.

Lemma setup_keeps pc r :
  keeps Inv (setup U neg_log1m NUM_DOCTORS TREATMENT_TIME T_INTER pc r).
Proof.
  intros s Hs. unfold setup.
  destruct r, pc; wp_prims; try same.
  - wp_keep I_Hospital same. wp_prims; [assumption|].
    eapply wp_mono.
    { eapply keeps_for_each; [|eassumption].
      intros x. apply keeps_bind; [apply I_process|]. intros ?. apply keeps_ret. }
    cbn beta. intros _ s1 Hs1. apply setup_loop_keeps, Hs1.
  - wp_keep I_process same. apply setup_loop_keeps. assumption.
Qed.

Lemma add_doctors_loop_keeps h n : keeps Inv (add_doctors_loop h n).
Proof.
  intros s Hs. unfold add_doctors_loop.
  destruct n; wp_prims; try same.
  wp_keep I_request same.
  wp_keep I_timeout same. wp_prims; assumption.
Qed.

Lemma add_doctors_keeps h n pc r : keeps Inv (add_doctors h n pc r).
Proof.
  intros s Hs. unfold add_doctors.
  destruct r, pc; wp_prims; try same;
    apply add_doctors_loop_keeps; same.
Qed.

Lemma resume_generator_keeps g r :
  keeps Inv
    (resume_generator U neg_log1m NUM_DOCTORS TREATMENT_TIME T_INTER
       TREAT_PROBABILITY g r).
Proof.
  intros s Hs. unfold resume_generator. destruct g; wp_prims.
  - wp_keep patient_keeps assumption. wp_prims. assumption.
  - wp_keep treat_keeps assumption. wp_prims. assumption.
  - wp_keep setup_keeps assumption. wp_prims. assumption.
  - wp_keep add_doctors_keeps assumption. wp_prims. assumption.
Qed.

End LiftGen.

Lemma with_process_frame {A} Inv p self (m : M A) :
  keeps Inv m -> (forall s, wp m (fun _ s' => frame s s') s) ->
  keeps (with_process Inv p self) m.
Proof.
  intros HI Hf s [Hs Hp].
  eapply wp_mono; [apply wp_conj; [apply HI, Hs|apply Hf]|].
  cbn beta. intros _ s' [Hs' Hfr]. split; [exact Hs'|].
  destruct Hfr as (_ & _ & _ & _ & _ & _ & -> & _). exact Hp.
Qed.

Section LiftResume.

Variable U : nat -> Q.
Variable neg_log1m : Q -> Q.
Variable NUM_DOCTORS : Z.
Variables TREATMENT_TIME T_INTER TREAT_PROBABILITY : Q.

Variable Inv : state -> Prop.

Hypothesis I_request : forall h, keeps Inv (request h).
Hypothesis I_exit : forall h r, keeps Inv (Request_exit h r).
Hypothesis I_timeout : forall d, keeps Inv (timeout d).
Hypothesis I_process : forall g, keeps Inv (process g).
Hypothesis I_Hospital : keeps Inv (Hospital_init NUM_DOCTORS TREATMENT_TIME).
Hypothesis I_same : forall s s',
  events s' = events s -> hospitals s' = hospitals s ->
  queue s' = queue s -> eid s' = eid s -> now s' = now s ->
  self_event <$> procs s' = self_event <$> procs s ->
  Inv s -> Inv s'.
Hypothesis I_callbacks_append :
  forall ev cb, keeps Inv (callbacks_append ev cb).
Hypothesis I_defused : forall ev, keeps Inv (update_event ev set_defused).
Hypothesis I_ends : forall p self x,
  keeps (with_process Inv p self) (process_ends self x).

Lemma resume_generator_with_process p self g r :
  keeps (with_process Inv p self)
    (resume_generator U neg_log1m NUM_DOCTORS TREATMENT_TIME T_INTER
       TREAT_PROBABILITY g r).
Proof.
  apply resume_generator_keeps.
  - intros h. apply with_process_frame; auto using request_frame.
  - intros h r0. apply with_process_frame; auto using Request_exit_frame.
  - intros d. apply with_process_frame; auto using timeout_frame.
  - intros g0 s [Hs Hp].
    eapply wp_mono; [apply wp_conj; [apply I_process, Hs|apply process_procs]|].
    cbn beta. intros ev s' [Hs' Hpr]. split; [exact Hs'|].
    rewrite Hpr, fmap_app. apply lookup_app_l_Some, Hp.
  - apply with_process_frame; auto using Hospital_init_frame.
  - intros s s' He Hh Hq Hi Hn Hp [Hs Hl]. split.
    + eapply I_same; eauto.
    + rewrite Hp. exact Hl.
Qed.

Lemma _resume_keeps p ev :
  keeps Inv
    (_resume U neg_log1m NUM_DOCTORS TREATMENT_TIME T_INTER TREAT_PROBABILITY
       p ev).
Proof.
  intros s Hs. unfold _resume. apply wp_bind, wp_get.
  destruct (procs s !! p) as [P|] eqn:HP; [|exact Hs].
  assert (HJ : with_process Inv p (self_event P) s).
  { split; [exact Hs|]. rewrite list_lookup_fmap, HP. reflexivity. }
  apply wp_bind.
  apply (wp_mono _ (fun _ s' => with_process Inv p (self_event P) s')).
  { destruct (exc (the_event s ev)).
    - apply wp_bind.
      eapply wp_mono;
        [apply wp_conj;
          [apply I_defused, Hs
          |apply (wp_modify _ (fun _ s' => procs s' = procs s)); reflexivity]|].
      cbn beta. intros _ s' [Hs' Hpr]. apply wp_ret.
      split; [exact Hs'|]. rewrite Hpr. apply HJ.
    - apply wp_ret. exact HJ. }
  cbn beta. intros r s1 HJ1.
  wp_keep resume_generator_with_process ltac:(exact HJ1).
  match goal with H : with_process _ _ _ ?s2 |- _ => rename H into HJ2 end.
  apply wp_bind. unfold set_generator. apply wp_modify.
  match goal with |- wp _ _ ?s3 =>
    assert (HJ3 : with_process Inv p (self_event P) s3) end.
  { destruct HJ2 as [H1 H2]. split.
    - eapply I_same; [..|exact H1]; try reflexivity.
      cbn. apply fmap_self_event_alter.
    - cbn. rewrite fmap_self_event_alter. exact H2. }
  destruct (snd a) eqn:Hout.
  - apply wp_bind, wp_get.
    match goal with |- wp (match ?c with _ => _ end) _ _ => destruct c end.
    + apply I_callbacks_append, HJ3.
    + eapply wp_mono; [apply I_ends, HJ3|]. cbn beta. intros _ ? [H _]. exact H.
  - eapply wp_mono; [apply I_ends, HJ3|]. cbn beta. intros _ ? [H _]. exact H.
  - eapply wp_mono; [apply I_ends, HJ3|]. cbn beta. intros _ ? [H _]. exact H.
Qed.

End LiftResume.

(** ** Capacity *)

Lemma length_list_remove x l : length (list_remove x l) <= length l.
Proof.
  induction l as [|y l IH]; cbn; [lia|].
  destruct (y =? x)%nat; cbn; lia.
Qed.

Lemma cap_ok_same N s s' : hospitals s' = hospitals s -> cap_ok N s -> cap_ok N s'.
Proof. unfold cap_ok. intros ->. auto. Qed.

Ltac cap_same := eapply cap_ok_same; [|eassumption]; reflexivity.

(** The resource of hospital [h] has been updated: compare the new record
    with the old one. *)
Ltac cap_alter :=
  unfold cap_ok in *; cbn;
  apply Forall_alter; [eassumption|];
  let x := fresh "x" in let Hx := fresh "Hx" in
  let Hc := fresh "Hc" in let Hu := fresh "Hu" in
  intros x Hx [Hc Hu]; cbn; split; [exact Hc|]; try assumption.

Lemma _do_put_cap N h ev : keeps (cap_ok N) (_do_put h ev).
Proof.
  intros s Hs. unfold _do_put. wp_prims; try exact Hs.
  all: cap_alter.
  all: unfold the_hospital in Heqb;
    rewrite (list_lookup_total_correct _ _ _ Hx) in Heqb;
    apply Z.ltb_lt in Heqb; rewrite length_app; cbn; lia.
Qed.

Lemma _do_get_cap N h ev : keeps (cap_ok N) (_do_get h ev).
Proof.
  intros s Hs. unfold _do_get. wp_prims; try cap_same.
  all: cap_alter; pose proof (length_list_remove request0 (users (doctor x))); lia.
Qed.

Lemma _trigger_put_cap N h : keeps (cap_ok N) (_trigger_put h).
Proof.
  intros s Hs. unfold _trigger_put. wp_prims; [exact Hs|].
  wp_keep _do_put_cap eassumption. wp_prims; [|assumption]. cap_alter.
Qed.

Lemma _trigger_get_cap N h : keeps (cap_ok N) (_trigger_get h).
Proof.
  intros s Hs. unfold _trigger_get. wp_prims; [exact Hs|].
  wp_keep _do_get_cap eassumption. wp_prims; [|assumption]. cap_alter.
Qed.

Lemma request_cap N h : keeps (cap_ok N) (request h).
Proof.
  intros s Hs. unfold request. wp_prims.
  wp_keep _trigger_put_cap cap_alter. wp_prims. assumption.
Qed.

Lemma release_cap N h req : keeps (cap_ok N) (release h req).
Proof.
  intros s Hs. unfold release. wp_prims.
  wp_keep _trigger_get_cap cap_alter. wp_prims. assumption.
Qed.

Lemma Request_exit_cap N h req : keeps (cap_ok N) (Request_exit h req).
Proof.
  intros s Hs. unfold Request_exit. wp_prims.
  - wp_keep release_cap eassumption. wp_prims. assumption.
  - wp_keep release_cap cap_alter. wp_prims. assumption.
Qed.

Lemma Hospital_init_cap N tm : keeps (cap_ok N) (Hospital_init N tm).
Proof.
  intros s Hs. unfold Hospital_init. wp_prims; [exact Hs|].
  unfold cap_ok in *. cbn. apply Forall_app. split; [exact Hs|].
  constructor; [|constructor]. cbn. apply Z.leb_gt in Heqb. lia.
Qed.

Lemma timeout_cap N d : keeps (cap_ok N) (timeout d).
Proof. intros s Hs. unfold timeout. wp_prims; cap_same. Qed.

Lemma process_cap N g : keeps (cap_ok N) (process g).
Proof. intros s Hs. unfold process. wp_prims; cap_same. Qed.

Lemma run_prologue_cap N until : keeps (cap_ok N) (run_prologue until).
Proof. intros s Hs. unfold run_prologue. wp_prims; cap_same. Qed.

Section Capacity.

Variable U : nat -> Q.
Variable neg_log1m : Q -> Q.
Variable NUM_DOCTORS : Z.
Variables TREATMENT_TIME T_INTER SIM_TIME TREAT_PROBABILITY : Q.

Lemma exec_cap n :
  cap_ok NUM_DOCTORS
    (env (exec U neg_log1m NUM_DOCTORS TREATMENT_TIME T_INTER SIM_TIME
            TREAT_PROBABILITY n)).
Proof.
  apply exec_keeps.
  - apply _resume_keeps.
    + apply request_cap.
    + apply Request_exit_cap.
    + apply timeout_cap.
    + apply process_cap.
    + apply Hospital_init_cap.
    + intros s s' _ Hh _ _ _ _. apply cap_ok_same, Hh.
    + intros ev cb s Hs. unfold callbacks_append. wp_prims. cap_same.
    + intros ev s Hs. wp_prims. cap_same.
    + intros p self x s [Hs Hp]. wp_prims. split; [cap_same|exact Hp].
  - apply _trigger_put_cap.
  - apply _trigger_get_cap.
  - apply process_cap.
  - intros h. apply process_cap.
  - apply run_prologue_cap.
  - apply Hospital_init_cap.
  - intros s item q Hs _. cap_same.
  - constructor.
Qed.

(** C2: in every state the script reaches, whatever the random draws and
    the constants, each resource has at most [capacity] users. *)
Theorem in_use_le_capacity n :
  Forall (fun H => (Z.of_nat (length (users (doctor H))) <= capacity (doctor H))%Z)
    (hospitals
       (env (exec U neg_log1m NUM_DOCTORS TREATMENT_TIME T_INTER SIM_TIME
               TREAT_PROBABILITY n))).
Proof.
  eapply Forall_impl; [apply exec_cap|]. cbn. intros H [_ Hu]. exact Hu.
Qed.

(** C1, as the code has it: no round of the script changes a capacity;
    [add_doctors] included, every resource keeps the capacity
    [NUM_DOCTORS] it was created with. *)
Theorem capacity_is_constant n :
  Forall (fun H => capacity (doctor H) = NUM_DOCTORS)
    (hospitals
       (env (exec U neg_log1m NUM_DOCTORS TREATMENT_TIME T_INTER SIM_TIME
               TREAT_PROBABILITY n))).
Proof.
  eapply Forall_impl; [apply exec_cap|]. cbn. intros H [Hc _]. exact Hc.
Qed.

End Capacity.

(** ** First in, first out *)

Lemma ev_stable_refl evs : ev_stable evs evs.
Proof. split; eauto 10. Qed.

Lemma ev_stable_pending s s' h r :
  ev_stable (events s) (events s') -> pending_request s h r -> pending_request s' h r.
Proof.
  intros [H1 _] (e & He & Hk & Ht). destruct (H1 _ _ He) as (e' & He' & Hk' & Ht').
  exists e'. repeat split; [exact He'|congruence|]. rewrite Ht'; eauto.
Qed.

Lemma ev_stable_granted s s' h r :
  ev_stable (events s) (events s') -> granted s' h r -> granted s h r.
Proof. intros [_ H2] (e & He & Hk & Ht). exact (H2 _ _ _ He Hk Ht). Qed.

Lemma ev_stable_release s s' g :
  ev_stable (events s) (events s') -> is_release s g -> is_release s' g.
Proof.
  intros [H1 _] (e & h & req & He & Hk). destruct (H1 _ _ He) as (e' & He' & Hk' & _).
  exists e', h, req. split; [exact He'|congruence].
Qed.

Lemma ev_stable_process s s' ev :
  ev_stable (events s) (events s') -> is_process_event s ev -> is_process_event s' ev.
Proof.
  intros [H1 _] (e & p & He & Hk). destruct (H1 _ _ He) as (e' & He' & Hk' & _).
  exists e', p. split; [exact He'|congruence].
Qed.

(** A new event that is not a granted request. *)
Lemma ev_stable_app evs e :
  (forall h, ekind e = Request h -> triggered e = false) ->
  ev_stable evs (evs ++ [e]).
Proof.
  intros He. split.
  - intros r e0 Hr. exists e0. split; [apply lookup_app_l_Some, Hr|auto].
  - intros r e' h Hr Hk Ht.
    apply lookup_app_Some in Hr as [Hr|[_ Hr]]; [eauto|].
    apply list_lookup_singleton_Some in Hr as [_ <-].
    rewrite (He _ Hk) in Ht. discriminate.
Qed.

(** An event is changed in place, without a change to its class; if it is
    a request its [triggered] flag stays. *)
Lemma ev_stable_alter evs f ev :
  (forall e, evs !! ev = Some e ->
     ekind (f e) = ekind e /\
     ((exists h, ekind e = Request h) -> triggered (f e) = triggered e)) ->
  ev_stable evs (alter f ev evs).
Proof.
  intros Hf. split.
  - intros r e Hr. destruct (decide (ev = r)) as [->|Hne].
    + exists (f e). rewrite list_lookup_alter_eq, Hr. split; [reflexivity|].
      apply Hf, Hr.
    + exists e. rewrite list_lookup_alter_ne by exact Hne. auto.
  - intros r e' h Hr Hk Ht. destruct (decide (ev = r)) as [->|Hne].
    + rewrite list_lookup_alter_eq in Hr.
      destruct (evs !! r) as [e|] eqn:He; [|discriminate].
      cbn in Hr. injection Hr as <-.
      destruct (Hf e eq_refl) as [Hk' Ht']. exists e.
      rewrite Hk' in Hk. split; [reflexivity|]. split; [exact Hk|].
      rewrite <- Ht'; eauto.
    + rewrite list_lookup_alter_ne in Hr by exact Hne. eauto.
Qed.

Lemma ev_stable_trans a b c : ev_stable a b -> ev_stable b c -> ev_stable a c.
Proof.
  intros [A1 A2] [B1 B2]. split.
  - intros r e Hr. destruct (A1 _ _ Hr) as (e1 & H1 & K1 & T1).
    destruct (B1 _ _ H1) as (e2 & H2 & K2 & T2).
    exists e2. split; [exact H2|]. split; [congruence|].
    intros Hreq. rewrite T2, T1; auto. rewrite K1. exact Hreq.
  - intros r e' h Hr Hk Ht. destruct (B2 _ _ _ Hr Hk Ht) as (e1 & H1 & K1 & T1).
    eauto.
Qed.

Lemma StronglySorted_sublist {A} (R : relation A) (l1 l2 : list A) :
  l1 `sublist_of` l2 -> StronglySorted R l2 -> StronglySorted R l1.
Proof.
  induction 1 as [|x l1 l2 Hsub IH|x l1 l2 Hsub IH]; intros HS.
  - constructor.
  - apply StronglySorted_inv in HS as [HS HF]. constructor; [auto|].
    rewrite Forall_forall in *. intros y Hy. apply HF.
    eapply elem_of_sublist; eauto.
  - apply StronglySorted_inv in HS as [HS _]. auto.
Qed.

Lemma list_remove_sublist x l : list_remove x l `sublist_of` l.
Proof.
  induction l as [|y l IH]; cbn; [constructor|].
  destruct (y =? x)%nat; [apply sublist_cons; reflexivity|apply sublist_skip, IH].
Qed.

(** The events move on, the queues only lose members, users may change. *)
Lemma fifo_ok_shrink s s' :
  ev_stable (events s) (events s') ->
  self_event <$> procs s' = self_event <$> procs s ->
  (forall h H', hospitals s' !! h = Some H' ->
     exists H, hospitals s !! h = Some H /\
               put_queue (doctor H') `sublist_of` put_queue (doctor H) /\
               get_queue (doctor H') `sublist_of` get_queue (doctor H)) ->
  fifo_ok s -> fifo_ok s'.
Proof.
  intros Hev Hpr Hh [HQ HP]. split.
  - intros h H' HH'. destruct (Hh _ _ HH') as (H & HH & Hput & Hget).
    destruct (HQ _ _ HH) as (Q1 & Q2 & Q3 & Q4). repeat split.
    + intros r Hr. eapply ev_stable_pending; [exact Hev|].
      apply Q1. eapply elem_of_sublist; eauto.
    + eapply StronglySorted_sublist; eauto.
    + intros r q Hg Hq. apply Q3.
      * eapply ev_stable_granted; eauto.
      * eapply elem_of_sublist; eauto.
    + intros g Hg. eapply ev_stable_release; [exact Hev|].
      apply Q4. eapply elem_of_sublist; eauto.
  - intros ev Hev'. rewrite Hpr in Hev'.
    eapply ev_stable_process; [exact Hev|]. auto.
Qed.

Lemma fifo_ok_same s s' :
  events s' = events s -> hospitals s' = hospitals s ->
  self_event <$> procs s' = self_event <$> procs s ->
  fifo_ok s -> fifo_ok s'.
Proof.
  intros He Hh Hp. apply fifo_ok_shrink; [rewrite He; apply ev_stable_refl|exact Hp|].
  intros h H' HH'. rewrite Hh in HH'. exists H'. auto.
Qed.

(** The general step: events move on, processes and hospitals may be added,
    the existing put queues only lose members. *)
Lemma fifo_ok_step s s' :
  ev_stable (events s) (events s') ->
  (forall ev, ev ∈ (self_event <$> procs s') ->
     ev ∈ (self_event <$> procs s) \/ is_process_event s' ev) ->
  (forall h H', hospitals s' !! h = Some H' -> hospital_step s s' h H') ->
  fifo_ok s -> fifo_ok s'.
Proof.
  intros Hev Hpr Hh [HQ HP]. split.
  - intros h H' HH'. destruct (Hh _ _ HH') as [(H & HH & Hput & Hget)|[Hput Hget]].
    + destruct (HQ _ _ HH) as (Q1 & Q2 & Q3 & Q4). repeat split.
      * intros r Hr. eapply ev_stable_pending; [exact Hev|].
        apply Q1. eapply elem_of_sublist; eauto.
      * eapply StronglySorted_sublist; eauto.
      * intros r q Hg Hq. apply Q3.
        -- eapply ev_stable_granted; eauto.
        -- eapply elem_of_sublist; eauto.
      * intros g Hg. destruct (Hget _ Hg) as [Hold|Hnew]; [|exact Hnew].
        eapply ev_stable_release; [exact Hev|]. apply Q4, Hold.
    + unfold queue_ok. rewrite Hput, Hget. repeat split.
      * intros r Hr. inversion Hr.
      * constructor.
      * intros r q _ Hq. inversion Hq.
      * intros g Hg. inversion Hg.
  - intros ev Hev'. destruct (Hpr _ Hev') as [Hold|Hnew]; [|exact Hnew].
    eapply ev_stable_process; [exact Hev|]. auto.
Qed.

(** Hospitals after an update of hospital [h] that only shortens queues. *)
Lemma hospitals_alter_shrink s s' (F : Hospital -> Hospital) h :
  (forall H, put_queue (doctor (F H)) `sublist_of` put_queue (doctor H) /\
             get_queue (doctor (F H)) `sublist_of` get_queue (doctor H)) ->
  forall h' H', alter F h (hospitals s) !! h' = Some H' -> hospital_step s s' h' H'.
Proof.
  intros Hf h' H' Hl. left. rewrite list_lookup_alter in Hl.
  destruct (decide (h = h')) as [->|Hne].
  - destruct (hospitals s !! h') as [H|]; [|discriminate].
    cbn in Hl. injection Hl as <-.
    exists H. split; [reflexivity|]. split; [apply Hf|].
    intros g Hg. left. eapply elem_of_sublist; [exact Hg|apply Hf].
  - exists H'. split; [exact Hl|]. split; [reflexivity|auto].
Qed.

Lemma hospitals_same_shrink s s' :
  forall h' H', hospitals s !! h' = Some H' -> hospital_step s s' h' H'.
Proof.
  intros h' H' Hl. left. exists H'. split; [exact Hl|]. split; [reflexivity|auto].
Qed.

(** Hospitals after a release event has joined the get queue of [h]. *)
Lemma hospitals_alter_get s s' h g :
  is_release s' g ->
  forall h' H',
    alter (fun H => mkHospital (set_get_queue (get_queue (doctor H) ++ [g]) (doctor H))
                      (treatment_time H)) h (hospitals s) !! h' = Some H' ->
    hospital_step s s' h' H'.
Proof.
  intros Hg h' H' Hl. left. rewrite list_lookup_alter in Hl.
  destruct (decide (h = h')) as [->|Hne].
  - destruct (hospitals s !! h') as [H|]; [|discriminate].
    cbn in Hl. injection Hl as <-.
    exists H. split; [reflexivity|]. cbn. split; [reflexivity|].
    intros g' Hg'. apply elem_of_app in Hg' as [Hg'|Hg']; [left; exact Hg'|right].
    apply list_elem_of_singleton in Hg' as ->. exact Hg.
  - exists H'. split; [exact Hl|]. split; [reflexivity|auto].
Qed.

Lemma tail_sublist {A} (l : list A) : tail l `sublist_of` l.
Proof. destruct l; cbn; [reflexivity|]. apply sublist_cons. reflexivity. Qed.

(** Changes of an event that leave its class and its [triggered] flag. *)
Lemma ev_stable_alter_quiet evs f ev :
  (forall e, ekind (f e) = ekind e /\ triggered (f e) = triggered e) ->
  ev_stable evs (alter f ev evs).
Proof.
  intros Hf. apply ev_stable_alter. intros e _.
  destruct (Hf e) as [-> ->]. auto.
Qed.

(** Discharging the side conditions of [fifo_ok_step] on a state obtained by
    symbolic execution. *)
Ltac fifo_events :=
  cbn;
  repeat first
    [ apply ev_stable_refl
    | apply ev_stable_alter_quiet; intros ?; cbn; split; reflexivity
    | apply ev_stable_app; cbn; intros; (reflexivity || discriminate)
    | eapply ev_stable_trans;
      [| apply ev_stable_alter_quiet; intros ?; cbn; split; reflexivity ]
    | eapply ev_stable_trans;
      [| apply ev_stable_app; cbn; intros; (reflexivity || discriminate) ] ].

Ltac fifo_procs :=
  cbn; intros ? ?; left; assumption.

Ltac fifo_hospitals :=
  cbn;
  first
    [ apply hospitals_same_shrink
    | apply hospitals_alter_shrink; intros ?; cbn; split;
      first [ reflexivity | apply tail_sublist | apply list_remove_sublist ] ].

Ltac fifo_quiet :=
  idtac;
  lazymatch goal with
  | H : fifo_ok ?s |- fifo_ok _ =>
      solve [ exact H
            | apply (fifo_ok_step s);
              [ fifo_events | fifo_procs | fifo_hospitals | exact H ] ]
  end.

Lemma timeout_fifo d : keeps fifo_ok (timeout d).
Proof. intros s Hs. unfold timeout. wp_prims; fifo_quiet. Qed.

Lemma run_prologue_fifo until : keeps fifo_ok (run_prologue until).
Proof. intros s Hs. unfold run_prologue. wp_prims; fifo_quiet. Qed.

Lemma callbacks_append_fifo ev cb : keeps fifo_ok (callbacks_append ev cb).
Proof. intros s Hs. wp_prims. fifo_quiet. Qed.

Lemma defused_fifo ev : keeps fifo_ok (update_event ev set_defused).
Proof. intros s Hs. wp_prims. fifo_quiet. Qed.

Lemma pop_fifo s item q :
  fifo_ok s ->
  fifo_ok (set_events (alter (set_callbacks None) (e_event item) (events s))
             (set_now (e_time item) (set_queue q s))).
Proof. intros Hs. fifo_quiet. Qed.

Lemma Hospital_init_fifo n tm : keeps fifo_ok (Hospital_init n tm).
Proof.
  intros s Hs. unfold Hospital_init. wp_prims; [exact Hs|].
  apply (fifo_ok_step s); [fifo_events|fifo_procs| |exact Hs].
  cbn. intros h H' HH'.
  apply lookup_app_Some in HH' as [HH'|[_ HH']].
  - apply hospitals_same_shrink, HH'.
  - right. apply list_lookup_singleton_Some in HH' as [_ <-]. auto.
Qed.

Lemma process_fifo g : keeps fifo_ok (process g).
Proof.
  intros s Hs. unfold process. wp_prims.
  apply (fifo_ok_step s); [fifo_events| |fifo_hospitals|exact Hs].
  cbn. intros ev Hev. rewrite fmap_app in Hev.
  apply elem_of_app in Hev as [Hev|Hev]; [left; exact Hev|right].
  cbn in Hev. apply list_elem_of_singleton in Hev as ->.
  eexists _, _. split.
  - apply lookup_app_l_Some. apply list_lookup_middle. reflexivity.
  - reflexivity.
Qed.

(** [succeed] or a process's end on an event that is not a request. *)
Lemma ev_stable_outcome evs ev x :
  (forall e h, evs !! ev = Some e -> ekind e <> Request h) ->
  ev_stable evs (alter (set_outcome x) ev evs).
Proof.
  intros Hk. apply ev_stable_alter. intros e He. split; [reflexivity|].
  intros [h Hh]. destruct (Hk _ _ He Hh).
Qed.

Lemma process_ends_fifo p self x :
  keeps (with_process fifo_ok p self) (process_ends self x).
Proof.
  intros s [Hs Hp]. wp_prims. split; [|exact Hp].
  apply (fifo_ok_step s); [|fifo_procs|fifo_hospitals|exact Hs].
  cbn. apply ev_stable_outcome. intros e h He Hk.
  destruct Hs as [_ HP].
  destruct (HP self) as (e' & p' & He' & Hk').
  { apply list_elem_of_lookup. eauto. }
  congruence.
Qed.

Lemma _do_get_fifo h ev s :
  is_release s ev -> fifo_ok s -> wp (_do_get h ev) (fun _ s' => fifo_ok s') s.
Proof.
  intros (e & h0 & req & He & Hk) Hs. unfold _do_get.
  assert (Hst : forall x,
             ev_stable (events s) (alter (set_outcome x) ev (events s))).
  { intros x. apply ev_stable_outcome. intros e' h' He' Hk'. congruence. }
  wp_prims;
    (apply (fifo_ok_step s); [apply Hst|fifo_procs|fifo_hospitals|exact Hs]).
Qed.

Lemma the_hospital_put_queue s h r rest :
  put_queue (doctor (the_hospital s h)) = r :: rest ->
  hospitals s !! h = Some (the_hospital s h).
Proof.
  unfold the_hospital. rewrite list_lookup_total_alt.
  destruct (hospitals s !! h); [reflexivity|discriminate].
Qed.

Lemma the_hospital_get_queue s h r rest :
  get_queue (doctor (the_hospital s h)) = r :: rest ->
  hospitals s !! h = Some (the_hospital s h).
Proof.
  unfold the_hospital. rewrite list_lookup_total_alt.
  destruct (hospitals s !! h); [reflexivity|discriminate].
Qed.

Lemma _trigger_get_fifo h : keeps fifo_ok (_trigger_get h).
Proof.
  intros s Hs. unfold _trigger_get. apply wp_bind, wp_get.
  destruct (get_queue (doctor (the_hospital s h))) as [|g rest] eqn:Hq;
    [exact Hs|].
  assert (Hg : is_release s g).
  { pose proof (the_hospital_get_queue _ _ _ _ Hq) as HH.
    destruct Hs as [HQ _]. destruct (HQ _ _ HH) as (_ & _ & _ & Q4).
    apply Q4. rewrite Hq. apply list_elem_of_here. }
  apply wp_bind. eapply wp_mono; [apply _do_get_fifo; [exact Hg|exact Hs]|].
  cbn beta. intros _ s1 Hs1. wp_prims; fifo_quiet.
Qed.

Lemma release_fifo h req : keeps fifo_ok (release h req).
Proof.
  intros s Hs. unfold release. wp_prims.
  wp_keep _trigger_get_fifo idtac.
  { apply (fifo_ok_step s); [fifo_events|fifo_procs| |exact Hs].
    cbn. apply hospitals_alter_get.
    eexists _, _, _. split.
    - cbn. rewrite list_lookup_alter_eq, list_lookup_middle by reflexivity.
      reflexivity.
    - reflexivity. }
  wp_prims. assumption.
Qed.

Lemma Request_exit_fifo h req : keeps fifo_ok (Request_exit h req).
Proof.
  intros s Hs. unfold Request_exit. wp_prims.
  - wp_keep release_fifo assumption. wp_prims. assumption.
  - wp_keep release_fifo fifo_quiet. wp_prims. assumption.
Qed.

(** A new request joins the put queue of the resource of [h]. *)
Lemma fifo_ok_enqueue s s' h e :
  ekind e = Request h -> triggered e = false ->
  ev_stable (events s ++ [e]) (events s') ->
  self_event <$> procs s' = self_event <$> procs s ->
  hospitals s' =
    alter (fun H => mkHospital
                      (set_put_queue (put_queue (doctor H) ++ [length (events s)])
                         (doctor H))
                      (treatment_time H)) h (hospitals s) ->
  fifo_ok s -> fifo_ok s'.
Proof.
  intros Hk Ht Hev Hpr Hh [HQ HP].
  set (s1 := set_events (events s ++ [e]) s).
  assert (Hev1 : ev_stable (events s) (events s1)).
  { apply ev_stable_app. intros h0 _. exact Ht. }
  assert (Hev' : ev_stable (events s1) (events s')) by exact Hev.
  assert (Hnew : pending_request s1 h (length (events s))).
  { exists e. split; [apply list_lookup_middle; reflexivity|auto]. }
  assert (Hgr : forall h' r, granted s' h' r ->
                  granted s h' r /\ r < length (events s)).
  { intros h' r Hg. apply (ev_stable_granted s1) in Hg; [|exact Hev'].
    destruct Hg as (e0 & He0 & Hk0 & Ht0). cbn in He0.
    apply lookup_app_Some in He0 as [He0|[_ He0]].
    - split; [exists e0; auto|]. eapply lookup_lt_Some, He0.
    - apply list_lookup_singleton_Some in He0 as [_ <-]. congruence. }
  split.
  - intros h' H' HH'. rewrite Hh, list_lookup_alter in HH'.
    destruct (decide (h = h')) as [<-|Hne].
    + destruct (hospitals s !! h) as [H|] eqn:HH; [|discriminate].
      cbn in HH'. injection HH' as <-.
      destruct (HQ _ _ HH) as (Q1 & Q2 & Q3 & Q4). cbn. repeat split.
      * intros r Hr. eapply ev_stable_pending; [exact Hev'|].
        apply elem_of_app in Hr as [Hr|Hr].
        -- eapply ev_stable_pending; [exact Hev1|]. auto.
        -- apply list_elem_of_singleton in Hr as ->. exact Hnew.
      * apply StronglySorted_app_2; [|exact Q2|repeat constructor].
        intros x1 x2 Hx1 Hx2. apply list_elem_of_singleton in Hx2 as ->.
        destruct (Q1 _ Hx1) as (e1 & He1 & _). eapply lookup_lt_Some, He1.
      * intros r q Hg Hq. destruct (Hgr _ _ Hg) as [Hg0 Hlt].
        apply elem_of_app in Hq as [Hq|Hq]; [eauto|].
        apply list_elem_of_singleton in Hq as ->. exact Hlt.
      * intros g Hg. eapply ev_stable_release; [exact Hev'|].
        eapply ev_stable_release; [exact Hev1|]. auto.
    + destruct (HQ _ _ HH') as (Q1 & Q2 & Q3 & Q4). repeat split.
      * intros r Hr. eapply ev_stable_pending; [exact Hev'|].
        eapply ev_stable_pending; [exact Hev1|]. auto.
      * exact Q2.
      * intros r q Hg Hq. destruct (Hgr _ _ Hg) as [Hg0 _]. eauto.
      * intros g Hg. eapply ev_stable_release; [exact Hev'|].
        eapply ev_stable_release; [exact Hev1|]. auto.
  - intros ev Hin. rewrite Hpr in Hin.
    eapply ev_stable_process; [exact Hev'|].
    eapply ev_stable_process; [exact Hev1|]. auto.
Qed.

(** The head of the put queue of the resource of [h] is granted a slot and
    leaves the queue. *)
Lemma fifo_ok_grant s s' h H r rest :
  fifo_ok s ->
  hospitals s !! h = Some H -> put_queue (doctor H) = r :: rest ->
  events s' = alter (set_outcome None) r (events s) ->
  self_event <$> procs s' = self_event <$> procs s ->
  (forall h' H', hospitals s' !! h' = Some H' ->
     exists H0, hospitals s !! h' = Some H0 /\
                get_queue (doctor H') = get_queue (doctor H0) /\
                put_queue (doctor H') =
                  if decide (h' = h) then tail (put_queue (doctor H0))
                  else put_queue (doctor H0)) ->
  fifo_ok s'.
Proof.
  intros [HQ HP] HH Hq Hev Hpr Hh.
  destruct (HQ _ _ HH) as (Q1 & Q2 & Q3 & Q4).
  destruct (Q1 r) as (er & Her & Hkr & Htr); [rewrite Hq; apply list_elem_of_here|].
  rewrite Hq in Q2. apply StronglySorted_inv in Q2 as [Q2 Hlt].
  rewrite Forall_forall in Hlt.
  assert (Hkind : forall ev e, events s !! ev = Some e ->
            exists e', events s' !! ev = Some e' /\ ekind e' = ekind e).
  { intros ev e He. rewrite Hev. destruct (decide (r = ev)) as [->|Hne].
    - exists (set_outcome None e). rewrite list_lookup_alter_eq, He. auto.
    - exists e. rewrite list_lookup_alter_ne by exact Hne. auto. }
  assert (Hpend : forall h' q, q <> r -> pending_request s h' q ->
                    pending_request s' h' q).
  { intros h' q Hne (e & He & Hk & Ht). exists e.
    rewrite Hev, list_lookup_alter_ne by auto. auto. }
  assert (Hgr : forall h' r2, granted s' h' r2 ->
                  (r2 = r /\ h' = h) \/ granted s h' r2).
  { intros h' r2 (e & He & Hk & Ht). rewrite Hev in He.
    destruct (decide (r = r2)) as [<-|Hne].
    - left. split; [reflexivity|].
      rewrite list_lookup_alter_eq, Her in He. cbn in He. injection He as <-.
      cbn in Hk. congruence.
    - right. rewrite list_lookup_alter_ne in He by exact Hne. exists e. auto. }
  assert (Hrel : forall g, is_release s g -> is_release s' g).
  { intros g (e & h0 & req & He & Hk). destruct (Hkind _ _ He) as (e' & He' & Hk').
    exists e', h0, req. split; [exact He'|congruence]. }
  split.
  - intros h' H' HH'. destruct (Hh _ _ HH') as (H0 & HH0 & Hget & Hput).
    unfold queue_ok. rewrite Hget, Hput.
    destruct (decide (h' = h)) as [->|Hne].
    + assert (H0 = H) as -> by congruence. rewrite Hq. cbn. repeat split.
      * intros q Hin. apply Hpend.
        -- specialize (Hlt _ Hin). lia.
        -- apply Q1. rewrite Hq. apply list_elem_of_further, Hin.
      * exact Q2.
      * intros r2 q Hg Hin. destruct (Hgr _ _ Hg) as [[-> _]|Hg0].
        -- apply Hlt, Hin.
        -- apply Q3; [exact Hg0|]. rewrite Hq. apply list_elem_of_further, Hin.
      * intros g Hg. apply Hrel, Q4, Hg.
    + destruct (HQ _ _ HH0) as (P1 & P2 & P3 & P4). repeat split.
      * intros q Hin. apply Hpend; [|auto].
        intros ->. destruct (P1 _ Hin) as (e & He & Hk & _). congruence.
      * exact P2.
      * intros r2 q Hg Hin. destruct (Hgr _ _ Hg) as [[_ ->]|Hg0]; [congruence|].
        eauto.
      * intros g Hg. apply Hrel, P4, Hg.
  - intros ev Hin. rewrite Hpr in Hin.
    destruct (HP _ Hin) as (e & p & He & Hk).
    destruct (Hkind _ _ He) as (e' & He' & Hk').
    exists e', p. split; [exact He'|congruence].
Qed.

Lemma _trigger_put_fifo h : keeps fifo_ok (_trigger_put h).
Proof.
  intros s Hs. unfold _trigger_put. apply wp_bind, wp_get.
  destruct (put_queue (doctor (the_hospital s h))) as [|r rest] eqn:Hq;
    [exact Hs|].
  pose proof (the_hospital_put_queue _ _ _ _ Hq) as HH.
  assert (Hr : pending_request s h r).
  { destruct Hs as [HQ _]. destruct (HQ _ _ HH) as (Q1 & _).
    apply Q1. rewrite Hq. apply list_elem_of_here. }
  destruct Hr as (er & Her & Hkr & Htr).
  unfold _do_put. wp_prims.
  all: try solve
    [ exfalso; unfold the_event in *; cbn in *;
      rewrite ?(list_lookup_total_correct _ _ _ Her) in *; congruence
    | exfalso; unfold the_event in *; cbn in *;
      match goal with
      | H : triggered (alter _ _ _ !!! _) = false |- _ =>
          rewrite list_lookup_total_alter_eq in H by (eapply lookup_lt_Some, Her);
          discriminate
      end ].
  - (* a slot is free: the head is granted and leaves the queue *)
    eapply (fifo_ok_grant s); [exact Hs|exact HH|exact Hq|reflexivity|reflexivity|].
    cbn. intros h' H' HH'.
    destruct (decide (h = h')) as [<-|Hne].
    + rewrite !list_lookup_alter_eq, HH in HH'. cbn in HH'. injection HH' as <-.
      exists (the_hospital s h). rewrite decide_True by reflexivity. auto.
    + rewrite !list_lookup_alter_ne in HH' by exact Hne.
      exists H'. rewrite decide_False by auto. auto.
  - exact Hs.
Qed.

Lemma request_fifo h : keeps fifo_ok (request h).
Proof.
  intros s Hs. unfold request. wp_prims.
  wp_keep _trigger_put_fifo idtac; [|wp_prims; assumption].
  eapply (fifo_ok_enqueue s _ h (mkEvent (Some []) false None false (Request h)));
    [| | | | |exact Hs]; cbn;
    [reflexivity|reflexivity| |reflexivity|reflexivity].
  apply ev_stable_alter_quiet. intros e0. split; reflexivity.
Qed.

Section Fifo.

Variable U : nat -> Q.
Variable neg_log1m : Q -> Q.
Variable NUM_DOCTORS : Z.
Variables TREATMENT_TIME T_INTER SIM_TIME TREAT_PROBABILITY : Q.

Lemma exec_fifo n :
  fifo_ok
    (env (exec U neg_log1m NUM_DOCTORS TREATMENT_TIME T_INTER SIM_TIME
            TREAT_PROBABILITY n)).
Proof.
  apply exec_keeps.
  - apply _resume_keeps.
    + apply request_fifo.
    + apply Request_exit_fifo.
    + apply timeout_fifo.
    + apply process_fifo.
    + apply Hospital_init_fifo.
    + intros s s' He Hh _ _ _ Hp. apply fifo_ok_same; assumption.
    + apply callbacks_append_fifo.
    + apply defused_fifo.
    + apply process_ends_fifo.
  - apply _trigger_put_fifo.
  - apply _trigger_get_fifo.
  - apply process_fifo.
  - intros h. apply process_fifo.
  - apply run_prologue_fifo.
  - apply Hospital_init_fifo.
  - intros s item q Hs _. apply pop_fifo, Hs.
  - split.
    + intros h H HH. inversion HH.
    + intros ev Hev. inversion Hev.
Qed.

(** C3: in every state the script reaches, the put queue of each resource
    lists its waiting requests in the order of their creation, and no request
    of the resource that has been granted a slot was created after a request
    that is still waiting. *)
Theorem fifo_no_overtaking n h H :
  hospitals
    (env (exec U neg_log1m NUM_DOCTORS TREATMENT_TIME T_INTER SIM_TIME
            TREAT_PROBABILITY n)) !! h = Some H ->
  StronglySorted lt (put_queue (doctor H)) /\
  forall waiting served,
    waiting ∈ put_queue (doctor H) ->
    granted
      (env (exec U neg_log1m NUM_DOCTORS TREATMENT_TIME T_INTER SIM_TIME
              TREAT_PROBABILITY n)) h served ->
    pending_request
      (env (exec U neg_log1m NUM_DOCTORS TREATMENT_TIME T_INTER SIM_TIME
              TREAT_PROBABILITY n)) h waiting /\
    served < waiting.
Proof.
  intros HH. destruct (exec_fifo n) as [HQ _].
  destruct (HQ _ _ HH) as (Q1 & Q2 & Q3 & _).
  split; [exact Q2|]. intros waiting served Hw Hg. split; [auto|eauto].
Qed.

End Fifo.

(** ** Counting patients *)

Lemma frame_count_hole p a c b s s' :
  frame s s' -> count_hole p a c b s -> count_hole p a c b s'.
Proof.
  intros (_ & A & T & L & _ & _ & P & _). unfold count_hole, count_of.
  rewrite A, T, L, P. auto.
Qed.

Lemma frame_count s s' : frame s s' -> count_ok s -> count_ok s'.
Proof.
  intros (_ & A & T & L & _ & _ & P & _). unfold count_ok, count_of.
  rewrite A, T, L, P. auto.
Qed.

Lemma fresh_count f g ev :
  fresh g -> f P_start = 0 -> patient_count f (mkProcess g ev) = 0.
Proof. destruct g as [? ? []| | |]; cbn; intros [] ?; auto. Qed.

Lemma process_count_hole p a c b g :
  fresh g -> keeps (count_hole p a c b) (process g).
Proof.
  intros Hg s (P & HP & H1 & H2 & H3). unfold process. wp_prims.
  exists P. unfold count_of in *. cbn. rewrite !sum_list_with_app. cbn.
  rewrite !fresh_count by auto.
  split; [apply lookup_app_l_Some, HP|]. lia.
Qed.

Lemma process_count g : fresh g -> keeps count_ok (process g).
Proof.
  intros Hg s (H1 & H2 & H3). unfold process. wp_prims.
  unfold count_ok, count_of in *. cbn. rewrite !sum_list_with_app. cbn.
  rewrite !fresh_count by auto. lia.
Qed.

(** [process] is a frame once the new process is in the table. *)
Lemma process_frame g s :
  wp (process g)
     (fun ev s' => frame (set_procs (procs s ++ [mkProcess g ev]) s) s') s.
Proof.
  unfold process. wp_prims. unfold frame. cbn. repeat split.
  eexists. split; [reflexivity|]. repeat constructor. cbn. apply Qle_plus_0.
Qed.

(** Turning the frames in the context into equations between the fields of
    the states, and rewriting the goal with them. *)
Ltac frame_eqs :=
  repeat lazymatch goal with
  | H : frame _ _ |- _ => destruct H as (_ & ? & ? & ? & ? & ? & ? & _)
  end;
  cbn in *;
  repeat match goal with
  | H : ?f ?x = _ |- _ => is_var x; progress rewrite H
  end.

(** The counts after a change of the lists or of the hole. *)
Ltac count_solve :=
  idtac;
  lazymatch goal with
  | H : count_hole ?p _ _ _ ?s |- count_hole ?p _ _ _ _ =>
      let P := fresh "P" in
      let HP := fresh "HP" in
      destruct H as (P & HP & ? & ? & ?);
      exists P; unfold count_of in *; frame_eqs;
      rewrite ?length_app, ?sum_list_with_app; cbn;
      split; [first [exact HP | apply lookup_app_l_Some, HP]|lia]
  end.

Lemma Hospital_init_count_hole p a c b n tm :
  keeps (count_hole p a c b) (Hospital_init n tm).
Proof. eauto using keeps_frame, Hospital_init_frame, frame_count_hole. Qed.

Section Count.

Variable U : nat -> Q.
Variable neg_log1m : Q -> Q.
Variable NUM_DOCTORS : Z.
Variables TREATMENT_TIME T_INTER SIM_TIME TREAT_PROBABILITY : Q.

Lemma patient_count_hole p name h pc r s :
  count_hole p (started_pc pc) (raised_pc pc) (resolved_pc pc) s ->
  wp (patient U TREAT_PROBABILITY name h pc r)
     (fun res s' =>
        count_hole p (started_pc (fst res)) (raised_pc (fst res))
          (resolved_pc (fst res)) s') s.
Proof.
  intros Hs. unfold patient, random.
  destruct r, pc; wp_prims; try count_solve.
  all: first [ wp_frame request_frame
             | wp_frame process_frame
             | wp_frame Request_exit_frame ].
  all: wp_prims; count_solve.
Qed.

Lemma treat_count_hole p a c b h name pc r :
  keeps (count_hole p a c b) (treat U neg_log1m h name pc r).
Proof.
  intros s Hs. unfold treat, expovariate, random.
  destruct r, pc; wp_prims; try count_solve.
  wp_frame timeout_frame. wp_prims; count_solve.
Qed.

Lemma setup_loop_count_hole p a c b h i :
  keeps (count_hole p a c b) (setup_loop U neg_log1m T_INTER h i).
Proof.
  intros s Hs. unfold setup_loop, expovariate, random.
  wp_prims; try count_solve.
  wp_frame timeout_frame. wp_prims; count_solve.
Qed.

Lemma setup_count_hole p a c b pc r :
  keeps (count_hole p a c b)
    (setup U neg_log1m NUM_DOCTORS TREATMENT_TIME T_INTER pc r).
Proof.
  intros s Hs. unfold setup.
  destruct r, pc; wp_prims; try count_solve.
  - wp_keep Hospital_init_count_hole eassumption. wp_prims; [assumption|].
    eapply wp_mono.
    { eapply keeps_for_each; [|eassumption].
      intros x. apply keeps_bind; [apply process_count_hole; exact I|].
      intros ?. apply keeps_ret. }
    cbn beta. intros _ s1 Hs1. apply setup_loop_count_hole, Hs1.
  - wp_frame process_frame. apply setup_loop_count_hole. count_solve.
Qed.

Lemma add_doctors_loop_count_hole p a c b h n :
  keeps (count_hole p a c b) (add_doctors_loop h n).
Proof.
  intros s Hs. unfold add_doctors_loop.
  destruct n; wp_prims; try count_solve.
  wp_frame request_frame. wp_frame timeout_frame. wp_prims; count_solve.
Qed.

Lemma add_doctors_count_hole p a c b h n pc r :
  keeps (count_hole p a c b) (add_doctors h n pc r).
Proof.
  intros s Hs. unfold add_doctors.
  destruct r, pc; wp_prims; try count_solve;
    apply add_doctors_loop_count_hole; count_solve.
Qed.

Lemma resume_generator_count_hole p g r s :
  count_hole p (gen_count started_pc g) (gen_count raised_pc g)
    (gen_count resolved_pc g) s ->
  wp (resume_generator U neg_log1m NUM_DOCTORS TREATMENT_TIME T_INTER
        TREAT_PROBABILITY g r)
     (fun res s' =>
        count_hole p (gen_count started_pc (fst res))
          (gen_count raised_pc (fst res)) (gen_count resolved_pc (fst res)) s') s.
Proof.
  intros Hs. unfold resume_generator. destruct g; cbn in Hs; wp_prims.
  - eapply wp_mono; [apply patient_count_hole, Hs|]. cbn beta. intros.
    wp_prims. assumption.
  - wp_keep treat_count_hole eassumption. wp_prims. assumption.
  - wp_keep setup_count_hole eassumption. wp_prims. assumption.
  - wp_keep add_doctors_count_hole eassumption. wp_prims. assumption.
Qed.

Lemma sum_list_with_alter {A} (f : A -> nat) (F : A -> A) (l : list A) p x :
  l !! p = Some x ->
  sum_list_with f (alter F p l) + f x = sum_list_with f l + f (F x).
Proof.
  revert p. induction l as [|y l IH]; intros [|p] Hp; cbn in *; try discriminate.
  - injection Hp as ->. lia.
  - specialize (IH _ Hp). lia.
Qed.

Lemma _resume_count p ev :
  keeps count_ok
    (_resume U neg_log1m NUM_DOCTORS TREATMENT_TIME T_INTER TREAT_PROBABILITY
       p ev).
Proof.
  intros s Hs. unfold _resume. apply wp_bind, wp_get.
  destruct (procs s !! p) as [P|] eqn:HP; [|exact Hs].
  assert (HJ : count_hole p (gen_count started_pc (_generator P))
                 (gen_count raised_pc (_generator P))
                 (gen_count resolved_pc (_generator P)) s).
  { exists P. destruct Hs as (H1 & H2 & H3). unfold patient_count.
    split; [exact HP|]. lia. }
  apply wp_bind.
  apply (wp_mono _ (fun _ s' =>
           count_hole p (gen_count started_pc (_generator P))
             (gen_count raised_pc (_generator P))
             (gen_count resolved_pc (_generator P)) s')).
  { destruct (exc (the_event s ev)); wp_prims; count_solve. }
  cbn beta. intros r s1 HJ1. apply wp_bind.
  eapply wp_mono; [apply resume_generator_count_hole, HJ1|].
  cbn beta. intros res s2 (P2 & HP2 & H1 & H2 & H3).
  apply wp_bind. unfold set_generator. apply wp_modify.
  match goal with |- wp _ _ ?s3 => assert (Hs3 : count_ok s3) end.
  { unfold count_ok, count_of in *. cbn.
    pose proof (sum_list_with_alter (patient_count started_pc)
                  (fun P => mkProcess (fst res) (self_event P)) _ _ _ HP2).
    pose proof (sum_list_with_alter (patient_count raised_pc)
                  (fun P => mkProcess (fst res) (self_event P)) _ _ _ HP2).
    pose proof (sum_list_with_alter (patient_count resolved_pc)
                  (fun P => mkProcess (fst res) (self_event P)) _ _ _ HP2).
    unfold patient_count in *. cbn in *. lia. }
  wp_prims; (eapply frame_count; [|exact Hs3]); frame_close.
Qed.

Lemma _trigger_put_count h : keeps count_ok (_trigger_put h).
Proof. eauto using keeps_frame, _trigger_put_frame, frame_count. Qed.
Lemma _trigger_get_count h : keeps count_ok (_trigger_get h).
Proof. eauto using keeps_frame, _trigger_get_frame, frame_count. Qed.
Lemma Hospital_init_count n tm : keeps count_ok (Hospital_init n tm).
Proof. eauto using keeps_frame, Hospital_init_frame, frame_count. Qed.

Lemma run_prologue_frame until s :
  wp (run_prologue until) (fun _ s' => frame s s') s.
Proof.
  unfold run_prologue. wp_prims; [apply frame_refl|].
  apply (frame_trans _ (set_eid (S (eid s))
           (set_queue (queue s ++ [mkEntry (now s + (until - now s)) URGENT
                                     (eid s) (length (events s))]) s))).
  - apply frame_schedule.
    unfold Qminus. rewrite <- Qle_minus_iff. apply Qlt_le_weak, Qnot_le_lt.
    intros Hle. apply Qle_bool_iff in Hle. congruence.
  - apply frame_same; reflexivity.
Qed.

Lemma run_prologue_count until : keeps count_ok (run_prologue until).
Proof. eauto using keeps_frame, run_prologue_frame, frame_count. Qed.

Lemma exec_count n :
  count_ok
    (env (exec U neg_log1m NUM_DOCTORS TREATMENT_TIME T_INTER SIM_TIME
            TREAT_PROBABILITY n)).
Proof.
  apply exec_keeps.
  - apply _resume_count.
  - apply _trigger_put_count.
  - apply _trigger_get_count.
  - apply process_count. exact I.
  - intros h. apply process_count. exact I.
  - apply run_prologue_count.
  - apply Hospital_init_count.
  - intros s item q Hs _. exact Hs.
  - repeat split; cbn; lia.
Qed.

(** When every patient process has left its [with] block normally, the
    three counts of patients agree. *)
Lemma counts_all_returned (l : list process_obj) :
  forallb (fun P => patient_returned (_generator P)) l = true ->
  sum_list_with (patient_count started_pc) l = sum_list_with (patient_count resolved_pc) l /\
  sum_list_with (patient_count raised_pc) l = 0.
Proof.
  induction l as [|P l IH]; cbn; [auto|].
  intros Hall. apply andb_true_iff in Hall as [HP Hl].
  destruct (IH Hl) as [IH1 IH2]. rewrite IH1, IH2.
  unfold patient_count, gen_count.
  destruct (_generator P) as [name h []| | |]; cbn in HP; try discriminate; auto.
Qed.

(** C6: in a state of the script in which every patient process has
    returned, the patients treated and the patients who left without
    treatment add up to the arrivals. *)
Theorem treated_plus_abandoned_is_total n :
  all_returned
    (env (exec U neg_log1m NUM_DOCTORS TREATMENT_TIME T_INTER SIM_TIME
            TREAT_PROBABILITY n)) = true ->
  treated_count
    (env (exec U neg_log1m NUM_DOCTORS TREATMENT_TIME T_INTER SIM_TIME
            TREAT_PROBABILITY n))
  + left_without_treatment_count
      (env (exec U neg_log1m NUM_DOCTORS TREATMENT_TIME T_INTER SIM_TIME
              TREAT_PROBABILITY n))
  = total_patients
      (env (exec U neg_log1m NUM_DOCTORS TREATMENT_TIME T_INTER SIM_TIME
              TREAT_PROBABILITY n)).
Proof.
  intros Hall. destruct (exec_count n) as (H1 & H2 & H3).
  destruct (counts_all_returned _ Hall) as [E1 E2].
  unfold count_of in *. unfold treated_count, left_without_treatment_count,
    total_patients. lia.
Qed.

End Count.

(** ** A run in which nobody is treated *)

Lemma frame_quiet s s' : frame s s' -> quiet_ok s -> quiet_ok s'.
Proof.
  intros (_ & _ & T & L & W & _ & P & _). unfold quiet_ok.
  rewrite T, L, W, P. auto.
Qed.

Lemma frame_quiet_hole p s s' : frame s s' -> quiet_hole p s -> quiet_hole p s'.
Proof.
  intros (_ & _ & T & L & W & _ & P & _). unfold quiet_hole.
  rewrite T, L, W, P. auto.
Qed.

Lemma calm_app p (l new : list process_obj) :
  (forall i P, l !! i = Some P -> i <> p -> calm (_generator P)) ->
  Forall (fun P => calm (_generator P)) new ->
  forall i P, (l ++ new) !! i = Some P -> i <> p -> calm (_generator P).
Proof.
  intros Hl Hnew i P Hi Hne. apply lookup_app_Some in Hi as [Hi|[_ Hi]]; [eauto|].
  rewrite Forall_forall in Hnew. apply Hnew. eapply list_elem_of_lookup_2, Hi.
Qed.

Ltac quiet_solve :=
  idtac;
  lazymatch goal with
  | H : quiet_hole ?p ?s |- quiet_hole ?p _ =>
      let T := fresh "T" in let C := fresh "C" in let L := fresh "L" in
      destruct H as (T & C & L);
      unfold quiet_hole; frame_eqs; rewrite ?length_app; cbn;
      split; [first [assumption|reflexivity|congruence]|split; [|lia]];
      first [ exact C
            | apply calm_app; [exact C|]; repeat constructor ]
  end.

Lemma process_quiet_hole p g : calm g -> keeps (quiet_hole p) (process g).
Proof.
  intros Hg s Hs. wp_frame process_frame. quiet_solve. exact Hg.
Qed.

Lemma process_quiet g : calm g -> keeps quiet_ok (process g).
Proof.
  intros Hg s (T & C & L). wp_frame process_frame.
  unfold quiet_ok. frame_eqs. split; [reflexivity|]. split; [|exact L].
  apply Forall_app. split; [exact C|]. repeat constructor. exact Hg.
Qed.

Lemma Hospital_init_quiet_hole p n tm : keeps (quiet_hole p) (Hospital_init n tm).
Proof. eauto using keeps_frame, Hospital_init_frame, frame_quiet_hole. Qed.

Section Quiet.

Variable U : nat -> Q.
Variable neg_log1m : Q -> Q.
Variable NUM_DOCTORS : Z.
Variables TREATMENT_TIME T_INTER SIM_TIME : Q.

(** [random.random()] returns a value of [[0.0, 1.0)]. *)
Hypothesis U_nonneg : forall i, (0 <= U i)%Q.

Lemma patient_quiet_hole p name h pc r s :
  calm (G_patient name h pc) -> quiet_hole p s ->
  wp (patient U 0 name h pc r)
     (fun res s' => quiet_hole p s' /\ calm (G_patient name h (fst res))) s.
Proof.
  intros Hcalm Hs. unfold patient, random.
  destruct r, pc; try destruct Hcalm; wp_prims;
    try (split; [quiet_solve|exact I]).
  all: try (exfalso; apply Qltb_true in Heqb;
            exact (Qlt_not_le _ _ Heqb (U_nonneg _))).
  all: first [ wp_frame request_frame | wp_frame Request_exit_frame ].
  all: wp_prims; (split; [quiet_solve|exact I]).
Qed.

Lemma setup_loop_quiet_hole p h i :
  keeps (quiet_hole p) (setup_loop U neg_log1m T_INTER h i).
Proof.
  intros s Hs. unfold setup_loop, expovariate, random.
  wp_prims; try quiet_solve.
  wp_frame timeout_frame. wp_prims; quiet_solve.
Qed.

Lemma setup_quiet_hole p pc r :
  keeps (quiet_hole p)
    (setup U neg_log1m NUM_DOCTORS TREATMENT_TIME T_INTER pc r).
Proof.
  intros s Hs. unfold setup.
  destruct r, pc; wp_prims; try quiet_solve.
  - wp_keep Hospital_init_quiet_hole eassumption. wp_prims; [assumption|].
    eapply wp_mono.
    { eapply keeps_for_each; [|eassumption].
      intros x. apply keeps_bind; [apply process_quiet_hole; exact I|].
      intros ?. apply keeps_ret. }
    cbn beta. intros _ s1 Hs1. apply setup_loop_quiet_hole, Hs1.
  - wp_frame process_frame. apply setup_loop_quiet_hole. quiet_solve.
Qed.

Lemma add_doctors_loop_quiet_hole p h n :
  keeps (quiet_hole p) (add_doctors_loop h n).
Proof.
  intros s Hs. unfold add_doctors_loop.
  destruct n; wp_prims; try quiet_solve.
  wp_frame request_frame. wp_frame timeout_frame. wp_prims; quiet_solve.
Qed.

Lemma add_doctors_quiet_hole p h n pc r :
  keeps (quiet_hole p) (add_doctors h n pc r).
Proof.
  intros s Hs. unfold add_doctors.
  destruct r, pc; wp_prims; try quiet_solve;
    apply add_doctors_loop_quiet_hole; quiet_solve.
Qed.

Lemma resume_generator_quiet_hole p g r s :
  calm g -> quiet_hole p s ->
  wp (resume_generator U neg_log1m NUM_DOCTORS TREATMENT_TIME T_INTER 0 g r)
     (fun res s' => quiet_hole p s' /\ calm (fst res)) s.
Proof.
  intros Hg Hs. unfold resume_generator. destruct g; try destruct Hg; wp_prims.
  - eapply wp_mono; [apply patient_quiet_hole; [exact Hg|exact Hs]|].
    cbn beta. intros ? ? [? ?]. wp_prims. split; assumption.
  - wp_keep setup_quiet_hole eassumption. wp_prims. split; [assumption|exact I].
  - wp_keep add_doctors_quiet_hole eassumption. wp_prims.
    split; [assumption|exact I].
Qed.

Lemma _resume_quiet p ev :
  keeps quiet_ok
    (_resume U neg_log1m NUM_DOCTORS TREATMENT_TIME T_INTER 0 p ev).
Proof.
  intros s Hs. unfold _resume. apply wp_bind, wp_get.
  destruct (procs s !! p) as [P|] eqn:HP; [|exact Hs].
  assert (Hg : calm (_generator P)).
  { destruct Hs as (_ & C & _). rewrite Forall_forall in C.
    apply C. eapply list_elem_of_lookup_2, HP. }
  assert (HJ : quiet_hole p s).
  { destruct Hs as (T & C & L). split; [exact T|]. split; [|exact L].
    intros i P' Hi _. rewrite Forall_forall in C.
    apply C. eapply list_elem_of_lookup_2, Hi. }
  apply wp_bind.
  apply (wp_mono _ (fun _ s' => quiet_hole p s')).
  { destruct (exc (the_event s ev)); wp_prims; quiet_solve. }
  cbn beta. intros r s1 HJ1. apply wp_bind.
  eapply wp_mono; [apply resume_generator_quiet_hole; [exact Hg|exact HJ1]|].
  cbn beta. intros res s2 [(T & C & L) Hres].
  apply wp_bind. unfold set_generator. apply wp_modify.
  match goal with |- wp _ _ ?s3 => assert (Hs3 : quiet_ok s3) end.
  { split; [exact T|]. split; [|exact L]. cbn.
    apply Forall_lookup. intros i P' Hi. rewrite list_lookup_alter in Hi.
    destruct (decide (p = i)) as [->|Hne].
    - destruct (procs s2 !! i); [|discriminate]. cbn in Hi. injection Hi as <-.
      exact Hres.
    - eapply C; eauto. }
  wp_prims; (eapply frame_quiet; [|exact Hs3]); frame_close.
Qed.

Lemma exec_quiet n :
  quiet_ok
    (env (exec U neg_log1m NUM_DOCTORS TREATMENT_TIME T_INTER SIM_TIME 0 n)).
Proof.
  apply exec_keeps.
  - apply _resume_quiet.
  - eauto using keeps_frame, _trigger_put_frame, frame_quiet.
  - eauto using keeps_frame, _trigger_get_frame, frame_quiet.
  - apply process_quiet. exact I.
  - intros h. apply process_quiet. exact I.
  - eauto using keeps_frame, run_prologue_frame, frame_quiet.
  - eauto using keeps_frame, Hospital_init_frame, frame_quiet.
  - intros s item q Hs _. exact Hs.
  - repeat split; cbn; auto.
Qed.

(** C8: with [TREAT_PROBABILITY = 0.0] nobody is ever treated: no treated
    time is recorded, no generator of [Hospital.treat] (where the treatment
    duration is drawn) is ever created and no patient waits for one, and
    every recorded wait comes with a recorded departure without treatment. *)
Theorem nobody_treated_at_probability_zero n :
  let s := env (exec U neg_log1m NUM_DOCTORS TREATMENT_TIME T_INTER SIM_TIME 0 n) in
  treated_count s = 0 /\
  Forall (fun P => calm (_generator P)) (procs s) /\
  length (wait_times s) = left_without_treatment_count s.
Proof.
  intros s. destruct (exec_quiet n) as (T & C & L). fold s in T, C, L.
  unfold treated_count, left_without_treatment_count. rewrite T. auto.
Qed.

End Quiet.

(** ** Dependence on the random draws *)

Lemma det_ret {A} U1 U2 (a : A) : det U1 U2 (ret a) (ret a).
Proof. intros s. cbn. auto. Qed.

Lemma det_same {A} U1 U2 (m : M A) : draws_kept m -> det U1 U2 m m.
Proof. intros Hm s. rewrite Hm. auto. Qed.

Lemma det_bind {A B} U1 U2 (m1 m2 : M A) (k1 k2 : A -> M B) :
  det U1 U2 m1 m2 -> (forall a, det U1 U2 (k1 a) (k2 a)) ->
  det U1 U2 (bind m1 k1) (bind m2 k2).
Proof.
  intros Hm Hk s. destruct (Hm s) as [Hle Heq]. unfold bind.
  destruct (m1 s) as [a s1] eqn:E1. cbn in *.
  destruct (Hk a s1) as [Hle' Heq']. split; [lia|].
  intros Hag. rewrite Heq.
  - apply Heq'. intros i Hi. apply Hag. lia.
  - intros i Hi. apply Hag. lia.
Qed.

Lemma det_random U1 U2 : det U1 U2 (random U1) (random U2).
Proof.
  intros s. cbn. split; [lia|]. intros Hag. rewrite (Hag (draws s)) by lia.
  reflexivity.
Qed.

Lemma draws_kept_ret {A} (a : A) : draws_kept (ret a).
Proof. intros s. reflexivity. Qed.

Lemma draws_kept_bind {A B} (m : M A) (k : A -> M B) :
  draws_kept m -> (forall a, draws_kept (k a)) -> draws_kept (bind m k).
Proof.
  intros Hm Hk s. unfold bind. specialize (Hm s).
  destruct (m s) as [a s1]. cbn in *. rewrite Hk. exact Hm.
Qed.

Lemma draws_kept_frame {A} (m : M A) :
  (forall s, wp m (fun _ s' => frame s s') s) -> draws_kept m.
Proof. intros Hm s. destruct (Hm s) as (_ & _ & _ & _ & _ & D & _). exact D. Qed.

Lemma process_draws g : draws_kept (process g).
Proof.
  intros s. destruct (process_frame g s) as (_ & _ & _ & _ & _ & D & _). exact D.
Qed.

(** Operations that do not draw. *)
Ltac draws_kept_solve :=
  lazymatch goal with
  | |- draws_kept (bind _ _) =>
      apply draws_kept_bind; [draws_kept_solve|intros ?; draws_kept_solve]
  | |- draws_kept (ret _) => apply draws_kept_ret
  | |- draws_kept (match ?x with _ => _ end) => destruct x; draws_kept_solve
  | |- draws_kept (timeout _) => apply draws_kept_frame; intros ?; apply timeout_frame
  | |- draws_kept (request _) => apply draws_kept_frame; intros ?; apply request_frame
  | |- draws_kept (Request_exit _ _) =>
      apply draws_kept_frame; intros ?; apply Request_exit_frame
  | |- draws_kept (Hospital_init _ _) =>
      apply draws_kept_frame; intros ?; apply Hospital_init_frame
  | |- draws_kept (_trigger_put _) =>
      apply draws_kept_frame; intros ?; apply _trigger_put_frame
  | |- draws_kept (_trigger_get _) =>
      apply draws_kept_frame; intros ?; apply _trigger_get_frame
  | |- draws_kept (run_prologue _) =>
      apply draws_kept_frame; intros ?; apply run_prologue_frame
  | |- draws_kept (process _) => apply process_draws
  | |- draws_kept _ => intros ?; reflexivity
  end.

(** One step in a proof that a computation depends on the draws it
    consumes only. *)
Ltac det_step :=
  lazymatch goal with
  | |- det _ _ (bind _ _) (bind _ _) => apply det_bind; [|intros ?]
  | |- det _ _ (ret _) (ret _) => apply det_ret
  | |- det _ _ (random _) (random _) => apply det_random
  | |- det _ _ (match ?x with _ => _ end) (match ?x with _ => _ end) =>
      destruct x
  | |- det _ _ _ _ => apply det_same; draws_kept_solve
  end.

Section Determinism.

Variables U1 U2 : nat -> Q.
Variable neg_log1m : Q -> Q.
Variable NUM_DOCTORS : Z.
Variables TREATMENT_TIME T_INTER SIM_TIME TREAT_PROBABILITY : Q.

Lemma expovariate_det lambd :
  det U1 U2 (expovariate U1 neg_log1m lambd) (expovariate U2 neg_log1m lambd).
Proof. unfold expovariate. repeat det_step. Qed.

Lemma treat_det h name pc r :
  det U1 U2 (treat U1 neg_log1m h name pc r) (treat U2 neg_log1m h name pc r).
Proof.
  unfold treat. destruct r, pc; repeat (first [apply expovariate_det | det_step]).
Qed.

Lemma patient_det name h pc r :
  det U1 U2 (patient U1 TREAT_PROBABILITY name h pc r)
            (patient U2 TREAT_PROBABILITY name h pc r).
Proof. unfold patient. destruct r, pc; repeat det_step. Qed.

Lemma setup_loop_det h i :
  det U1 U2 (setup_loop U1 neg_log1m T_INTER h i)
            (setup_loop U2 neg_log1m T_INTER h i).
Proof.
  unfold setup_loop. repeat (first [apply expovariate_det | det_step]).
Qed.

Lemma setup_det pc r :
  det U1 U2 (setup U1 neg_log1m NUM_DOCTORS TREATMENT_TIME T_INTER pc r)
            (setup U2 neg_log1m NUM_DOCTORS TREATMENT_TIME T_INTER pc r).
Proof.
  unfold setup. destruct r, pc; cbn [for_each];
    repeat (first [apply setup_loop_det | det_step]).
Qed.

Lemma add_doctors_draws h n pc r : draws_kept (add_doctors h n pc r).
Proof.
  unfold add_doctors, add_doctors_loop. destruct r, pc; draws_kept_solve.
Qed.

Lemma resume_generator_det g r :
  det U1 U2
    (resume_generator U1 neg_log1m NUM_DOCTORS TREATMENT_TIME T_INTER
       TREAT_PROBABILITY g r)
    (resume_generator U2 neg_log1m NUM_DOCTORS TREATMENT_TIME T_INTER
       TREAT_PROBABILITY g r).
Proof.
  unfold resume_generator. destruct g.
  - apply det_bind; [apply patient_det|]. intros ?. apply det_ret.
  - apply det_bind; [apply treat_det|]. intros ?. apply det_ret.
  - apply det_bind; [apply setup_det|]. intros ?. apply det_ret.
  - apply det_same. apply draws_kept_bind; [apply add_doctors_draws|].
    intros ?. apply draws_kept_ret.
Qed.

Lemma _resume_det p ev :
  det U1 U2
    (_resume U1 neg_log1m NUM_DOCTORS TREATMENT_TIME T_INTER TREAT_PROBABILITY p ev)
    (_resume U2 neg_log1m NUM_DOCTORS TREATMENT_TIME T_INTER TREAT_PROBABILITY p ev).
Proof.
  unfold _resume.
  repeat (first [apply resume_generator_det | det_step]).
Qed.

Lemma call_det cb ev :
  det U1 U2
    (call U1 neg_log1m NUM_DOCTORS TREATMENT_TIME T_INTER TREAT_PROBABILITY cb ev)
    (call U2 neg_log1m NUM_DOCTORS TREATMENT_TIME T_INTER TREAT_PROBABILITY cb ev).
Proof.
  unfold call. destruct cb; repeat (first [apply _resume_det | det_step]).
Qed.

Lemma run_callbacks_det cbs ev :
  det U1 U2
    (run_callbacks U1 neg_log1m NUM_DOCTORS TREATMENT_TIME T_INTER
       TREAT_PROBABILITY cbs ev)
    (run_callbacks U2 neg_log1m NUM_DOCTORS TREATMENT_TIME T_INTER
       TREAT_PROBABILITY cbs ev).
Proof.
  induction cbs as [|cb cbs IH]; cbn.
  - apply det_ret.
  - apply det_bind; [apply call_det|]. intros [|]; [apply det_ret|apply IH].
Qed.

Lemma step_det :
  det U1 U2
    (step U1 neg_log1m NUM_DOCTORS TREATMENT_TIME T_INTER TREAT_PROBABILITY)
    (step U2 neg_log1m NUM_DOCTORS TREATMENT_TIME T_INTER TREAT_PROBABILITY).
Proof.
  unfold step. repeat (first [apply run_callbacks_det | det_step]).
Qed.

Lemma between_runs_draws hospital : draws_kept (between_runs hospital).
Proof. unfold between_runs. draws_kept_solve. Qed.

Lemma main_step_det p :
  draws (env p)
    <= draws (env (main_step U1 neg_log1m NUM_DOCTORS TREATMENT_TIME T_INTER
                     TREAT_PROBABILITY p)) /\
  (agree_on U1 U2 (draws (env p))
     (draws (env (main_step U1 neg_log1m NUM_DOCTORS TREATMENT_TIME T_INTER
                    TREAT_PROBABILITY p))) ->
   main_step U2 neg_log1m NUM_DOCTORS TREATMENT_TIME T_INTER TREAT_PROBABILITY p
   = main_step U1 neg_log1m NUM_DOCTORS TREATMENT_TIME T_INTER TREAT_PROBABILITY p).
Proof.
  unfold main_step. destruct (pc p); try (split; [lia|reflexivity]).
  - destruct (step_det (env p)) as [Hle Heq].
    destruct (step U1 _ _ _ _ _ (env p)) as [r s1] eqn:E1. cbn [fst snd] in *.
    assert (Hd : draws s1
                 <= draws (env (match r with
                                | Stepped => mkProgram (Run1 hospital) s1
                                | StopSimulation =>
                                    let (pc', s') := between_runs hospital s1 in
                                    mkProgram pc' s'
                                | Crashed e => mkProgram (Raised e) s1
                                | EmptySchedule => mkProgram (Raised AssertionError) s1
                                end))).
    { destruct r; try (cbn [env]; lia).
      pose proof (between_runs_draws hospital s1) as Hb.
      destruct (between_runs hospital s1) as [pc' s2]. cbn [env snd] in *. lia. }
    split; [lia|]. intros Hag. rewrite Heq; [reflexivity|].
    intros i Hi. apply Hag. lia.
  - destruct (step_det (env p)) as [Hle Heq].
    destruct (step U1 _ _ _ _ _ (env p)) as [r s1] eqn:E1. cbn [fst snd] in *.
    assert (Hd : draws s1
                 <= draws (env (match r with
                                | Stepped => mkProgram (Run2 hospital) s1
                                | StopSimulation => mkProgram (Finished hospital) s1
                                | Crashed e => mkProgram (Raised e) s1
                                | EmptySchedule => mkProgram (Raised AssertionError) s1
                                end))).
    { destruct r; cbn [env]; lia. }
    split; [lia|]. intros Hag. rewrite Heq; [reflexivity|].
    intros i Hi. apply Hag. lia.
Qed.

Lemma exec_draws_mono n :
  draws (env (exec U1 neg_log1m NUM_DOCTORS TREATMENT_TIME T_INTER SIM_TIME
                TREAT_PROBABILITY n))
  <= draws (env (exec U1 neg_log1m NUM_DOCTORS TREATMENT_TIME T_INTER SIM_TIME
                   TREAT_PROBABILITY (S n))).
Proof.
  change (exec U1 neg_log1m NUM_DOCTORS TREATMENT_TIME T_INTER SIM_TIME
            TREAT_PROBABILITY (S n))
    with (main_step U1 neg_log1m NUM_DOCTORS TREATMENT_TIME T_INTER
            TREAT_PROBABILITY
            (exec U1 neg_log1m NUM_DOCTORS TREATMENT_TIME T_INTER SIM_TIME
               TREAT_PROBABILITY n)).
  apply main_step_det.
Qed.

(** C5: a run is a function of the constants and of the draws it consumes:
    two runs with the same constants whose random sources deliver the same
    values at the positions the first one consumes (as they do after
    [random.seed] with the same seed) are in the same state after every
    round, with the same clock, event queue, recorded times and printed
    lines. *)
Theorem same_draws_same_run n :
  agree_on U1 U2 0
    (draws (env (exec U1 neg_log1m NUM_DOCTORS TREATMENT_TIME T_INTER SIM_TIME
                   TREAT_PROBABILITY n))) ->
  exec U2 neg_log1m NUM_DOCTORS TREATMENT_TIME T_INTER SIM_TIME
    TREAT_PROBABILITY n
  = exec U1 neg_log1m NUM_DOCTORS TREATMENT_TIME T_INTER SIM_TIME
      TREAT_PROBABILITY n.
Proof.
  induction n as [|n IH]; intros Hag; [reflexivity|].
  pose proof (exec_draws_mono n) as Hmono.
  change (exec U2 neg_log1m NUM_DOCTORS TREATMENT_TIME T_INTER SIM_TIME
            TREAT_PROBABILITY (S n))
    with (main_step U2 neg_log1m NUM_DOCTORS TREATMENT_TIME T_INTER
            TREAT_PROBABILITY
            (exec U2 neg_log1m NUM_DOCTORS TREATMENT_TIME T_INTER SIM_TIME
               TREAT_PROBABILITY n)).
  rewrite IH by (intros i Hi; apply Hag; lia).
  apply main_step_det. intros i Hi. apply Hag. split; [lia|].
  apply Hi.
Qed.

End Determinism.

(** ** The branches in which simpy raises are never taken *)

(** *** The get queues *)

Lemma fmap_alter_same {A B} (g : A -> B) (f : A -> A) i (l : list A) :
  (forall x, g (f x) = g x) -> g <$> alter f i l = g <$> l.
Proof.
  intros Hf. revert i. induction l as [|x l IH]; intros [|i]; cbn; auto.
  - rewrite Hf. reflexivity.
  - f_equal. apply IH.
Qed.

Lemma fmap_alter_through {A B} (g : A -> B) (f : A -> A) (f' : B -> B) i
    (l : list A) :
  (forall x, g (f x) = f' (g x)) -> g <$> alter f i l = alter f' i (g <$> l).
Proof.
  intros Hf. revert i. induction l as [|x l IH]; intros [|i]; cbn; auto.
  - rewrite Hf. reflexivity.
  - f_equal. apply IH.
Qed.

Lemma getq_ok_same s s' : hospitals s' = hospitals s -> getq_ok s -> getq_ok s'.
Proof. unfold getq_ok. intros ->. auto. Qed.

Lemma getq_ok_fmap s :
  getq_ok s <->
  Forall (fun q => q = []) ((fun H => get_queue (doctor H)) <$> hospitals s).
Proof. unfold getq_ok. rewrite Forall_fmap. reflexivity. Qed.

Lemma getq_ok_the_hospital s h :
  getq_ok s -> get_queue (doctor (the_hospital s h)) = [].
Proof.
  intros Hs. unfold the_hospital. rewrite list_lookup_total_alt.
  destruct (hospitals s !! h) as [H|] eqn:HH; [|reflexivity].
  unfold getq_ok in Hs. rewrite Forall_forall in Hs.
  apply Hs. eapply list_elem_of_lookup_2, HH.
Qed.

Ltac getq_solve :=
  idtac;
  lazymatch goal with
  | H : getq_ok ?s |- getq_ok _ =>
      unfold getq_ok in *; cbn;
      solve
        [ repeat first
            [ exact H
            | apply Forall_alter;
              [|let Hx := fresh "Hx" in
                intros ? _ Hx; cbn;
                first [assumption|rewrite Hx; reflexivity]]
            | apply Forall_app; split; [|repeat constructor] ] ]
  end.

Lemma timeout_getq d : keeps getq_ok (timeout d).
Proof. intros s Hs. unfold timeout. wp_prims; getq_solve. Qed.

Lemma run_prologue_getq until : keeps getq_ok (run_prologue until).
Proof. intros s Hs. unfold run_prologue. wp_prims; getq_solve. Qed.

Lemma callbacks_append_getq ev cb : keeps getq_ok (callbacks_append ev cb).
Proof. intros s Hs. wp_prims. getq_solve. Qed.

Lemma defused_getq ev : keeps getq_ok (update_event ev set_defused).
Proof. intros s Hs. wp_prims. getq_solve. Qed.

Lemma process_getq g : keeps getq_ok (process g).
Proof. intros s Hs. unfold process. wp_prims. getq_solve. Qed.

Lemma process_ends_getq self x : keeps getq_ok (process_ends self x).
Proof. intros s Hs. wp_prims. getq_solve. Qed.

Lemma Hospital_init_getq n tm : keeps getq_ok (Hospital_init n tm).
Proof. intros s Hs. unfold Hospital_init. wp_prims; getq_solve. Qed.

Lemma _trigger_put_getq h : keeps getq_ok (_trigger_put h).
Proof. intros s Hs. unfold _trigger_put, _do_put. wp_prims; getq_solve. Qed.

Lemma _trigger_get_getq h : keeps getq_ok (_trigger_get h).
Proof.
  intros s Hs. unfold _trigger_get. apply wp_bind, wp_get.
  rewrite (getq_ok_the_hospital _ _ Hs). apply wp_ret. exact Hs.
Qed.

Lemma request_getq h : keeps getq_ok (request h).
Proof.
  intros s Hs. unfold request. wp_prims.
  wp_keep _trigger_put_getq getq_solve. wp_prims. assumption.
Qed.

(** [_do_get] leaves the get queues alone and triggers its event. *)
Lemma _do_get_get_queues h g s :
  wp (_do_get h g)
     (fun _ s' =>
        (fun H => get_queue (doctor H)) <$> hospitals s'
        = (fun H => get_queue (doctor H)) <$> hospitals s /\
        (g < length (events s) -> triggered (the_event s' g) = true)) s.
Proof.
  unfold _do_get.
  wp_prims;
    (split;
     [ cbn; first [reflexivity|apply fmap_alter_same; reflexivity]
     | intros Hg; unfold the_event; cbn;
       rewrite list_lookup_total_alter_eq by exact Hg; reflexivity ]).
Qed.

(** In [release], the get queue that [_trigger_get] finds holds the new
    release event and nothing else. *)
Lemma getq_head (l : list Hospital) h ev g rest :
  Forall (fun H => get_queue (doctor H) = []) l ->
  get_queue
    (doctor
       (alter (fun H => mkHospital
                          (set_get_queue (get_queue (doctor H) ++ [ev]) (doctor H))
                          (treatment_time H)) h l !!! h)) = g :: rest ->
  g = ev /\ rest = [].
Proof.
  intros Hl. rewrite list_lookup_total_alt, list_lookup_alter_eq.
  destruct (l !! h) as [H|] eqn:HH; cbn; [|discriminate].
  rewrite Forall_forall in Hl.
  rewrite (Hl H) by (eapply list_elem_of_lookup_2, HH).
  cbn. intros [= -> ->]. auto.
Qed.

Lemma release_getq h req : keeps getq_ok (release h req).
Proof.
  intros s Hs. unfold release, _trigger_get. wp_prims.
  - (* the hospital does not exist *)
    unfold getq_ok in *. cbn. apply Forall_alter; [exact Hs|].
    intros x Hx Px. exfalso.
    match goal with
    | H : get_queue _ = [] |- _ =>
        unfold the_hospital in H; cbn in H;
        rewrite list_lookup_total_alt, list_lookup_alter_eq, Hx in H;
        cbn in H; rewrite Px in H; discriminate
    end.
  - match goal with
    | H : get_queue _ = _ :: _ |- _ =>
        unfold the_hospital in H; cbn in H;
        apply (getq_head _ _ _ _ _ Hs) in H as [-> ->]
    end.
    eapply wp_mono; [apply _do_get_get_queues|].
    cbn beta. intros _ s' [Hq Ht].
    assert (Ht' : triggered (the_event s' (length (events s))) = true).
    { apply Ht. cbn. rewrite length_alter, length_app. cbn. lia. }
    wp_prims; [|congruence].
    apply getq_ok_fmap. cbn.
    rewrite (fmap_alter_through _ _ tail) by reflexivity.
    rewrite Hq. cbn.
    rewrite (fmap_alter_through _ _ (fun q => q ++ [length (events s)]))
      by reflexivity.
    rewrite list_alter_alter_eq.
    apply Forall_alter; [apply getq_ok_fmap, Hs|].
    intros q _ ->. reflexivity.
Qed.

Lemma Request_exit_getq h req : keeps getq_ok (Request_exit h req).
Proof.
  intros s Hs. unfold Request_exit. wp_prims.
  - wp_keep release_getq assumption. wp_prims. assumption.
  - wp_keep release_getq getq_solve. wp_prims. assumption.
Qed.

Lemma pop_getq s item q :
  getq_ok s ->
  getq_ok (set_events (alter (set_callbacks None) (e_event item) (events s))
             (set_now (e_time item) (set_queue q s))).
Proof. intros Hs. exact Hs. Qed.

(** *** Both queues *)

Lemma queues_ok_keeps {A} (m : M A) :
  keeps fifo_ok m -> keeps getq_ok m -> keeps queues_ok m.
Proof.
  intros H1 H2 s [Ha Hb]. unfold wp, queues_ok.
  split; [apply H1, Ha|apply H2, Hb].
Qed.

Lemma queues_ok_same s s' :
  events s' = events s -> hospitals s' = hospitals s ->
  self_event <$> procs s' = self_event <$> procs s ->
  queues_ok s -> queues_ok s'.
Proof.
  intros He Hh Hp [H1 H2]. split.
  - apply (fifo_ok_same s); assumption.
  - apply (getq_ok_same s); assumption.
Qed.

Lemma process_ends_queues p self x :
  keeps (with_process queues_ok p self) (process_ends self x).
Proof.
  intros s [[H1 H2] Hp].
  pose proof (process_ends_fifo p self x s (conj H1 Hp)) as [Hf Hp'].
  pose proof (process_ends_getq self x s H2) as Hg.
  split; [split; [exact Hf|exact Hg]|exact Hp'].
Qed.

(** *** Events *)

Lemma sound_events_app L evs e :
  model_only (exc e) = false ->
  sound_events L evs -> sound_events L (evs ++ [e]).
Proof.
  intros Hok [Hs Ha]. split.
  - apply Forall_app. split; [exact Hs|]. repeat constructor. exact Hok.
  - intros ev Hev. destruct (Ha _ Hev) as (e0 & cbs & H0 & Hc).
    exists e0, cbs. split; [apply lookup_app_l_Some, H0|exact Hc].
Qed.

(** A new event, not processed, joins [L]. *)
Lemma sound_events_new L evs e cbs :
  model_only (exc e) = false -> callbacks e = Some cbs ->
  sound_events L evs -> sound_events (length evs :: L) (evs ++ [e]).
Proof.
  intros Hok Hc Hs. destruct (sound_events_app L evs e Hok Hs) as [H1 H2].
  split; [exact H1|]. intros ev Hev. apply elem_of_cons in Hev as [->|Hev]; [|auto].
  exists e, cbs. split; [apply list_lookup_middle; reflexivity|exact Hc].
Qed.

(** An event is changed in place; it stays unprocessed and sound. *)
Lemma sound_events_alter L evs f ev :
  (forall e, (callbacks e <> None -> callbacks (f e) <> None) /\
             (model_only (exc e) = false -> model_only (exc (f e)) = false)) ->
  sound_events L evs -> sound_events L (alter f ev evs).
Proof.
  intros Hf [Hs Ha]. split.
  - apply Forall_alter; [exact Hs|]. intros e _. apply Hf.
  - intros ev' Hev. destruct (Ha _ Hev) as (e0 & cbs & H0 & Hc).
    destruct (decide (ev = ev')) as [->|Hne].
    + destruct (callbacks (f e0)) as [cbs'|] eqn:Hc'.
      * exists (f e0), cbs'. rewrite list_lookup_alter_eq, H0. auto.
      * destruct (Hf e0) as [Hf1 _]. exfalso. apply Hf1; [congruence|exact Hc'].
    + exists e0, cbs. rewrite list_lookup_alter_ne by exact Hne. auto.
Qed.

Lemma sound_events_weaken L L' evs :
  (forall ev, ev ∈ L' -> ev ∈ L) -> sound_events L evs -> sound_events L' evs.
Proof. intros HL [Hs Ha]. split; auto. Qed.

Lemma sound_alive_nil L s : sound_alive L s -> sound_alive [] s.
Proof. apply sound_events_weaken. intros ev Hev. inversion Hev. Qed.

Lemma sound_alive_exc s ev e :
  sound_alive [] s -> exc (the_event s ev) = Some e ->
  model_only (Some e) = false.
Proof.
  intros [Hs _] He. unfold the_event in He. rewrite list_lookup_total_alt in He.
  destruct (events s !! ev) as [e0|] eqn:H0; cbn in He; [|discriminate].
  rewrite Forall_forall in Hs. rewrite <- He.
  apply Hs. eapply list_elem_of_lookup_2, H0.
Qed.

(** The changes of events that keep them unprocessed and sound. *)
Ltac gentle :=
  intros ?; cbn; split; intros ?;
  first [ assumption | reflexivity | discriminate
        | match goal with |- (_ <$> ?c) <> None => destruct c; cbn; congruence end ].

Ltac sound_solve :=
  idtac;
  lazymatch goal with
  | H : sound_alive ?L ?s |- sound_alive ?L' _ =>
      unify L L'; unfold sound_alive in *; cbn;
      solve
        [ repeat first
            [ exact H
            | apply sound_events_alter; [gentle|]
            | apply sound_events_app; [reflexivity|] ] ]
  end.

(** [succeed] on an event that is pending. *)
Lemma _do_put_sound L h ev s :
  triggered (the_event s ev) = false -> sound_alive L s ->
  wp (_do_put h ev) (fun _ s' => sound_alive L s') s.
Proof.
  intros Ht Hs. unfold _do_put. wp_prims; try solve [sound_solve].
  exfalso. unfold the_event in *. cbn in *. congruence.
Qed.

Lemma _do_get_sound L h ev s :
  triggered (the_event s ev) = false -> sound_alive L s ->
  wp (_do_get h ev) (fun _ s' => sound_alive L s') s.
Proof.
  intros Ht Hs. unfold _do_get. wp_prims; try solve [sound_solve].
  all: exfalso; unfold the_event in *; cbn in *; congruence.
Qed.

(** The head of a put queue is pending. *)
Lemma _trigger_put_sound L h s :
  queues_ok s -> sound_alive L s ->
  wp (_trigger_put h) (fun _ s' => sound_alive L s') s.
Proof.
  intros [[HQ _] _] Hs. unfold _trigger_put. apply wp_bind, wp_get.
  destruct (put_queue (doctor (the_hospital s h))) as [|r rest] eqn:Hq;
    [exact Hs|].
  pose proof (the_hospital_put_queue _ _ _ _ Hq) as HH.
  destruct (HQ _ _ HH) as (Q1 & _).
  destruct (Q1 r) as (er & Her & _ & Htr); [rewrite Hq; apply list_elem_of_here|].
  apply wp_bind. eapply wp_mono; [apply (_do_put_sound L); [|exact Hs]|].
  { unfold the_event. rewrite (list_lookup_total_correct _ _ _ Her). exact Htr. }
  cbn beta. intros _ s1 Hs1. wp_prims; sound_solve.
Qed.

Lemma _trigger_get_sound L h s :
  queues_ok s -> sound_alive L s ->
  wp (_trigger_get h) (fun _ s' => sound_alive L s') s.
Proof.
  intros [_ Hg] Hs. unfold _trigger_get. apply wp_bind, wp_get.
  rewrite (getq_ok_the_hospital _ _ Hg). apply wp_ret. exact Hs.
Qed.

(** The release event that [release] hands to [_do_get] is new. *)
Lemma release_sound L h req s :
  getq_ok s -> sound_alive L s ->
  wp (release h req) (fun _ s' => sound_alive L s') s.
Proof.
  intros Hg Hs. unfold release, _trigger_get. wp_prims; [sound_solve|].
  match goal with
  | H : get_queue _ = _ :: _ |- _ =>
      unfold the_hospital in H; cbn in H;
      apply (getq_head _ _ _ _ _ Hg) in H as [-> ->]
  end.
  eapply wp_mono; [apply (_do_get_sound L)|].
  - unfold the_event. cbn.
    rewrite list_lookup_total_alter_eq
      by (rewrite length_app; cbn; lia).
    rewrite lookup_total_app_r by lia.
    rewrite Nat.sub_diag. reflexivity.
  - sound_solve.
  - cbn beta. intros _ s1 Hs1. wp_prims; sound_solve.
Qed.

Lemma Request_exit_sound L h req s :
  queues_ok s -> sound_alive L s ->
  wp (Request_exit h req) (fun _ s' => sound_alive L s') s.
Proof.
  intros [_ Hg] Hs. unfold Request_exit. wp_prims.
  - eapply wp_mono; [apply (release_sound L); eassumption|].
    cbn beta. intros ? ? ?. wp_prims. assumption.
  - eapply wp_mono; [apply (release_sound L); [getq_solve|sound_solve]|].
    cbn beta. intros ? ? ?. wp_prims. assumption.
Qed.

Lemma run_prologue_sound L until : keeps (sound_alive L) (run_prologue until).
Proof. intros s Hs. unfold run_prologue. wp_prims; sound_solve. Qed.

Lemma process_sound L g : keeps (sound_alive L) (process g).
Proof. intros s Hs. unfold process. wp_prims. sound_solve. Qed.

(** [Hospital.__init__] raises [ValueError] or leaves the events alone. *)
Lemma Hospital_init_sound L n tm s :
  sound_alive L s ->
  wp (Hospital_init n tm)
     (fun r s' => sound_alive L s' /\
                  forall e, r = inl e -> model_only (Some e) = false) s.
Proof.
  intros Hs. unfold Hospital_init.
  wp_prims; (split; [sound_solve|intros e [=]; subst; reflexivity]).
Qed.

(** The event that [env.timeout], [resource.request] and [env.process]
    return has not been processed. *)
Lemma timeout_new L d s :
  sound_alive L s ->
  wp (timeout d)
     (fun r s' => match r with
                  | inr ev => sound_alive (ev :: L) s'
                  | inl e => sound_alive L s' /\ model_only (Some e) = false
                  end) s.
Proof.
  intros Hs. unfold timeout. wp_prims; [split; [exact Hs|reflexivity]|].
  unfold sound_alive in *. cbn.
  eapply sound_events_new; [reflexivity|reflexivity|exact Hs].
Qed.

Lemma process_new L g s :
  sound_alive L s -> wp (process g) (fun ev s' => sound_alive (ev :: L) s') s.
Proof.
  intros Hs. unfold process. wp_prims. unfold sound_alive in *. cbn.
  apply sound_events_app; [reflexivity|].
  eapply sound_events_new; [reflexivity|reflexivity|exact Hs].
Qed.

Lemma request_new L h s :
  queues_ok s -> sound_alive L s ->
  wp (request h) (fun ev s' => sound_alive (ev :: L) s') s.
Proof.
  intros [Hf Hg] Hs. unfold request. wp_prims.
  eapply wp_mono;
    [apply (_trigger_put_sound (length (events s) :: L)); [split|]|].
  - eapply (fifo_ok_enqueue s _ h (mkEvent (Some []) false None false (Request h)));
      [| | | | |exact Hf]; cbn;
      [reflexivity|reflexivity| |reflexivity|reflexivity].
    apply ev_stable_alter_quiet. intros e0. split; reflexivity.
  - getq_solve.
  - unfold sound_alive in *. cbn.
    apply sound_events_alter; [gentle|].
    eapply sound_events_new; [reflexivity|reflexivity|exact Hs].
  - cbn beta. intros ? ? ?. wp_prims. assumption.
Qed.

Section Guard.

Variable U : nat -> Q.
Variable neg_log1m : Q -> Q.
Variable NUM_DOCTORS : Z.
Variables TREATMENT_TIME T_INTER SIM_TIME TREAT_PROBABILITY : Q.

Lemma _resume_queues p ev :
  keeps queues_ok
    (_resume U neg_log1m NUM_DOCTORS TREATMENT_TIME T_INTER TREAT_PROBABILITY
       p ev).
Proof.
  apply _resume_keeps.
  - intros h. apply queues_ok_keeps; [apply request_fifo|apply request_getq].
  - intros h r.
    apply queues_ok_keeps; [apply Request_exit_fifo|apply Request_exit_getq].
  - intros d. apply queues_ok_keeps; [apply timeout_fifo|apply timeout_getq].
  - intros g. apply queues_ok_keeps; [apply process_fifo|apply process_getq].
  - apply queues_ok_keeps; [apply Hospital_init_fifo|apply Hospital_init_getq].
  - intros s s' He Hh _ _ _ Hp. apply queues_ok_same; assumption.
  - intros ev0 cb.
    apply queues_ok_keeps; [apply callbacks_append_fifo|apply callbacks_append_getq].
  - intros ev0. apply queues_ok_keeps; [apply defused_fifo|apply defused_getq].
  - apply process_ends_queues.
Qed.

Lemma one_over_exn x e : one_over x = inl e -> model_only (Some e) = false.
Proof. unfold one_over. destruct (Qeq_bool x 0); intros [=]; subst; reflexivity. Qed.

(** Closes the goals in which a generator hands back its outcome. *)
Ltac outcome_solve Hr :=
  cbn [fst snd outcome_ok];
  first
    [ sound_solve
    | assumption
    | split;
      [ first [sound_solve|assumption]
      | first [exact Hr|reflexivity|eapply one_over_exn; eassumption] ] ].

(** The statistics, the output and the random stream are no part of
    [queues_ok]. *)
Ltac queues_solve :=
  idtac;
  lazymatch goal with
  | H : queues_ok ?s |- queues_ok _ =>
      solve [exact H | apply (queues_ok_same s); [reflexivity..|exact H]]
  end.

Lemma treat_sound h name pc r s :
  resumption_ok r -> sound_alive [] s ->
  wp (treat U neg_log1m h name pc r) (fun res s' => outcome_ok (snd res) s') s.
Proof.
  intros Hr Hs. unfold treat, expovariate, random.
  destruct r, pc; wp_prims; try solve [outcome_solve Hr].
  eapply wp_mono; [apply (timeout_new []); sound_solve|].
  cbn beta. intros [e|ev] s' Hs'; wp_prims; exact Hs'.
Qed.

Lemma patient_sound name h pc r s :
  queues_ok s -> resumption_ok r -> sound_alive [] s ->
  wp (patient U TREAT_PROBABILITY name h pc r)
     (fun res s' => outcome_ok (snd res) s') s.
Proof.
  intros Hq Hr Hs. unfold patient, random.
  destruct r, pc; wp_prims; try solve [outcome_solve Hr].
  all: first
    [ eapply wp_mono; [apply (request_new []); [queues_solve|sound_solve]|]
    | eapply wp_mono; [apply (process_new []); sound_solve|]
    | eapply wp_mono;
      [apply (Request_exit_sound []); [queues_solve|sound_solve]|] ];
    cbn beta; intros ? ? ?; wp_prims; outcome_solve Hr.
Qed.

Lemma setup_loop_sound h i s :
  sound_alive [] s ->
  wp (setup_loop U neg_log1m T_INTER h i) (fun res s' => outcome_ok (snd res) s') s.
Proof.
  intros Hs. unfold setup_loop, expovariate, random.
  wp_prims; try solve [outcome_solve I].
  eapply wp_mono; [apply (timeout_new []); sound_solve|].
  cbn beta. intros [e|ev] s' Hs'; wp_prims; exact Hs'.
Qed.

Lemma setup_sound pc r s :
  resumption_ok r -> sound_alive [] s ->
  wp (setup U neg_log1m NUM_DOCTORS TREATMENT_TIME T_INTER pc r)
     (fun res s' => outcome_ok (snd res) s') s.
Proof.
  intros Hr Hs. unfold setup.
  destruct r, pc; try apply wp_ret; try solve [outcome_solve Hr].
  - apply wp_bind. eapply wp_mono; [apply Hospital_init_sound, Hs|].
    cbn beta. intros [e|h] s1 [Hs1 He].
    + apply wp_ret. split; [exact Hs1|]. apply He. reflexivity.
    + apply wp_bind. eapply wp_mono.
      { eapply keeps_for_each; [|exact Hs1].
        intros x. apply keeps_bind; [apply process_sound|].
        intros ?. apply keeps_ret. }
      cbn beta. intros _ s2 Hs2. apply setup_loop_sound, Hs2.
  - wp_prims. wp_keep process_sound sound_solve. apply setup_loop_sound. assumption.
Qed.

Lemma add_doctors_loop_sound h n s :
  queues_ok s -> sound_alive [] s ->
  wp (add_doctors_loop h n) (fun res s' => outcome_ok (snd res) s') s.
Proof.
  intros Hq Hs. unfold add_doctors_loop. destruct n; [apply wp_ret; exact Hs|].
  apply wp_bind. eapply wp_mono; [apply (request_new []); [exact Hq|exact Hs]|].
  cbn beta. intros req s1 Hs1. apply sound_alive_nil in Hs1.
  apply wp_bind. eapply wp_mono; [apply (timeout_new []), Hs1|].
  cbn beta. intros [e|ev] s' Hs'; apply wp_ret; exact Hs'.
Qed.

Lemma add_doctors_sound h n pc r s :
  queues_ok s -> resumption_ok r -> sound_alive [] s ->
  wp (add_doctors h n pc r) (fun res s' => outcome_ok (snd res) s') s.
Proof.
  intros Hq Hr Hs. unfold add_doctors.
  destruct r, pc; try apply wp_ret; try solve [outcome_solve Hr].
  - wp_prims. apply add_doctors_loop_sound; [queues_solve|sound_solve].
  - apply add_doctors_loop_sound; assumption.
Qed.

Lemma resume_generator_sound g r s :
  queues_ok s -> resumption_ok r -> sound_alive [] s ->
  wp (resume_generator U neg_log1m NUM_DOCTORS TREATMENT_TIME T_INTER
        TREAT_PROBABILITY g r)
     (fun res s' => outcome_ok (snd res) s') s.
Proof.
  intros Hq Hr Hs. unfold resume_generator. destruct g; apply wp_bind.
  - eapply wp_mono; [apply patient_sound; assumption|].
    cbn beta. intros res s' H. apply wp_ret. exact H.
  - eapply wp_mono; [apply treat_sound; assumption|].
    cbn beta. intros res s' H. apply wp_ret. exact H.
  - eapply wp_mono; [apply setup_sound; assumption|].
    cbn beta. intros res s' H. apply wp_ret. exact H.
  - eapply wp_mono; [apply add_doctors_sound; assumption|].
    cbn beta. intros res s' H. apply wp_ret. exact H.
Qed.

Lemma _resume_sound p ev s :
  queues_ok s -> sound_alive [] s ->
  wp (_resume U neg_log1m NUM_DOCTORS TREATMENT_TIME T_INTER TREAT_PROBABILITY
        p ev)
     (fun _ s' => sound_alive [] s') s.
Proof.
  intros Hq Hs. unfold _resume. apply wp_bind, wp_get.
  destruct (procs s !! p) as [P|] eqn:HP; [|exact Hs].
  apply wp_bind.
  apply (wp_mono _ (fun r s' =>
                      queues_ok s' /\ sound_alive [] s' /\ resumption_ok r)).
  { destruct (exc (the_event s ev)) as [e|] eqn:He.
    - wp_prims. split; [|split].
      + apply (queues_ok_keeps _ (defused_fifo ev) (defused_getq ev) s Hq).
      + sound_solve.
      + eapply sound_alive_exc; eassumption.
    - apply wp_ret. split; [exact Hq|split; [exact Hs|exact I]]. }
  cbn beta. intros r s1 (Hq1 & Hs1 & Hr). apply wp_bind.
  eapply wp_mono; [apply resume_generator_sound; assumption|].
  cbn beta. intros res s2 Hout.
  apply wp_bind. unfold set_generator. apply wp_modify.
  destruct (snd res) as [target| |e].
  - apply wp_bind, wp_get. cbn in Hout.
    destruct Hout as [Hs2 Ha].
    destruct (Ha target (list_elem_of_here _ _)) as (e0 & cbs & H0 & Hc).
    unfold the_event. cbn. rewrite (list_lookup_total_correct _ _ _ H0), Hc.
    unfold callbacks_append. wp_prims. unfold sound_alive. cbn.
    apply sound_events_alter; [gentle|]. split; [exact Hs2|].
    intros ? Hin. inversion Hin.
  - cbn in Hout. wp_prims. unfold sound_alive in *. cbn.
    apply sound_events_alter; [gentle|exact Hout].
  - cbn in Hout. destruct Hout as [Hs2 He]. wp_prims. unfold sound_alive in *. cbn.
    apply sound_events_alter; [|exact Hs2].
    intros e0. cbn. split; [auto|]. intros _. exact He.
Qed.

Lemma exec_guard n :
  guard_ok []
    (env (exec U neg_log1m NUM_DOCTORS TREATMENT_TIME T_INTER SIM_TIME
            TREAT_PROBABILITY n)).
Proof.
  apply exec_keeps.
  - intros p ev s [Hq Hs]. split.
    + apply _resume_queues, Hq.
    + apply _resume_sound; assumption.
  - intros h s [Hq Hs]. split.
    + apply (queues_ok_keeps _ (_trigger_put_fifo h) (_trigger_put_getq h)), Hq.
    + apply _trigger_put_sound; assumption.
  - intros h s [Hq Hs]. split.
    + apply (queues_ok_keeps _ (_trigger_get_fifo h) (_trigger_get_getq h)), Hq.
    + apply _trigger_get_sound; assumption.
  - intros s [Hq Hs]. split.
    + apply (queues_ok_keeps _ (process_fifo _) (process_getq _)), Hq.
    + apply process_sound, Hs.
  - intros h s [Hq Hs]. split.
    + apply (queues_ok_keeps _ (process_fifo _) (process_getq _)), Hq.
    + apply process_sound, Hs.
  - intros t s [Hq Hs]. split.
    + apply (queues_ok_keeps _ (run_prologue_fifo _) (run_prologue_getq _)), Hq.
    + apply run_prologue_sound, Hs.
  - intros s [Hq Hs]. split.
    + apply (queues_ok_keeps _ (Hospital_init_fifo _ _) (Hospital_init_getq _ _)), Hq.
    + destruct (Hospital_init_sound [] NUM_DOCTORS TREATMENT_TIME s Hs) as [H _].
      exact H.
  - intros s item q [[Hf Hg] [Hs _]] _. split; [split|split].
    + apply pop_fifo, Hf.
    + apply pop_getq, Hg.
    + cbn. apply Forall_alter; [exact Hs|]. intros e _ He. exact He.
    + intros ? Hin. inversion Hin.
  - split; [split|split].
    + split.
      * intros h H HH. inversion HH.
      * intros ev Hev. inversion Hev.
    + constructor.
    + constructor.
    + intros ? Hin. inversion Hin.
Qed.

(** The model departs from simpy in two branches: [succeed] on an event that
    is triggered already, where simpy raises [RuntimeError], and [_resume] on
    a yielded event that is processed already.  Both mark the event they end
    in, and no event of a run of the script carries either mark: the two
    branches are dead code here. *)
Lemma model_branches_are_dead n :
  Forall (fun e => exc e <> Some RuntimeError /\
                   exc e <> Some ProcessedEventYielded)
    (events
       (env (exec U neg_log1m NUM_DOCTORS TREATMENT_TIME T_INTER SIM_TIME
               TREAT_PROBABILITY n))).
Proof.
  destruct (exec_guard n) as [_ [Hs _]].
  eapply Forall_impl; [exact Hs|].
  intros e He. cbn beta in He.
  destruct (exc e) as [[]|]; cbn in He; split; congruence.
Qed.

End Guard.

(** ** The report *)

(** C7: over an empty [wait_times] the average is the sentinel
    [float('inf')], not a number; and the expression raises for no list. *)
Theorem average_wait_time_empty :
  average_wait_time [] = inr Inf /\
  forall wait_times e, average_wait_time wait_times <> inl e.
Proof.
  split; [reflexivity|]. intros [|w l] e; cbn; discriminate.
Qed.

(** ** A run of the script with its own constants *)

(** The script's own scenario: the run ends with both hospitals at
    capacity 2; the two requests of [add_doctors] are users of the
    module-level hospital, which no patient uses. *)
Example DTA1_hospitals_at_the_end :
  pc (DTA1_run 400) = Finished 0 /\
  hospitals (env (DTA1_run 400)) =
    [ mkHospital (mkResource 2 [202; 204] [] []) 5;
      mkHospital (mkResource 2 [362] [] []) 5 ].
Proof. vm_compute. split; reflexivity. Qed.

(** C4 on a run: patient 3 arrives at 0 and is granted a slot in round 20,
    at 3.5, after patient 5 has arrived at 0.7; the wait recorded then is
    2.8, which is [now] minus the arrival of patient 5, not 3.5. *)
Example wait_time_is_measured_from_the_last_arrival :
  let run := exec draws_example neg_log1m_example 2 5 7 100 (8 # 10) in
  stdout (env (run 20)) !! 3 = Some (L_arrives 3 0) /\
  (_generator <$> procs (env (run 19))) !! 3 = Some (G_patient 3 1 (P_request 14)) /\
  (_generator <$> procs (env (run 20))) !! 3 = Some (G_patient 3 1 (P_treat 14)) /\
  Qred (now (env (run 20))) = (7 # 2)%Q /\
  Qred <$> arrival_times (env (run 20)) = [0%Q; 0%Q; 0%Q; 0%Q; (7 # 10)%Q] /\
  Qred <$> wait_times (env (run 19)) = [0%Q; 0%Q] /\
  Qred <$> wait_times (env (run 20)) = [0%Q; 0%Q; (14 # 5)%Q] /\
  ~ (14 # 5 == (7 # 2) - 0)%Q.
Proof. vm_compute. repeat (split; [reflexivity|]). discriminate. Qed.

(** ** The statements with hypotheses, at a concrete run *)

Lemma fifo_no_overtaking_witness :
  hospitals (env (DTA1_run 9)) !! 1 = Some hospital_of_setup_round_9 /\
  (StronglySorted lt (put_queue (doctor hospital_of_setup_round_9)) /\
   forall waiting served,
     waiting ∈ put_queue (doctor hospital_of_setup_round_9) ->
     granted (env (DTA1_run 9)) 1 served ->
     pending_request (env (DTA1_run 9)) 1 waiting /\ served < waiting).
Proof.
  split; [vm_compute; reflexivity|].
  apply (fifo_no_overtaking draws_example neg_log1m_example 2 5 7 100 (8 # 10)
           9 1 hospital_of_setup_round_9).
  vm_compute. reflexivity.
Defined.

Lemma same_draws_same_run_witness :
  agree_on draws_example draws_example' 0 (draws (env (DTA1_run 20))) /\
  exec draws_example' neg_log1m_example 2 5 7 100 (8 # 10) 20 = DTA1_run 20.
Proof.
  assert (Hd : draws (env (DTA1_run 20)) = 7) by (vm_compute; reflexivity).
  assert (H : agree_on draws_example draws_example' 0 (draws (env (DTA1_run 20)))).
  { rewrite Hd. intros i [_ Hi]. unfold draws_example'.
    destruct (Nat.ltb_spec i 7); [reflexivity|lia]. }
  split; [exact H|].
  exact (same_draws_same_run draws_example draws_example' neg_log1m_example
           2 5 7 100 (8 # 10) 20 H).
Defined.

Lemma treated_plus_abandoned_is_total_witness :
  all_returned (env (DTA1_run_nobody_treated 20)) = true /\
  treated_count (env (DTA1_run_nobody_treated 20))
  + left_without_treatment_count (env (DTA1_run_nobody_treated 20))
  = total_patients (env (DTA1_run_nobody_treated 20)).
Proof.
  split; [vm_compute; reflexivity|].
  apply (treated_plus_abandoned_is_total (fun _ => 9 # 10) neg_log1m_example
           2 5 7 100 (8 # 10) 20).
  vm_compute. reflexivity.
Defined.

Lemma nobody_treated_at_probability_zero_witness :
  (forall i, (0 <= draws_example i)%Q) /\
  (let s := env (exec draws_example neg_log1m_example 2 5 7 100 0 20) in
   treated_count s = 0 /\
   Forall (fun P => calm (_generator P)) (procs s) /\
   length (wait_times s) = left_without_treatment_count s).
Proof.
  assert (H : forall i, (0 <= draws_example i)%Q).
  { intros i. unfold draws_example. destruct (i =? 0)%nat; discriminate. }
  split; [exact H|].
  apply (nobody_treated_at_probability_zero draws_example neg_log1m_example
           2 5 7 100 H 20).
Defined.

(** ** The records are in the order of the clock, and the log has them *)

Lemma silent_wp {A} (m : M A) :
  (forall s, wp m (fun _ s' => stdout s' = stdout s) s) -> silent m.
Proof. intros H s. apply H. Qed.

Ltac silent_prims := apply silent_wp; intros ?; wp_prims; reflexivity.

Lemma timeout_silent d : silent (timeout d).
Proof. unfold timeout. silent_prims. Qed.

Lemma _trigger_put_silent h : silent (_trigger_put h).
Proof. unfold _trigger_put, _do_put. silent_prims. Qed.

Lemma _trigger_get_silent h : silent (_trigger_get h).
Proof. unfold _trigger_get, _do_get. silent_prims. Qed.

Lemma request_silent h : silent (request h).
Proof. unfold request, _trigger_put, _do_put. silent_prims. Qed.

Lemma release_silent h req : silent (release h req).
Proof. unfold release, _trigger_get, _do_get. silent_prims. Qed.

Lemma Request_exit_silent h req : silent (Request_exit h req).
Proof. unfold Request_exit, release, _trigger_get, _do_get. silent_prims. Qed.

Lemma Hospital_init_silent n tm : silent (Hospital_init n tm).
Proof. unfold Hospital_init. silent_prims. Qed.

Lemma process_silent g : silent (process g).
Proof. unfold process. silent_prims. Qed.

Lemma run_prologue_silent until : silent (run_prologue until).
Proof. unfold run_prologue. silent_prims. Qed.

Lemma StronglySorted_snoc {A} (R : A -> A -> Prop) (l : list A) x :
  StronglySorted R l -> Forall (fun a => R a x) l -> StronglySorted R (l ++ [x]).
Proof.
  induction 1 as [|a l Hl IH Ha]; cbn; intros HF.
  - repeat constructor.
  - apply Forall_cons in HF as [Hax HF]. constructor; [auto|].
    apply Forall_app. split; [exact Ha|]. repeat constructor. exact Hax.
Qed.

Lemma frame_record t s s' :
  frame s s' -> stdout s' = stdout s -> record_ok t s -> record_ok t s'.
Proof.
  intros Hf Ho (Hc & Hb & Hs & Hp).
  split; [eapply frame_clock; eassumption|].
  destruct Hf as (N & A & T & L & _).
  rewrite N, A, T, L, Ho. auto.
Qed.

Lemma keeps_record {A} t (m : M A) :
  (forall s, wp m (fun _ s' => frame s s') s) -> silent m ->
  keeps (record_ok t) m.
Proof.
  intros Hf Hm s Hs. unfold wp.
  eapply frame_record; [apply Hf|apply Hm|exact Hs].
Qed.

Ltac record_solve :=
  lazymatch goal with
  | H : record_ok ?t _ |- record_ok ?t' _ => unify t t'
  end;
  solve
    [ assumption
    | try lazymatch goal with
      | H : record_ok _ ?s, E : last (arrival_times ?s) = Some _ |- _ =>
          pose proof (wait_nonneg _ _ _ (proj1 H) E)
      end;
      unfold record_ok, clock_ok, printed_arrivals, printed_treated,
        printed_left in *;
      cbn;
      repeat lazymatch goal with H : _ /\ _ |- _ => destruct H end;
      rewrite ?Forall_app, ?omap_app; cbn; rewrite ?app_nil_r;
      repeat split; auto using StronglySorted_snoc;
      first [ congruence
            | repeat constructor; auto using Qle_refl, Qle_plus_0 ] ].

Lemma timeout_record t d : keeps (record_ok t) (timeout d).
Proof. auto using keeps_record, timeout_frame, timeout_silent. Qed.
Lemma request_record t h : keeps (record_ok t) (request h).
Proof. auto using keeps_record, request_frame, request_silent. Qed.
Lemma Request_exit_record t h r : keeps (record_ok t) (Request_exit h r).
Proof. auto using keeps_record, Request_exit_frame, Request_exit_silent. Qed.
Lemma Hospital_init_record t n tm : keeps (record_ok t) (Hospital_init n tm).
Proof. auto using keeps_record, Hospital_init_frame, Hospital_init_silent. Qed.
Lemma _trigger_put_record t h : keeps (record_ok t) (_trigger_put h).
Proof. auto using keeps_record, _trigger_put_frame, _trigger_put_silent. Qed.
Lemma _trigger_get_record t h : keeps (record_ok t) (_trigger_get h).
Proof. auto using keeps_record, _trigger_get_frame, _trigger_get_silent. Qed.
Lemma run_prologue_record t until : keeps (record_ok t) (run_prologue until).
Proof. auto using keeps_record, run_prologue_frame, run_prologue_silent. Qed.

Lemma process_record t g : keeps (record_ok t) (process g).
Proof. intros s Hs. unfold process. wp_prims. record_solve. Qed.

Section Record.

Variable U : nat -> Q.
Variable neg_log1m : Q -> Q.
Variable NUM_DOCTORS : Z.
Variables TREATMENT_TIME T_INTER SIM_TIME TREAT_PROBABILITY : Q.

Lemma treat_record t h name pc r :
  keeps (record_ok t) (treat U neg_log1m h name pc r).
Proof.
  intros s Hs. unfold treat, expovariate, random.
  destruct r, pc; wp_prims; try record_solve.
  wp_keep timeout_record record_solve. wp_prims; record_solve.
Qed.

Lemma patient_record t name h pc r :
  keeps (record_ok t) (patient U TREAT_PROBABILITY name h pc r).
Proof.
  intros s Hs. unfold patient, random.
  destruct r, pc; wp_prims; try record_solve;
    first [ wp_keep request_record record_solve
          | wp_keep process_record record_solve
          | wp_keep Request_exit_record record_solve ];
    wp_prims; record_solve.
Qed.

Lemma setup_loop_record t h i :
  keeps (record_ok t) (setup_loop U neg_log1m T_INTER h i).
Proof.
  intros s Hs. unfold setup_loop, expovariate, random.
  wp_prims; try record_solve.
  wp_keep timeout_record record_solve. wp_prims; record_solve.
Qed.

Lemma setup_record t pc r :
  keeps (record_ok t) (setup U neg_log1m NUM_DOCTORS TREATMENT_TIME T_INTER pc r).
Proof.
  intros s Hs. unfold setup.
  destruct r, pc; wp_prims; try record_solve.
  - wp_keep Hospital_init_record record_solve. wp_prims; [record_solve|].
    eapply wp_mono.
    { eapply keeps_for_each; [|eassumption].
      intros x. apply keeps_bind; [apply process_record|]. intros ?. apply keeps_ret. }
    cbn beta. intros _ s1 Hs1. apply setup_loop_record, Hs1.
  - wp_keep process_record record_solve. apply setup_loop_record. assumption.
Qed.

Lemma add_doctors_loop_record t h n :
  keeps (record_ok t) (add_doctors_loop h n).
Proof.
  intros s Hs. unfold add_doctors_loop.
  destruct n; wp_prims; try record_solve.
  wp_keep request_record record_solve.
  wp_keep timeout_record record_solve. wp_prims; record_solve.
Qed.

Lemma add_doctors_record t h n pc r :
  keeps (record_ok t) (add_doctors h n pc r).
Proof.
  intros s Hs. unfold add_doctors.
  destruct r, pc; wp_prims; try record_solve;
    apply add_doctors_loop_record; record_solve.
Qed.

Lemma resume_generator_record t g r :
  keeps (record_ok t)
    (resume_generator U neg_log1m NUM_DOCTORS TREATMENT_TIME T_INTER
       TREAT_PROBABILITY g r).
Proof.
  intros s Hs. unfold resume_generator. destruct g; wp_prims.
  - wp_keep patient_record eassumption. wp_prims. assumption.
  - wp_keep treat_record eassumption. wp_prims. assumption.
  - wp_keep setup_record eassumption. wp_prims. assumption.
  - wp_keep add_doctors_record eassumption. wp_prims. assumption.
Qed.

Lemma _resume_record t p ev :
  keeps (record_ok t)
    (_resume U neg_log1m NUM_DOCTORS TREATMENT_TIME T_INTER TREAT_PROBABILITY
       p ev).
Proof.
  intros s Hs. unfold _resume. wp_prims; try record_solve.
  - wp_keep resume_generator_record record_solve. wp_prims; record_solve.
  - wp_keep resume_generator_record record_solve. wp_prims; record_solve.
Qed.

(** An invariant for each reading of the clock is an invariant of the
    states with their own clock. *)
Lemma keeps_at_now {A} (Inv : Q -> state -> Prop) (m : M A) :
  (forall t s, Inv t s -> now s = t) ->
  (forall t, keeps (Inv t) m) -> keeps (fun s => Inv (now s) s) m.
Proof.
  intros Hn Hm s Hs. unfold wp. pose proof (Hm _ s Hs) as H. unfold wp in H.
  rewrite (Hn _ _ H). exact H.
Qed.

Lemma record_ok_now t s : record_ok t s -> now s = t.
Proof. intros [[H _] _]. exact H. Qed.

Lemma exec_record n :
  let s := env (exec U neg_log1m NUM_DOCTORS TREATMENT_TIME T_INTER SIM_TIME
                  TREAT_PROBABILITY n) in
  record_ok (now s) s.
Proof.
  apply (exec_keeps U neg_log1m NUM_DOCTORS TREATMENT_TIME T_INTER SIM_TIME
           TREAT_PROBABILITY (fun s => record_ok (now s) s)).
  - intros p ev. apply (keeps_at_now record_ok); [apply record_ok_now|].
    intros t. apply _resume_record.
  - intros h. apply (keeps_at_now record_ok); [apply record_ok_now|].
    intros t. apply _trigger_put_record.
  - intros h. apply (keeps_at_now record_ok); [apply record_ok_now|].
    intros t. apply _trigger_get_record.
  - apply (keeps_at_now record_ok); [apply record_ok_now|].
    intros t. apply process_record.
  - intros h. apply (keeps_at_now record_ok); [apply record_ok_now|].
    intros t. apply process_record.
  - intros t0. apply (keeps_at_now record_ok); [apply record_ok_now|].
    intros t. apply run_prologue_record.
  - apply (keeps_at_now record_ok); [apply record_ok_now|].
    intros t. apply Hospital_init_record.
  - intros s item q ((Ht & HQ & HA & HW) & (HT & HL) & (S1 & S2 & S3) &
                     (P1 & P2 & P3)) Hpop.
    destruct (heappop_spec _ _ _ Hpop) as (Hin & Hmin & Hsub).
    assert (Hle : (now s <= e_time item)%Q).
    { rewrite Forall_forall in HQ. apply HQ, list_elem_of_In, Hin. }
    assert (Hup : forall l, Forall (fun a => (a <= now s)%Q) l ->
                            Forall (fun a => (a <= e_time item)%Q) l).
    { intros l Hl. eapply Forall_impl; [exact Hl|].
      intros a Ha. cbn in Ha. eapply Qle_trans; [exact Ha|exact Hle]. }
    repeat split; cbn; auto.
  - repeat split; cbn; auto using Qle_refl; constructor.
Qed.

(** The three lists of times are in the order of the clock, and no time in
    them is ahead of [env.now]. *)
Theorem records_are_chronological n :
  let s := env (exec U neg_log1m NUM_DOCTORS TREATMENT_TIME T_INTER SIM_TIME
                  TREAT_PROBABILITY n) in
  (StronglySorted Qle (arrival_times s) /\
   StronglySorted Qle (treated_times s) /\
   StronglySorted Qle (left_without_treatment_times s)) /\
  Forall (fun a => (a <= now s)%Q)
    (arrival_times s ++ treated_times s ++ left_without_treatment_times s).
Proof.
  intros s. destruct (exec_record n) as ((_ & _ & HA & _) & (HT & HL) & Hs & _).
  fold s in HA, HT, HL, Hs. split; [exact Hs|].
  rewrite !Forall_app. auto.
Qed.


End Record.

(** ** The report and the plot *)

Lemma insert_time_Forall (P : Q -> Prop) t l :
  P t -> Forall P l -> Forall P (insert_time t l).
Proof.
  intros Ht. induction 1 as [|x l Hx Hl IH]; cbn; [repeat constructor; auto|].
  destruct (t ?= x)%Q; repeat constructor; auto.
Qed.

Lemma insert_time_sorted t l :
  StronglySorted Qlt l -> StronglySorted Qlt (insert_time t l).
Proof.
  induction 1 as [|x l Hl IH Hx]; cbn; [repeat constructor|].
  destruct (t ?= x)%Q eqn:E.
  - constructor; assumption.
  - apply Qlt_alt in E. constructor; [constructor; assumption|].
    constructor; [exact E|].
    eapply Forall_impl; [exact Hx|]. intros y Hy. cbn in Hy.
    eapply Qlt_trans; eassumption.
  - apply Qgt_alt in E. constructor; [exact IH|].
    apply insert_time_Forall; assumption.
Qed.

Lemma insert_time_elem_of y t l : y ∈ insert_time t l -> y = t \/ y ∈ l.
Proof.
  induction l as [|x l IH]; cbn.
  - intros H. apply list_elem_of_singleton in H. auto.
  - destruct (t ?= x)%Q; intros H.
    + auto.
    + apply elem_of_cons in H as [->|H]; auto.
    + apply elem_of_cons in H as [->|H].
      * right. apply list_elem_of_here.
      * destruct (IH H) as [->|Hy]; [auto|].
        right. apply list_elem_of_further, Hy.
Qed.

Lemma insert_time_has t l x :
  x = t \/ x ∈ l -> exists y, y ∈ insert_time t l /\ (x == y)%Q.
Proof.
  induction l as [|z l IH]; cbn.
  - intros [->|H]; [|inversion H].
    exists t. split; [apply list_elem_of_here|reflexivity].
  - destruct (t ?= z)%Q eqn:E; intros H.
    + apply Qeq_alt in E. destruct H as [->|H].
      * exists z. split; [apply list_elem_of_here|exact E].
      * exists x. split; [exact H|reflexivity].
    + exists x. split; [|reflexivity].
      destruct H as [->|H]; [apply list_elem_of_here|].
      apply list_elem_of_further, H.
    + destruct H as [->|H].
      * destruct IH as (y & Hy & Hxy); [auto|].
        exists y. split; [apply list_elem_of_further, Hy|exact Hxy].
      * apply elem_of_cons in H as [->|H].
        -- exists z. split; [apply list_elem_of_here|reflexivity].
        -- destruct IH as (y & Hy & Hxy); [auto|].
           exists y. split; [apply list_elem_of_further, Hy|exact Hxy].
Qed.

Lemma sorted_set_sorted l : StronglySorted Qlt (sorted_set l).
Proof.
  induction l as [|t l IH]; cbn; [constructor|].
  apply insert_time_sorted, IH.
Qed.

Lemma sorted_set_elem_of y l : y ∈ sorted_set l -> y ∈ l.
Proof.
  induction l as [|t l IH]; cbn; [auto|].
  intros H. apply insert_time_elem_of in H as [->|H].
  - apply list_elem_of_here.
  - apply list_elem_of_further, IH, H.
Qed.

Lemma sorted_set_has x l : x ∈ l -> exists y, y ∈ sorted_set l /\ (x == y)%Q.
Proof.
  induction l as [|t l IH]; cbn; intros H; [inversion H|].
  apply elem_of_cons in H as [->|H].
  - apply insert_time_has. auto.
  - destruct (IH H) as (y & Hy & Hxy).
    destruct (insert_time_has t (sorted_set l) y) as (z & Hz & Hyz); [auto|].
    exists z. split; [exact Hz|]. rewrite Hxy. exact Hyz.
Qed.

(** The x axis of the plot: the distinct recorded times, in increasing
    order. *)
Theorem time_points_are_the_distinct_times arrival_times treated_times
    left_without_treatment_times :
  let times := arrival_times ++ treated_times ++ left_without_treatment_times in
  let tp := time_points arrival_times treated_times left_without_treatment_times in
  StronglySorted Qlt tp /\
  (forall y, y ∈ tp -> y ∈ times) /\
  (forall x, x ∈ times -> exists y, y ∈ tp /\ (x == y)%Q).
Proof.
  cbv zeta. unfold time_points. split; [apply sorted_set_sorted|].
  split; [intros y; apply sorted_set_elem_of|intros x; apply sorted_set_has].
Qed.

Lemma count_le_mono times t t' :
  (t <= t')%Q -> count_le times t <= count_le times t'.
Proof.
  intros Hle. unfold count_le. induction times as [|x times IH]; cbn; [lia|].
  destruct (Qle_bool x t) eqn:E.
  - apply Qle_bool_iff in E.
    assert (E' : Qle_bool x t' = true).
    { apply Qle_bool_iff. eapply Qle_trans; eassumption. }
    rewrite E'. cbn. lia.
  - destruct (Qle_bool x t'); cbn; lia.
Qed.

Lemma count_le_length times t : count_le times t <= length times.
Proof.
  unfold count_le. induction times as [|x times IH]; cbn; [lia|].
  destruct (Qle_bool x t); cbn; lia.
Qed.

Lemma count_le_all times t :
  Forall (fun x => (x <= t)%Q) times -> count_le times t = length times.
Proof.
  unfold count_le. induction 1 as [|x times Hx _ IH]; cbn; [reflexivity|].
  apply Qle_bool_iff in Hx. rewrite Hx. cbn. lia.
Qed.

Lemma cumulative_sorted times tp :
  StronglySorted Qlt tp -> StronglySorted le (cumulative times tp).
Proof.
  unfold cumulative. induction 1 as [|x tp Htp IH Hx]; cbn; constructor; [exact IH|].
  apply Forall_fmap. eapply Forall_impl; [exact Hx|].
  intros y Hy. cbn in *. apply count_le_mono, Qlt_le_weak, Hy.
Qed.

Lemma sorted_last tp m :
  StronglySorted Qlt tp -> last tp = Some m -> Forall (fun x => (x <= m)%Q) tp.
Proof.
  induction 1 as [|x tp Htp IH Hx]; intros Hl; [constructor|].
  destruct tp as [|y tp'].
  - cbn in Hl. injection Hl as <-. repeat constructor. apply Qle_refl.
  - change (last (x :: y :: tp')) with (last (y :: tp')) in Hl.
    specialize (IH Hl). constructor; [|exact IH].
    apply Forall_cons in Hx as [Hxy _]. apply Forall_cons in IH as [Hym _].
    eapply Qle_trans; [apply Qlt_le_weak, Hxy|exact Hym].
Qed.

(** The three curves of the plot have one point for each time point (the
    plot's x and y have the same length), they never go down, they stay
    below the length of their list, and they end at it. *)
Theorem cumulative_counts_rise_to_the_totals arrival_times treated_times
    left_without_treatment_times :
  let tp := time_points arrival_times treated_times left_without_treatment_times in
  let curve times := cumulative times tp in
  Forall (fun times =>
            length (curve times) = length tp /\
            StronglySorted le (curve times) /\
            Forall (fun c => c <= length times) (curve times) /\
            (tp <> [] -> last (curve times) = Some (length times)))
    [arrival_times; treated_times; left_without_treatment_times].
Proof.
  cbv zeta.
  destruct (time_points_are_the_distinct_times arrival_times treated_times
              left_without_treatment_times) as (Hs & _ & Hhas).
  cbv zeta in Hs, Hhas.
  set (tp := time_points _ _ _) in *.
  assert (H : forall times,
             (forall x, x ∈ times ->
                x ∈ arrival_times ++ treated_times ++ left_without_treatment_times) ->
             length (cumulative times tp) = length tp /\
             StronglySorted le (cumulative times tp) /\
             Forall (fun c => c <= length times) (cumulative times tp) /\
             (tp <> [] -> last (cumulative times tp) = Some (length times))).
  { intros times Hsub. split; [apply length_map|].
    split; [apply cumulative_sorted, Hs|].
    split.
    - unfold cumulative. apply Forall_fmap, Forall_forall. intros t _.
      apply count_le_length.
    - intros Hne. unfold cumulative.
      destruct (last tp) as [m|] eqn:Hm.
      + change (map (count_le times) tp) with (count_le times <$> tp).
        rewrite fmap_last, Hm. cbn. f_equal.
        apply count_le_all, Forall_forall. intros x Hx.
        destruct (Hhas x (Hsub x Hx)) as (y & Hy & Hxy).
        pose proof (sorted_last _ _ Hs Hm) as Hall.
        rewrite Forall_forall in Hall. rewrite Hxy. apply Hall, Hy.
      + apply last_None in Hm. contradiction. }
  repeat constructor; apply H; intros x Hx; rewrite !elem_of_app; auto.
Qed.



Lemma fold_left_Qplus_nonneg (l : list Q) (acc : Q) :
  (0 <= acc)%Q -> Forall (fun w => (0 <= w)%Q) l ->
  (0 <= fold_left Qplus l acc)%Q.
Proof.
  intros Ha Hl. revert acc Ha. induction Hl as [|w l Hw _ IH]; cbn; intros acc Ha.
  - exact Ha.
  - apply IH. change 0%Q with (0 + 0)%Q. apply Qplus_le_compat; assumption.
Qed.

Section Report.

Variable U : nat -> Q.
Variable neg_log1m : Q -> Q.
Variable NUM_DOCTORS : Z.
Variables TREATMENT_TIME T_INTER SIM_TIME TREAT_PROBABILITY : Q.


(** Line 121 on the list of a run: the average wait is [float('inf')] when
    no wait is recorded and a non-negative number otherwise; the expression
    does not raise. *)
Theorem average_wait_time_of_a_run n :
  let s := env (exec U neg_log1m NUM_DOCTORS TREATMENT_TIME T_INTER SIM_TIME
                  TREAT_PROBABILITY n) in
  match average_wait_time (wait_times s) with
  | inl _ => False
  | inr Inf => wait_times s = []
  | inr (Finite a) => wait_times s <> [] /\ (0 <= a)%Q
  end.
Proof.
  intros s.
  destruct (exec_clock U neg_log1m NUM_DOCTORS TREATMENT_TIME T_INTER SIM_TIME
              TREAT_PROBABILITY n) as (_ & _ & _ & HW).
  fold s in HW. unfold average_wait_time.
  destruct (wait_times s) as [|w l] eqn:E; [reflexivity|].
  cbn [length Nat.eqb]. split; [discriminate|].
  apply Qle_shift_div_l.
  - change 0%Q with (inject_Z 0). rewrite <- Zlt_Qlt. lia.
  - rewrite Qmult_0_l. apply fold_left_Qplus_nonneg; [apply Qle_refl|exact HW].
Qed.

End Report.

(** *** The bins of [dta.py] *)

Lemma count_lt_mono times (a b : Z) :
  (a <= b)%Z -> count_lt times a <= count_lt times b.
Proof.
  intros Hab. unfold count_lt. induction times as [|x times IH]; cbn; [lia|].
  destruct (Qltb x (inject_Z a)) eqn:E.
  - apply Qltb_true in E.
    assert (E' : Qltb x (inject_Z b) = true).
    { unfold Qltb. apply negb_true_iff.
      destruct (Qle_bool (inject_Z b) x) eqn:F; [|reflexivity].
      apply Qle_bool_iff in F. exfalso.
      apply (Qlt_not_le _ _ E). eapply Qle_trans; [|exact F].
      rewrite <- Zle_Qle. exact Hab. }
    rewrite E'. cbn. lia.
  - destruct (Qltb x (inject_Z b)); cbn; lia.
Qed.

Lemma count_lt_length times tb : count_lt times tb <= length times.
Proof.
  unfold count_lt. induction times as [|x times IH]; cbn; [lia|].
  destruct (Qltb x (inject_Z tb)); cbn; lia.
Qed.

Lemma map_count_lt_sorted times (bins : list Z) :
  StronglySorted Z.le bins -> StronglySorted le (map (count_lt times) bins).
Proof.
  induction 1 as [|x bins Hb IH Hx]; cbn; constructor; [exact IH|].
  apply Forall_fmap. eapply Forall_impl; [exact Hx|].
  intros y Hy. cbn in *. apply count_lt_mono, Hy.
Qed.

Lemma time_bins_sorted : StronglySorted Z.le (tail time_bins).
Proof.
  unfold time_bins.
  assert (H : forall n a, StronglySorted Z.le
                            (map (fun k => 10 * Z.of_nat k)%Z (seq a n))).
  { induction n as [|n IH]; intros a; cbn; constructor; [apply IH|].
    apply Forall_fmap, Forall_forall. intros k Hk.
    apply list_elem_of_In, in_seq in Hk. cbn. lia. }
  apply (H 30 1).
Qed.

(** The curves of [dta.py]: one count for each of the 31 bins of
    [range(0, 301, 10)], starting at 0, never going down, and at most the
    length of the list. *)
Theorem bin_counts_fit_the_bins times :
  length (bin_counts times) = length time_bins /\
  length time_bins = 31 /\
  bin_counts times !! 0 = Some 0 /\
  StronglySorted le (bin_counts times) /\
  Forall (fun c => c <= length times) (bin_counts times).
Proof.
  split; [reflexivity|]. split; [reflexivity|]. split; [reflexivity|].
  unfold bin_counts. split.
  - constructor; [apply map_count_lt_sorted, time_bins_sorted|].
    apply Forall_forall. intros c _. lia.
  - constructor; [lia|]. apply Forall_fmap, Forall_forall. intros tb _.
    apply count_lt_length.
Qed.

(** ** [env.run(until)] stops at [until] *)

Lemma events_ext_refl evs : events_ext evs evs.
Proof.
  split; [eauto 10|]. intros ev e' H1 H2. congruence.
Qed.

Lemma events_ext_trans evs1 evs2 evs3 :
  events_ext evs1 evs2 -> events_ext evs2 evs3 -> events_ext evs1 evs3.
Proof.
  intros [A1 B1] [A2 B2]. split.
  - intros ev e He. destruct (A1 _ _ He) as (e2 & He2 & K2 & T2 & S2 & N2).
    destruct (A2 _ _ He2) as (e3 & He3 & K3 & T3 & S3 & N3).
    exists e3. repeat split; auto. congruence.
  - intros ev e3 He3 Hn.
    destruct (evs2 !! ev) as [e2|] eqn:He2.
    + destruct (A2 _ _ He2) as (e3' & He3' & _ & _ & _ & N3).
      assert (e3' = e3) as -> by congruence. apply N3. eapply B1; eauto.
    + eapply B2; eauto.
Qed.

Lemma events_ext_app evs e : no_stop e -> events_ext evs (evs ++ [e]).
Proof.
  intros Hn. split.
  - intros ev e0 He. exists e0. split; [apply lookup_app_l_Some, He|auto].
  - intros ev e' He' Hnone. apply lookup_ge_None in Hnone.
    rewrite lookup_app_r in He' by exact Hnone.
    apply list_lookup_singleton_Some in He' as [_ <-]. exact Hn.
Qed.

Lemma events_ext_alter evs f ev :
  (forall e, ekind (f e) = ekind e /\
             (triggered e = true -> triggered (f e) = true) /\
             (stops e -> stops (f e)) /\ (no_stop e -> no_stop (f e))) ->
  events_ext evs (alter f ev evs).
Proof.
  intros Hf. split.
  - intros ev0 e He. destruct (decide (ev = ev0)) as [->|Hne].
    + exists (f e). rewrite list_lookup_alter_eq, He. split; [reflexivity|apply Hf].
    + exists e. rewrite list_lookup_alter_ne by exact Hne. auto.
  - intros ev0 e' He' Hnone. exfalso.
    apply lookup_ge_None in Hnone. apply lookup_lt_Some in He'.
    rewrite length_alter in He'. lia.
Qed.

Lemma events_ext_length evs evs' : events_ext evs evs' -> length evs <= length evs'.
Proof.
  intros [A _]. destruct evs as [|e0 evs0] eqn:E; [cbn; lia|]. rewrite <- E in *.
  destruct (lookup_lt_is_Some_2 evs (length evs - 1)) as [e He].
  { rewrite E. cbn. lia. }
  destruct (A _ _ He) as (e' & He' & _). apply lookup_lt_Some in He'. lia.
Qed.

Lemma ext_refl s : ext s s.
Proof.
  split; [reflexivity|]. split; [lia|]. split; [|apply events_ext_refl].
  exists []. rewrite app_nil_r. repeat split; constructor.
Qed.

Lemma may_schedule_ext evs evs' ev :
  events_ext evs evs' -> may_schedule evs' ev -> may_schedule evs ev.
Proof.
  intros [A _] Hm e He. destruct (A _ _ He) as (e' & He' & K & T & _).
  destruct (Hm _ He') as [Ht|Hk]; [|right; congruence].
  left. destruct (triggered e); [|reflexivity]. rewrite T in Ht; auto.
Qed.

Lemma ext_trans s1 s2 s3 : ext s1 s2 -> ext s2 s3 -> ext s1 s3.
Proof.
  intros (N1 & I1 & (a1 & Q1 & D1 & F1) & E1) (N2 & I2 & (a2 & Q2 & D2 & F2) & E2).
  split; [congruence|]. split; [lia|]. split; [|eapply events_ext_trans; eauto].
  exists (a1 ++ a2). split; [rewrite Q2, Q1, app_assoc; reflexivity|].
  rewrite Forall_forall in F1, F2. split.
  - rewrite fmap_app. apply NoDup_app. split; [exact D1|]. split; [|exact D2].
    intros i Hi1 Hi2.
    apply list_elem_of_fmap in Hi1 as (y1 & -> & Hy1).
    apply list_elem_of_fmap in Hi2 as (y2 & Heq & Hy2).
    destruct (F1 _ Hy1) as [? _]. destruct (F2 _ Hy2) as [? _]. lia.
  - apply Forall_app. split; apply Forall_forall; intros y Hy.
    + destruct (F1 _ Hy) as (? & ? & ?). split; [lia|]. split; [|assumption].
      eapply Nat.lt_le_trans; [eassumption|]. eapply events_ext_length, E2.
    + destruct (F2 _ Hy) as (? & ? & ?). split; [lia|]. split; [assumption|].
      eapply may_schedule_ext; eassumption.
Qed.

(** The state differs from [s] in fields that [ext] does not read. *)
Lemma ext_same s s' :
  now s' = now s -> eid s' = eid s -> queue s' = queue s ->
  events s' = events s -> ext s s'.
Proof.
  intros N I Q E. split; [exact N|]. split; [lia|].
  split; [|rewrite E; apply events_ext_refl].
  exists []. rewrite app_nil_r. repeat split; [exact Q|constructor|constructor].
Qed.

Lemma ext_new_event s s' e :
  now s' = now s -> eid s' = eid s -> queue s' = queue s ->
  events s' = events s ++ [e] -> no_stop e -> ext s s'.
Proof.
  intros N I Q E Hn. split; [exact N|]. split; [lia|].
  split; [|rewrite E; apply events_ext_app, Hn].
  exists []. rewrite app_nil_r. repeat split; [exact Q|constructor|constructor].
Qed.

Lemma ext_alter s s' f ev :
  now s' = now s -> eid s' = eid s -> queue s' = queue s ->
  events s' = alter f ev (events s) ->
  (forall e, ekind (f e) = ekind e /\
             (triggered e = true -> triggered (f e) = true) /\
             (stops e -> stops (f e)) /\ (no_stop e -> no_stop (f e))) ->
  ext s s'.
Proof.
  intros N I Q E Hf. split; [exact N|]. split; [lia|].
  split; [|rewrite E; apply events_ext_alter, Hf].
  exists []. rewrite app_nil_r. repeat split; [exact Q|constructor|constructor].
Qed.

Lemma ext_schedule s t prio ev :
  ev < length (events s) -> may_schedule (events s) ev ->
  ext s (set_eid (S (eid s)) (set_queue (queue s ++ [mkEntry t prio (eid s) ev]) s)).
Proof.
  intros Hlt Hm. split; [reflexivity|]. split; [cbn; lia|].
  split; [|apply events_ext_refl].
  eexists. split; [reflexivity|]. split.
  - cbn. apply NoDup_singleton.
  - constructor; [|constructor]. cbn. split; [lia|]. split; [exact Hlt|exact Hm].
Qed.

(** The same when the event scheduled was changed first. *)
Lemma ext_schedule_after s s1 t prio ev :
  ext s s1 -> queue s1 = queue s -> eid s1 = eid s ->
  ev < length (events s) -> may_schedule (events s) ev ->
  ext s (set_eid (S (eid s1)) (set_queue (queue s1 ++ [mkEntry t prio (eid s1) ev]) s1)).
Proof.
  intros (N & _ & _ & E) Q I Hlt Hm. split; [exact N|]. split; [cbn; lia|].
  split; [|exact E].
  exists [mkEntry t prio (eid s1) ev]. cbn. rewrite Q. split; [reflexivity|]. split.
  - apply NoDup_singleton.
  - constructor; [|constructor]. cbn. split; [lia|]. split; [|exact Hm].
    eapply Nat.lt_le_trans; [exact Hlt|]. apply events_ext_length, E.
Qed.

Lemma no_stop_snoc cb e :
  cb <> StopSimulation_callback ->
  no_stop e -> no_stop (set_callbacks ((fun l => l ++ [cb]) <$> callbacks e) e).
Proof.
  intros Hcb Hn l. cbn. destruct (callbacks e) as [l0|] eqn:E; cbn; [|discriminate].
  intros [= <-] Hin. apply elem_of_app in Hin as [Hin|Hin].
  - eapply Hn; eauto.
  - apply list_elem_of_singleton in Hin. congruence.
Qed.

Lemma stops_snoc cb e :
  stops e -> stops (set_callbacks ((fun l => l ++ [cb]) <$> callbacks e) e).
Proof. intros [rest Hr]. exists (rest ++ [cb]). cbn. rewrite Hr. reflexivity. Qed.

(** The changes of one event that the operations make. *)
Ltac ext_gentle :=
  intros ?; cbn;
  split; [reflexivity|]; split; [auto|];
  split;
  [ first [ apply stops_snoc | intros H; exact H ]
  | first [ apply no_stop_snoc; discriminate | intros H; exact H ] ].

Ltac ext_new :=
  let Hc := fresh "Hc" in
  intros ? Hc; cbn in Hc; injection Hc as <-;
  first [ apply not_elem_of_nil
        | let H := fresh "H" in
          intros H; apply list_elem_of_singleton in H; discriminate ].

(** The event scheduled is the last one created, and no [until] event. *)
Ltac ext_last :=
  let H := fresh "H" in
  intros ? H; cbn in H;
  rewrite list_lookup_middle in H by reflexivity;
  injection H as <-; right; discriminate.

Ltac ext_length := cbn; rewrite ?length_app; cbn; lia.

Ltac ext_close :=
  lazymatch goal with
  | |- ext ?s ?s => apply ext_refl
  | H : ext ?s ?s' |- ext ?s ?s' => exact H
  | |- ext ?s (set_eid _ (set_queue (queue ?s1 ++ _) ?s1)) =>
      apply (ext_trans s s1); [ ext_close | apply ext_schedule; [ext_length|ext_last] ]
  | |- ext ?s (set_events (events ?s1 ++ _) ?s1) =>
      apply (ext_trans s s1);
      [ ext_close | eapply ext_new_event; [reflexivity..|ext_new] ]
  | |- ext ?s (set_events (alter _ _ (events ?s1)) ?s1) =>
      apply (ext_trans s s1);
      [ ext_close | eapply ext_alter; [reflexivity..|ext_gentle] ]
  | |- ext ?s (_ _ ?s1) =>
      apply (ext_trans s s1); [ ext_close | apply ext_same; reflexivity ]
  | H : ext ?s0 ?s' |- ext ?s ?s' =>
      apply (ext_trans s s0); [ ext_close | exact H ]
  end.

Ltac wp_ext L :=
  lazymatch goal with |- wp (bind _ _) _ _ => apply wp_bind | _ => idtac end;
  eapply wp_mono; [apply L|cbn beta; intros ? ? ?].

Lemma timeout_ext d s : wp (timeout d) (fun _ s' => ext s s') s.
Proof. unfold timeout. wp_prims; ext_close. Qed.

Lemma process_ext g s : wp (process g) (fun _ s' => ext s s') s.
Proof. unfold process. wp_prims. ext_close. Qed.

Lemma Hospital_init_ext n tm s : wp (Hospital_init n tm) (fun _ s' => ext s s') s.
Proof. unfold Hospital_init. wp_prims; ext_close. Qed.

Lemma callbacks_append_ext ev cb s :
  cb <> StopSimulation_callback ->
  wp (callbacks_append ev cb) (fun _ s' => ext s s') s.
Proof.
  intros Hcb. wp_prims. eapply ext_alter; [reflexivity..|].
  intros e. cbn. split; [reflexivity|]. split; [auto|].
  split; [apply stops_snoc|apply no_stop_snoc; assumption].
Qed.

Lemma defused_ext ev s : wp (update_event ev set_defused) (fun _ s' => ext s s') s.
Proof. wp_prims. ext_close. Qed.

(** [succeed] schedules an event that was pending. *)
Lemma succeed_ext ev s :
  ev < length (events s) -> wp (succeed ev) (fun _ s' => ext s s') s.
Proof.
  intros Hlt. unfold succeed. apply wp_bind, wp_get.
  destruct (triggered (the_event s ev)) eqn:Ht; [wp_prims; ext_close|].
  wp_prims.
  apply (ext_schedule_after s
           (set_events (alter (set_outcome None) ev (events s)) s));
    [ext_close|reflexivity|reflexivity|exact Hlt|].
  intros e He. left. unfold the_event in Ht.
  rewrite (list_lookup_total_correct _ _ _ He) in Ht. exact Ht.
Qed.

(** A process ends: its event is no [until] event. *)
Lemma process_ends_ext self x s :
  is_process_event s self -> wp (process_ends self x) (fun _ s' => ext s s') s.
Proof.
  intros (e0 & p & He0 & Hk). wp_prims.
  apply (ext_schedule_after s
           (set_events (alter (set_outcome x) self (events s)) s));
    [ext_close|reflexivity|reflexivity|eapply lookup_lt_Some, He0|].
  intros e He. right. congruence.
Qed.

Lemma _do_put_ext h ev s :
  ev < length (events s) -> wp (_do_put h ev) (fun _ s' => ext s s') s.
Proof.
  intros Hlt. unfold _do_put. apply wp_bind, wp_get.
  destruct (_ <? _)%Z; [|apply wp_ret, ext_refl].
  apply wp_bind. unfold update_resource. apply wp_modify.
  wp_ext succeed_ext; [exact Hlt|]. ext_close.
Qed.

Lemma _do_get_ext h ev s :
  ev < length (events s) -> wp (_do_get h ev) (fun _ s' => ext s s') s.
Proof.
  intros Hlt. unfold _do_get. apply wp_bind, wp_get. apply wp_bind.
  apply (wp_mono _ (fun _ s' => ext s s' /\ events s' = events s)).
  { destruct (ekind (the_event s ev)); wp_prims;
      (split; [ext_close|reflexivity]). }
  cbn beta. intros _ s1 [H1 HE].
  wp_ext succeed_ext; [rewrite HE; exact Hlt|]. ext_close.
Qed.

Lemma _trigger_put_ext h s :
  fifo_ok s -> wp (_trigger_put h) (fun _ s' => ext s s') s.
Proof.
  intros [HQ _]. unfold _trigger_put. apply wp_bind, wp_get.
  destruct (put_queue (doctor (the_hospital s h))) as [|r rest] eqn:Hq;
    [apply wp_ret, ext_refl|].
  pose proof (the_hospital_put_queue _ _ _ _ Hq) as HH.
  destruct (HQ _ _ HH) as (Q1 & _).
  destruct (Q1 r) as (er & Her & _); [rewrite Hq; apply list_elem_of_here|].
  wp_ext _do_put_ext; [eapply lookup_lt_Some, Her|]. wp_prims; ext_close.
Qed.

Lemma _trigger_get_ext h s :
  fifo_ok s -> wp (_trigger_get h) (fun _ s' => ext s s') s.
Proof.
  intros [HQ _]. unfold _trigger_get. apply wp_bind, wp_get.
  destruct (get_queue (doctor (the_hospital s h))) as [|g rest] eqn:Hq;
    [apply wp_ret, ext_refl|].
  pose proof (the_hospital_get_queue _ _ _ _ Hq) as HH.
  destruct (HQ _ _ HH) as (_ & _ & _ & Q4).
  destruct (Q4 g) as (eg & ? & ? & Heg & _); [rewrite Hq; apply list_elem_of_here|].
  wp_ext _do_get_ext; [eapply lookup_lt_Some, Heg|]. wp_prims; ext_close.
Qed.

Lemma request_ext h s : fifo_ok s -> wp (request h) (fun _ s' => ext s s') s.
Proof.
  intros Hs. unfold request. wp_prims. wp_ext _trigger_put_ext.
  - eapply (fifo_ok_enqueue s _ h (mkEvent (Some []) false None false (Request h)));
      [| | | | |exact Hs]; cbn;
      [reflexivity|reflexivity| |reflexivity|reflexivity].
    apply ev_stable_alter_quiet. intros e0. split; reflexivity.
  - wp_prims. ext_close.
Qed.

Lemma release_ext h req s :
  fifo_ok s -> wp (release h req) (fun _ s' => ext s s') s.
Proof.
  intros Hs. unfold release. wp_prims. wp_ext _trigger_get_ext.
  - apply (fifo_ok_step s); [fifo_events|fifo_procs| |exact Hs].
    cbn. apply hospitals_alter_get.
    eexists _, _, _. split.
    + cbn. rewrite list_lookup_alter_eq, list_lookup_middle by reflexivity.
      reflexivity.
    + reflexivity.
  - wp_prims. ext_close.
Qed.

Lemma Request_exit_ext h req s :
  fifo_ok s -> wp (Request_exit h req) (fun _ s' => ext s s') s.
Proof.
  intros Hs. unfold Request_exit. wp_prims.
  - wp_ext release_ext; [exact Hs|]. wp_prims. ext_close.
  - wp_ext release_ext; [fifo_quiet|]. wp_prims. ext_close.
Qed.

(** *** Lifting, with the callback that [_resume] appends *)

Section LiftResumeCallback.

Variable U : nat -> Q.
Variable neg_log1m : Q -> Q.
Variable NUM_DOCTORS : Z.
Variables TREATMENT_TIME T_INTER TREAT_PROBABILITY : Q.

Variable Inv : state -> Prop.

Hypothesis I_request : forall h, keeps Inv (request h).
Hypothesis I_exit : forall h r, keeps Inv (Request_exit h r).
Hypothesis I_timeout : forall d, keeps Inv (timeout d).
Hypothesis I_process : forall g, keeps Inv (process g).
Hypothesis I_Hospital : keeps Inv (Hospital_init NUM_DOCTORS TREATMENT_TIME).
Hypothesis I_same : forall s s',
  events s' = events s -> hospitals s' = hospitals s ->
  queue s' = queue s -> eid s' = eid s -> now s' = now s ->
  self_event <$> procs s' = self_event <$> procs s ->
  Inv s -> Inv s'.
Hypothesis I_callbacks_append :
  forall ev p, keeps Inv (callbacks_append ev (Process_resume p)).
Hypothesis I_defused : forall ev, keeps Inv (update_event ev set_defused).
Hypothesis I_ends : forall p self x,
  keeps (with_process Inv p self) (process_ends self x).

Lemma _resume_keeps_callback p ev :
  keeps Inv
    (_resume U neg_log1m NUM_DOCTORS TREATMENT_TIME T_INTER TREAT_PROBABILITY
       p ev).
Proof.
  intros s Hs. unfold _resume. apply wp_bind, wp_get.
  destruct (procs s !! p) as [P|] eqn:HP; [|exact Hs].
  assert (HJ : with_process Inv p (self_event P) s).
  { split; [exact Hs|]. rewrite list_lookup_fmap, HP. reflexivity. }
  apply wp_bind.
  apply (wp_mono _ (fun _ s' => with_process Inv p (self_event P) s')).
  { destruct (exc (the_event s ev)).
    - apply wp_bind.
      eapply wp_mono;
        [apply wp_conj;
          [apply I_defused, Hs
          |apply (wp_modify _ (fun _ s' => procs s' = procs s)); reflexivity]|].
      cbn beta. intros _ s' [Hs' Hpr]. apply wp_ret.
      split; [exact Hs'|]. rewrite Hpr. apply HJ.
    - apply wp_ret. exact HJ. }
  cbn beta. intros r s1 HJ1.
  wp_keep (resume_generator_with_process U neg_log1m NUM_DOCTORS TREATMENT_TIME
             T_INTER TREAT_PROBABILITY Inv I_request I_exit I_timeout I_process
             I_Hospital I_same) ltac:(exact HJ1).
  match goal with H : with_process _ _ _ ?s2 |- _ => rename H into HJ2 end.
  apply wp_bind. unfold set_generator. apply wp_modify.
  match goal with |- wp _ _ ?s3 =>
    assert (HJ3 : with_process Inv p (self_event P) s3) end.
  { destruct HJ2 as [H1 H2]. split.
    - eapply I_same; [..|exact H1]; try reflexivity.
      cbn. apply fmap_self_event_alter.
    - cbn. rewrite fmap_self_event_alter. exact H2. }
  destruct (snd a) eqn:Hout.
  - apply wp_bind, wp_get.
    match goal with |- wp (match ?c with _ => _ end) _ _ => destruct c end.
    + apply I_callbacks_append, HJ3.
    + eapply wp_mono; [apply I_ends, HJ3|]. cbn beta. intros _ ? [H _]. exact H.
  - eapply wp_mono; [apply I_ends, HJ3|]. cbn beta. intros _ ? [H _]. exact H.
  - eapply wp_mono; [apply I_ends, HJ3|]. cbn beta. intros _ ? [H _]. exact H.
Qed.

End LiftResumeCallback.

(** *** The queue *)

Lemma heap_remove_sublist m q : heap_remove m q `sublist_of` q.
Proof.
  induction q as [|x q IH]; cbn; [constructor|].
  destruct (e_eid x =? m)%nat.
  - apply sublist_cons, reflexivity.
  - apply sublist_skip, IH.
Qed.

Lemma heap_remove_other m q y :
  y ∈ q -> e_eid y <> m -> y ∈ heap_remove m q.
Proof.
  induction q as [|x q IH]; cbn; intros Hy Hm; [inversion Hy|].
  apply elem_of_cons in Hy as [->|Hy].
  - destruct (Nat.eqb_spec (e_eid x) m); [contradiction|apply list_elem_of_here].
  - destruct (e_eid x =? m)%nat; [exact Hy|].
    apply list_elem_of_further, IH; assumption.
Qed.

Lemma NoDup_fmap_eq {A B} (f : A -> B) (l : list A) x y :
  NoDup (f <$> l) -> x ∈ l -> y ∈ l -> f x = f y -> x = y.
Proof.
  induction l as [|z l IH]; cbn; intros Hnd Hx Hy Hf; [inversion Hx|].
  apply NoDup_cons in Hnd as [Hz Hnd].
  apply elem_of_cons in Hx as [->|Hx]; apply elem_of_cons in Hy as [->|Hy]; auto.
  - exfalso. apply Hz. rewrite Hf. apply list_elem_of_fmap. eauto.
  - exfalso. apply Hz. rewrite <- Hf. apply list_elem_of_fmap. eauto.
Qed.

(** [heappop] takes an item that is due first, and only this item, out of
    a queue of items with distinct [eid]s. *)
Lemma heappop_NoDup q0 item q :
  NoDup (e_eid <$> q0) -> heappop q0 = Some (item, q) ->
  item ∈ q0 /\
  Forall (fun y => (e_time item <= e_time y)%Q) q0 /\
  q `sublist_of` q0 /\
  (forall y, y ∈ q0 -> y <> item -> y ∈ q).
Proof.
  intros Hnd Hpop. destruct q0 as [|x q0]; [discriminate|].
  cbn [heappop] in Hpop. injection Hpop as <- <-.
  pose proof (heap_min_In x q0) as Hin. apply list_elem_of_In in Hin.
  destruct (heap_min_le x q0) as [H1 H2].
  split; [exact Hin|]. split; [constructor; assumption|].
  split; [apply (heap_remove_sublist (e_eid (heap_min x q0)) (x :: q0))|].
  intros y Hy Hne.
  apply (heap_remove_other (e_eid (heap_min x q0)) (x :: q0)); [exact Hy|].
  intros Heq. apply Hne. eapply NoDup_fmap_eq; eauto.
Qed.

Lemma heappop_None q0 : heappop q0 = None -> q0 = [].
Proof. destruct q0; [reflexivity|discriminate]. Qed.

Lemma eids_ok_ext s s' : ext s s' -> eids_ok s -> eids_ok s'.
Proof.
  intros (_ & I & (a & Q & D & F) & E) [Hnd Hlt]. unfold eids_ok. rewrite Q.
  rewrite Forall_forall in F, Hlt. split.
  - rewrite fmap_app. apply NoDup_app. split; [exact Hnd|]. split; [|exact D].
    intros i Hi1 Hi2.
    apply list_elem_of_fmap in Hi1 as (y1 & -> & Hy1).
    apply list_elem_of_fmap in Hi2 as (y2 & Heq & Hy2).
    destruct (Hlt _ Hy1) as [? _]. destruct (F _ Hy2) as [? _]. lia.
  - apply Forall_app. split; apply Forall_forall; intros y Hy.
    + destruct (Hlt _ Hy) as [? ?]. split; [lia|].
      eapply Nat.lt_le_trans; [eassumption|]. apply events_ext_length, E.
    + destruct (F _ Hy) as (? & ? & _). split; [lia|assumption].
Qed.

Lemma eids_ok_pop s q f ev t :
  eids_ok s -> q `sublist_of` queue s ->
  eids_ok (set_events (alter f ev (events s)) (set_now t (set_queue q s))).
Proof.
  intros [Hnd Hlt] Hsub. split; cbn.
  - eapply sublist_NoDup; [exact Hnd|]. apply fmap_sublist, Hsub.
  - rewrite Forall_forall in *. intros y Hy. rewrite length_alter. apply Hlt.
    eapply elem_of_sublist; eassumption.
Qed.

Lemma horizon_ext T s s' : ext s s' -> horizon T s -> horizon T s'.
Proof.
  intros Hext (He & Hn & x & e & Hx & Ht & Hev & Hst & Htr & Hk & Hno & Huniq).
  split; [eapply eids_ok_ext; eassumption|].
  destruct Hext as (N & I & (a & Q & D & F) & Eold & Enew).
  split; [rewrite N; exact Hn|].
  destruct (Eold _ _ Hev) as (e' & Hev' & K' & T' & S' & _).
  exists x, e'. rewrite Q.
  split; [apply elem_of_app; auto|]. split; [exact Ht|].
  split; [exact Hev'|]. split; [auto|]. split; [auto|]. split; [congruence|].
  split.
  - intros ev e1 He1 Hne.
    destruct (events s !! ev) as [e0|] eqn:He0.
    + destruct (Eold _ _ He0) as (e1' & He1' & _ & _ & _ & N1).
      assert (e1' = e1) as -> by congruence. apply N1. eapply Hno; eauto.
    + eapply Enew; eauto.
  - intros y Hy Hyx. apply elem_of_app in Hy as [Hy|Hy]; [auto|].
    exfalso. rewrite Forall_forall in F. destruct (F _ Hy) as (_ & _ & Hm).
    rewrite Hyx in Hm. destruct (Hm _ Hev) as [H|H]; congruence.
Qed.

Lemma no_stops_ext s s' :
  ext s s' ->
  (forall ev e, events s !! ev = Some e -> no_stop e) ->
  forall ev e, events s' !! ev = Some e -> no_stop e.
Proof.
  intros (_ & _ & _ & Eold & Enew) Hno ev e1 He1.
  destruct (events s !! ev) as [e0|] eqn:He0.
  - destruct (Eold _ _ He0) as (e1' & He1' & _ & _ & _ & N1).
    assert (e1' = e1) as -> by congruence. eauto.
  - eauto.
Qed.

Lemma keeps_running {A} T (m : M A) :
  keeps fifo_ok m -> (forall s, fifo_ok s -> wp m (fun _ s' => ext s s') s) ->
  keeps (running T) m.
Proof.
  intros Hf He s [H1 H2]. unfold wp, running.
  split; [apply Hf, H1|]. eapply horizon_ext; [apply He, H1|exact H2].
Qed.

Lemma keeps_idle {A} (m : M A) :
  keeps fifo_ok m -> (forall s, fifo_ok s -> wp m (fun _ s' => ext s s') s) ->
  keeps idle m.
Proof.
  intros Hf He s (H1 & H2 & H3). unfold wp, idle.
  split; [apply Hf, H1|]. split.
  - eapply eids_ok_ext; [apply He, H1|exact H2].
  - eapply no_stops_ext; [apply He, H1|exact H3].
Qed.

Lemma process_ends_running T p self x :
  keeps (with_process (running T) p self) (process_ends self x).
Proof.
  intros s [[Hf Hh] Hp].
  assert (Hpe : is_process_event s self).
  { destruct Hf as [_ HP]. apply HP. eapply list_elem_of_lookup_2, Hp. }
  pose proof (process_ends_fifo p self x s (conj Hf Hp)) as [Hf' Hp'].
  split; [split; [exact Hf'|]|exact Hp'].
  eapply horizon_ext; [apply process_ends_ext, Hpe|exact Hh].
Qed.

Lemma running_same T s s' :
  events s' = events s -> hospitals s' = hospitals s ->
  queue s' = queue s -> eid s' = eid s -> now s' = now s ->
  self_event <$> procs s' = self_event <$> procs s ->
  running T s -> running T s'.
Proof.
  intros E H Q I N P [Hf Hh]. split.
  - apply (fifo_ok_same s); assumption.
  - eapply horizon_ext; [|exact Hh]. apply ext_same; assumption.
Qed.

Section Horizon.

Variable U : nat -> Q.
Variable neg_log1m : Q -> Q.
Variable NUM_DOCTORS : Z.
Variables TREATMENT_TIME T_INTER SIM_TIME TREAT_PROBABILITY : Q.

Lemma _resume_running T p ev :
  keeps (running T)
    (_resume U neg_log1m NUM_DOCTORS TREATMENT_TIME T_INTER TREAT_PROBABILITY
       p ev).
Proof.
  apply _resume_keeps_callback.
  - intros h. apply keeps_running; [apply request_fifo|intros s; apply request_ext].
  - intros h r. apply keeps_running;
      [apply Request_exit_fifo|intros s; apply Request_exit_ext].
  - intros d. apply keeps_running;
      [apply timeout_fifo|intros s _; apply timeout_ext].
  - intros g. apply keeps_running;
      [apply process_fifo|intros s _; apply process_ext].
  - apply keeps_running;
      [apply Hospital_init_fifo|intros s _; apply Hospital_init_ext].
  - apply running_same.
  - intros ev0 p0. apply keeps_running; [apply callbacks_append_fifo|].
    intros s _. apply callbacks_append_ext. discriminate.
  - intros ev0. apply keeps_running;
      [apply defused_fifo|intros s _; apply defused_ext].
  - apply process_ends_running.
Qed.

Lemma run_callbacks_running T cbs ev :
  keeps (running T)
    (run_callbacks U neg_log1m NUM_DOCTORS TREATMENT_TIME T_INTER
       TREAT_PROBABILITY cbs ev).
Proof.
  apply run_callbacks_keeps.
  - apply _resume_running.
  - intros h. apply keeps_running;
      [apply _trigger_put_fifo|intros s; apply _trigger_put_ext].
  - intros h. apply keeps_running;
      [apply _trigger_get_fifo|intros s; apply _trigger_get_ext].
Qed.

(** Only [StopSimulation.callback] stops the loop over the callbacks. *)
Lemma run_callbacks_no_stop cbs ev s :
  StopSimulation_callback ∉ cbs ->
  fst (run_callbacks U neg_log1m NUM_DOCTORS TREATMENT_TIME T_INTER
         TREAT_PROBABILITY cbs ev s) = false.
Proof.
  revert s. induction cbs as [|cb cbs IH]; intros s Hn; [reflexivity|].
  cbn [run_callbacks]. unfold bind at 1.
  destruct (call _ _ _ _ _ _ cb ev s) as [stop s1] eqn:E.
  assert (stop = false) as ->.
  { destruct cb; cbn in E; unfold bind, ret in E.
    - destruct (_resume _ _ _ _ _ _ _ _ _) in E. congruence.
    - destruct (_trigger_put _ _) in E. congruence.
    - destruct (_trigger_get _ _) in E. congruence.
    - exfalso. apply Hn, list_elem_of_here. }
  apply IH. intros Hin. apply Hn, list_elem_of_further, Hin.
Qed.

(** One round inside [env.run(until=T)]: the queue is not empty; the round
    either ends the run, at [T], or leaves the run as it was. *)
Lemma step_running T s :
  running T s ->
  wp (step U neg_log1m NUM_DOCTORS TREATMENT_TIME T_INTER TREAT_PROBABILITY)
     (fun r s' =>
        match r with
        | Stepped => running T s'
        | StopSimulation => idle s' /\ (now s' == T)%Q
        | Crashed _ => True
        | EmptySchedule => False
        end) s.
Proof.
  intros [Hf Hh].
  pose proof Hh as (He & Hn & x & e & Hx & Ht & Hev & Hst & Htr & Hk & Hno & Huniq).
  unfold step. apply wp_bind, wp_get.
  destruct (heappop (queue s)) as [[item q]|] eqn:Hpop.
  2: { apply heappop_None in Hpop. rewrite Hpop in Hx. inversion Hx. }
  destruct (heappop_NoDup _ _ _ (proj1 He) Hpop) as (Hin & Hmin & Hsub & Hrest).
  apply wp_bind, wp_modify. apply wp_bind, wp_get.
  apply wp_bind. unfold update_event. apply wp_modify.
  cbn [events set_now set_queue].
  change (the_event (set_now (e_time item) (set_queue q s)) (e_event item))
    with (the_event s (e_event item)).
  set (s2 := set_events _ _).
  assert (Hf2 : fifo_ok s2) by (apply pop_fifo, Hf).
  assert (He2 : eids_ok s2) by (apply eids_ok_pop; assumption).
  destruct (decide (e_event item = e_event x)) as [Heq|Hne].
  - (* the [until] event *)
    assert (item = x) as -> by auto.
    unfold the_event. rewrite (list_lookup_total_correct _ _ _ Hev).
    destruct Hst as [rest Hr]. rewrite Hr.
    unfold wp. cbn [run_callbacks call bind ret fst snd].
    split; [|exact Ht].
    split; [exact Hf2|]. split; [exact He2|].
    intros ev e1 He1. subst s2. cbn in He1.
    destruct (decide (e_event x = ev)) as [<-|Hne].
    + rewrite list_lookup_alter_eq, Hev in He1. injection He1 as <-.
      intros cbs Hc. discriminate.
    + rewrite list_lookup_alter_ne in He1 by exact Hne. eapply Hno; eauto.
  - destruct (callbacks (the_event s (e_event item))) as [cbs|] eqn:Hcb;
      [|apply wp_ret; exact I].
    assert (Hnos : StopSimulation_callback ∉ cbs).
    { unfold the_event in Hcb. rewrite list_lookup_total_alt in Hcb.
      destruct (events s !! e_event item) as [e1|] eqn:He1; [|discriminate].
      eapply Hno; eauto. }
    assert (Hs2 : running T s2).
    { split; [exact Hf2|]. split; [exact He2|].
      rewrite Forall_forall in Hmin. split.
      { subst s2. cbn. rewrite <- Ht. apply Hmin, Hx. }
      exists x, e. subst s2. cbn.
      split; [apply Hrest; [exact Hx|congruence]|]. split; [exact Ht|].
      split; [rewrite list_lookup_alter_ne by exact Hne; exact Hev|].
      split; [exact Hst|].
      split; [exact Htr|]. split; [exact Hk|]. split.
      - intros ev e1 He1 Hevx.
        destruct (decide (e_event item = ev)) as [<-|Hne'].
        + rewrite list_lookup_alter_eq in He1.
          destruct (events s !! e_event item); [|discriminate].
          injection He1 as <-. intros l Hl. discriminate.
        + rewrite list_lookup_alter_ne in He1 by exact Hne'. eauto.
      - intros y Hy. apply Huniq. eapply elem_of_sublist; eassumption. }
    apply wp_bind.
    eapply wp_mono;
      [apply (wp_conj _ (fun _ s' => running T s') (fun r _ => r = false));
        [apply run_callbacks_running, Hs2
        |apply (run_callbacks_no_stop cbs (e_event item) s2 Hnos)]|].
    cbn beta. intros stop s3 [Hs3 ->]. wp_prims; first [exact Hs3|exact I].
Qed.

(** [env.run(until)] from outside a run: [until] must be ahead of the
    clock. *)
Lemma run_prologue_idle until s :
  idle s ->
  wp (run_prologue until)
     (fun r s' =>
        match r with
        | inl _ => (until <= now s)%Q
        | inr _ => running until s' /\ (now s < until)%Q /\ now s' = now s
        end) s.
Proof.
  intros (Hf & [Hnd Hlt] & Hno).
  pose proof (run_prologue_fifo until s Hf) as Hf'. unfold wp in Hf'.
  unfold wp. revert Hf'. unfold run_prologue.
  cbn [bind get fst snd].
  destruct (Qle_bool until (now s)) eqn:E; cbn; intros Hf'.
  - apply Qle_bool_iff, E.
  - assert (Hlt' : (now s < until)%Q).
    { apply Qnot_le_lt. intros Hle. apply Qle_bool_iff in Hle. congruence. }
    split; [|split; [exact Hlt'|reflexivity]]. split; [exact Hf'|].
    rewrite Forall_forall in Hlt. split; [|split].
    + split; cbn.
      * rewrite fmap_app. apply NoDup_app. split; [exact Hnd|].
        split; [|apply NoDup_singleton].
        intros i Hi1 Hi2. apply list_elem_of_fmap in Hi1 as (y & -> & Hy).
        cbn in Hi2. apply list_elem_of_singleton in Hi2.
        destruct (Hlt _ Hy). lia.
      * apply Forall_app. split.
        -- apply Forall_forall. intros y Hy. destruct (Hlt _ Hy).
           rewrite length_alter, length_app. cbn. lia.
        -- constructor; [|constructor]. cbn.
           rewrite length_alter, length_app. cbn. lia.
    + cbn. apply Qlt_le_weak, Hlt'.
    + eexists _, _. split; [apply elem_of_app; right; apply list_elem_of_here|].
      cbn. split; [ring|].
      split; [rewrite list_lookup_alter_eq, list_lookup_middle by reflexivity;
              reflexivity|].
      split; [exists []; reflexivity|]. split; [reflexivity|]. split; [reflexivity|].
      split.
      * intros ev e1 He1 Hne. rewrite list_lookup_alter_ne in He1 by auto.
        apply lookup_app_Some in He1 as [He1|[Hge He1]]; [eauto|].
        apply list_lookup_singleton_Some in He1 as [Hz _]. exfalso. lia.
      * intros y Hy Hyu. apply elem_of_app in Hy as [Hy|Hy].
        -- destruct (Hlt _ Hy). lia.
        -- apply list_elem_of_singleton in Hy. exact Hy.
Qed.

Lemma process_idle g : keeps idle (process g).
Proof.
  apply keeps_idle; [apply process_fifo|intros s _; apply process_ext].
Qed.

Lemma Hospital_init_idle n tm : keeps idle (Hospital_init n tm).
Proof.
  apply keeps_idle; [apply Hospital_init_fifo|intros s _; apply Hospital_init_ext].
Qed.

Lemma process_now g s : wp (process g) (fun _ s' => now s' = now s) s.
Proof. unfold process. wp_prims. reflexivity. Qed.

Abbreviation script_start' :=
  (script_start NUM_DOCTORS TREATMENT_TIME SIM_TIME).
Abbreviation main_step' :=
  (main_step U neg_log1m NUM_DOCTORS TREATMENT_TIME T_INTER TREAT_PROBABILITY).
Abbreviation exec' :=
  (exec U neg_log1m NUM_DOCTORS TREATMENT_TIME T_INTER SIM_TIME
     TREAT_PROBABILITY).

Lemma script_start_phase : phase_ok SIM_TIME script_start'.
Proof.
  unfold script_start.
  match goal with |- context [?m initial_state] =>
    assert (H : wp m (fun r s' => phase_ok SIM_TIME (mkProgram r s'))
                  initial_state) end.
  { assert (H0 : idle (set_stdout [L_title] initial_state)).
    { split; [|split; [split; constructor|]].
      - split; [intros h H HH; inversion HH|intros ev Hev; inversion Hev].
      - intros ev e He. inversion He. }
    wp_prims.
    wp_keep Hospital_init_idle ltac:(exact H0). wp_prims; [exact I|].
    wp_keep process_idle eassumption.
    apply wp_bind. eapply wp_mono; [apply run_prologue_idle; eassumption|].
    cbn beta. intros [e|[]] s3 H3; apply wp_ret; [exact I|]. apply H3. }
  unfold wp in H.
  match goal with |- context [?m initial_state] =>
    destruct (m initial_state) as [pc0 s0] end.
  exact H.
Qed.

Lemma between_runs_phase hospital s :
  idle s -> (now s == SIM_TIME)%Q ->
  wp (between_runs hospital)
     (fun r s' =>
        match r with
        | Run2 _ =>
            running 200 s' /\ (SIM_TIME < 200)%Q /\ (SIM_TIME <= now s')%Q
        | Raised _ => (200 <= SIM_TIME)%Q
        | _ => False
        end) s.
Proof.
  intros Hs Hn. unfold between_runs. apply wp_bind.
  eapply wp_mono; [apply wp_conj; [apply process_idle, Hs|apply process_now]|].
  cbn beta. intros _ s1 [Hs1 Hn1]. apply wp_bind.
  eapply wp_mono; [apply run_prologue_idle, Hs1|].
  cbn beta. intros [e|[]] s2 H2; apply wp_ret.
  - rewrite Hn1, Hn in H2. exact H2.
  - destruct H2 as (H2 & Hlt & Hn2). rewrite Hn1, Hn in Hlt.
    split; [exact H2|]. split; [exact Hlt|].
    rewrite Hn2, Hn1, Hn. apply Qle_refl.
Qed.

Lemma main_step_phase p :
  clock_ok (now (env p)) (env p) ->
  phase_ok SIM_TIME p -> phase_ok SIM_TIME (main_step' p).
Proof.
  intros Hc.
  pose proof (main_step_clock U neg_log1m NUM_DOCTORS TREATMENT_TIME T_INTER
                TREAT_PROBABILITY p Hc) as (_ & Hmono & _).
  revert Hmono.
  unfold phase_ok at 1, main_step. destruct (pc p) eqn:Hpc; intros Hmono Hp.
  - pose proof (step_running _ _ Hp) as Hs. unfold wp in Hs.
    destruct (step _ _ _ _ _ _ (env p)) as [r s1]. cbn [fst snd] in Hs.
    destruct r; try exact I; [exact Hs|].
    destruct Hs as [Hi Hn].
    pose proof (between_runs_phase hospital _ Hi Hn) as Hb. unfold wp in Hb.
    destruct (between_runs hospital s1) as [pc' s2]. cbn [fst snd] in Hb.
    unfold phase_ok. cbn. destruct pc'; try contradiction; [exact Hb|exact I].
  - destruct Hp as (Hp & Hlt & Hge).
    pose proof (step_running _ _ Hp) as Hs. unfold wp in Hs.
    destruct (step _ _ _ _ _ _ (env p)) as [r s1]. cbn [fst snd] in Hs.
    destruct r; try exact I.
    + split; [exact Hs|]. split; [exact Hlt|].
      eapply Qle_trans; [exact Hge|exact Hmono].
    + destruct Hs as [_ Hn]. split; [exact Hn|exact Hlt].
  - unfold phase_ok. rewrite Hpc. exact Hp.
  - unfold phase_ok. rewrite Hpc. exact I.
Qed.

Lemma exec_phase n : phase_ok SIM_TIME (exec' n).
Proof.
  induction n as [|n IH].
  - apply script_start_phase.
  - change (exec' (S n)) with (main_step' (exec' n)).
    apply main_step_phase; [|exact IH].
    apply (exec_clock U neg_log1m NUM_DOCTORS TREATMENT_TIME T_INTER SIM_TIME
             TREAT_PROBABILITY n).
Qed.

Lemma horizon_queue T s : horizon T s -> (now s <= T)%Q /\ queue s <> [].
Proof.
  intros (_ & Hn & x & _ & Hx & _). split; [exact Hn|].
  intros Hq. rewrite Hq in Hx. inversion Hx.
Qed.

(** Inside [env.run(until)] the clock does not pass [until], and the event
    queue is not empty: [Environment.step] does not raise [EmptySchedule].
    The second [env.run] is entered only when [SIM_TIME < 200] (it raises
    [ValueError] otherwise) and at a clock of [SIM_TIME] or more.  The script
    gets past it with the clock at 200, and no time after 200 in its
    lists. *)
Theorem run_stops_at_until n :
  let p := exec U neg_log1m NUM_DOCTORS TREATMENT_TIME T_INTER SIM_TIME
             TREAT_PROBABILITY n in
  let s := env p in
  match pc p with
  | Run1 _ => (now s <= SIM_TIME)%Q /\ queue s <> []
  | Run2 _ =>
      (SIM_TIME < 200)%Q /\ (SIM_TIME <= now s)%Q /\ (now s <= 200)%Q /\
      queue s <> []
  | Finished _ =>
      (SIM_TIME < 200)%Q /\ (now s == 200)%Q /\
      Forall (fun t => (t <= 200)%Q)
        (arrival_times s ++ treated_times s ++ left_without_treatment_times s)
  | Raised _ => True
  end.
Proof.
  cbv zeta. pose proof (exec_phase n) as Hp. unfold phase_ok in Hp.
  destruct (pc (exec' n)) eqn:Hpc.
  - destruct Hp as [_ Hh]. apply horizon_queue, Hh.
  - destruct Hp as ([_ Hh] & Hlt & Hge).
    destruct (horizon_queue _ _ Hh). auto.
  - destruct Hp as [Hn Hlt]. split; [exact Hlt|]. split; [exact Hn|].
    destruct (exec_record U neg_log1m NUM_DOCTORS TREATMENT_TIME T_INTER SIM_TIME
                TREAT_PROBABILITY n) as ((_ & _ & HA & _) & (HT & HL) & _).
    rewrite !Forall_app. repeat split.
    all: eapply Forall_impl; [eassumption|].
    all: intros t Ht; cbn in Ht; rewrite <- Hn; exact Ht.
  - exact I.
Qed.

End Horizon.

(** ** Who is in [wait_times] *)

Lemma frame_served_hole p a b s s' :
  frame s s' -> served_hole p a b s -> served_hole p a b s'.
Proof.
  intros (_ & A & T & L & W & _ & P & _). unfold served_hole, count_of.
  rewrite A, T, L, W, P. auto.
Qed.

Lemma frame_served s s' : frame s s' -> served_ok s -> served_ok s'.
Proof.
  intros (_ & A & T & L & W & _ & P & _). unfold served_ok, count_of.
  rewrite A, T, L, W, P. auto.
Qed.

Lemma process_served_hole p a b g :
  fresh g -> keeps (served_hole p a b) (process g).
Proof.
  intros Hg s (P & HP & H1 & H2). unfold process. wp_prims.
  exists P. unfold count_of in *. cbn. rewrite !sum_list_with_app. cbn.
  rewrite !fresh_count by auto.
  split; [apply lookup_app_l_Some, HP|]. lia.
Qed.

Lemma process_served g : fresh g -> keeps served_ok (process g).
Proof.
  intros Hg s (H1 & H2). unfold process. wp_prims.
  unfold served_ok, count_of in *. cbn. rewrite !sum_list_with_app. cbn.
  rewrite !fresh_count by auto. lia.
Qed.

Ltac served_solve :=
  idtac;
  lazymatch goal with
  | H : served_hole ?p _ _ ?s |- served_hole ?p _ _ _ =>
      let P := fresh "P" in
      let HP := fresh "HP" in
      destruct H as (P & HP & ? & ?);
      exists P; unfold count_of in *; frame_eqs;
      rewrite ?length_app, ?sum_list_with_app; cbn;
      split; [first [exact HP | apply lookup_app_l_Some, HP]|lia]
  end.

Lemma Hospital_init_served_hole p a b n tm :
  keeps (served_hole p a b) (Hospital_init n tm).
Proof. eauto using keeps_frame, Hospital_init_frame, frame_served_hole. Qed.

Section Served.

Variable U : nat -> Q.
Variable neg_log1m : Q -> Q.
Variable NUM_DOCTORS : Z.
Variables TREATMENT_TIME T_INTER SIM_TIME TREAT_PROBABILITY : Q.

Lemma patient_served_hole p name h pc r s :
  served_hole p (treating_pc pc) (requesting_pc pc) s ->
  wp (patient U TREAT_PROBABILITY name h pc r)
     (fun res s' =>
        served_hole p (treating_pc (fst res)) (requesting_pc (fst res)) s') s.
Proof.
  intros Hs. unfold patient, random.
  destruct r, pc; wp_prims; try served_solve.
  all: first [ wp_frame request_frame
             | wp_frame process_frame
             | wp_frame Request_exit_frame ].
  all: wp_prims; served_solve.
Qed.

Lemma treat_served_hole p a b h name pc r :
  keeps (served_hole p a b) (treat U neg_log1m h name pc r).
Proof.
  intros s Hs. unfold treat, expovariate, random.
  destruct r, pc; wp_prims; try served_solve.
  wp_frame timeout_frame. wp_prims; served_solve.
Qed.

Lemma setup_loop_served_hole p a b h i :
  keeps (served_hole p a b) (setup_loop U neg_log1m T_INTER h i).
Proof.
  intros s Hs. unfold setup_loop, expovariate, random.
  wp_prims; try served_solve.
  wp_frame timeout_frame. wp_prims; served_solve.
Qed.

Lemma setup_served_hole p a b pc r :
  keeps (served_hole p a b)
    (setup U neg_log1m NUM_DOCTORS TREATMENT_TIME T_INTER pc r).
Proof.
  intros s Hs. unfold setup.
  destruct r, pc; wp_prims; try served_solve.
  - wp_keep Hospital_init_served_hole eassumption. wp_prims; [assumption|].
    eapply wp_mono.
    { eapply keeps_for_each; [|eassumption].
      intros x. apply keeps_bind; [apply process_served_hole; exact I|].
      intros ?. apply keeps_ret. }
    cbn beta. intros _ s1 Hs1. apply setup_loop_served_hole, Hs1.
  - wp_frame process_frame. apply setup_loop_served_hole. served_solve.
Qed.

Lemma add_doctors_loop_served_hole p a b h n :
  keeps (served_hole p a b) (add_doctors_loop h n).
Proof.
  intros s Hs. unfold add_doctors_loop.
  destruct n; wp_prims; try served_solve.
  wp_frame request_frame. wp_frame timeout_frame. wp_prims; served_solve.
Qed.

Lemma add_doctors_served_hole p a b h n pc r :
  keeps (served_hole p a b) (add_doctors h n pc r).
Proof.
  intros s Hs. unfold add_doctors.
  destruct r, pc; wp_prims; try served_solve;
    apply add_doctors_loop_served_hole; served_solve.
Qed.

Lemma resume_generator_served_hole p g r s :
  served_hole p (gen_count treating_pc g) (gen_count requesting_pc g) s ->
  wp (resume_generator U neg_log1m NUM_DOCTORS TREATMENT_TIME T_INTER
        TREAT_PROBABILITY g r)
     (fun res s' =>
        served_hole p (gen_count treating_pc (fst res))
          (gen_count requesting_pc (fst res)) s') s.
Proof.
  intros Hs. unfold resume_generator. destruct g; cbn in Hs; wp_prims.
  - eapply wp_mono; [apply patient_served_hole, Hs|]. cbn beta. intros.
    wp_prims. assumption.
  - wp_keep treat_served_hole eassumption. wp_prims. assumption.
  - wp_keep setup_served_hole eassumption. wp_prims. assumption.
  - wp_keep add_doctors_served_hole eassumption. wp_prims. assumption.
Qed.

Lemma _resume_served p ev :
  keeps served_ok
    (_resume U neg_log1m NUM_DOCTORS TREATMENT_TIME T_INTER TREAT_PROBABILITY
       p ev).
Proof.
  intros s Hs. unfold _resume. apply wp_bind, wp_get.
  destruct (procs s !! p) as [P|] eqn:HP; [|exact Hs].
  assert (HJ : served_hole p (gen_count treating_pc (_generator P))
                 (gen_count requesting_pc (_generator P)) s).
  { exists P. destruct Hs as (H1 & H2). unfold patient_count.
    split; [exact HP|]. lia. }
  apply wp_bind.
  apply (wp_mono _ (fun _ s' =>
           served_hole p (gen_count treating_pc (_generator P))
             (gen_count requesting_pc (_generator P)) s')).
  { destruct (exc (the_event s ev)); wp_prims; served_solve. }
  cbn beta. intros r s1 HJ1. apply wp_bind.
  eapply wp_mono; [apply resume_generator_served_hole, HJ1|].
  cbn beta. intros res s2 (P2 & HP2 & H1 & H2).
  apply wp_bind. unfold set_generator. apply wp_modify.
  match goal with |- wp _ _ ?s3 => assert (Hs3 : served_ok s3) end.
  { unfold served_ok, count_of in *. cbn.
    pose proof (sum_list_with_alter (patient_count treating_pc)
                  (fun P => mkProcess (fst res) (self_event P)) _ _ _ HP2).
    pose proof (sum_list_with_alter (patient_count requesting_pc)
                  (fun P => mkProcess (fst res) (self_event P)) _ _ _ HP2).
    unfold patient_count in *. cbn in *. lia. }
  wp_prims; (eapply frame_served; [|exact Hs3]); frame_close.
Qed.

Lemma exec_served n :
  served_ok
    (env (exec U neg_log1m NUM_DOCTORS TREATMENT_TIME T_INTER SIM_TIME
            TREAT_PROBABILITY n)).
Proof.
  apply exec_keeps.
  - apply _resume_served.
  - eauto using keeps_frame, _trigger_put_frame, frame_served.
  - eauto using keeps_frame, _trigger_get_frame, frame_served.
  - apply process_served. exact I.
  - intros h. apply process_served. exact I.
  - eauto using keeps_frame, run_prologue_frame, frame_served.
  - eauto using keeps_frame, Hospital_init_frame, frame_served.
  - intros s item q Hs _. exact Hs.
  - split; cbn; lia.
Qed.

(** [wait_times] has an entry for every patient who has left, treated or
    not, and none for a patient who has not arrived: the average of line
    121, printed as "for treated patients", is over all the patients who
    got a doctor. *)
Theorem wait_times_are_of_all_served n :
  let s := env (exec U neg_log1m NUM_DOCTORS TREATMENT_TIME T_INTER SIM_TIME
                  TREAT_PROBABILITY n) in
  treated_count s + left_without_treatment_count s <= length (wait_times s) /\
  length (wait_times s) <= total_patients s.
Proof.
  intros s. destruct (exec_served n) as [H1 H2]. fold s in H1, H2.
  unfold treated_count, left_without_treatment_count, total_patients. lia.
Qed.

(** When every patient process has returned, [wait_times] has one entry for
    each arrival. *)
Theorem wait_times_at_the_end n :
  all_returned
    (env (exec U neg_log1m NUM_DOCTORS TREATMENT_TIME T_INTER SIM_TIME
            TREAT_PROBABILITY n)) = true ->
  length (wait_times
            (env (exec U neg_log1m NUM_DOCTORS TREATMENT_TIME T_INTER SIM_TIME
                    TREAT_PROBABILITY n)))
  = total_patients
      (env (exec U neg_log1m NUM_DOCTORS TREATMENT_TIME T_INTER SIM_TIME
              TREAT_PROBABILITY n)).
Proof.
  intros Hall. destruct (exec_served n) as [H1 H2].
  destruct (exec_count U neg_log1m NUM_DOCTORS TREATMENT_TIME T_INTER SIM_TIME
              TREAT_PROBABILITY n) as (C1 & C2 & C3).
  destruct (counts_all_returned _ Hall) as [E1 E2].
  unfold count_of, total_patients in *. lia.
Qed.

End Served.

Lemma wait_times_at_the_end_witness :
  all_returned (env (DTA1_run_nobody_treated 20)) = true /\
  length (wait_times (env (DTA1_run_nobody_treated 20)))
  = total_patients (env (DTA1_run_nobody_treated 20)).
Proof.
  split; [vm_compute; reflexivity|].
  apply (wait_times_at_the_end (fun _ => 9 # 10) neg_log1m_example 2 5 7 100
           (8 # 10) 20).
  vm_compute. reflexivity.
Defined.

(** ** The first lines of the script *)

Section Start.

Variable U : nat -> Q.
Variable neg_log1m : Q -> Q.
Variable NUM_DOCTORS : Z.
Variables TREATMENT_TIME T_INTER SIM_TIME TREAT_PROBABILITY : Q.

Lemma exec_Raised n e :
  pc (script_start NUM_DOCTORS TREATMENT_TIME SIM_TIME) = Raised e ->
  exec U neg_log1m NUM_DOCTORS TREATMENT_TIME T_INTER SIM_TIME
    TREAT_PROBABILITY n
  = script_start NUM_DOCTORS TREATMENT_TIME SIM_TIME.
Proof.
  intros He. induction n as [|n IH]; [reflexivity|].
  change (exec U neg_log1m NUM_DOCTORS TREATMENT_TIME T_INTER SIM_TIME
            TREAT_PROBABILITY (S n))
    with (main_step U neg_log1m NUM_DOCTORS TREATMENT_TIME T_INTER
            TREAT_PROBABILITY
            (exec U neg_log1m NUM_DOCTORS TREATMENT_TIME T_INTER SIM_TIME
               TREAT_PROBABILITY n)).
  rewrite IH. unfold main_step. rewrite He. reflexivity.
Qed.

(** With [NUM_DOCTORS > 0] and [SIM_TIME > 0] the script enters its first
    [env.run], with the module-level hospital as hospital 0.  Otherwise
    [simpy.Resource] (line 23, from line 87) or [env.run] (line 89) raises
    [ValueError], and that is all: the title is the only line printed and
    nothing is recorded. *)
Theorem script_needs_positive_constants n :
  let p := exec U neg_log1m NUM_DOCTORS TREATMENT_TIME T_INTER SIM_TIME
             TREAT_PROBABILITY n in
  if (0 <? NUM_DOCTORS)%Z && Qltb 0 SIM_TIME
  then pc (exec U neg_log1m NUM_DOCTORS TREATMENT_TIME T_INTER SIM_TIME
             TREAT_PROBABILITY 0) = Run1 0
  else pc p = Raised ValueError /\
       stdout (env p) = [L_title] /\
       arrival_times (env p) = [] /\ wait_times (env p) = [].
Proof.
  cbv zeta.
  destruct (0 <? NUM_DOCTORS)%Z eqn:E1; [destruct (Qltb 0 SIM_TIME) eqn:E2|];
    cbn [andb].
  - change (exec U neg_log1m NUM_DOCTORS TREATMENT_TIME T_INTER SIM_TIME
              TREAT_PROBABILITY 0)
      with (script_start NUM_DOCTORS TREATMENT_TIME SIM_TIME).
    unfold script_start, Hospital_init, bind, print, modify, get, ret.
    assert (E1' : (NUM_DOCTORS <=? 0)%Z = false) by lia. rewrite E1'.
    cbn. unfold Qltb in E2. apply negb_true_iff in E2. rewrite E2. reflexivity.
  - assert (He : script_start NUM_DOCTORS TREATMENT_TIME SIM_TIME
                 = mkProgram (Raised ValueError)
                     (snd (process (G_setup S_start)
                             (set_hospitals
                                [mkHospital (mkResource NUM_DOCTORS [] [] [])
                                   TREATMENT_TIME]
                                (set_stdout [L_title] initial_state))))).
    { unfold script_start, Hospital_init, bind, print, modify, get, ret.
      assert (E1' : (NUM_DOCTORS <=? 0)%Z = false) by lia. rewrite E1'.
      cbn. unfold Qltb in E2. apply negb_false_iff in E2. rewrite E2.
      reflexivity. }
    rewrite exec_Raised with (e := ValueError); rewrite He; cbn; auto.
  - assert (He : script_start NUM_DOCTORS TREATMENT_TIME SIM_TIME
                 = mkProgram (Raised ValueError)
                     (set_stdout [L_title] initial_state)).
    { unfold script_start, Hospital_init, bind, print, modify, get, ret.
      assert (E1' : (NUM_DOCTORS <=? 0)%Z = true) by lia. rewrite E1'.
      reflexivity. }
    rewrite exec_Raised with (e := ValueError); rewrite He; cbn; auto.
Qed.

End Start.

(** ** Which hospital a process works with *)

Lemma place_frame_refl s : place_frame s s.
Proof. split; reflexivity. Qed.

Lemma place_frame_trans s1 s2 s3 :
  place_frame s1 s2 -> place_frame s2 s3 -> place_frame s1 s3.
Proof. intros [A B] [C D]. split; congruence. Qed.

Lemma places_hole_frame TT p g s s' :
  place_frame s s' -> places_hole TT p g s -> places_hole TT p g s'.
Proof.
  intros [P H]. unfold places_hole, hospitals_ok. rewrite P, H. auto.
Qed.

Lemma places_ok_frame TT s s' :
  place_frame s s' -> places_ok TT s -> places_ok TT s'.
Proof.
  intros [P H]. unfold places_ok, hospitals_ok. rewrite P, H. auto.
Qed.

(** A [place_frame] goal on a state obtained by symbolic execution. *)
Ltac place_frame_close :=
  split; unfold treatment_times; cbn;
  rewrite ?fmap_alter_same by reflexivity; reflexivity.

Ltac place_prims := intros ?; wp_prims; place_frame_close.

Lemma timeout_place d s : wp (timeout d) (fun _ s' => place_frame s s') s.
Proof. revert s. unfold timeout. place_prims. Qed.

Lemma _trigger_put_place h s :
  wp (_trigger_put h) (fun _ s' => place_frame s s') s.
Proof. revert s. unfold _trigger_put, _do_put. place_prims. Qed.

Lemma _trigger_get_place h s :
  wp (_trigger_get h) (fun _ s' => place_frame s s') s.
Proof. revert s. unfold _trigger_get, _do_get. place_prims. Qed.

Lemma request_place h s : wp (request h) (fun _ s' => place_frame s s') s.
Proof. revert s. unfold request, _trigger_put, _do_put. place_prims. Qed.

Lemma Request_exit_place h r s :
  wp (Request_exit h r) (fun _ s' => place_frame s s') s.
Proof.
  revert s. unfold Request_exit, release, _trigger_get, _do_get. place_prims.
Qed.

Lemma run_prologue_place until s :
  wp (run_prologue until) (fun _ s' => place_frame s s') s.
Proof. revert s. unfold run_prologue. place_prims. Qed.

Lemma keeps_place_frame {A} (Inv : state -> Prop) (m : M A) :
  (forall s, wp m (fun _ s' => place_frame s s') s) ->
  (forall s s', place_frame s s' -> Inv s -> Inv s') ->
  keeps Inv m.
Proof. intros Hm HI s Hs. eapply HI; [apply Hm|exact Hs]. Qed.

(** ... and on one reached through framed operations. *)
Ltac place_frame_solve :=
  solve
    [ place_frame_close
    | match goal with
      | H : place_frame ?a ?b |- place_frame ?s ?X =>
          assert (place_frame b X) by place_frame_close;
          apply (place_frame_trans s b X);
          [apply (place_frame_trans s a b); [place_frame_solve|exact H]
          |assumption]
      end ].

Ltac place_solve :=
  idtac;
  match goal with
  | H : places_hole ?TT ?p ?g ?s |- places_hole ?TT ?p ?g _ =>
      solve [ exact H
            | eapply places_hole_frame; [|exact H]; place_frame_solve ]
  end.

(** A new process that is in its place. *)
Lemma process_places_hole TT p g g0 s :
  places_hole TT p g s ->
  place_ok (length (procs s)) g0 (length (treatment_times s)) ->
  wp (process g0) (fun _ s' => places_hole TT p g s') s.
Proof.
  intros (Hh & Hp & Hg & Ho) Hg0. unfold process. wp_prims.
  split; [exact Hh|]. cbn. rewrite length_app. split; [cbn; lia|].
  split; [exact Hg|].
  intros i P Hi Hne. apply lookup_app_Some in Hi as [Hi|[Hge Hi]]; [eauto|].
  apply list_lookup_singleton_Some in Hi as [Hi <-].
  replace i with (length (procs s)) by lia. exact Hg0.
Qed.

Lemma process_places TT g0 s :
  places_ok TT s ->
  place_ok (length (procs s)) g0 (length (treatment_times s)) ->
  wp (process g0) (fun _ s' => places_ok TT s') s.
Proof.
  intros (Hh & Ho) Hg0. unfold process. wp_prims.
  split; [exact Hh|]. cbn.
  intros i P Hi. apply lookup_app_Some in Hi as [Hi|[Hge Hi]]; [eauto|].
  apply list_lookup_singleton_Some in Hi as [Hi <-].
  replace i with (length (procs s)) by lia. exact Hg0.
Qed.

(** *** An invariant of the script that depends on the hospital in hand *)

Section LiftScript.

Variable U : nat -> Q.
Variable neg_log1m : Q -> Q.
Variable NUM_DOCTORS : Z.
Variables TREATMENT_TIME T_INTER SIM_TIME TREAT_PROBABILITY : Q.

Variable Inv : state -> Prop.

Hypothesis I_step :
  keeps Inv
    (step U neg_log1m NUM_DOCTORS TREATMENT_TIME T_INTER TREAT_PROBABILITY).
Hypothesis I_add_doctors : keeps Inv (process (G_add_doctors 0 2 A_start)).
Hypothesis I_run_prologue : forall until, keeps Inv (run_prologue until).
Hypothesis I_setup :
  wp (process (G_setup S_start)) (fun _ s' => Inv s')
     (set_hospitals
        [mkHospital (mkResource NUM_DOCTORS [] [] []) TREATMENT_TIME]
        (set_stdout [L_title] initial_state)).

Lemma script_start_inv :
  program_inv Inv (script_start NUM_DOCTORS TREATMENT_TIME SIM_TIME).
Proof.
  unfold script_start.
  match goal with |- context [?m initial_state] =>
    assert (H : wp m (fun c s' => program_inv Inv (mkProgram c s'))
                  initial_state) end.
  { apply wp_bind. unfold print. apply wp_modify. apply wp_bind.
    unfold Hospital_init.
    destruct (NUM_DOCTORS <=? 0)%Z; [wp_prims; left; cbn; auto|].
    apply wp_bind, wp_get. apply wp_bind, wp_modify. apply wp_ret.
    apply wp_bind. eapply wp_mono; [exact I_setup|].
    cbn beta. intros _ s2 H2.
    wp_keep I_run_prologue ltac:(exact H2).
    match goal with |- wp (match ?r with _ => _ end) _ _ =>
      destruct r as [e|[]] end; apply wp_ret; right; (split; [assumption|]);
      intros h Hh; cbn in Hh; congruence. }
  unfold wp in H.
  match goal with |- context [?m initial_state] =>
    destruct (m initial_state) as [pc0 s0] end.
  exact H.
Qed.

Lemma between_runs_inv s :
  Inv s ->
  wp (between_runs 0)
     (fun c s' => Inv s' /\ forall h, hospital_of c = Some h -> h = 0) s.
Proof.
  intros Hs. unfold between_runs.
  wp_keep I_add_doctors ltac:(exact Hs).
  wp_keep I_run_prologue eassumption.
  match goal with |- wp (match ?r with _ => _ end) _ _ =>
    destruct r as [e|[]] end; apply wp_ret; (split; [assumption|]);
    intros h Hh; cbn in Hh; congruence.
Qed.

Lemma main_step_inv p :
  program_inv Inv p ->
  program_inv Inv
    (main_step U neg_log1m NUM_DOCTORS TREATMENT_TIME T_INTER
       TREAT_PROBABILITY p).
Proof.
  intros [(Hpc & Hp)|[Hs Hpc]].
  { left. unfold main_step. rewrite Hpc. auto. }
  right. unfold main_step. destruct (pc p) as [h|h|h|e] eqn:E.
  - assert (h = 0) as -> by (apply Hpc; reflexivity).
    pose proof (I_step _ Hs) as H1. unfold wp in H1.
    destruct (step _ _ _ _ _ _ (env p)) as [r s1]. cbn [fst snd] in H1.
    destruct r; cbn [env pc];
      try (split; [exact H1|intros ? [= <-]; reflexivity]);
      try (split; [exact H1|intros ? [=]]).
    pose proof (between_runs_inv _ H1) as H2. unfold wp in H2.
    destruct (between_runs 0 s1) as [pc' s2]. exact H2.
  - assert (h = 0) as -> by (apply Hpc; reflexivity).
    pose proof (I_step _ Hs) as H1. unfold wp in H1.
    destruct (step _ _ _ _ _ _ (env p)) as [r s1]. cbn [fst snd] in H1.
    destruct r; cbn [env pc];
      try (split; [exact H1|intros ? [= <-]; reflexivity]);
      try (split; [exact H1|intros ? [=]]).
  - rewrite E. auto.
  - rewrite E. auto.
Qed.

Lemma exec_inv n :
  program_inv Inv
    (exec U neg_log1m NUM_DOCTORS TREATMENT_TIME T_INTER SIM_TIME
       TREAT_PROBABILITY n).
Proof.
  induction n as [|n IH]; [apply script_start_inv|].
  apply main_step_inv, IH.
Qed.

End LiftScript.

Section Places.

Variable U : nat -> Q.
Variable neg_log1m : Q -> Q.
Variable NUM_DOCTORS : Z.
Variables TREATMENT_TIME T_INTER SIM_TIME TREAT_PROBABILITY : Q.

Abbreviation hole := (places_hole TREATMENT_TIME).

Lemma treat_places p g h name pc r :
  keeps (hole p g) (treat U neg_log1m h name pc r).
Proof.
  intros s Hs. unfold treat, expovariate, random.
  destruct r, pc; wp_prims; try place_solve.
  wp_frame timeout_place. wp_prims; place_solve.
Qed.

Lemma patient_places p name h pc0 pc r :
  keeps (hole p (G_patient name h pc0))
    (patient U TREAT_PROBABILITY name h pc r).
Proof.
  intros s Hs. unfold patient, random.
  destruct r, pc; wp_prims; try place_solve.
  all: first
    [ wp_frame request_place
    | wp_frame Request_exit_place
    | eapply wp_mono;
      [ apply (process_places_hole TREATMENT_TIME p (G_patient name h pc0));
        [place_solve|cbn; destruct Hs as (_ & _ & Hg & _); exact Hg]
      | cbn beta; intros ? ? ? ] ].
  all: wp_prims; place_solve.
Qed.

Lemma setup_loop_places p g h i :
  keeps (hole p g) (setup_loop U neg_log1m T_INTER h i).
Proof.
  intros s Hs. unfold setup_loop, expovariate, random.
  wp_prims; try place_solve.
  wp_frame timeout_place. wp_prims; place_solve.
Qed.

(** [setup_loop] returns at its [yield], or done. *)
Lemma setup_loop_pc h i s :
  wp (setup_loop U neg_log1m T_INTER h i)
     (fun res _ => fst res = S_done \/ exists d, fst res = S_timeout h i d) s.
Proof.
  unfold setup_loop, expovariate, random, timeout.
  wp_prims; cbn; eauto.
Qed.

Lemma setup_places p pc r s :
  hole p (G_setup pc) s ->
  wp (setup U neg_log1m NUM_DOCTORS TREATMENT_TIME T_INTER pc r)
     (fun res s' => hole p (G_setup (fst res)) s') s.
Proof.
  intros Hs. pose proof Hs as (Hh & Hp & Hg & Ho).
  assert (Hdone : forall s', hole p (G_setup pc) s' -> hole p (G_setup S_done) s').
  { intros s' (A & B & C & D). split; [exact A|]. split; [exact B|].
    split; [|exact D]. destruct pc; cbn in *; tauto. }
  unfold setup. destruct r, pc; try (apply wp_ret; cbn; auto; fail).
  - (* the first resumption: the hospital, the four patients *)
    destruct Hg as [-> Hn]. apply wp_bind. unfold Hospital_init.
    destruct (NUM_DOCTORS <=? 0)%Z; [wp_prims; apply Hdone, Hs|].
    apply wp_bind, wp_get. apply wp_bind, wp_modify. apply wp_ret.
    assert (Hlen : length (hospitals s) = 1).
    { unfold treatment_times in Hn. rewrite length_fmap in Hn. exact Hn. }
    rewrite Hlen.
    match goal with |- wp _ _ ?s1 =>
      assert (Hs1 : hole 0 (G_patient 0 1 P_start) s1) end.
    { destruct Hh as [_ Hf]. unfold places_hole, hospitals_ok, treatment_times.
      cbn. rewrite fmap_app, length_app, Forall_app.
      fold (treatment_times s). rewrite Hn. cbn.
      split; [split; [lia|split; [exact Hf|repeat constructor]]|].
      split; [exact Hp|]. split; [auto|].
      intros i P Hi Hne. specialize (Ho i P Hi Hne). rewrite Hn in Ho.
      destruct (_generator P) as [? ? ?|? ? ?|[]|? ? ?]; cbn in *; lia. }
    apply wp_bind.
    apply (wp_mono _ (fun _ s' => hole 0 (G_patient 0 1 P_start) s')).
    { apply (keeps_for_each (hole 0 (G_patient 0 1 P_start)));
        [|exact Hs1].
      intros x s' Hs'. apply wp_bind.
      eapply wp_mono; [apply process_places_hole; [exact Hs'|]|].
      - destruct Hs' as (_ & _ & Hg' & _). exact Hg'.
      - cbn beta. intros _ s'' H''. apply wp_ret. exact H''. }
    cbn beta. intros _ s2 Hs2.
    eapply wp_mono;
      [apply wp_conj;
        [apply (setup_loop_places 0 (G_patient 0 1 P_start)), Hs2
        |apply setup_loop_pc]|].
    cbn beta. intros res s3 [(A & B & C & D) Hpc].
    split; [exact A|]. split; [exact B|]. split; [|exact D].
    destruct Hpc as [->|[d ->]]; cbn in *; tauto.
  - (* after a [yield]: one more patient *)
    destruct Hg as (-> & -> & Hn). apply wp_bind. unfold print. apply wp_modify.
    apply wp_bind.
    eapply wp_mono;
      [apply (process_places_hole TREATMENT_TIME 0
                (G_setup (S_timeout 1 i inter_arrival_time)));
        [place_solve|cbn; auto]|].
    cbn beta. intros _ s1 Hs1.
    eapply wp_mono;
      [apply wp_conj; [apply setup_loop_places, Hs1|apply setup_loop_pc]|].
    cbn beta. intros res s3 [(A & B & C & D) Hpc].
    split; [exact A|]. split; [exact B|]. split; [|exact D].
    destruct Hpc as [->|[d ->]]; cbn in *; tauto.
Qed.

Lemma add_doctors_loop_places p g h n :
  keeps (hole p g) (add_doctors_loop h n).
Proof.
  intros s Hs. unfold add_doctors_loop.
  destruct n; wp_prims; try place_solve.
  wp_frame request_place. wp_frame timeout_place. wp_prims; place_solve.
Qed.

Lemma add_doctors_places p g h n pc r :
  keeps (hole p g) (add_doctors h n pc r).
Proof.
  intros s Hs. unfold add_doctors.
  destruct r, pc; wp_prims; try place_solve;
    apply add_doctors_loop_places; place_solve.
Qed.

Lemma resume_generator_places p g r s :
  hole p g s ->
  wp (resume_generator U neg_log1m NUM_DOCTORS TREATMENT_TIME T_INTER
        TREAT_PROBABILITY g r)
     (fun res s' => hole p (fst res) s') s.
Proof.
  intros Hs. unfold resume_generator.
  destruct g as [name h c|h name c|c|h k c]; wp_prims.
  - wp_keep (patient_places p name h c c r) ltac:(exact Hs).
    wp_prims. assumption.
  - wp_keep treat_places ltac:(exact Hs). wp_prims. assumption.
  - eapply wp_mono; [apply setup_places, Hs|].
    cbn beta. intros ? ? ?. wp_prims. assumption.
  - wp_keep add_doctors_places ltac:(exact Hs). wp_prims. assumption.
Qed.

Lemma process_ends_place self x s :
  wp (process_ends self x) (fun _ s' => place_frame s s') s.
Proof. revert s. place_prims. Qed.

Lemma callbacks_append_place ev cb s :
  wp (callbacks_append ev cb) (fun _ s' => place_frame s s') s.
Proof. revert s. place_prims. Qed.

Lemma _resume_places p ev :
  keeps (places_ok TREATMENT_TIME)
    (_resume U neg_log1m NUM_DOCTORS TREATMENT_TIME T_INTER TREAT_PROBABILITY
       p ev).
Proof.
  intros s Hs. unfold _resume. apply wp_bind, wp_get.
  destruct (procs s !! p) as [P|] eqn:HP; [|exact Hs].
  assert (HJ : hole p (_generator P) s).
  { destruct Hs as [Hh Ho]. split; [exact Hh|].
    split; [eapply lookup_lt_Some, HP|]. split; [eauto|]. intros i P' Hi _. eauto. }
  apply wp_bind.
  apply (wp_mono _ (fun _ s' => hole p (_generator P) s')).
  { destruct (exc (the_event s ev)); wp_prims; place_solve. }
  cbn beta. intros r s1 HJ1. apply wp_bind.
  eapply wp_mono; [apply resume_generator_places, HJ1|].
  cbn beta. intros res s2 (Hh & Hp & Hg & Ho).
  apply wp_bind. unfold set_generator. apply wp_modify.
  match goal with |- wp _ _ ?s3 =>
    assert (Hs3 : places_ok TREATMENT_TIME s3) end.
  { split; [exact Hh|]. cbn. intros i P' Hi.
    rewrite list_lookup_alter in Hi.
    destruct (decide (p = i)) as [->|Hne].
    - destruct (procs s2 !! i); [|discriminate]. cbn in Hi. injection Hi as <-.
      exact Hg.
    - eapply Ho; eauto. }
  destruct (snd res).
  - apply wp_bind, wp_get.
    match goal with |- wp (match ?c with _ => _ end) _ _ => destruct c end.
    + eapply wp_mono; [apply callbacks_append_place|].
      cbn beta. intros _ s4 H4. eapply places_ok_frame; eassumption.
    + eapply wp_mono; [apply process_ends_place|].
      cbn beta. intros _ s4 H4. eapply places_ok_frame; eassumption.
  - eapply wp_mono; [apply process_ends_place|].
    cbn beta. intros _ s4 H4. eapply places_ok_frame; eassumption.
  - eapply wp_mono; [apply process_ends_place|].
    cbn beta. intros _ s4 H4. eapply places_ok_frame; eassumption.
Qed.

Lemma places_pop s item q :
  places_ok TREATMENT_TIME s -> heappop (queue s) = Some (item, q) ->
  places_ok TREATMENT_TIME
    (set_events (alter (set_callbacks None) (e_event item) (events s))
       (set_now (e_time item) (set_queue q s))).
Proof. intros Hs _. eapply places_ok_frame; [|exact Hs]. place_frame_close. Qed.

Lemma step_places :
  keeps (places_ok TREATMENT_TIME)
    (step U neg_log1m NUM_DOCTORS TREATMENT_TIME T_INTER TREAT_PROBABILITY).
Proof.
  apply step_keeps.
  - apply _resume_places.
  - intros h. apply keeps_place_frame;
      [apply _trigger_put_place|apply places_ok_frame].
  - intros h. apply keeps_place_frame;
      [apply _trigger_get_place|apply places_ok_frame].
  - apply places_pop.
Qed.

Lemma places_start :
  places_ok TREATMENT_TIME
    (set_hospitals
       [mkHospital (mkResource NUM_DOCTORS [] [] []) TREATMENT_TIME]
       (set_stdout [L_title] initial_state)).
Proof.
  split; [split; cbn; [lia|repeat constructor]|].
  intros i P Hi; cbn in Hi. rewrite lookup_nil in Hi. discriminate.
Qed.

Lemma exec_places n :
  program_inv (places_ok TREATMENT_TIME)
    (exec U neg_log1m NUM_DOCTORS TREATMENT_TIME T_INTER SIM_TIME
       TREAT_PROBABILITY n).
Proof.
  apply exec_inv.
  - apply step_places.
  - intros s Hs. apply process_places; [exact Hs|reflexivity].
  - intros t. apply keeps_place_frame;
      [apply run_prologue_place|apply places_ok_frame].
  - apply process_places; [apply places_start|cbn; auto].
Qed.

Lemma place_ok_used i g n h :
  place_ok i g n -> hospital_used g = Some h -> h = hospital_expected g.
Proof.
  destruct g as [? ? ?|? ? ?|[]|? ? ?]; cbn; intros Hg [= <-]; tauto.
Qed.

(** Two [Hospital] objects at most exist, each with the script's
    [TREATMENT_TIME]; [add_doctors] is given the first one, of the module,
    and works with it; the patients and their treatments work with the
    second one, which [setup] has created. *)
Theorem patients_use_the_hospital_of_setup n :
  let p := exec U neg_log1m NUM_DOCTORS TREATMENT_TIME T_INTER SIM_TIME
             TREAT_PROBABILITY n in
  length (hospitals (env p)) <= 2 /\
  Forall (fun H => treatment_time H = TREATMENT_TIME) (hospitals (env p)) /\
  (forall h, hospital_of (pc p) = Some h -> h = 0) /\
  (forall i P h, procs (env p) !! i = Some P ->
     hospital_used (_generator P) = Some h ->
     h = hospital_expected (_generator P)).
Proof.
  cbn zeta. destruct (exec_places n) as [(Hpc & Hp)|[[[Hl Hf] Ho] Hpc]].
  - rewrite Hpc, Hp. cbn. split; [lia|]. split; [constructor|].
    split; [intros ? [=]|]. intros i P h Hi. rewrite lookup_nil in Hi.
    discriminate.
  - unfold treatment_times in *. rewrite length_fmap in *.
    split; [lia|]. split; [|split; [exact Hpc|]].
    + apply Forall_fmap in Hf. exact Hf.
    + intros i P h Hi. eapply place_ok_used, Ho, Hi.
Qed.

End Places.

(** ** Who holds the doctors *)

Lemma submseteq_NoDup {A} (l k : list A) : l ⊆+ k -> NoDup k -> NoDup l.
Proof.
  intros H Hk. apply submseteq_sublist_l in H as (l2 & Hs & Hp).
  rewrite <- Hp in Hk. eapply sublist_NoDup; eassumption.
Qed.

Lemma slot_grow_same s s' :
  procs s' = procs s -> hospitals s' = hospitals s ->
  length (events s) <= length (events s') -> slot_grow no_extra s s'.
Proof.
  intros P H L. split; [exact P|]. split; [exact L|].
  intros h H' HH. rewrite H in HH. exists H'. split; [exact HH|].
  unfold no_extra. rewrite app_nil_r. reflexivity.
Qed.

Lemma slot_grow_alter E s s' h F :
  procs s' = procs s -> length (events s) <= length (events s') ->
  hospitals s' = alter F h (hospitals s) ->
  (forall H, hospitals s !! h = Some H ->
     slots (doctor (F H)) ⊆+ slots (doctor H) ++ E h) ->
  slot_grow E s s'.
Proof.
  intros P L HH HF. split; [exact P|]. split; [exact L|].
  intros k H' Hk. rewrite HH, list_lookup_alter in Hk.
  destruct (decide (h = k)) as [<-|Hne].
  - destruct (hospitals s !! h) as [H|] eqn:E0; [|discriminate].
    cbn in Hk. injection Hk as <-. exists H.
    split; [reflexivity|apply HF; reflexivity].
  - exists H'. split; [exact Hk|]. apply submseteq_inserts_r. reflexivity.
Qed.

Lemma slot_grow_trans E1 E2 s1 s2 s3 :
  slot_grow E1 s1 s2 -> slot_grow E2 s2 s3 ->
  slot_grow (fun h => E1 h ++ E2 h) s1 s3.
Proof.
  intros (P1 & L1 & H1) (P2 & L2 & H2).
  split; [congruence|]. split; [lia|].
  intros h H3 HH3. destruct (H2 _ _ HH3) as (H2' & HH2 & S2).
  destruct (H1 _ _ HH2) as (H1' & HH1 & S1).
  exists H1'. split; [exact HH1|].
  etrans; [exact S2|]. rewrite (assoc_L (++)).
  apply submseteq_skips_r, S1.
Qed.

Lemma slot_grow_then E s1 s2 s3 :
  slot_grow E s1 s2 -> slot_grow no_extra s2 s3 -> slot_grow E s1 s3.
Proof.
  intros A B. pose proof (slot_grow_trans _ _ _ _ _ A B) as (P & L & H).
  split; [exact P|]. split; [exact L|].
  intros h H' HH. destruct (H _ _ HH) as (H0 & HH0 & S).
  exists H0. split; [exact HH0|]. unfold no_extra in S.
  rewrite app_nil_r in S. exact S.
Qed.

Lemma slot_grow_after E s1 s2 s3 :
  slot_grow no_extra s1 s2 -> slot_grow E s2 s3 -> slot_grow E s1 s3.
Proof.
  intros A B. pose proof (slot_grow_trans _ _ _ _ _ A B) as (P & L & H).
  split; [exact P|]. split; [exact L|].
  intros h H' HH. destruct (H _ _ HH) as (H0 & HH0 & S).
  exists H0. split; [exact HH0|]. exact S.
Qed.

(** Extra requests that are new events keep [slots_ok]. *)
Lemma slots_ok_grow E s s' :
  slot_grow E s s' ->
  (forall h, NoDup (E h) /\
     forall x, x ∈ E h -> length (events s) <= x < length (events s')) ->
  slots_ok s -> slots_ok s'.
Proof.
  intros (P & L & HG) HE Hs h H' HH.
  destruct (HG _ _ HH) as (H & HH0 & S).
  destruct (Hs _ _ HH0) as [Hn Hb]. destruct (HE h) as [En Eb].
  split.
  - eapply submseteq_NoDup; [exact S|]. apply NoDup_app.
    split; [exact Hn|]. split; [|exact En].
    intros x Hx Hx'. specialize (Hb _ Hx). specialize (Eb _ Hx'). lia.
  - intros r Hr. eapply elem_of_submseteq in Hr; [|exact S].
    apply elem_of_app in Hr as [Hr|Hr].
    + specialize (Hb _ Hr). lia.
    + specialize (Eb _ Hr). lia.
Qed.

Lemma slots_ok_shrink s s' :
  slot_grow no_extra s s' -> slots_ok s -> slots_ok s'.
Proof.
  intros G. apply (slots_ok_grow no_extra); [exact G|].
  intros h. split; [constructor|]. intros x Hx. inversion Hx.
Qed.

(** The generator of [p] takes the extra requests of hospital 1. *)
Lemma held_hole_grow E p g g' s s' :
  slot_grow E s s' ->
  (forall h, NoDup (E h) /\
     forall x, x ∈ E h -> length (events s) <= x < length (events s')) ->
  (forall x, request_held g = Some x -> request_held g' = Some x) ->
  (forall x, x ∈ E 1 -> request_held g' = Some x) ->
  held_hole p g s -> held_hole p g' s'.
Proof.
  intros G HE Hg HE1 [Hs Hh].
  split; [eapply slots_ok_grow; eassumption|].
  destruct G as (P & L & HG).
  intros H' r HH Hr. destruct (HG _ _ HH) as (H & HH0 & S).
  eapply elem_of_submseteq in Hr; [|exact S].
  apply elem_of_app in Hr as [Hr|Hr]; [|left; auto].
  destruct (Hh _ _ HH0 Hr) as [Hl|Hx]; [left; auto|right].
  rewrite P. exact Hx.
Qed.

Lemma held_hole_shrink p g s s' :
  slot_grow no_extra s s' -> held_hole p g s -> held_hole p g s'.
Proof.
  intros G. apply (held_hole_grow no_extra); [exact G| |auto|].
  - intros h. split; [constructor|]. intros x Hx. inversion Hx.
  - intros x Hx. inversion Hx.
Qed.

Lemma held_ok_shrink s s' :
  slot_grow no_extra s s' -> held_ok s -> held_ok s'.
Proof.
  intros G [Hs Hh]. split; [eapply slots_ok_shrink; eassumption|].
  destruct G as (P & L & HG).
  intros H' r HH Hr. destruct (HG _ _ HH) as (H & HH0 & S).
  eapply elem_of_submseteq in Hr; [|exact S].
  unfold no_extra in Hr. rewrite app_nil_r in Hr.
  destruct (Hh _ _ HH0 Hr) as (i & P0 & Hi & Hg).
  exists i, P0. rewrite P. auto.
Qed.

(** The generator of [p] has given its request back. *)
Lemma held_hole_exit p g g' r s s' :
  slot_grow no_extra s s' ->
  (forall H', hospitals s' !! 1 = Some H' -> r ∉ slots (doctor H')) ->
  (forall x, request_held g = Some x -> x = r) ->
  held_hole p g s -> held_hole p g' s'.
Proof.
  intros G Hr Hg [Hs Hh].
  split; [eapply slots_ok_shrink; eassumption|].
  destruct G as (P & L & HG).
  intros H' x HH Hx. destruct (HG _ _ HH) as (H & HH0 & S).
  pose proof Hx as Hx0.
  eapply elem_of_submseteq in Hx; [|exact S].
  unfold no_extra in Hx. rewrite app_nil_r in Hx.
  destruct (Hh _ _ HH0 Hx) as [Hl|Hy].
  - apply Hg in Hl as ->. destruct (Hr _ HH Hx0).
  - right. rewrite P. exact Hy.
Qed.

(** *** The operations on events and resources *)

Ltac slot_same :=
  apply slot_grow_same; cbn; rewrite ?length_alter, ?length_app;
  first [reflexivity|lia].

Ltac slot_prims := intros ?; wp_prims; slot_same.

Lemma timeout_slots d s : wp (timeout d) (fun _ s' => slot_grow no_extra s s') s.
Proof. revert s. unfold timeout. slot_prims. Qed.

Lemma callbacks_append_slots ev cb s :
  wp (callbacks_append ev cb) (fun _ s' => slot_grow no_extra s s') s.
Proof. revert s. slot_prims. Qed.

Lemma process_ends_slots self x s :
  wp (process_ends self x) (fun _ s' => slot_grow no_extra s s') s.
Proof. revert s. slot_prims. Qed.

Lemma run_prologue_slots t s :
  wp (run_prologue t) (fun _ s' => slot_grow no_extra s s') s.
Proof. revert s. unfold run_prologue. slot_prims. Qed.

Lemma succeed_slots ev s :
  wp (succeed ev) (fun _ s' => slot_grow no_extra s s') s.
Proof. revert s. slot_prims. Qed.

Lemma list_remove_slots x (us pq : list nat) :
  list_remove x us ++ pq ⊆+ (us ++ pq) ++ [].
Proof.
  rewrite app_nil_r. apply submseteq_skips_r, sublist_submseteq,
    list_remove_sublist.
Qed.

Lemma _do_get_slots h ev s :
  wp (_do_get h ev) (fun _ s' => slot_grow no_extra s s') s.
Proof.
  unfold _do_get. apply wp_bind, wp_get. apply wp_bind.
  apply (wp_mono _ (fun _ s' => slot_grow no_extra s s')).
  - destruct (ekind (the_event s ev)); try (apply wp_ret; slot_same).
    unfold update_resource. apply wp_modify.
    eapply slot_grow_alter; cbn; [reflexivity|lia|reflexivity|].
    intros H _. unfold slots, no_extra. cbn. apply list_remove_slots.
  - cbn beta. intros _ s1 H1.
    eapply wp_mono; [apply succeed_slots|].
    cbn beta. intros _ s2 H2. eapply slot_grow_then; eassumption.
Qed.

Lemma _trigger_get_slots h s :
  wp (_trigger_get h) (fun _ s' => slot_grow no_extra s s') s.
Proof.
  unfold _trigger_get. apply wp_bind, wp_get.
  destruct (get_queue (doctor (the_hospital s h))); [apply wp_ret; slot_same|].
  apply wp_bind. eapply wp_mono; [apply _do_get_slots|].
  cbn beta. intros _ s1 H1. apply wp_bind, wp_get.
  destruct (triggered (the_event s1 n)); [|apply wp_ret; exact H1].
  unfold update_resource. apply wp_modify.
  eapply slot_grow_then; [exact H1|].
  eapply slot_grow_alter; cbn; [reflexivity|lia|reflexivity|].
  intros H _. unfold slots, no_extra. cbn. rewrite app_nil_r. reflexivity.
Qed.

Lemma release_slots h req s :
  wp (release h req) (fun _ s' => slot_grow no_extra s s') s.
Proof.
  unfold release. unfold new_event. apply wp_bind, wp_bind, wp_get.
  apply wp_bind, wp_modify. apply wp_ret.
  apply wp_bind. unfold update_resource. apply wp_modify.
  apply wp_bind. unfold callbacks_append, update_event. apply wp_modify.
  apply wp_bind.
  eapply wp_mono; [apply _trigger_get_slots|].
  cbn beta. intros _ s1 H1. apply wp_ret.
  eapply slot_grow_after; [|exact H1].
  eapply slot_grow_alter; cbn;
    [reflexivity|rewrite length_alter, length_app; lia|reflexivity|].
  intros H _. unfold slots, no_extra. cbn. rewrite app_nil_r. reflexivity.
Qed.

Lemma Request_exit_slots h req s :
  wp (Request_exit h req) (fun _ s' => slot_grow no_extra s s') s.
Proof.
  unfold Request_exit. apply wp_bind, wp_get. apply wp_bind.
  apply (wp_mono _ (fun _ s' => slot_grow no_extra s s')).
  - destruct (triggered (the_event s req)); [apply wp_ret; slot_same|].
    unfold update_resource. apply wp_modify.
    eapply slot_grow_alter; cbn; [reflexivity|lia|reflexivity|].
    intros H _. unfold slots, no_extra. cbn. rewrite app_nil_r.
    apply submseteq_skips_l, sublist_submseteq, list_remove_sublist.
  - cbn beta. intros _ s1 H1. apply wp_bind.
    eapply wp_mono; [apply release_slots|].
    cbn beta. intros _ s2 H2. apply wp_ret.
    eapply slot_grow_then; eassumption.
Qed.

Lemma _trigger_put_slots h s :
  slots_ok s -> wp (_trigger_put h) (fun _ s' => slot_grow no_extra s s') s.
Proof.
  intros Hs. unfold _trigger_put. apply wp_bind, wp_get.
  destruct (put_queue (doctor (the_hospital s h))) as [|r rest] eqn:Hq;
    [apply wp_ret; slot_same|].
  pose proof (the_hospital_put_queue _ _ _ _ Hq) as HH.
  assert (Hr : r < length (events s)).
  { destruct (Hs _ _ HH) as [_ Hb]. apply Hb. unfold slots. rewrite Hq.
    apply elem_of_app. right. apply list_elem_of_here. }
  unfold _do_put. wp_prims.
  all: try solve
    [ exfalso; unfold the_event in *; cbn in *;
      match goal with
      | H : triggered (alter _ _ _ !!! _) = false |- _ =>
          rewrite list_lookup_total_alter_eq in H by exact Hr;
          discriminate
      end ].
  all: try slot_same.
  all: eapply slot_grow_alter;
    [reflexivity
    |cbn; rewrite ?length_alter, ?length_app; lia
    |cbn; rewrite ?list_alter_alter_eq; reflexivity
    |].
  all: intros H HH'; assert (H = the_hospital s h) as -> by congruence.
  all: unfold slots, no_extra; cbn; rewrite Hq, app_nil_r; cbn.
  all: first
    [ rewrite <- (assoc_L (++)); reflexivity
    | apply submseteq_skips_l, submseteq_cons; reflexivity ].
Qed.

Lemma extra_at_fresh h s s' :
  length (events s) < length (events s') ->
  forall k, NoDup (extra_at h (length (events s)) k) /\
    forall x, x ∈ extra_at h (length (events s)) k ->
      length (events s) <= x < length (events s').
Proof.
  intros L k. unfold extra_at. destruct (decide (k = h)).
  - split; [apply NoDup_singleton|].
    intros x Hx. apply list_elem_of_singleton in Hx as ->. lia.
  - split; [constructor|]. intros x Hx. inversion Hx.
Qed.

(** [request] adds its event, a new one, to the resource of [h]. *)
Lemma request_slots h s :
  slots_ok s ->
  wp (request h)
     (fun r s' => r = length (events s) /\
                  length (events s) < length (events s') /\
                  slot_grow (extra_at h r) s s') s.
Proof.
  intros Hs. unfold request. unfold new_event. apply wp_bind, wp_bind, wp_get.
  apply wp_bind, wp_modify. apply wp_ret.
  apply wp_bind. unfold update_resource. apply wp_modify.
  apply wp_bind. unfold callbacks_append, update_event. apply wp_modify.
  match goal with |- wp _ _ ?s1 =>
    assert (H1 : slot_grow (extra_at h (length (events s))) s s1) end.
  { eapply slot_grow_alter; cbn;
      [reflexivity|rewrite length_alter, length_app; lia|reflexivity|].
    intros H _. unfold slots, extra_at. cbn.
    rewrite decide_True by reflexivity. rewrite (assoc_L (++)). reflexivity. }
  match goal with |- wp _ _ ?s1 =>
    assert (L1 : length (events s) < length (events s1)) end.
  { cbn. rewrite length_alter, length_app. cbn. lia. }
  apply wp_bind.
  eapply wp_mono;
    [apply _trigger_put_slots;
     eapply slots_ok_grow; [exact H1|apply extra_at_fresh, L1|exact Hs]|].
  cbn beta. intros _ s2 H2. apply wp_ret.
  split; [reflexivity|]. split; [destruct H2 as (_ & L2 & _); lia|].
  eapply slot_grow_then; eassumption.
Qed.

(** *** Leaving the [with] block *)

Lemma list_remove_NoDup x l : NoDup l -> x ∉ list_remove x l.
Proof.
  induction 1 as [|y l Hy Hl IH]; cbn; [inversion 1|].
  destruct (y =? x)%nat eqn:E.
  - apply Nat.eqb_eq in E as ->. exact Hy.
  - apply Nat.eqb_neq in E. intros Hin.
    apply elem_of_cons in Hin as [->|Hin]; [congruence|auto].
Qed.

Lemma list_remove_not_in x l : x ∉ l -> x ∉ list_remove x l.
Proof.
  intros Hx Hin. apply Hx. eapply elem_of_sublist; [exact Hin|].
  apply list_remove_sublist.
Qed.

Lemma the_new_event s e f S :
  events S = alter f (length (events s)) (events s ++ [e]) ->
  the_event S (length (events s)) = f e.
Proof.
  intros E. unfold the_event. rewrite E.
  rewrite list_lookup_total_alter_eq
    by (rewrite length_app; cbn; lia).
  f_equal. apply list_lookup_total_correct, list_lookup_middle. reflexivity.
Qed.

(** [release] takes its request out of [users], at once. *)
Lemma release_users h req s :
  getq_ok s ->
  wp (release h req)
     (fun _ s' => forall H', hospitals s' !! h = Some H' ->
        exists H, hospitals s !! h = Some H /\
          users (doctor H') = list_remove req (users (doctor H)) /\
          put_queue (doctor H') = put_queue (doctor H)) s.
Proof.
  intros Hg. destruct (hospitals s !! h) as [H0|] eqn:HH0.
  2:{ eapply wp_mono; [apply release_slots|].
      cbn beta. intros _ s' (_ & _ & HG) H' HH'.
      destruct (HG _ _ HH') as (H & HH & _). congruence. }
  assert (Hg0 : get_queue (doctor H0) = []).
  { unfold getq_ok in Hg. rewrite Forall_lookup in Hg. eapply Hg, HH0. }
  assert (Hlt : h < length (hospitals s)) by (eapply lookup_lt_Some, HH0).
  unfold release, new_event. apply wp_bind, wp_bind, wp_get.
  apply wp_bind, wp_modify. apply wp_ret.
  apply wp_bind. unfold update_resource. apply wp_modify.
  apply wp_bind. unfold callbacks_append, update_event. apply wp_modify.
  apply wp_bind. unfold _trigger_get. apply wp_bind, wp_get.
  match goal with |- context [get_queue (doctor (the_hospital ?s1 h))] =>
    destruct (get_queue (doctor (the_hospital s1 h))) as [|g rest] eqn:Hq end.
  all: unfold the_hospital in Hq; cbn in Hq;
    rewrite list_lookup_total_alter_eq in Hq by exact Hlt;
    rewrite (list_lookup_total_correct _ _ _ HH0) in Hq; cbn in Hq;
    rewrite Hg0 in Hq; try discriminate.
  injection Hq as <- <-.
  unfold _do_get. apply wp_bind, wp_bind, wp_get.
  erewrite the_new_event by reflexivity. cbn [ekind set_callbacks].
  wp_prims.
  all: intros H' HH'; cbn in HH';
    rewrite ?list_alter_alter_eq in HH';
    rewrite list_lookup_alter_eq, HH0 in HH'; cbn in HH';
    injection HH' as <-; exists H0; cbn; auto.
Qed.

(** After [Request.__exit__] the request is neither a user nor waiting. *)
Lemma Request_exit_gone h r s :
  queues_ok s -> slots_ok s ->
  wp (Request_exit h r)
     (fun _ s' => forall H', hospitals s' !! h = Some H' ->
                    r ∉ slots (doctor H')) s.
Proof.
  intros [Hf Hg] Hs. unfold Request_exit. apply wp_bind, wp_get. apply wp_bind.
  apply (wp_mono _ (fun _ s1 => getq_ok s1 /\
           forall H, hospitals s1 !! h = Some H ->
             NoDup (users (doctor H)) /\ r ∉ put_queue (doctor H))).
  - destruct (triggered (the_event s r)) eqn:Ht.
    + apply wp_ret. split; [exact Hg|]. intros H HH.
      destruct (Hs _ _ HH) as [Hn _].
      apply NoDup_app in Hn as (Hu & _ & Hp). split; [exact Hu|].
      intros Hin. destruct Hf as [HQ _]. destruct (HQ _ _ HH) as (Q1 & _).
      destruct (Q1 _ Hin) as (e & He & _ & Hte).
      unfold the_event in Ht.
      rewrite (list_lookup_total_correct _ _ _ He) in Ht. congruence.
    + unfold update_resource. apply wp_modify. split.
      * unfold getq_ok in *. cbn. apply Forall_alter; [exact Hg|].
        intros H _ HH. exact HH.
      * intros H HH. cbn in HH. rewrite list_lookup_alter_eq in HH.
        destruct (hospitals s !! h) as [H0|] eqn:E; [|discriminate].
        cbn in HH. injection HH as <-. cbn.
        destruct (Hs _ _ E) as [Hn _].
        apply NoDup_app in Hn as (Hu & _ & Hp). split; [exact Hu|].
        apply list_remove_NoDup, Hp.
  - cbn beta. intros _ s1 [Hg1 H1]. apply wp_bind.
    eapply wp_mono; [apply release_users, Hg1|].
    cbn beta. intros _ s2 H2. apply wp_ret. intros H' HH'.
    destruct (H2 _ HH') as (H & HH & Hu & Hp). destruct (H1 _ HH) as [Hn Hr].
    unfold slots. rewrite Hu, Hp. intros Hin.
    apply elem_of_app in Hin as [Hin|Hin]; [|auto].
    eapply list_remove_NoDup; eassumption.
Qed.

(** *** The generators *)

Lemma held_hole_mono p g g' s s' :
  slot_grow no_extra s s' ->
  (forall x, request_held g = Some x -> request_held g' = Some x) ->
  held_hole p g s -> held_hole p g' s'.
Proof.
  intros G Hg. apply (held_hole_grow no_extra); [exact G| |exact Hg|].
  - intros h. split; [constructor|]. intros x Hx. inversion Hx.
  - intros x Hx. inversion Hx.
Qed.

Lemma keeps_held_hole {A} p g (m : M A) :
  (forall s, wp m (fun _ s' => slot_grow no_extra s s') s) ->
  keeps (held_hole p g) m.
Proof.
  intros Hm s Hs. eapply wp_mono; [apply Hm|].
  cbn beta. intros _ s' G. eapply held_hole_shrink; eassumption.
Qed.

(** A new process takes no request away. *)
Lemma process_held_hole p g g0 : keeps (held_hole p g) (process g0).
Proof.
  intros s [Hs Hh]. unfold process. wp_prims. split.
  - intros h H HH. cbn in HH. destruct (Hs _ _ HH) as [Hn Hb].
    split; [exact Hn|]. intros r Hr. specialize (Hb _ Hr). cbn.
    rewrite ?length_alter, !length_app. cbn. lia.
  - intros H r HH Hr. cbn in HH. destruct (Hh _ _ HH Hr) as [Hl|Hx]; [auto|].
    right. destruct Hx as (i & P & Hne & Hi & Hg). exists i, P.
    split; [exact Hne|]. split; [|exact Hg]. cbn.
    apply lookup_app_l_Some, Hi.
Qed.

Lemma process_held g0 : keeps held_ok (process g0).
Proof.
  intros s [Hs Hh]. unfold process. wp_prims. split.
  - intros h H HH. cbn in HH. destruct (Hs _ _ HH) as [Hn Hb].
    split; [exact Hn|]. intros r Hr. specialize (Hb _ Hr). cbn.
    rewrite ?length_alter, !length_app. cbn. lia.
  - intros H r HH Hr. cbn in HH.
    destruct (Hh _ _ HH Hr) as (i & P & Hi & Hg). exists i, P.
    split; [|exact Hg]. cbn. apply lookup_app_l_Some, Hi.
Qed.

(** A new hospital has nobody. *)
Lemma Hospital_init_held_hole p g n tm :
  keeps (held_hole p g) (Hospital_init n tm).
Proof.
  intros s [Hs Hh]. unfold Hospital_init. wp_prims; [split; assumption|].
  split.
  - intros h H HH. cbn in HH. apply lookup_app_Some in HH as [HH|[_ HH]].
    + exact (Hs _ _ HH).
    + apply list_lookup_singleton_Some in HH as [_ <-]. cbn.
      split; [constructor|]. intros r Hr. inversion Hr.
  - intros H r HH Hr. cbn in HH. apply lookup_app_Some in HH as [HH|[_ HH]].
    + exact (Hh _ _ HH Hr).
    + apply list_lookup_singleton_Some in HH as [_ <-]. inversion Hr.
Qed.

Ltac held_same :=
  idtac;
  match goal with
  | H : held_hole ?p ?g ?s |- held_hole ?p ?g' _ =>
      solve [ eapply held_hole_mono; [| |exact H];
              [ slot_same
              | first [ intros ? Hx; exact Hx
                      | intros ? Hx; discriminate Hx ] ] ]
  end.

Lemma timeout_held_hole p g d : keeps (held_hole p g) (timeout d).
Proof. apply keeps_held_hole. intros s. apply timeout_slots. Qed.

Section Wards.

Variable U : nat -> Q.
Variable neg_log1m : Q -> Q.
Variable NUM_DOCTORS : Z.
Variables TREATMENT_TIME T_INTER SIM_TIME TREAT_PROBABILITY : Q.

Lemma treat_held p g h name pc r :
  keeps (held_hole p g) (treat U neg_log1m h name pc r).
Proof.
  intros s Hs. unfold treat, expovariate, random.
  destruct r, pc; wp_prims; try held_same.
  wp_keep (timeout_held_hole p g) held_same. wp_prims; held_same.
Qed.

Lemma setup_loop_held p g h i :
  keeps (held_hole p g) (setup_loop U neg_log1m T_INTER h i).
Proof.
  intros s Hs. unfold setup_loop, expovariate, random.
  wp_prims; try held_same.
  wp_keep (timeout_held_hole p g) held_same. wp_prims; held_same.
Qed.

Lemma setup_held p g pc r :
  keeps (held_hole p g)
    (setup U neg_log1m NUM_DOCTORS TREATMENT_TIME T_INTER pc r).
Proof.
  unfold setup. destruct r, pc; try apply keeps_ret.
  - apply keeps_bind; [apply Hospital_init_held_hole|].
    intros [e|h]; [apply keeps_ret|].
    apply keeps_bind; [|intros _; apply setup_loop_held].
    apply keeps_for_each. intros x.
    apply keeps_bind; [apply process_held_hole|]. intros _. apply keeps_ret.
  - apply keeps_bind.
    { intros s Hs. unfold print. apply wp_modify. held_same. }
    intros _. apply keeps_bind; [apply process_held_hole|].
    intros _. apply setup_loop_held.
Qed.

(** [add_doctors] requests doctors of another hospital than 1. *)
Lemma request_held_hole_other p g h :
  h <> 1 -> keeps (held_hole p g) (request h).
Proof.
  intros Hne s Hs.
  eapply wp_mono; [apply request_slots; destruct Hs as [Hs _]; exact Hs|].
  cbn beta. intros r s' (-> & L & G).
  eapply held_hole_grow;
    [exact G|apply extra_at_fresh, L|intros x Hx; exact Hx| |exact Hs].
  intros x Hx. unfold extra_at in Hx. cbn beta in Hx.
  destruct (decide (1 = h)) as [E|E]; [congruence|inversion Hx].
Qed.

Lemma add_doctors_loop_held p g h n :
  h <> 1 -> keeps (held_hole p g) (add_doctors_loop h n).
Proof.
  intros Hne. unfold add_doctors_loop. destruct n; [apply keeps_ret|].
  apply keeps_bind; [apply request_held_hole_other, Hne|]. intros _.
  apply keeps_bind; [apply timeout_held_hole|].
  intros [e|ev]; apply keeps_ret.
Qed.

Lemma add_doctors_held p g h n pc r :
  h <> 1 -> keeps (held_hole p g) (add_doctors h n pc r).
Proof.
  intros Hne. unfold add_doctors. destruct r, pc; try apply keeps_ret.
  - apply keeps_bind; [intros s Hs; exact Hs|]. intros s0.
    apply keeps_bind; [|intros _; apply add_doctors_loop_held, Hne].
    intros s Hs. unfold print. apply wp_modify. held_same.
  - apply add_doctors_loop_held, Hne.
Qed.

(** [patient]: the request is held from [request()] to the end of the
    [with] block, however the block is left. *)
Lemma patient_held p name pc r s :
  queues_ok s ->
  held_hole p (G_patient name 1 pc) s ->
  wp (patient U TREAT_PROBABILITY name 1 pc r)
     (fun res s' => held_hole p (G_patient name 1 (fst res)) s') s.
Proof.
  intros Hq Hs. unfold patient, random.
  destruct r, pc; wp_prims; try held_same.
  all: match goal with |- wp _ _ ?S =>
         match type of Hs with held_hole _ ?g _ =>
           assert (HS : held_hole p g S) by held_same
         end;
         assert (HQ : queues_ok S)
           by (eapply queues_ok_same; [..|exact Hq]; reflexivity)
       end.
  all: lazymatch goal with
       | |- wp (request _) _ _ =>
           eapply wp_mono; [apply request_slots; exact (proj1 HS)|];
           cbn beta; intros r' s' (-> & L & G); apply wp_ret; cbn [fst];
           eapply held_hole_grow; [exact G| | | |exact HS];
             [apply extra_at_fresh, L
             |intros x Hx; discriminate Hx
             |intros x Hx; unfold extra_at in Hx; cbn in Hx;
              apply list_elem_of_singleton in Hx as ->; reflexivity]
       | |- wp (process _) _ _ =>
           wp_keep (process_held_hole p) ltac:(exact HS);
           wp_prims; held_same
       | |- wp (Request_exit _ ?req) _ ?S =>
           eapply wp_mono;
             [apply (wp_conj _ (fun _ s' => slot_grow no_extra S s')
                       (fun _ s' => forall H', hospitals s' !! 1 = Some H' ->
                                      req ∉ slots (doctor H')));
              [apply Request_exit_slots
              |apply Request_exit_gone; [exact HQ|exact (proj1 HS)]]|];
           cbn beta; intros ? s' [G Hgone]; wp_prims;
           eapply held_hole_exit; [exact G|exact Hgone| |exact HS];
           intros x [= <-]; reflexivity
       end.
Qed.

Lemma resume_generator_held p g r s :
  queues_ok s -> places_hole TREATMENT_TIME p g s -> held_hole p g s ->
  wp (resume_generator U neg_log1m NUM_DOCTORS TREATMENT_TIME T_INTER
        TREAT_PROBABILITY g r)
     (fun res s' => held_hole p (fst res) s') s.
Proof.
  intros Hq (_ & _ & Hg & _) Hs. unfold resume_generator.
  destruct g as [name h c|h name c|c|h k c]; wp_prims.
  - destruct Hg as [-> _].
    eapply wp_mono; [apply patient_held; [exact Hq|exact Hs]|].
    cbn beta. intros ? ? ?. wp_prims. assumption.
  - wp_keep (treat_held p (G_treat h name c)) ltac:(exact Hs).
    wp_prims. held_same.
  - wp_keep (setup_held p (G_setup c)) ltac:(exact Hs).
    wp_prims. held_same.
  - cbn in Hg. subst h.
    wp_keep (add_doctors_held p (G_add_doctors 0 k c))
      ltac:(first [exact Hs|discriminate]).
    wp_prims. held_same.
Qed.

End Wards.

(** *** The rounds of the run *)

Lemma wards_ok_keeps {A} TT (m : M A) :
  keeps queues_ok m ->
  (forall s, wp m (fun _ s' => place_frame s s') s) ->
  (forall s, slots_ok s -> wp m (fun _ s' => slot_grow no_extra s s') s) ->
  keeps (wards_ok TT) m.
Proof.
  intros Hq Hp Hh s (Q & P & H).
  eapply wp_mono;
    [apply wp_conj; [apply Hq, Q|apply wp_conj; [apply Hp|apply Hh, H]]|].
  cbn beta. intros _ s' (Q' & P' & H').
  split; [exact Q'|]. split; [eapply places_ok_frame; eassumption|].
  eapply held_ok_shrink; eassumption.
Qed.

Lemma held_ok_hole p P s :
  procs s !! p = Some P -> held_ok s -> held_hole p (_generator P) s.
Proof.
  intros HP [Hs Hh]. split; [exact Hs|].
  intros H r HH Hr. destruct (Hh _ _ HH Hr) as (i & P' & Hi & Hg).
  destruct (decide (i = p)) as [->|Hne].
  - left. congruence.
  - right. exists i, P'. auto.
Qed.

Lemma held_hole_ok p g s :
  p < length (procs s) -> held_hole p g s ->
  held_ok (set_procs (alter (fun P => mkProcess g (self_event P)) p (procs s)) s).
Proof.
  intros Hp [Hs Hh]. split; [exact Hs|].
  intros H r HH Hr. cbn in HH.
  destruct (Hh _ _ HH Hr) as [Hl|(i & P & Hne & Hi & Hg)].
  - apply lookup_lt_is_Some_2 in Hp as [P HP].
    exists p, (mkProcess g (self_event P)). cbn.
    rewrite list_lookup_alter_eq, HP. auto.
  - exists i, P. cbn. rewrite list_lookup_alter_ne by auto. auto.
Qed.

Section WardRounds.

Variable U : nat -> Q.
Variable neg_log1m : Q -> Q.
Variable NUM_DOCTORS : Z.
Variables TREATMENT_TIME T_INTER SIM_TIME TREAT_PROBABILITY : Q.

Abbreviation wards := (wards_ok TREATMENT_TIME).

Lemma _resume_held p ev s :
  wards s ->
  wp (_resume U neg_log1m NUM_DOCTORS TREATMENT_TIME T_INTER TREAT_PROBABILITY
        p ev)
     (fun _ s' => held_ok s') s.
Proof.
  intros (Hq & Hp & Hh). unfold _resume. apply wp_bind, wp_get.
  destruct (procs s !! p) as [P|] eqn:HP; [|exact Hh].
  assert (HJ : places_hole TREATMENT_TIME p (_generator P) s).
  { destruct Hp as [Hhs Ho]. split; [exact Hhs|].
    split; [eapply lookup_lt_Some, HP|]. split; [eauto|].
    intros i P' Hi _. eauto. }
  pose proof (held_ok_hole _ _ _ HP Hh) as HK.
  apply wp_bind.
  apply (wp_mono _ (fun _ s' => wards_hole TREATMENT_TIME p (_generator P) s')).
  { destruct (exc (the_event s ev)); [|apply wp_ret; split; [exact Hq|split; [exact HJ|exact HK]]].
    apply wp_bind. unfold update_event. apply wp_modify. apply wp_ret.
    split; [|split; [place_solve|held_same]].
    exact (queues_ok_keeps _ (defused_fifo ev) (defused_getq ev) s Hq). }
  cbn beta. intros r s1 (Hq1 & Hp1 & Hh1). apply wp_bind.
  eapply wp_mono;
    [apply wp_conj;
      [apply resume_generator_places, Hp1
      |apply resume_generator_held; eassumption]|].
  cbn beta. intros res s2 [(_ & Hlt & _) Hh2].
  apply wp_bind. unfold set_generator. apply wp_modify.
  pose proof (held_hole_ok _ _ _ Hlt Hh2) as Hh3.
  destruct (snd res).
  - apply wp_bind, wp_get.
    match goal with |- wp (match ?c with _ => _ end) _ _ => destruct c end.
    + eapply wp_mono; [apply callbacks_append_slots|].
      cbn beta. intros _ s4 H4. eapply held_ok_shrink; eassumption.
    + eapply wp_mono; [apply process_ends_slots|].
      cbn beta. intros _ s4 H4. eapply held_ok_shrink; eassumption.
  - eapply wp_mono; [apply process_ends_slots|].
    cbn beta. intros _ s4 H4. eapply held_ok_shrink; eassumption.
  - eapply wp_mono; [apply process_ends_slots|].
    cbn beta. intros _ s4 H4. eapply held_ok_shrink; eassumption.
Qed.

Lemma _resume_wards p ev :
  keeps wards
    (_resume U neg_log1m NUM_DOCTORS TREATMENT_TIME T_INTER TREAT_PROBABILITY
       p ev).
Proof.
  intros s Hs. pose proof Hs as (Hq & Hp & Hh).
  eapply wp_mono;
    [apply wp_conj;
      [apply _resume_queues, Hq
      |apply wp_conj; [apply _resume_places, Hp|apply _resume_held, Hs]]|].
  cbn beta. intros _ s' (Q' & P' & H'). split; [exact Q'|split; [exact P'|exact H']].
Qed.

Lemma step_wards :
  keeps wards
    (step U neg_log1m NUM_DOCTORS TREATMENT_TIME T_INTER TREAT_PROBABILITY).
Proof.
  apply step_keeps.
  - apply _resume_wards.
  - intros h. apply wards_ok_keeps.
    + apply queues_ok_keeps; [apply _trigger_put_fifo|apply _trigger_put_getq].
    + intros s. apply _trigger_put_place.
    + intros s. apply _trigger_put_slots.
  - intros h. apply wards_ok_keeps.
    + apply queues_ok_keeps; [apply _trigger_get_fifo|apply _trigger_get_getq].
    + intros s. apply _trigger_get_place.
    + intros s _. apply _trigger_get_slots.
  - intros s item q (Hq & Hp & Hh) Hpop. split; [|split].
    + destruct Hq as [Hf Hg]. split; [apply pop_fifo, Hf|apply pop_getq, Hg].
    + eapply places_pop; eassumption.
    + eapply held_ok_shrink; [|exact Hh]. slot_same.
Qed.

Lemma process_wards g0 s :
  wards s ->
  place_ok (length (procs s)) g0 (length (treatment_times s)) ->
  wp (process g0) (fun _ s' => wards s') s.
Proof.
  intros (Hq & Hp & Hh) Hg.
  eapply wp_mono;
    [apply wp_conj;
      [apply (queues_ok_keeps _ (process_fifo g0) (process_getq g0)), Hq
      |apply wp_conj; [apply process_places; eassumption
                      |apply process_held, Hh]]|].
  cbn beta. intros _ s' (Q' & P' & H'). split; [exact Q'|split; [exact P'|exact H']].
Qed.

Lemma wards_start :
  wards
    (set_hospitals
       [mkHospital (mkResource NUM_DOCTORS [] [] []) TREATMENT_TIME]
       (set_stdout [L_title] initial_state)).
Proof.
  split; [|split; [apply places_start|]].
  - split.
    + split.
      * intros h H HH. cbn in HH.
        apply list_lookup_singleton_Some in HH as [-> <-]. cbn. repeat split.
        -- intros r Hr. inversion Hr.
        -- constructor.
        -- intros r q _ Hq. inversion Hq.
        -- intros g Hg. inversion Hg.
      * intros ev Hev. cbn in Hev. inversion Hev.
    + repeat constructor.
  - split.
    + intros h H HH. cbn in HH.
      apply list_lookup_singleton_Some in HH as [-> <-]. cbn.
      split; [constructor|].
      intros r Hr. inversion Hr.
    + intros H r HH. cbn in HH. discriminate.
Qed.

Lemma exec_wards n :
  program_inv wards
    (exec U neg_log1m NUM_DOCTORS TREATMENT_TIME T_INTER SIM_TIME
       TREAT_PROBABILITY n).
Proof.
  apply exec_inv.
  - apply step_wards.
  - intros s Hs. apply process_wards; [exact Hs|reflexivity].
  - intros t. apply wards_ok_keeps.
    + apply queues_ok_keeps; [apply run_prologue_fifo|apply run_prologue_getq].
    + intros s. apply run_prologue_place.
    + intros s _. apply run_prologue_slots.
  - apply process_wards; [apply wards_start|cbn; auto].
Qed.

Lemma exec_held n :
  held_ok
    (env (exec U neg_log1m NUM_DOCTORS TREATMENT_TIME T_INTER SIM_TIME
            TREAT_PROBABILITY n)).
Proof.
  destruct (exec_wards n) as [(_ & Hp)|[(_ & _ & H) _]]; [|exact H].
  rewrite Hp. split.
  - intros h H HH. cbn in HH. rewrite lookup_nil in HH. discriminate.
  - intros H r HH. cbn in HH. discriminate.
Qed.

(** In every state of a run the requests of the patients' hospital,
    granted or waiting, are distinct, and each of them is the request of a
    patient who is inside the [with] block. *)
Theorem doctors_are_held_by_patients n H :
  let s := env (exec U neg_log1m NUM_DOCTORS TREATMENT_TIME T_INTER SIM_TIME
                  TREAT_PROBABILITY n) in
  hospitals s !! 1 = Some H ->
  NoDup (users (doctor H) ++ put_queue (doctor H)) /\
  forall r, r ∈ users (doctor H) ++ put_queue (doctor H) -> held_by s r.
Proof.
  cbn zeta. intros HH. destruct (exec_held n) as [Hs Hh].
  split; [apply (Hs _ _ HH)|]. intros r Hr. exact (Hh _ _ HH Hr).
Qed.

(** No doctor is kept: when every patient process has returned, no
    doctor of the patients' hospital is in use and nobody waits for one. *)
Theorem no_doctor_is_kept n H :
  let s := env (exec U neg_log1m NUM_DOCTORS TREATMENT_TIME T_INTER SIM_TIME
                  TREAT_PROBABILITY n) in
  all_returned s = true ->
  hospitals s !! 1 = Some H ->
  users (doctor H) = [] /\ put_queue (doctor H) = [].
Proof.
  cbn zeta. intros Hall HH. destruct (exec_held n) as [_ Hh].
  apply app_eq_nil. fold (slots (doctor H)).
  destruct (slots (doctor H)) as [|r l] eqn:E; [reflexivity|exfalso].
  destruct (Hh H r HH) as (i & P & Hi & Hg);
    [rewrite E; apply list_elem_of_here|].
  unfold all_returned in Hall. rewrite forallb_forall in Hall.
  assert (Hin : In P (procs (env (exec U neg_log1m NUM_DOCTORS TREATMENT_TIME
                 T_INTER SIM_TIME TREAT_PROBABILITY n)))).
  { apply list_elem_of_In. eapply list_elem_of_lookup_2, Hi. }
  specialize (Hall _ Hin).
  destruct (_generator P) as [? ? []|? ? ?|?|? ? ?]; cbn in *; discriminate.
Qed.

End WardRounds.

Lemma doctors_are_held_by_patients_witness :
  hospitals (env (DTA1_run 9)) !! 1 = Some hospital_of_setup_round_9 /\
  (NoDup (users (doctor hospital_of_setup_round_9)
          ++ put_queue (doctor hospital_of_setup_round_9)) /\
   forall r, r ∈ users (doctor hospital_of_setup_round_9)
                 ++ put_queue (doctor hospital_of_setup_round_9) ->
     held_by (env (DTA1_run 9)) r).
Proof.
  split; [vm_compute; reflexivity|].
  apply (doctors_are_held_by_patients draws_example neg_log1m_example 2 5 7
           100 (8 # 10) 9 hospital_of_setup_round_9).
  vm_compute. reflexivity.
Defined.

Lemma no_doctor_is_kept_witness :
  (all_returned (env (DTA1_run_nobody_treated 20)) = true /\
   hospitals (env (DTA1_run_nobody_treated 20)) !! 1
   = Some (mkHospital (mkResource 2 [] [] []) 5)) /\
  (users (doctor (mkHospital (mkResource 2 [] [] []) 5)) = [] /\
   put_queue (doctor (mkHospital (mkResource 2 [] [] []) 5)) = []).
Proof.
  assert (H : all_returned (env (DTA1_run_nobody_treated 20)) = true /\
              hospitals (env (DTA1_run_nobody_treated 20)) !! 1
              = Some (mkHospital (mkResource 2 [] [] []) 5))
    by (split; vm_compute; reflexivity).
  split; [exact H|].
  apply (no_doctor_is_kept (fun _ => 9 # 10) neg_log1m_example 2 5 7 100
           (8 # 10) 20 (mkHospital (mkResource 2 [] [] []) 5));
    [exact (proj1 H)|exact (proj2 H)].
Defined.

(** ** The event loop *)

Lemma sum_list_with_alter_same {A} (f : A -> nat) g i (l : list A) :
  (forall x, l !! i = Some x -> f (g x) = f x) ->
  sum_list_with f (alter g i l) = sum_list_with f l.
Proof.
  revert i. induction l as [|y l IH]; intros [|i] H; cbn in *;
    try reflexivity.
  - rewrite H by reflexivity. reflexivity.
  - rewrite IH by exact H. reflexivity.
Qed.

Lemma waiting_app p pend evs e :
  waiting p pend (evs ++ [e]) = waiting p pend evs + event_waits p e.
Proof. unfold waiting. rewrite sum_list_with_app. cbn. lia. Qed.

Lemma waiting_alter_same p pend evs f ev :
  (forall e, evs !! ev = Some e -> event_waits p (f e) = event_waits p e) ->
  waiting p pend (alter f ev evs) = waiting p pend evs.
Proof. intros H. unfold waiting. rewrite sum_list_with_alter_same; auto. Qed.

Lemma waiting_alter p pend evs f ev e :
  evs !! ev = Some e ->
  waiting p pend (alter f ev evs) + event_waits p e
  = waiting p pend evs + event_waits p (f e).
Proof.
  intros H. unfold waiting.
  pose proof (sum_list_with_alter (event_waits p) f evs ev e H). lia.
Qed.

(** *** The queue *)

Lemma sched_queue_lt i q evs y :
  sched i q evs -> y ∈ q -> e_event y < length evs.
Proof.
  intros (_ & _ & H & _) Hy. destruct (H _ Hy) as (_ & e & l & He & _).
  eapply lookup_lt_Some, He.
Qed.

Lemma sched_new i q evs ev :
  sched i q evs -> length evs <= ev -> ev ∉ e_event <$> q.
Proof.
  intros Hs Hle Hin. apply list_elem_of_fmap in Hin as (y & -> & Hy).
  pose proof (sched_queue_lt _ _ _ _ Hs Hy). lia.
Qed.

Lemma sched_pending i q evs ev e :
  sched i q evs -> evs !! ev = Some e -> triggered e = false ->
  ev ∉ e_event <$> q.
Proof.
  intros (_ & _ & H & _) He Ht Hin.
  apply list_elem_of_fmap in Hin as (y & -> & Hy).
  destruct (H _ Hy) as (_ & e' & l & He' & Ht' & _). congruence.
Qed.

Lemma sched_app i q evs e :
  sched i q evs ->
  (triggered e = false -> exists l, callbacks e = Some l) ->
  sched i q (evs ++ [e]).
Proof.
  intros (N1 & N2 & H3 & H4) He. split; [exact N1|]. split; [exact N2|]. split.
  - intros y Hy. destruct (H3 _ Hy) as (Hi & e' & l & He' & Ht & Hc).
    split; [exact Hi|]. exists e', l.
    split; [apply lookup_app_l_Some, He'|auto].
  - intros ev e' He' Ht. apply lookup_app_Some in He' as [He'|[_ He']].
    + eauto.
    + apply list_lookup_singleton_Some in He' as [_ <-]. auto.
Qed.

Lemma sched_alter i q evs f ev :
  sched i q evs ->
  (forall e, evs !! ev = Some e ->
     (triggered e = true -> triggered (f e) = true) /\
     (forall l, callbacks e = Some l -> exists l', callbacks (f e) = Some l') /\
     (triggered (f e) = false -> triggered e = false)) ->
  sched i q (alter f ev evs).
Proof.
  intros (N1 & N2 & H3 & H4) Hf. split; [exact N1|]. split; [exact N2|]. split.
  - intros y Hy. destruct (H3 _ Hy) as (Hi & e & l & He & Ht & Hc).
    split; [exact Hi|]. destruct (decide (ev = e_event y)) as [->|Hne].
    + destruct (Hf _ He) as (F1 & F2 & _). destruct (F2 _ Hc) as [l' Hl'].
      exists (f e), l'. rewrite list_lookup_alter_eq, He. auto.
    + exists e, l. rewrite list_lookup_alter_ne by exact Hne. auto.
  - intros ev' e' He' Ht. destruct (decide (ev = ev')) as [->|Hne].
    + rewrite list_lookup_alter_eq in He'.
      destruct (evs !! ev') as [e|] eqn:He; [|discriminate].
      cbn in He'. injection He' as <-.
      destruct (Hf _ eq_refl) as (_ & F2 & F3).
      destruct (H4 _ _ He (F3 Ht)) as [l Hl]. exact (F2 _ Hl).
    + rewrite list_lookup_alter_ne in He' by exact Hne. eauto.
Qed.

Lemma sched_schedule i q evs ev t prio :
  sched i q evs ->
  (exists e l, evs !! ev = Some e /\ triggered e = true /\
               callbacks e = Some l) ->
  ev ∉ e_event <$> q ->
  sched (S i) (q ++ [mkEntry t prio i ev]) evs.
Proof.
  intros (N1 & N2 & H3 & H4) He Hev. split; [|split; [|split]].
  - rewrite fmap_app. apply NoDup_app. split; [exact N1|].
    split; [|apply NoDup_singleton].
    intros x Hx Hx'. apply list_elem_of_singleton in Hx'.
    apply list_elem_of_fmap in Hx as (y & -> & Hy).
    destruct (H3 _ Hy) as [Hi _]. cbn in Hx'. lia.
  - rewrite fmap_app. apply NoDup_app. split; [exact N2|].
    split; [|apply NoDup_singleton].
    intros x Hx Hx'. apply list_elem_of_singleton in Hx'. cbn in Hx'.
    subst x. contradiction.
  - intros y Hy. apply elem_of_app in Hy as [Hy|Hy].
    + destruct (H3 _ Hy) as [Hi Hy']. split; [lia|exact Hy'].
    + apply list_elem_of_singleton in Hy as ->. cbn. split; [lia|exact He].
  - exact H4.
Qed.

(** [heappop], and the [callbacks = None] of [Environment.step]. *)
Lemma sched_pop i q0 evs item q :
  sched i q0 evs -> heappop q0 = Some (item, q) ->
  (exists e l, evs !! e_event item = Some e /\ triggered e = true /\
               callbacks e = Some l) /\
  sched i q (alter (set_callbacks None) (e_event item) evs).
Proof.
  intros (N1 & N2 & H3 & H4) Hpop.
  destruct (heappop_NoDup _ _ _ N1 Hpop) as (Hin & _ & Hsub & _).
  destruct (H3 _ Hin) as (_ & e & l & He & Ht & Hc).
  split; [eauto|]. split; [|split; [|split]].
  - eapply sublist_NoDup; [exact N1|]. apply fmap_sublist, Hsub.
  - eapply sublist_NoDup; [exact N2|]. apply fmap_sublist, Hsub.
  - intros y Hy.
    assert (Hy0 : y ∈ q0) by (eapply elem_of_sublist; eassumption).
    destruct (H3 _ Hy0) as (Hi & e' & l' & He' & Ht' & Hc').
    split; [exact Hi|]. exists e', l'.
    rewrite list_lookup_alter_ne; [auto|].
    intros Heq.
    assert (y = item) as ->.
    { eapply (NoDup_fmap_eq e_event); eauto. }
    (* the popped item is not left in the queue *)
    destruct q0 as [|x q0]; [discriminate|].
    cbn [heappop] in Hpop. injection Hpop as Hm Hq. subst item.
    revert Hy. rewrite <- Hq.
    assert (G : forall m l, NoDup (e_eid <$> l) ->
              forall z, z ∈ heap_remove m l -> e_eid z <> m).
    { clear. intros m l. induction l as [|a l IH]; cbn; intros Hnd z Hz.
      - inversion Hz.
      - apply NoDup_cons in Hnd as [Ha Hnd].
        destruct (Nat.eqb_spec (e_eid a) m) as [E|E].
        + intros Ez. apply Ha. rewrite E, <- Ez.
          apply list_elem_of_fmap. eauto.
        + apply elem_of_cons in Hz as [->|Hz]; [exact E|eauto]. }
    intros Hy. exact (G _ _ N1 _ Hy eq_refl).
  - intros ev' e' He' Ht'. destruct (decide (e_event item = ev')) as [<-|Hne].
    + rewrite list_lookup_alter_eq, He in He'. cbn in He'.
      injection He' as <-. cbn in Ht'. congruence.
    + rewrite list_lookup_alter_ne in He' by exact Hne. eauto.
Qed.

(** *** The processes *)

Lemma lookup_alter_either {A} (f : A -> A) ev (l : list A) i x :
  l !! i = Some x ->
  exists x', alter f ev l !! i = Some x' /\ (x' = x \/ (i = ev /\ x' = f x)).
Proof.
  intros H. destruct (decide (ev = i)) as [->|Hne].
  - exists (f x). rewrite list_lookup_alter_eq, H. auto.
  - exists x. rewrite list_lookup_alter_ne by exact Hne. auto.
Qed.

Lemma waits_in_app p l l' : waits_in p (l ++ l') = waits_in p l + waits_in p l'.
Proof. unfold waits_in. apply sum_list_with_app. Qed.

Lemma procs_waiting_less b pend pend' selfs evs :
  (forall p, waits_in p pend' <= waits_in p pend) ->
  procs_waiting b pend selfs evs -> procs_waiting b pend' selfs evs.
Proof.
  intros Hle. unfold procs_waiting, waiting. intros [H1 H2]. split.
  - intros p self Hp. destruct (H1 _ _ Hp) as (A & B & C & D).
    specialize (Hle p).
    split; [exact A|]. split; [lia|]. split.
    + intros [E|E]; apply C; [left; lia|right; exact E].
    + intros E. specialize (D E). lia.
  - intros p Hp. destruct (H2 _ Hp) as [A B]. specialize (Hle p).
    split; [lia|exact B].
Qed.

Lemma procs_waiting_app b pend selfs evs e :
  (forall p, event_waits p e = 0) ->
  procs_waiting b pend selfs evs -> procs_waiting b pend selfs (evs ++ [e]).
Proof.
  intros He [H1 H2]. split.
  - intros p self Hp. rewrite waiting_app, He, Nat.add_0_r.
    destruct (H1 _ _ Hp) as ((e0 & He0 & Hk) & B & C & D).
    split; [exists e0; split; [apply lookup_app_l_Some, He0|exact Hk]|].
    split; [exact B|]. split; [|exact D].
    intros E. destruct (C E) as (e1 & He1 & Ht).
    exists e1. split; [apply lookup_app_l_Some, He1|exact Ht].
  - intros p Hp. rewrite waiting_app, He, Nat.add_0_r. auto.
Qed.

Lemma procs_waiting_alter b pend selfs evs f ev :
  (forall e, evs !! ev = Some e ->
     (forall p, event_waits p (f e) = event_waits p e) /\
     ekind (f e) = ekind e /\
     (triggered (f e) = triggered e \/ forall p, ekind e <> Process p)) ->
  procs_waiting b pend selfs evs -> procs_waiting b pend selfs (alter f ev evs).
Proof.
  intros Hf [H1 H2].
  assert (Hw : forall p, waiting p pend (alter f ev evs) = waiting p pend evs).
  { intros p. apply waiting_alter_same. intros e He. apply (Hf _ He). }
  split.
  - intros p self Hp. rewrite Hw.
    destruct (H1 _ _ Hp) as ((e0 & He0 & Hk) & B & C & D).
    split; [|split; [exact B|split; [|exact D]]].
    + destruct (lookup_alter_either f ev _ _ _ He0) as (e' & He' & [->|[-> ->]]).
      * eauto.
      * exists (f e0). split; [exact He'|].
        destruct (Hf _ He0) as (_ & -> & _). exact Hk.
    + intros E. destruct (C E) as (e1 & He1 & Ht).
      destruct (lookup_alter_either f ev _ _ _ He1) as (e' & He' & [->|[-> ->]]).
      * eauto.
      * exists (f e1). split; [exact He'|].
        destruct (Hf _ He1) as (_ & _ & [->|Hn]); [exact Ht|].
        exfalso. apply (Hn p). congruence.
  - intros p Hp. rewrite Hw. auto.
Qed.

(** [env.process(generator)]: the new process has its [Initialize] event
    to resume it. *)
Lemma procs_waiting_spawn b pend selfs evs e_self e_init :
  ekind e_self = Process (length selfs) -> triggered e_self = false ->
  callbacks e_self = Some [] ->
  callbacks e_init = Some [Process_resume (length selfs)] ->
  procs_waiting b pend selfs evs ->
  procs_waiting b pend (selfs ++ [length evs]) ((evs ++ [e_self]) ++ [e_init]).
Proof.
  intros Hk Ht Hc Hi [H1 H2].
  assert (Hw : forall p, waiting p pend ((evs ++ [e_self]) ++ [e_init])
                = waiting p pend evs + if decide (length selfs = p) then 1 else 0).
  { intros p. rewrite !waiting_app. unfold event_waits. rewrite Hc, Hi. cbn.
    destruct (decide (length selfs = p)); lia. }
  split.
  - intros p self Hp. rewrite Hw.
    apply lookup_app_Some in Hp as [Hp|[Hge Hp]].
    + rewrite decide_False by (apply lookup_lt_Some in Hp; lia).
      rewrite Nat.add_0_r.
      destruct (H1 _ _ Hp) as ((e0 & He0 & Hk0) & B & C & D).
      split; [exists e0; split;
               [apply lookup_app_l_Some, lookup_app_l_Some, He0|exact Hk0]|].
      split; [exact B|]. split; [|exact D].
      intros E. destruct (C E) as (e1 & He1 & Ht1). exists e1.
      split; [apply lookup_app_l_Some, lookup_app_l_Some, He1|exact Ht1].
    + apply list_lookup_singleton_Some in Hp as [Hp <-].
      assert (p = length selfs) as -> by lia.
      rewrite decide_True by reflexivity.
      destruct (H2 (length selfs)) as [W0 Hb]; [lia|]. rewrite W0.
      assert (He : ((evs ++ [e_self]) ++ [e_init]) !! length evs = Some e_self).
      { apply lookup_app_l_Some, list_lookup_middle. reflexivity. }
      split; [eauto|]. split; [lia|]. split; [eauto|].
      intros E. contradiction.
  - intros p Hp. rewrite length_app in Hp. cbn in Hp. rewrite Hw.
    rewrite decide_False by lia. destruct (H2 p) as [W0 Hb]; [lia|].
    split; [lia|exact Hb].
Qed.

(** [Process._resume] is called: the process has no other resumption. *)
Lemma procs_waiting_begin p rest selfs evs :
  procs_waiting None (Process_resume p :: rest) selfs evs ->
  procs_waiting (Some p) rest selfs evs /\ exists self, selfs !! p = Some self.
Proof.
  intros [H1 H2].
  assert (Hw : forall q, waiting q (Process_resume p :: rest) evs
                = waiting q rest evs + if decide (p = q) then 1 else 0).
  { intros q. unfold waiting, waits_in. cbn. destruct (decide (p = q)); lia. }
  assert (Hlt : p < length selfs).
  { destruct (decide (p < length selfs)) as [|Hge]; [assumption|].
    destruct (H2 p) as [W0 _]; [lia|]. rewrite Hw in W0.
    rewrite decide_True in W0 by reflexivity. lia. }
  split; [|apply lookup_lt_is_Some_2, Hlt]. split.
  - intros q self Hq. destruct (H1 _ _ Hq) as (A & B & C & D).
    rewrite Hw in B, C. split; [exact A|].
    destruct (decide (p = q)) as [->|Hne].
    + split; [lia|]. split; [|intros _; lia].
      intros _. apply C. left. lia.
    + rewrite Nat.add_0_r in B, C. split; [exact B|]. split.
      * intros [E|E]; [apply C; left; exact E|congruence].
      * intros E. congruence.
  - intros q Hq. destruct (H2 _ Hq) as [W0 _]. rewrite Hw in W0.
    split; [lia|]. intros E. injection E as ->. lia.
Qed.

(** The process ends: its event is triggered. *)
Lemma procs_waiting_end p pend selfs evs self x :
  selfs !! p = Some self ->
  procs_waiting (Some p) pend selfs evs ->
  procs_waiting None pend selfs (alter (set_outcome x) self evs).
Proof.
  intros Hp [H1 H2].
  assert (Hw : forall q, waiting q pend (alter (set_outcome x) self evs)
                         = waiting q pend evs).
  { intros q. apply waiting_alter_same. reflexivity. }
  destruct (H1 _ _ Hp) as ((es & Hes & Hks) & _ & _ & Dp).
  split.
  - intros q selfq Hq. rewrite Hw.
    destruct (H1 _ _ Hq) as ((e0 & He0 & Hk0) & B & C & D).
    split; [|split; [exact B|split; [|intros E; discriminate E]]].
    + destruct (lookup_alter_either (set_outcome x) self _ _ _ He0)
        as (e' & He' & [->|[-> ->]]); eauto.
    + intros [E|E]; [|discriminate E].
      destruct (C (or_introl E)) as (e1 & He1 & Ht1).
      destruct (decide (self = selfq)) as [<-|Hne].
      * assert (q = p) as -> by congruence.
        rewrite (Dp eq_refl) in E. discriminate.
      * exists e1. rewrite list_lookup_alter_ne by exact Hne. auto.
  - intros q Hq. rewrite Hw. destruct (H2 _ Hq) as [W0 _].
    split; [exact W0|discriminate].
Qed.

(** The process waits for the event it has yielded. *)
Lemma procs_waiting_yield p pend selfs evs target e l :
  evs !! target = Some e -> callbacks e = Some l ->
  procs_waiting (Some p) pend selfs evs ->
  procs_waiting None pend selfs
    (alter (fun e => set_callbacks
                       ((fun l => l ++ [Process_resume p]) <$> callbacks e) e)
       target evs).
Proof.
  intros He Hl [H1 H2].
  set (f := fun e => set_callbacks
                       ((fun l => l ++ [Process_resume p]) <$> callbacks e) e).
  assert (Hw : forall q, waiting q pend (alter f target evs)
                = waiting q pend evs + if decide (p = q) then 1 else 0).
  { intros q. pose proof (waiting_alter q pend evs f target e He) as Hq.
    unfold event_waits in Hq. unfold f in Hq at 2. cbn in Hq.
    rewrite Hl in Hq. cbn [fmap option_fmap option_map] in Hq.
    rewrite waits_in_app in Hq.
    assert (Hr : waits_in q [Process_resume p]
                 = if decide (p = q) then 1 else 0).
    { unfold waits_in. cbn. destruct (decide (p = q)); lia. }
    rewrite Hr in Hq. lia. }
  split.
  - intros q selfq Hq. rewrite Hw.
    destruct (H1 _ _ Hq) as ((e0 & He0 & Hk0) & B & C & D).
    assert (Hself : forall e1, evs !! selfq = Some e1 ->
              exists e', alter f target evs !! selfq = Some e' /\
                         ekind e' = ekind e1 /\ triggered e' = triggered e1).
    { intros e1 He1.
      destruct (lookup_alter_either f target _ _ _ He1)
        as (e' & He' & [->|[-> ->]]); eauto. }
    split.
    { destruct (Hself _ He0) as (e' & He' & Hk' & _).
      exists e'. split; [exact He'|congruence]. }
    destruct (decide (p = q)) as [->|Hne].
    + rewrite (D eq_refl). split; [lia|]. split; [|intros E; discriminate E].
      intros _. destruct (C (or_intror eq_refl)) as (e1 & He1 & Ht1).
      destruct (Hself _ He1) as (e' & He' & _ & Ht').
      exists e'. split; [exact He'|congruence].
    + rewrite Nat.add_0_r. split; [exact B|].
      split; [|intros E; discriminate E].
      intros [E|E]; [|discriminate E].
      destruct (C (or_introl E)) as (e1 & He1 & Ht1).
      destruct (Hself _ He1) as (e' & He' & _ & Ht').
      exists e'. split; [exact He'|congruence].
  - intros q Hq. rewrite Hw. destruct (H2 _ Hq) as [W0 Hb].
    rewrite decide_False by congruence. split; [lia|discriminate].
Qed.

(** [Environment.step] takes the callbacks of the event it processes. *)
Lemma procs_waiting_pop selfs evs ev e cbs :
  evs !! ev = Some e -> callbacks e = Some cbs ->
  procs_waiting None [] selfs evs ->
  procs_waiting None cbs selfs (alter (set_callbacks None) ev evs).
Proof.
  intros He Hc [H1 H2].
  assert (Hw : forall q, waiting q cbs (alter (set_callbacks None) ev evs)
                         = waiting q [] evs).
  { intros q.
    pose proof (sum_list_with_alter (event_waits q) (set_callbacks None)
                  evs ev e He) as Hq.
    unfold waiting.
    assert (E1 : event_waits q e = waits_in q cbs)
      by (unfold event_waits; rewrite Hc; reflexivity).
    assert (E2 : event_waits q (set_callbacks None e) = 0) by reflexivity.
    assert (E3 : waits_in q [] = 0) by reflexivity.
    rewrite E1, E2 in Hq. rewrite E3. lia. }
  split.
  - intros q selfq Hq. rewrite Hw.
    destruct (H1 _ _ Hq) as ((e0 & He0 & Hk0) & B & C & D).
    assert (Hself : forall e1, evs !! selfq = Some e1 ->
              exists e', alter (set_callbacks None) ev evs !! selfq = Some e' /\
                         ekind e' = ekind e1 /\ triggered e' = triggered e1).
    { intros e1 He1.
      destruct (lookup_alter_either (set_callbacks None) ev _ _ _ He1)
        as (e' & He' & [->|[-> ->]]); eauto. }
    split.
    { destruct (Hself _ He0) as (e' & He' & Hk' & _).
      exists e'. split; [exact He'|congruence]. }
    split; [exact B|]. split; [|exact D].
    intros E. destruct (C E) as (e1 & He1 & Ht1).
    destruct (Hself _ He1) as (e' & He' & _ & Ht').
    exists e'. split; [exact He'|congruence].
  - intros q Hq. rewrite Hw. auto.
Qed.

(** *** The operations on events and resources *)

Lemma loop_core_same b pend s s' :
  events s' = events s -> queue s' = queue s -> eid s' = eid s ->
  self_event <$> procs s' = self_event <$> procs s ->
  loop_core b pend s -> loop_core b pend s'.
Proof.
  intros E Q I P. unfold loop_core, sched_ok, procs_ok.
  rewrite E, Q, I, P. auto.
Qed.

Ltac core_same :=
  idtac;
  match goal with
  | H : loop_core ?b ?pend ?s |- loop_core ?b ?pend _ =>
      solve [ exact H
            | apply (loop_core_same b pend s); [..|exact H]; reflexivity ]
  end.

Lemma timeout_core b pend d : keeps (loop_core b pend) (timeout d).
Proof.
  intros s [Hs Hp]. unfold timeout. wp_prims; [split; assumption|].
  split.
  - unfold sched_ok. cbn. apply sched_schedule.
    + apply sched_app; [exact Hs|]. cbn. discriminate.
    + eexists _, _. split; [apply list_lookup_middle; reflexivity|].
      cbn. split; reflexivity.
    + apply (sched_new _ _ _ _ Hs). lia.
  - unfold procs_ok. cbn. apply procs_waiting_app; [reflexivity|exact Hp].
Qed.

Lemma process_core b pend g : keeps (loop_core b pend) (process g).
Proof.
  intros s [Hs Hp]. unfold process. wp_prims. split.
  - unfold sched_ok. cbn. apply sched_schedule.
    + apply sched_app; [apply sched_app; [exact Hs|]|]; cbn.
      * intros _. eauto.
      * discriminate.
    + eexists _, _. split; [apply list_lookup_middle; reflexivity|].
      cbn. split; reflexivity.
    + apply (sched_new _ _ _ _ Hs). rewrite length_app. lia.
  - unfold procs_ok. cbn. rewrite fmap_app. cbn.
    apply procs_waiting_spawn; cbn; rewrite ?length_fmap;
      try reflexivity. exact Hp.
Qed.

Lemma Hospital_init_core b pend n tm :
  keeps (loop_core b pend) (Hospital_init n tm).
Proof. intros s Hs. unfold Hospital_init. wp_prims; core_same. Qed.

Lemma update_resource_core b pend h f :
  keeps (loop_core b pend) (update_resource h f).
Proof. intros s Hs. unfold update_resource. wp_prims; core_same. Qed.

(** An [alter] that keeps the class of the event, whether it is triggered,
    and the resumptions that wait for it. *)
Lemma loop_core_alter b pend s s' f ev :
  events s' = alter f ev (events s) -> queue s' = queue s -> eid s' = eid s ->
  self_event <$> procs s' = self_event <$> procs s ->
  (forall e, events s !! ev = Some e ->
     (forall p, event_waits p (f e) = event_waits p e) /\
     ekind (f e) = ekind e /\
     (triggered e = true -> triggered (f e) = true) /\
     (forall l, callbacks e = Some l -> exists l', callbacks (f e) = Some l') /\
     (triggered (f e) = triggered e \/
      triggered (f e) = true /\ forall p, ekind e <> Process p)) ->
  loop_core b pend s -> loop_core b pend s'.
Proof.
  intros E Q I P Hf [Hs Hp]. unfold loop_core, sched_ok, procs_ok.
  rewrite E, Q, I, P. split.
  - apply sched_alter; [exact Hs|]. intros e He.
    destruct (Hf _ He) as (_ & _ & F3 & F4 & F5).
    split; [exact F3|]. split; [exact F4|].
    intros Ht. destruct F5 as [F5|[F5 _]]; congruence.
  - apply procs_waiting_alter; [|exact Hp]. intros e He.
    destruct (Hf _ He) as (F1 & F2 & _ & _ & F5).
    split; [exact F1|]. split; [exact F2|]. tauto.
Qed.

Lemma callbacks_append_core b pend ev cb :
  (forall p, resumes p cb = 0) ->
  keeps (loop_core b pend) (callbacks_append ev cb).
Proof.
  intros Hcb s Hs. unfold callbacks_append, update_event. apply wp_modify.
  eapply loop_core_alter; [reflexivity..| |exact Hs].
  intros e He. split; [|split; [reflexivity|split; [auto|split; [|auto]]]].
  - intros p. unfold event_waits. cbn [callbacks set_callbacks].
    destruct (callbacks e) as [l|]; cbn [fmap option_fmap option_map];
      [|reflexivity].
    rewrite waits_in_app.
    assert (Hr : waits_in p [cb] = 0)
      by (unfold waits_in; cbn; rewrite Hcb; reflexivity).
    rewrite Hr. lia.
  - intros l Hl. cbn. rewrite Hl. cbn. eauto.
Qed.

Lemma defused_core b pend ev :
  keeps (loop_core b pend) (update_event ev set_defused).
Proof.
  intros s Hs. unfold update_event. apply wp_modify.
  eapply loop_core_alter; [reflexivity..| |exact Hs].
  intros e He. cbn. repeat split; eauto.
Qed.

(** [succeed] on an event that is not the event of a process. *)
Lemma succeed_core b pend ev s :
  (exists e, events s !! ev = Some e /\ forall p, ekind e <> Process p) ->
  loop_core b pend s -> wp (succeed ev) (fun _ s' => loop_core b pend s') s.
Proof.
  intros (e & He & Hk) Hs. unfold succeed. apply wp_bind, wp_get.
  assert (Hev : the_event s ev = e)
    by (apply list_lookup_total_correct, He).
  rewrite Hev. destruct (triggered e) eqn:Ht.
  - unfold update_event. apply wp_modify.
    eapply loop_core_alter; [reflexivity..| |exact Hs].
    intros e' He'. assert (e' = e) as -> by congruence. cbn.
    repeat split; eauto.
  - apply wp_bind. unfold update_event. apply wp_modify.
    unfold schedule. apply wp_modify.
    destruct Hs as [Hs Hp]. split.
    + unfold sched_ok. cbn.
      pose proof Hs as (_ & _ & _ & H4).
      destruct (H4 _ _ He Ht) as [l Hl].
      apply sched_schedule.
      * apply sched_alter; [exact Hs|].
        intros e' He'. assert (e' = e) as -> by congruence. cbn.
        split; [auto|]. split; [eauto|]. intros; discriminate.
      * exists (set_outcome None e), l.
        rewrite list_lookup_alter_eq, He. cbn. auto.
      * eapply sched_pending; [exact Hs|exact He|exact Ht].
    + unfold procs_ok. cbn. apply procs_waiting_alter; [|exact Hp].
      intros e' He'. assert (e' = e) as -> by congruence. cbn.
      split; [reflexivity|]. split; [reflexivity|]. right. exact Hk.
Qed.

Lemma _do_put_core b pend h ev s :
  (exists e, events s !! ev = Some e /\ forall p, ekind e <> Process p) ->
  loop_core b pend s -> wp (_do_put h ev) (fun _ s' => loop_core b pend s') s.
Proof.
  intros He Hs. unfold _do_put. apply wp_bind, wp_get.
  match goal with |- wp (if ?c then _ else _) _ _ => destruct c end;
    [|apply wp_ret; exact Hs].
  apply wp_bind. unfold update_resource. apply wp_modify.
  apply succeed_core; [exact He|core_same].
Qed.

Lemma _do_get_core b pend h ev s :
  (exists e, events s !! ev = Some e /\ forall p, ekind e <> Process p) ->
  loop_core b pend s -> wp (_do_get h ev) (fun _ s' => loop_core b pend s') s.
Proof.
  intros He Hs. unfold _do_get. apply wp_bind, wp_get. apply wp_bind.
  destruct (ekind (the_event s ev)).
  all: try (apply wp_ret; apply succeed_core; [exact He|exact Hs]).
  unfold update_resource. apply wp_modify.
  apply succeed_core; [exact He|core_same].
Qed.

Lemma _trigger_put_core b pend h s :
  fifo_ok s -> loop_core b pend s ->
  wp (_trigger_put h) (fun _ s' => loop_core b pend s') s.
Proof.
  intros Hf Hs. unfold _trigger_put. apply wp_bind, wp_get.
  destruct (put_queue (doctor (the_hospital s h))) as [|r rest] eqn:Hq;
    [exact Hs|].
  pose proof (the_hospital_put_queue _ _ _ _ Hq) as HH.
  assert (Hr : pending_request s h r).
  { destruct Hf as [HQ _]. destruct (HQ _ _ HH) as (Q1 & _).
    apply Q1. rewrite Hq. apply list_elem_of_here. }
  destruct Hr as (er & Her & Hkr & Htr).
  apply wp_bind.
  eapply wp_mono; [apply (_do_put_core b pend); [|exact Hs]|].
  { exists er. split; [exact Her|]. intros p. congruence. }
  cbn beta. intros _ s1 H1. apply wp_bind, wp_get.
  destruct (triggered (the_event s1 r)); [|apply wp_ret; exact H1].
  unfold update_resource. apply wp_modify. core_same.
Qed.

Lemma _trigger_get_core b pend h s :
  fifo_ok s -> loop_core b pend s ->
  wp (_trigger_get h) (fun _ s' => loop_core b pend s') s.
Proof.
  intros Hf Hs. unfold _trigger_get. apply wp_bind, wp_get.
  destruct (get_queue (doctor (the_hospital s h))) as [|g rest] eqn:Hq;
    [exact Hs|].
  assert (Hg : is_release s g).
  { pose proof (the_hospital_get_queue _ _ _ _ Hq) as HH.
    destruct Hf as [HQ _]. destruct (HQ _ _ HH) as (_ & _ & _ & Q4).
    apply Q4. rewrite Hq. apply list_elem_of_here. }
  destruct Hg as (eg & h0 & req & Heg & Hkg).
  apply wp_bind.
  eapply wp_mono; [apply (_do_get_core b pend); [|exact Hs]|].
  { exists eg. split; [exact Heg|]. intros p. congruence. }
  cbn beta. intros _ s1 H1. apply wp_bind, wp_get.
  destruct (triggered (the_event s1 g)); [|apply wp_ret; exact H1].
  unfold update_resource. apply wp_modify. core_same.
Qed.

Lemma request_core b pend h s :
  fifo_ok s -> loop_core b pend s ->
  wp (request h) (fun _ s' => loop_core b pend s') s.
Proof.
  intros Hf [Hs Hp]. unfold request, new_event.
  apply wp_bind, wp_bind, wp_get. apply wp_bind, wp_modify. apply wp_ret.
  apply wp_bind. unfold update_resource. apply wp_modify.
  apply wp_bind. unfold callbacks_append, update_event. apply wp_modify.
  apply wp_bind.
  eapply wp_mono; [apply (_trigger_put_core b pend)|].
  - eapply (fifo_ok_enqueue s _ h
              (mkEvent (Some []) false None false (Request h)));
      [| | | | |exact Hf]; cbn;
      [reflexivity|reflexivity| |reflexivity|reflexivity].
    apply ev_stable_alter_quiet. intros e0. split; reflexivity.
  - split.
    + unfold sched_ok. cbn. apply sched_alter.
      * apply sched_app; [exact Hs|]. cbn. eauto.
      * intros e He. cbn. split; [auto|]. split; [|auto].
        intros l Hl. rewrite Hl. cbn. eauto.
    + unfold procs_ok. cbn. apply procs_waiting_alter.
      * intros e He.
        apply lookup_app_Some in He as [He|[_ He]];
          [apply lookup_lt_Some in He; lia|].
        rewrite Nat.sub_diag in He. cbn in He. injection He as <-.
        cbn. split; [reflexivity|]. split; [reflexivity|]. left. reflexivity.
      * apply procs_waiting_app; [reflexivity|exact Hp].
  - cbn beta. intros _ s1 H1. apply wp_ret. exact H1.
Qed.

Lemma release_core b pend h req s :
  fifo_ok s -> loop_core b pend s ->
  wp (release h req) (fun _ s' => loop_core b pend s') s.
Proof.
  intros Hf [Hs Hp]. unfold release, new_event.
  apply wp_bind, wp_bind, wp_get. apply wp_bind, wp_modify. apply wp_ret.
  apply wp_bind. unfold update_resource. apply wp_modify.
  apply wp_bind. unfold callbacks_append, update_event. apply wp_modify.
  apply wp_bind.
  eapply wp_mono; [apply (_trigger_get_core b pend)|].
  - apply (fifo_ok_step s); [fifo_events|fifo_procs| |exact Hf].
    cbn. apply hospitals_alter_get.
    eexists _, _, _. split.
    + cbn. rewrite list_lookup_alter_eq, list_lookup_middle by reflexivity.
      reflexivity.
    + reflexivity.
  - split.
    + unfold sched_ok. cbn. apply sched_alter.
      * apply sched_app; [exact Hs|]. cbn. eauto.
      * intros e He. cbn. split; [auto|]. split; [|auto].
        intros l Hl. rewrite Hl. cbn. eauto.
    + unfold procs_ok. cbn. apply procs_waiting_alter.
      * intros e He.
        apply lookup_app_Some in He as [He|[_ He]];
          [apply lookup_lt_Some in He; lia|].
        rewrite Nat.sub_diag in He. cbn in He. injection He as <-.
        cbn. split; [reflexivity|]. split; [reflexivity|]. left. reflexivity.
      * apply procs_waiting_app; [reflexivity|exact Hp].
  - cbn beta. intros _ s1 H1. apply wp_ret. exact H1.
Qed.

Lemma loop_ok_keeps {A} b pend (m : M A) :
  keeps fifo_ok m ->
  (forall s, fifo_ok s -> loop_core b pend s ->
     wp m (fun _ s' => loop_core b pend s') s) ->
  keeps (loop_ok b pend) m.
Proof.
  intros Hf Hc s [F C].
  eapply wp_mono; [apply wp_conj; [apply Hf, F|apply Hc; [exact F|exact C]]|].
  cbn beta. intros _ s' [F' C']. split; assumption.
Qed.

Lemma request_loop b pend h : keeps (loop_ok b pend) (request h).
Proof. apply loop_ok_keeps; [apply request_fifo|apply request_core]. Qed.

Lemma release_loop b pend h req : keeps (loop_ok b pend) (release h req).
Proof. apply loop_ok_keeps; [apply release_fifo|apply release_core]. Qed.

Lemma Request_exit_loop b pend h req :
  keeps (loop_ok b pend) (Request_exit h req).
Proof.
  intros s [Hf Hc]. unfold Request_exit. apply wp_bind, wp_get. apply wp_bind.
  apply (wp_mono _ (fun _ s1 => loop_ok b pend s1)).
  - destruct (triggered (the_event s req)); [apply wp_ret; split; assumption|].
    unfold update_resource. apply wp_modify. split; [fifo_quiet|core_same].
  - cbn beta. intros _ s1 H1. apply wp_bind.
    eapply wp_mono; [apply release_loop, H1|].
    cbn beta. intros _ s2 H2. apply wp_ret. exact H2.
Qed.

Lemma timeout_loop b pend d : keeps (loop_ok b pend) (timeout d).
Proof.
  apply loop_ok_keeps; [apply timeout_fifo|].
  intros s _. apply timeout_core.
Qed.

Lemma process_loop b pend g : keeps (loop_ok b pend) (process g).
Proof.
  apply loop_ok_keeps; [apply process_fifo|].
  intros s _. apply process_core.
Qed.

Lemma Hospital_init_loop b pend n tm :
  keeps (loop_ok b pend) (Hospital_init n tm).
Proof.
  apply loop_ok_keeps; [apply Hospital_init_fifo|].
  intros s _. apply Hospital_init_core.
Qed.

Lemma _trigger_put_loop b pend h : keeps (loop_ok b pend) (_trigger_put h).
Proof. apply loop_ok_keeps; [apply _trigger_put_fifo|apply _trigger_put_core]. Qed.

Lemma _trigger_get_loop b pend h : keeps (loop_ok b pend) (_trigger_get h).
Proof. apply loop_ok_keeps; [apply _trigger_get_fifo|apply _trigger_get_core]. Qed.

Lemma defused_loop b pend ev :
  keeps (loop_ok b pend) (update_event ev set_defused).
Proof.
  apply loop_ok_keeps; [apply defused_fifo|].
  intros s _. apply defused_core.
Qed.

Lemma loop_ok_same b pend s s' :
  events s' = events s -> hospitals s' = hospitals s ->
  queue s' = queue s -> eid s' = eid s -> now s' = now s ->
  self_event <$> procs s' = self_event <$> procs s ->
  loop_ok b pend s -> loop_ok b pend s'.
Proof.
  intros E H Q I N P [F C]. split.
  - eapply fifo_ok_same; eassumption.
  - eapply loop_core_same; eassumption.
Qed.

Lemma run_prologue_loop b pend t : keeps (loop_ok b pend) (run_prologue t).
Proof.
  apply loop_ok_keeps; [apply run_prologue_fifo|].
  intros s _ [Hs Hp]. unfold run_prologue. apply wp_bind, wp_get.
  destruct (Qle_bool t (now s)); [apply wp_ret; split; assumption|].
  unfold new_event. apply wp_bind, wp_bind, wp_get.
  apply wp_bind, wp_modify. apply wp_ret.
  apply wp_bind. unfold schedule. apply wp_modify.
  apply wp_bind. unfold callbacks_append, update_event. apply wp_modify.
  apply wp_ret. split.
  - unfold sched_ok. cbn. apply sched_alter.
    + apply sched_schedule.
      * apply sched_app; [exact Hs|]. cbn. discriminate.
      * eexists _, _. split; [apply list_lookup_middle; reflexivity|].
        cbn. split; reflexivity.
      * apply (sched_new _ _ _ _ Hs). lia.
    + intros e He. cbn. split; [auto|]. split; [|auto].
      intros l Hl. rewrite Hl. cbn. eauto.
  - unfold procs_ok. cbn. apply procs_waiting_alter.
    + intros e He.
      apply lookup_app_Some in He as [He|[_ He]];
        [apply lookup_lt_Some in He; lia|].
      rewrite Nat.sub_diag in He. cbn in He. injection He as <-.
      cbn. split; [reflexivity|]. split; [reflexivity|]. left. reflexivity.
    + apply procs_waiting_app; [reflexivity|exact Hp].
Qed.

(** The process ends. *)
Lemma process_ends_loop p pend self x s :
  (self_event <$> procs s) !! p = Some self ->
  loop_ok (Some p) pend s ->
  wp (process_ends self x) (fun _ s' => loop_ok None pend s') s.
Proof.
  intros Hself (Hf & Hs & Hp).
  eapply wp_mono;
    [apply (wp_conj _ (fun _ s' => with_process fifo_ok p self s')
              (fun _ s' => loop_core None pend s'));
      [apply process_ends_fifo; split; [exact Hf|exact Hself]|]|].
  - unfold process_ends, update_event, schedule.
    apply wp_bind, wp_modify. apply wp_modify.
    destruct Hp as [H1 H2].
    destruct (H1 _ _ Hself) as (_ & _ & C & _).
    destruct (C (or_intror eq_refl)) as (e & He & Ht).
    pose proof Hs as (_ & _ & _ & H4). destruct (H4 _ _ He Ht) as [l Hl].
    split.
    + unfold sched_ok. cbn. apply sched_schedule.
      * apply sched_alter; [exact Hs|].
        intros e' He'. assert (e' = e) as -> by congruence. cbn.
        split; [auto|]. split; [eauto|]. intros; discriminate.
      * exists (set_outcome x e), l.
        rewrite list_lookup_alter_eq, He. cbn. auto.
      * eapply sched_pending; [exact Hs|exact He|exact Ht].
    + unfold procs_ok. cbn. eapply procs_waiting_end; [exact Hself|].
      split; assumption.
  - cbn beta. intros _ s' [[F _] C]. split; assumption.
Qed.

(** The process waits for [target], an event that is not processed. *)
Lemma callbacks_append_resume p pend target s :
  (exists e l, events s !! target = Some e /\ callbacks e = Some l) ->
  loop_ok (Some p) pend s ->
  wp (callbacks_append target (Process_resume p))
     (fun _ s' => loop_ok None pend s') s.
Proof.
  intros (e & l & He & Hl) (Hf & Hs & Hp).
  eapply wp_mono;
    [apply (wp_conj _ (fun _ s' => fifo_ok s')
              (fun _ s' => loop_core None pend s'));
      [apply callbacks_append_fifo, Hf|]|].
  - unfold callbacks_append, update_event. apply wp_modify. split.
    + unfold sched_ok. cbn. apply sched_alter; [exact Hs|].
      intros e' He'. cbn. split; [auto|]. split; [|auto].
      intros l' Hl'. rewrite Hl'. cbn. eauto.
    + unfold procs_ok. cbn. eapply procs_waiting_yield; eassumption.
  - cbn beta. intros _ s' [F C]. split; assumption.
Qed.

(** [Environment.step] pops an event that has not been processed. *)
Lemma pop_loop s item q :
  loop_ok None [] s -> heappop (queue s) = Some (item, q) ->
  exists cbs,
    callbacks (the_event s (e_event item)) = Some cbs /\
    loop_ok None cbs
      (set_events (alter (set_callbacks None) (e_event item) (events s))
         (set_now (e_time item) (set_queue q s))).
Proof.
  intros (Hf & Hs & Hp) Hpop.
  destruct (sched_pop _ _ _ _ _ Hs Hpop) as [(e & l & He & Ht & Hl) Hs'].
  exists l. unfold the_event. rewrite (list_lookup_total_correct _ _ _ He).
  split; [exact Hl|]. split; [apply pop_fifo, Hf|]. split; [exact Hs'|].
  unfold procs_ok. cbn. eapply procs_waiting_pop; eassumption.
Qed.

(** *** The rounds of the run *)

Lemma loop_ok_less pend pend' s :
  (forall p, waits_in p pend' <= waits_in p pend) ->
  loop_ok None pend s -> loop_ok None pend' s.
Proof.
  intros Hle (Hf & Hs & Hp). split; [exact Hf|]. split; [exact Hs|].
  eapply procs_waiting_less; eassumption.
Qed.

Lemma the_event_alive s ev l :
  callbacks (the_event s ev) = Some l ->
  exists e l, events s !! ev = Some e /\ callbacks e = Some l.
Proof.
  unfold the_event. rewrite list_lookup_total_alt.
  destruct (events s !! ev) as [e|]; cbn; [eauto|discriminate].
Qed.

Section LoopRounds.

Variable U : nat -> Q.
Variable neg_log1m : Q -> Q.
Variable NUM_DOCTORS : Z.
Variables TREATMENT_TIME T_INTER SIM_TIME TREAT_PROBABILITY : Q.

Lemma resume_generator_loop p self pend g r :
  keeps (with_process (loop_ok (Some p) pend) p self)
    (resume_generator U neg_log1m NUM_DOCTORS TREATMENT_TIME T_INTER
       TREAT_PROBABILITY g r).
Proof.
  apply resume_generator_with_process.
  - apply request_loop.
  - apply Request_exit_loop.
  - apply timeout_loop.
  - apply process_loop.
  - apply Hospital_init_loop.
  - apply loop_ok_same.
Qed.

(** [Process._resume], called as a callback of the event that is being
    processed. *)
Lemma _resume_loop p rest ev s :
  loop_ok None (Process_resume p :: rest) s ->
  wp (_resume U neg_log1m NUM_DOCTORS TREATMENT_TIME T_INTER TREAT_PROBABILITY
        p ev)
     (fun _ s' => loop_ok None rest s') s.
Proof.
  intros (Hf & Hs & Hp).
  destruct (procs_waiting_begin _ _ _ _ Hp) as [Hp' [self Hself]].
  unfold _resume. apply wp_bind, wp_get.
  pose proof Hself as Hself0. rewrite list_lookup_fmap in Hself0.
  destruct (procs s !! p) as [P|] eqn:HP; [|discriminate].
  cbn in Hself0. injection Hself0 as <-.
  assert (HJ : with_process (loop_ok (Some p) rest) p (self_event P) s).
  { split; [|exact Hself]. split; [exact Hf|]. split; assumption. }
  apply wp_bind.
  apply (wp_mono _ (fun _ s' =>
           with_process (loop_ok (Some p) rest) p (self_event P) s')).
  { destruct (exc (the_event s ev)); [|apply wp_ret; exact HJ].
    apply wp_bind.
    eapply wp_mono;
      [apply wp_conj;
        [apply defused_loop, HJ
        |apply (wp_modify _ (fun _ s' => procs s' = procs s)); reflexivity]|].
    cbn beta. intros _ s' [Hs' Hpr]. apply wp_ret.
    split; [exact Hs'|]. rewrite Hpr. exact Hself. }
  cbn beta. intros r s1 HJ1.
  wp_keep resume_generator_loop ltac:(exact HJ1).
  match goal with H : with_process _ _ _ ?s2 |- _ => rename H into HJ2 end.
  apply wp_bind. unfold set_generator. apply wp_modify.
  match goal with |- wp _ _ ?s3 =>
    assert (HJ3 : with_process (loop_ok (Some p) rest) p (self_event P) s3) end.
  { destruct HJ2 as [H1 H2]. split.
    - eapply loop_ok_same; [..|exact H1]; try reflexivity.
      cbn. apply fmap_self_event_alter.
    - cbn. rewrite fmap_self_event_alter. exact H2. }
  destruct HJ3 as [HL3 HP3].
  match goal with |- wp (match snd ?res with _ => _ end) _ _ =>
    destruct (snd res) end.
  - apply wp_bind, wp_get.
    match goal with |- wp (match ?c with _ => _ end) _ _ =>
      destruct c eqn:Hc end.
    + apply callbacks_append_resume; [|exact HL3].
      eapply the_event_alive, Hc.
    + eapply process_ends_loop; eassumption.
  - eapply process_ends_loop; eassumption.
  - eapply process_ends_loop; eassumption.
Qed.

Lemma run_callbacks_loop cbs ev s :
  loop_ok None cbs s ->
  wp (run_callbacks U neg_log1m NUM_DOCTORS TREATMENT_TIME T_INTER
        TREAT_PROBABILITY cbs ev)
     (fun _ s' => loop_ok None [] s') s.
Proof.
  revert s. induction cbs as [|cb cbs IH]; intros s Hs; cbn.
  - apply wp_ret. exact Hs.
  - apply wp_bind. unfold call.
    destruct cb as [p|h|h|].
    all: try assert (H0 : loop_ok None cbs s)
      by (eapply loop_ok_less; [|exact Hs];
          intros p; unfold waits_in; cbn; lia).
    + apply wp_bind.
      eapply wp_mono; [apply _resume_loop, Hs|].
      cbn beta. intros _ s1 H1. apply wp_ret. apply IH, H1.
    + apply wp_bind.
      eapply wp_mono; [apply _trigger_put_loop, H0|].
      cbn beta. intros _ s1 H1. apply wp_ret. apply IH, H1.
    + apply wp_bind.
      eapply wp_mono; [apply _trigger_get_loop, H0|].
      cbn beta. intros _ s1 H1. apply wp_ret. apply IH, H1.
    + apply wp_ret. apply wp_ret.
      eapply loop_ok_less; [|exact H0]. intros p. unfold waits_in. cbn. lia.
Qed.

(** [Environment.step]: the event it pops has not been processed; when the
    step fails, an event has failed. *)
Lemma step_loop s :
  loop_ok None [] s ->
  wp (step U neg_log1m NUM_DOCTORS TREATMENT_TIME T_INTER TREAT_PROBABILITY)
     (fun r s' =>
        loop_ok None [] s' /\
        forall e, r = Crashed e ->
          exists ev x, events s' !! ev = Some x /\ exc x = Some e) s.
Proof.
  intros Hs. unfold step. apply wp_bind, wp_get.
  destruct (heappop (queue s)) as [[item q]|] eqn:Hpop;
    [|apply wp_ret; split; [exact Hs|discriminate]].
  destruct (pop_loop _ _ _ Hs Hpop) as (cbs & Hc & Hs1).
  apply wp_bind, wp_modify. apply wp_bind, wp_get.
  apply wp_bind. unfold update_event. apply wp_modify.
  cbn [events set_now set_queue the_event] in *.
  change (callbacks (the_event s (e_event item)) = Some cbs) in Hc.
  match goal with |- wp (match ?c with _ => _ end) _ _ =>
    change c with (callbacks (the_event s (e_event item))) end.
  rewrite Hc. apply wp_bind.
  eapply wp_mono; [apply run_callbacks_loop, Hs1|].
  cbn beta. intros stop s2 H2.
  destruct stop; [apply wp_ret; split; [exact H2|discriminate]|].
  apply wp_bind, wp_get.
  destruct (exc (the_event s2 (e_event item))) as [e|] eqn:He;
    [|apply wp_ret; split; [exact H2|discriminate]].
  destruct (defused (the_event s2 (e_event item)));
    apply wp_ret; (split; [exact H2|]); [discriminate|].
  intros e' [= <-]. unfold the_event in He.
  rewrite list_lookup_total_alt in He.
  destruct (events s2 !! e_event item) as [x|] eqn:Hx; [|discriminate].
  cbn in He. eauto.
Qed.

Lemma step_loop_keeps :
  keeps (loop_ok None [])
    (step U neg_log1m NUM_DOCTORS TREATMENT_TIME T_INTER TREAT_PROBABILITY).
Proof.
  intros s Hs. eapply wp_mono; [apply step_loop, Hs|].
  cbn beta. intros r s' [H _]. exact H.
Qed.

Lemma loop_start :
  loop_ok None []
    (set_hospitals
       [mkHospital (mkResource NUM_DOCTORS [] [] []) TREATMENT_TIME]
       (set_stdout [L_title] initial_state)).
Proof.
  split; [apply (wards_start NUM_DOCTORS TREATMENT_TIME)|].
  split.
  - split; [constructor|]. split; [constructor|]. split.
    + intros y Hy. inversion Hy.
    + intros ev e He. cbn in He. discriminate.
  - split.
    + intros p self Hp. cbn in Hp. discriminate.
    + intros p _. split; [reflexivity|discriminate].
Qed.

Lemma exec_loop n :
  loop_ok None []
    (env (exec U neg_log1m NUM_DOCTORS TREATMENT_TIME T_INTER SIM_TIME
            TREAT_PROBABILITY n)).
Proof.
  destruct (exec_inv U neg_log1m NUM_DOCTORS TREATMENT_TIME T_INTER SIM_TIME
              TREAT_PROBABILITY (loop_ok None []) step_loop_keeps
              (process_loop None [] _) (run_prologue_loop None [])
              (process_loop None [] _ _ loop_start) n)
    as [[_ ->]|[H _]]; [|exact H].
  split; [|split].
  - split.
    + intros h H HH. cbn in HH. discriminate.
    + intros ev Hev. cbn in Hev. inversion Hev.
  - split; [constructor|]. split; [constructor|]. split.
    + intros y Hy. inversion Hy.
    + intros ev e He. cbn in He. discriminate.
  - split.
    + intros p self Hp. cbn in Hp. discriminate.
    + intros p _. split; [reflexivity|discriminate].
Qed.


End LoopRounds.

(** ** No exception *)

Lemma mild_events_alter evs f ev :
  (forall e, mild (exc e) -> mild (exc (f e))) ->
  Forall (fun e => mild (exc e)) evs ->
  Forall (fun e => mild (exc e)) (alter f ev evs).
Proof. intros Hf H. apply Forall_alter; [exact H|]. intros e _. apply Hf. Qed.

Lemma mild_events_app evs e :
  mild (exc e) ->
  Forall (fun e => mild (exc e)) evs ->
  Forall (fun e => mild (exc e)) (evs ++ [e]).
Proof.
  intros He H. apply Forall_app. split; [exact H|].
  apply Forall_singleton. exact He.
Qed.

Ltac mild_solve :=
  idtac;
  lazymatch goal with
  | H : mild_events ?s |- mild_events _ =>
      unfold mild_events in *; cbn;
      solve
        [ repeat first
            [ exact H
            | apply mild_events_alter;
              [intros ? ?; cbn;
               first [assumption|left; reflexivity|right; reflexivity]|]
            | apply mild_events_app; [left; reflexivity|] ] ]
  end.

Ltac mild_prims := intros ? ?; wp_prims; mild_solve.

Lemma timeout_mild d : keeps mild_events (timeout d).
Proof. unfold timeout. mild_prims. Qed.

Lemma process_mild g : keeps mild_events (process g).
Proof. unfold process. mild_prims. Qed.

Lemma Hospital_init_mild n tm : keeps mild_events (Hospital_init n tm).
Proof. unfold Hospital_init. mild_prims. Qed.

Lemma _trigger_put_mild h : keeps mild_events (_trigger_put h).
Proof. unfold _trigger_put, _do_put. mild_prims. Qed.

Lemma _trigger_get_mild h : keeps mild_events (_trigger_get h).
Proof. unfold _trigger_get, _do_get. mild_prims. Qed.

Lemma request_mild h : keeps mild_events (request h).
Proof. unfold request, _trigger_put, _do_put. mild_prims. Qed.

Lemma Request_exit_mild h r : keeps mild_events (Request_exit h r).
Proof. unfold Request_exit, release, _trigger_get, _do_get. mild_prims. Qed.

Lemma run_prologue_mild t : keeps mild_events (run_prologue t).
Proof. unfold run_prologue. mild_prims. Qed.

Lemma callbacks_append_mild ev cb : keeps mild_events (callbacks_append ev cb).
Proof. mild_prims. Qed.

Lemma defused_mild ev : keeps mild_events (update_event ev set_defused).
Proof. mild_prims. Qed.

Lemma process_ends_mild self x :
  mild x -> keeps mild_events (process_ends self x).
Proof.
  intros Hx s Hs. wp_prims. unfold mild_events in *. cbn.
  apply mild_events_alter; [|exact Hs]. intros e _. exact Hx.
Qed.

Lemma mild_events_same s s' :
  events s' = events s -> mild_events s -> mild_events s'.
Proof. unfold mild_events. intros ->. auto. Qed.

(** *** The arithmetic of the delays *)

Lemma one_over_pos x : (0 < x)%Q -> one_over x = inr (1 / x)%Q.
Proof.
  intros Hx. unfold one_over. destruct (Qeq_bool x 0) eqn:E; [|reflexivity].
  apply Qeq_bool_iff in E. rewrite E in Hx. exfalso. exact (Qlt_irrefl _ Hx).
Qed.

Lemma delay_nonneg a x :
  (0 <= a)%Q -> (0 < x)%Q -> Qltb (a / (1 / x)) 0 = false.
Proof.
  intros Ha Hx. unfold Qltb. apply negb_false_iff, Qle_bool_iff.
  unfold Qdiv. apply Qmult_le_0_compat; [exact Ha|].
  apply Qlt_le_weak, Qinv_lt_0_compat.
  rewrite Qmult_1_l. apply Qinv_lt_0_compat, Hx.
Qed.

Lemma sum_list_with_lookup_le {A} (f : A -> nat) (l : list A) i x :
  l !! i = Some x -> f x <= sum_list_with f l.
Proof.
  revert i. induction l as [|y l IH]; intros [|i] H; cbn in *;
    try discriminate.
  - injection H as ->. lia.
  - specialize (IH _ H). lia.
Qed.

(** A patient at [yield request] has recorded its arrival. *)
Lemma count_ok_arrived s p P :
  count_ok s -> procs s !! p = Some P ->
  waits_for_doctor (_generator P) = true -> arrival_times s <> [].
Proof.
  intros (H1 & _) HP Hw Hnil.
  pose proof (sum_list_with_lookup_le (patient_count started_pc) _ _ _ HP) as Hle.
  fold (count_of started_pc s) in Hle. rewrite Hnil in H1. cbn in H1.
  unfold patient_count in Hle.
  destruct (_generator P) as [? ? []|? ? ?|?|? ? ?]; cbn in *;
    try discriminate; lia.
Qed.

(** A treatment reads the treatment time of the patients' hospital. *)
Lemma places_treatment_time TT p s h name c :
  places_hole TT p (G_treat h name c) s ->
  treatment_time (the_hospital s h) = TT.
Proof.
  intros ([Hl Hf] & _ & [-> Hn] & _). unfold treatment_times in *.
  rewrite length_fmap in Hn.
  destruct (lookup_lt_is_Some_2 (hospitals s) 1) as [H HH]; [lia|].
  unfold the_hospital. rewrite (list_lookup_total_correct _ _ _ HH).
  rewrite Forall_fmap, Forall_lookup in Hf. exact (Hf _ _ HH).
Qed.

(** *** The generators raise nothing *)

Lemma wp_any {A} (m : M A) s : wp m (fun _ _ => True) s.
Proof. exact I. Qed.

Section Steady.

Variable U : nat -> Q.
Variable neg_log1m : Q -> Q.
Variable NUM_DOCTORS : Z.
Variables TREATMENT_TIME T_INTER SIM_TIME TREAT_PROBABILITY : Q.

Hypothesis draws_nonneg : forall i, (0 <= neg_log1m (U i))%Q.
Hypothesis doctors_pos : (0 < NUM_DOCTORS)%Z.
Hypothesis treatment_pos : (0 < TREATMENT_TIME)%Q.
Hypothesis inter_pos : (0 < T_INTER)%Q.

Lemma treat_mild_outcome h name c r s :
  treatment_time (the_hospital s h) = TREATMENT_TIME ->
  mild_resumption r ->
  wp (treat U neg_log1m h name c r) (fun res _ => mild_outcome (snd res)) s.
Proof.
  intros Ht Hr. unfold treat, expovariate, random, timeout.
  destruct r, c; wp_prims; cbn; try exact I; try exact Hr.
  all: exfalso;
    match goal with H : one_over _ = _ |- _ =>
      rewrite Ht, (one_over_pos _ treatment_pos) in H;
      first [discriminate H|injection H as <-] end.
  match goal with H : Qltb _ 0 = true |- _ =>
    rewrite delay_nonneg in H by auto; discriminate end.
Qed.

Lemma patient_mild_outcome name h c r s :
  (waits_for_doctor (G_patient name h c) = true -> arrival_times s <> []) ->
  mild_resumption r ->
  wp (patient U TREAT_PROBABILITY name h c r)
     (fun res _ => mild_outcome (snd res)) s.
Proof.
  intros Ha Hr. unfold patient, random.
  destruct r, c; wp_prims; cbn; try exact I; try exact Hr.
  exfalso. apply Ha; [reflexivity|].
  match goal with H : last _ = None |- _ => apply last_None in H; exact H end.
Qed.

Lemma setup_mild_outcome c r s :
  mild_resumption r ->
  wp (setup U neg_log1m NUM_DOCTORS TREATMENT_TIME T_INTER c r)
     (fun res _ => mild_outcome (snd res)) s.
Proof.
  intros Hr.
  assert (Hloop : forall h i s0,
            wp (setup_loop U neg_log1m T_INTER h i)
               (fun res _ => mild_outcome (snd res)) s0).
  { intros h i s0. unfold setup_loop, expovariate, random, timeout.
    rewrite (one_over_pos _ inter_pos).
    wp_prims; cbn; try exact I. exfalso.
    match goal with H : Qltb _ 0 = true |- _ =>
      rewrite delay_nonneg in H by auto; discriminate end. }
  unfold setup, Hospital_init.
  assert (Hn : (NUM_DOCTORS <=? 0)%Z = false) by (apply Z.leb_gt, doctors_pos).
  rewrite Hn.
  destruct r, c; try (apply wp_ret; cbn; first [exact I|exact Hr]).
  - apply wp_bind, wp_bind, wp_get. apply wp_bind, wp_modify. apply wp_ret.
    apply wp_bind. eapply wp_mono; [apply wp_any|].
    cbn beta. intros _ s1 _. apply Hloop.
  - apply wp_bind. unfold print. apply wp_modify.
    apply wp_bind. eapply wp_mono; [apply wp_any|].
    cbn beta. intros _ s1 _. apply Hloop.
Qed.

Lemma add_doctors_mild_outcome h n c r s :
  mild_resumption r ->
  wp (add_doctors h n c r) (fun res _ => mild_outcome (snd res)) s.
Proof.
  intros Hr.
  assert (Hloop : forall k s0,
            wp (add_doctors_loop h k)
               (fun res _ => mild_outcome (snd res)) s0).
  { intros k s0. unfold add_doctors_loop. destruct k; [apply wp_ret; exact I|].
    apply wp_bind. eapply wp_mono; [apply wp_any|].
    cbn beta. intros _ s1 _. unfold timeout.
    change (Qltb 0 0) with false. wp_prims. exact I. }
  unfold add_doctors.
  destruct r, c; try (apply wp_ret; cbn; first [exact I|exact Hr]).
  - apply wp_bind, wp_get. apply wp_bind. unfold print. apply wp_modify.
    apply Hloop.
  - apply Hloop.
Qed.

Lemma resume_generator_mild_outcome p g r s :
  places_hole TREATMENT_TIME p g s ->
  (waits_for_doctor g = true -> arrival_times s <> []) ->
  mild_resumption r ->
  wp (resume_generator U neg_log1m NUM_DOCTORS TREATMENT_TIME T_INTER
        TREAT_PROBABILITY g r)
     (fun res _ => mild_outcome (snd res)) s.
Proof.
  intros Hp Ha Hr. unfold resume_generator.
  destruct g as [name h c|h name c|c|h k c]; apply wp_bind.
  - eapply wp_mono; [apply patient_mild_outcome; assumption|].
    cbn beta. intros res s' H. apply wp_ret. exact H.
  - eapply wp_mono;
      [apply treat_mild_outcome;
        [eapply places_treatment_time, Hp|exact Hr]|].
    cbn beta. intros res s' H. apply wp_ret. exact H.
  - eapply wp_mono; [apply setup_mild_outcome; assumption|].
    cbn beta. intros res s' H. apply wp_ret. exact H.
  - eapply wp_mono; [apply add_doctors_mild_outcome; assumption|].
    cbn beta. intros res s' H. apply wp_ret. exact H.
Qed.

End Steady.

(** *** The rounds of the run *)

Lemma steady_keeps {A} TT (m : M A) :
  keeps mild_events m ->
  (forall s, wp m (fun _ s' => place_frame s s') s) ->
  keeps count_ok m ->
  keeps (steady TT) m.
Proof.
  intros Hm Hp Hc s (M0 & P0 & C0).
  eapply wp_mono;
    [apply wp_conj; [apply Hm, M0|apply wp_conj; [apply Hp|apply Hc, C0]]|].
  cbn beta. intros _ s' (M' & P' & C').
  split; [exact M'|]. split; [eapply places_ok_frame; eassumption|exact C'].
Qed.

Lemma the_event_mild s ev e :
  mild_events s -> exc (the_event s ev) = Some e -> model_only (Some e) = true.
Proof.
  intros Hm He. unfold the_event in He. rewrite list_lookup_total_alt in He.
  destruct (events s !! ev) as [x|] eqn:Hx; cbn in He; [|discriminate].
  unfold mild_events in Hm. rewrite Forall_lookup in Hm.
  destruct (Hm _ _ Hx) as [H|H]; congruence.
Qed.

Section SteadyRounds.

Variable U : nat -> Q.
Variable neg_log1m : Q -> Q.
Variable NUM_DOCTORS : Z.
Variables TREATMENT_TIME T_INTER SIM_TIME TREAT_PROBABILITY : Q.

Hypothesis draws_nonneg : forall i, (0 <= neg_log1m (U i))%Q.
Hypothesis doctors_pos : (0 < NUM_DOCTORS)%Z.
Hypothesis treatment_pos : (0 < TREATMENT_TIME)%Q.
Hypothesis inter_pos : (0 < T_INTER)%Q.

Lemma resume_generator_mild g r :
  keeps mild_events
    (resume_generator U neg_log1m NUM_DOCTORS TREATMENT_TIME T_INTER
       TREAT_PROBABILITY g r).
Proof.
  apply resume_generator_keeps.
  - apply request_mild.
  - apply Request_exit_mild.
  - apply timeout_mild.
  - apply process_mild.
  - apply Hospital_init_mild.
  - intros s s' E _ _ _ _ _. apply mild_events_same, E.
Qed.

Lemma _resume_mild p ev s :
  steady TREATMENT_TIME s ->
  wp (_resume U neg_log1m NUM_DOCTORS TREATMENT_TIME T_INTER TREAT_PROBABILITY
        p ev)
     (fun _ s' => mild_events s') s.
Proof.
  intros (Hm & Hp & Hc). unfold _resume. apply wp_bind, wp_get.
  destruct (procs s !! p) as [P|] eqn:HP; [|exact Hm].
  assert (HJ : places_hole TREATMENT_TIME p (_generator P) s).
  { destruct Hp as [Hhs Ho]. split; [exact Hhs|].
    split; [eapply lookup_lt_Some, HP|]. split; [eauto|].
    intros i P' Hi _. eauto. }
  pose proof (count_ok_arrived _ _ _ Hc HP) as Ha.
  apply wp_bind.
  apply (wp_mono _ (fun r s1 =>
           mild_resumption r /\ mild_events s1 /\
           places_hole TREATMENT_TIME p (_generator P) s1 /\
           (waits_for_doctor (_generator P) = true -> arrival_times s1 <> []))).
  { destruct (exc (the_event s ev)) as [e|] eqn:He.
    - apply wp_bind. unfold update_event. apply wp_modify. apply wp_ret.
      split; [eapply the_event_mild; eassumption|].
      split; [mild_solve|]. split; [place_solve|exact Ha].
    - apply wp_ret. split; [exact I|]. split; [exact Hm|].
      split; [exact HJ|exact Ha]. }
  cbn beta. intros r s1 (Hr & Hm1 & Hp1 & Ha1). apply wp_bind.
  eapply wp_mono;
    [apply wp_conj;
      [apply resume_generator_mild, Hm1
      |apply (resume_generator_mild_outcome U neg_log1m NUM_DOCTORS
                TREATMENT_TIME T_INTER TREAT_PROBABILITY draws_nonneg
                doctors_pos treatment_pos inter_pos p); eassumption]|].
  cbn beta. intros res s2 [Hm2 Ho].
  apply wp_bind. unfold set_generator. apply wp_modify.
  match goal with |- wp _ _ ?s3 =>
    assert (Hm3 : mild_events s3) by exact Hm2 end.
  destruct (snd res) as [target| |e].
  - apply wp_bind, wp_get.
    match goal with |- wp (match ?c with _ => _ end) _ _ => destruct c end.
    + apply callbacks_append_mild, Hm3.
    + apply process_ends_mild; [right; reflexivity|exact Hm3].
  - apply process_ends_mild; [left; reflexivity|exact Hm3].
  - apply process_ends_mild; [right; exact Ho|exact Hm3].
Qed.

Lemma _resume_steady p ev :
  keeps (steady TREATMENT_TIME)
    (_resume U neg_log1m NUM_DOCTORS TREATMENT_TIME T_INTER TREAT_PROBABILITY
       p ev).
Proof.
  intros s Hs. pose proof Hs as (Hm & Hp & Hc).
  eapply wp_mono;
    [apply wp_conj;
      [apply _resume_mild, Hs
      |apply wp_conj; [apply _resume_places, Hp|apply _resume_count, Hc]]|].
  cbn beta. intros _ s' (M' & P' & C').
  split; [exact M'|split; [exact P'|exact C']].
Qed.

Lemma step_steady :
  keeps (steady TREATMENT_TIME)
    (step U neg_log1m NUM_DOCTORS TREATMENT_TIME T_INTER TREAT_PROBABILITY).
Proof.
  apply step_keeps.
  - apply _resume_steady.
  - intros h. apply steady_keeps;
      [apply _trigger_put_mild|intros s; apply _trigger_put_place
      |apply _trigger_put_count].
  - intros h. apply steady_keeps;
      [apply _trigger_get_mild|intros s; apply _trigger_get_place
      |apply _trigger_get_count].
  - intros s item q (Hm & Hp & Hc) Hpop. split; [mild_solve|].
    split; [eapply places_pop; eassumption|exact Hc].
Qed.

Lemma process_steady g0 s :
  fresh g0 ->
  steady TREATMENT_TIME s ->
  place_ok (length (procs s)) g0 (length (treatment_times s)) ->
  wp (process g0) (fun _ s' => steady TREATMENT_TIME s') s.
Proof.
  intros Hg (Hm & Hp & Hc) Hpl.
  eapply wp_mono;
    [apply wp_conj;
      [apply process_mild, Hm
      |apply wp_conj; [apply process_places; eassumption
                      |apply process_count; assumption]]|].
  cbn beta. intros _ s' (M' & P' & C').
  split; [exact M'|split; [exact P'|exact C']].
Qed.

Lemma steady_start :
  steady TREATMENT_TIME
    (set_hospitals
       [mkHospital (mkResource NUM_DOCTORS [] [] []) TREATMENT_TIME]
       (set_stdout [L_title] initial_state)).
Proof.
  split; [constructor|]. split; [apply places_start|].
  repeat split; cbn; lia.
Qed.

Lemma exec_mild n :
  mild_events
    (env (exec U neg_log1m NUM_DOCTORS TREATMENT_TIME T_INTER SIM_TIME
            TREAT_PROBABILITY n)).
Proof.
  assert (H : program_inv (steady TREATMENT_TIME)
                (exec U neg_log1m NUM_DOCTORS TREATMENT_TIME T_INTER SIM_TIME
                   TREAT_PROBABILITY n)).
  { apply exec_inv.
    - apply step_steady.
    - intros s Hs. apply process_steady; [exact I|exact Hs|reflexivity].
    - intros t. apply steady_keeps;
        [apply run_prologue_mild|intros s; apply run_prologue_place
        |apply run_prologue_count].
    - apply process_steady; [exact I|apply steady_start|cbn; auto]. }
  destruct H as [[_ ->]|[(H & _) _]]; [constructor|exact H].
Qed.

(** No event of a run has failed. *)
Lemma exec_calm n :
  Forall (fun e => exc e = None)
    (events
       (env (exec U neg_log1m NUM_DOCTORS TREATMENT_TIME T_INTER SIM_TIME
               TREAT_PROBABILITY n))).
Proof.
  pose proof (exec_mild n) as Hm.
  destruct (exec_guard U neg_log1m NUM_DOCTORS TREATMENT_TIME T_INTER SIM_TIME
              TREAT_PROBABILITY n) as [_ [Hs _]].
  unfold mild_events in Hm. rewrite Forall_forall in *.
  intros e He. destruct (Hm _ He) as [H|H]; [exact H|].
  rewrite (Hs _ He) in H. discriminate.
Qed.

End SteadyRounds.

(** *** The script raises nothing *)

Section Safe.

Variable U : nat -> Q.
Variable neg_log1m : Q -> Q.
Variable NUM_DOCTORS : Z.
Variables TREATMENT_TIME T_INTER SIM_TIME TREAT_PROBABILITY : Q.

Hypothesis draws_nonneg : forall i, (0 <= neg_log1m (U i))%Q.
Hypothesis doctors_pos : (0 < NUM_DOCTORS)%Z.
Hypothesis treatment_pos : (0 < TREATMENT_TIME)%Q.
Hypothesis inter_pos : (0 < T_INTER)%Q.
Hypothesis sim_pos : (0 < SIM_TIME)%Q.
Hypothesis sim_before_200 : (SIM_TIME < 200)%Q.

Abbreviation run n :=
  (exec U neg_log1m NUM_DOCTORS TREATMENT_TIME T_INTER SIM_TIME
     TREAT_PROBABILITY n).

Lemma script_start_runs :
  pc (script_start NUM_DOCTORS TREATMENT_TIME SIM_TIME) = Run1 0.
Proof.
  unfold script_start, Hospital_init, bind, print, modify, get, ret.
  assert (E1 : (NUM_DOCTORS <=? 0)%Z = false) by lia. rewrite E1. cbn.
  assert (E2 : Qle_bool SIM_TIME 0 = false).
  { destruct (Qle_bool SIM_TIME 0) eqn:E; [|reflexivity].
    apply Qle_bool_iff in E. exfalso. exact (Qlt_not_le _ _ sim_pos E). }
  rewrite E2. reflexivity.
Qed.

(** A step that fails leaves an event that has failed. *)
Lemma step_of_run n :
  wp (step U neg_log1m NUM_DOCTORS TREATMENT_TIME T_INTER TREAT_PROBABILITY)
     (fun r s' =>
        forall e, r = Crashed e ->
          exists ev x, events s' !! ev = Some x /\ exc x = Some e)
     (env (run n)).
Proof.
  eapply wp_mono; [apply step_loop, exec_loop|].
  cbn beta. intros r s' [_ H]. exact H.
Qed.

Lemma main_step_runs n :
  (forall e, pc (run n) <> Raised e) -> forall e, pc (run (S n)) <> Raised e.
Proof.
  intros IH.
  pose proof (exec_phase U neg_log1m NUM_DOCTORS TREATMENT_TIME T_INTER
                SIM_TIME TREAT_PROBABILITY n) as Hph.
  pose proof (exec_calm U neg_log1m NUM_DOCTORS TREATMENT_TIME T_INTER
                SIM_TIME TREAT_PROBABILITY draws_nonneg doctors_pos
                treatment_pos inter_pos (S n)) as Hcalm.
  pose proof (step_of_run n) as Hcr.
  change (run (S n))
    with (main_step U neg_log1m NUM_DOCTORS TREATMENT_TIME T_INTER
            TREAT_PROBABILITY (run n)) in *.
  unfold phase_ok in Hph. unfold main_step in *.
  destruct (pc (run n)) as [h|h|h|e0] eqn:Hpc.
  - pose proof (step_running U neg_log1m NUM_DOCTORS TREATMENT_TIME T_INTER
                  TREAT_PROBABILITY _ _ Hph) as Hst.
    unfold wp in Hst, Hcr.
    destruct (step _ _ _ _ _ _ (env (run n))) as [r s1].
    cbn [fst snd] in Hst, Hcr.
    destruct r as [| |e1|]; cbn [pc env] in *.
    + discriminate.
    + destruct Hst as [Hi Hn].
      pose proof (between_runs_phase SIM_TIME h _ Hi Hn) as Hb. unfold wp in Hb.
      destruct (between_runs h s1) as [pc' s2]. cbn [fst snd pc] in *.
      destruct pc'; try discriminate; try contradiction.
      exfalso. exact (Qlt_not_le _ _ sim_before_200 Hb).
    + exfalso. destruct (Hcr _ eq_refl) as (ev & x & Hx & He).
      rewrite Forall_lookup in Hcalm. rewrite (Hcalm _ _ Hx) in He.
      discriminate.
    + contradiction.
  - destruct Hph as (Hrun & _).
    pose proof (step_running U neg_log1m NUM_DOCTORS TREATMENT_TIME T_INTER
                  TREAT_PROBABILITY _ _ Hrun) as Hst.
    unfold wp in Hst, Hcr.
    destruct (step _ _ _ _ _ _ (env (run n))) as [r s1].
    cbn [fst snd] in Hst, Hcr.
    destruct r as [| |e1|]; cbn [pc env] in *.
    + discriminate.
    + discriminate.
    + exfalso. destruct (Hcr _ eq_refl) as (ev & x & Hx & He).
      rewrite Forall_lookup in Hcalm. rewrite (Hcalm _ _ Hx) in He.
      discriminate.
    + contradiction.
  - rewrite Hpc. discriminate.
  - exfalso. exact (IH e0 eq_refl).
Qed.

(** With at least one doctor, positive mean times, [0 < SIM_TIME < 200] and
    draws whose [-log(1 - u)] is not negative, the script raises nothing:
    after every round it is inside one of its two [env.run] calls or past
    them. *)
Theorem script_never_raises n e :
  pc (exec U neg_log1m NUM_DOCTORS TREATMENT_TIME T_INTER SIM_TIME
        TREAT_PROBABILITY n) <> Raised e.
Proof.
  revert e. induction n as [|n IH].
  - intros e. change (run 0)
      with (script_start NUM_DOCTORS TREATMENT_TIME SIM_TIME).
    rewrite script_start_runs. discriminate.
  - apply main_step_runs, IH.
Qed.

End Safe.

Lemma script_never_raises_witness :
  ((forall i, (0 <= neg_log1m_example (draws_example i))%Q) /\
   (0 < 2)%Z /\ (0 < 5)%Q /\ (0 < 7)%Q /\ (0 < 100)%Q /\ (100 < 200)%Q) /\
  pc (DTA1_run 60) <> Raised ValueError.
Proof.
  assert (H : (forall i, (0 <= neg_log1m_example (draws_example i))%Q) /\
              (0 < 2)%Z /\ (0 < 5)%Q /\ (0 < 7)%Q /\ (0 < 100)%Q /\
              (100 < 200)%Q).
  { split.
    - intros i. unfold neg_log1m_example.
      destruct (Qeq_bool (draws_example i) (1 # 10)); discriminate.
    - repeat split. }
  split; [exact H|].
  destruct H as (H1 & H2 & H3 & H4 & H5 & H6).
  exact (script_never_raises draws_example neg_log1m_example 2 5 7 100
           (8 # 10) H1 H2 H3 H4 H5 H6 60 ValueError).
Defined.
